(** * AegisWallet skill scripts: pattern-based scanning and scoring

    A shallow embedding of the scanners under [.factory/skills]:

    - [aegis-architect/scripts/brazilian_compliance_validator.py]  (module [Aegis])
    - [aegis-architect/scripts/performance_audit.py]               (module [Perf])
    - [aegis-architect/scripts/voice_performance_analyzer.py]
      (modules [Voice], [Findall] and [Analyzer])
    - [brazilian-fintech-compliance/scripts/compliance-validator.py] (module [Fintech])

    Text.  A Python [str] is modelled as a [string] whose characters are the
    code points below 256; every character of every pattern of the scripts
    lies in that range.  A literal of this file is UTF-8, and [py] decodes it
    to that representation.

    File system.  A scanned root is a list of entries in traversal order; an
    entry is a directory or a regular file together with what reading it as
    UTF-8 text does: it yields the text or raises.

    Effects.  The validators mutate a results dictionary and may raise; they
    are embedded in a state-and-exception monad [M]. *)

From Stdlib Require Import String Ascii List ZArith QArith Qround Lia Bool.
From Stdlib Require Import DecimalString.
Import ListNotations.

Local Open Scope string_scope.
Local Open Scope Z_scope.

(** ** Python text *)

Module Text.

Definition code (c : ascii) : N := N_of_ascii c.

Definition between (lo hi : N) (c : ascii) : bool :=
  (lo <=? code c)%N && (code c <=? hi)%N.

(** [str.lower] on one character: A-Z, and the upper-case letters
    U+00C0..U+00DE except the multiplication sign U+00D7. *)
Definition lower_char (c : ascii) : ascii :=
  if between 65 90 c then ascii_of_N (code c + 32)
  else if between 192 222 c && negb (code c =? 215)%N then ascii_of_N (code c + 32)
  else c.

Fixpoint lower (s : string) : string :=
  match s with
  | EmptyString => EmptyString
  | String c s' => String (lower_char c) (lower s')
  end.

(** [str.isspace] on one character: what [\s] matches. *)
Definition is_space (c : ascii) : bool :=
  between 9 13 c || between 28 32 c || (code c =? 133)%N || (code c =? 160)%N.

Fixpoint startswith (p s : string) : bool :=
  match p, s with
  | EmptyString, _ => true
  | String a p', String b s' => Ascii.eqb a b && startswith p' s'
  | String _ _, EmptyString => false
  end.

(** [needle in hay] *)
Fixpoint contains (needle hay : string) : bool :=
  startswith needle hay ||
  match hay with
  | EmptyString => false
  | String _ hay' => contains needle hay'
  end.

Definition endswith (suffix s : string) : bool :=
  let n := String.length s in
  let k := String.length suffix in
  (k <=? n)%nat && String.eqb (substring (n - k) k s) suffix.

(** A UTF-8 literal as text: the two-byte sequences that encode U+0080..U+00FF
    become one character; other bytes are kept. *)
Fixpoint py (s : string) : string :=
  match s with
  | EmptyString => EmptyString
  | String c s' =>
      match s' with
      | String d s'' =>
          if (code c =? 194)%N && between 128 191 d then String d (py s'')
          else if (code c =? 195)%N && between 128 191 d
               then String (ascii_of_N (code d + 64)) (py s'')
               else String c (py s')
      | EmptyString => String c EmptyString
      end
  end.

Definition dq : string := String (ascii_of_N 34) EmptyString.
Definition nl : string := String (ascii_of_N 10) EmptyString.

(** [str(n)] for an integer. *)
Definition str_of_Z (z : Z) : string := NilZero.string_of_int (Z.to_int z).

(** [s.replace('_', ' ')] *)
Fixpoint replace_underscore (s : string) : string :=
  match s with
  | EmptyString => EmptyString
  | String c s' =>
      String (if Ascii.eqb c "_" then " "%char else c) (replace_underscore s')
  end.

End Text.
Import Text.

(** ** Regular expressions: the part of Python's [re] the scripts use *)

Module Re.

Inductive citem : Type :=
| CLit (c : ascii)
| CSpace.

Inductive regex : Type :=
| Void                       (* matches nothing *)
| Eps                        (* the empty pattern *)
| Dot                        (* [.]: any character but a newline *)
| Class (items : list citem) (* a literal, [\s], or [[...]] *)
| Cat (r1 r2 : regex)
| Alt (r1 r2 : regex)
| Star (r : regex).

Definition Opt (r : regex) : regex := Alt r Eps.

(** *** Parsing a pattern *)

Inductive token : Type :=
| TAtom (r : regex)
| TStar
| TQuest
| TBar.

Definition is_alnum (c : ascii) : bool :=
  between 48 57 c || between 65 90 c || between 97 122 c.

(** The character after a backslash. *)
Definition escape (c : ascii) : option citem :=
  if Ascii.eqb c "s" then Some CSpace
  else if is_alnum c then None
  else Some (CLit c).

(** [lex] reads a pattern left to right.  Outside a class a backslash escapes
    the next character; inside a class a [-] is accepted only first or last,
    where it is a literal.  Groups, anchors, ranges, counted and lazy
    repetition and the alphanumeric escapes other than [\s] are refused. *)
Inductive lex_state : Type :=
| Plain
| Escaped
| InClass (acc : list citem)
| InClassEscaped (acc : list citem).

Fixpoint lex (st : lex_state) (s : string) : option (list token) :=
  match s with
  | EmptyString => match st with Plain => Some [] | _ => None end
  | String c s' =>
      let emit t st' :=
        match lex st' s' with
        | Some ts => Some (t :: ts)
        | None => None
        end in
      match st with
      | Plain =>
          if Ascii.eqb c "\" then lex Escaped s'
          else if Ascii.eqb c "[" then lex (InClass []) s'
          else if Ascii.eqb c "." then emit (TAtom Dot) Plain
          else if Ascii.eqb c "*" then emit TStar Plain
          else if Ascii.eqb c "?" then emit TQuest Plain
          else if Ascii.eqb c "|" then emit TBar Plain
          else if existsb (Ascii.eqb c) ["("; ")"; "{"; "}"; "+"; "^"; "$"; "]"]%char
               then None
               else emit (TAtom (Class [CLit c])) Plain
      | Escaped =>
          match escape c with
          | Some it => emit (TAtom (Class [it])) Plain
          | None => None
          end
      | InClass acc =>
          if Ascii.eqb c "]" then
            match acc with
            | [] => None
            | _ => emit (TAtom (Class (rev acc))) Plain
            end
          else if Ascii.eqb c "\" then lex (InClassEscaped acc) s'
          else if Ascii.eqb c "^" then
            match acc with [] => None | _ => lex (InClass (CLit c :: acc)) s' end
          else if Ascii.eqb c "-" then
            match acc, s' with
            | [], _ => lex (InClass (CLit c :: acc)) s'
            | _, String "]" _ => lex (InClass (CLit c :: acc)) s'
            | _, _ => None
            end
          else lex (InClass (CLit c :: acc)) s'
      | InClassEscaped acc =>
          match escape c with
          | Some it => lex (InClass (it :: acc)) s'
          | None => None
          end
      end
  end.

Definition cat (r1 r2 : regex) : regex :=
  match r1, r2 with
  | Void, _ => Void
  | _, Void => Void
  | Eps, _ => r2
  | _, Eps => r1
  | _, _ => Cat r1 r2
  end.

Definition alt (r1 r2 : regex) : regex :=
  match r1, r2 with
  | Void, _ => r2
  | _, Void => r1
  | _, _ => Alt r1 r2
  end.

Definition push (cur : regex) (last : option regex) : regex :=
  match last with
  | Some a => cat cur a
  | None => cur
  end.

Definition close (alts : option regex) (r : regex) : regex :=
  match alts with
  | Some a => Alt a r
  | None => r
  end.

(** [alts]: the alternatives already closed by a bar; [cur]: the current
    alternative without its last atom; [last]: that atom, which the next token
    may quantify. *)
Fixpoint parse_tokens (ts : list token) (alts : option regex) (cur : regex)
    (last : option regex) : option regex :=
  match ts with
  | [] => Some (close alts (push cur last))
  | TAtom a :: ts' => parse_tokens ts' alts (push cur last) (Some a)
  | TStar :: ts' =>
      match last with
      | Some a => parse_tokens ts' alts (cat cur (Star a)) None
      | None => None
      end
  | TQuest :: ts' =>
      match last with
      | Some a => parse_tokens ts' alts (cat cur (Opt a)) None
      | None => None
      end
  | TBar :: ts' => parse_tokens ts' (Some (close alts (push cur last))) Eps None
  end.

(** [re.compile(pattern)]; [None] where Python raises or the syntax is outside
    the part modelled. *)
Definition compile (pattern : string) : option regex :=
  match lex Plain (py pattern) with
  | Some ts => parse_tokens ts None Eps None
  | None => None
  end.

(** *** Matching, by derivatives *)

Definition citem_matches (ignorecase : bool) (it : citem) (c : ascii) : bool :=
  match it with
  | CLit p =>
      if ignorecase then Ascii.eqb (lower_char p) (lower_char c)
      else Ascii.eqb p c
  | CSpace => is_space c
  end.

Fixpoint nullable (r : regex) : bool :=
  match r with
  | Void | Dot | Class _ => false
  | Eps | Star _ => true
  | Cat r1 r2 => nullable r1 && nullable r2
  | Alt r1 r2 => nullable r1 || nullable r2
  end.

Fixpoint deriv (ignorecase : bool) (c : ascii) (r : regex) : regex :=
  match r with
  | Void | Eps => Void
  | Dot => if (code c =? 10)%N then Void else Eps
  | Class items =>
      if existsb (fun it => citem_matches ignorecase it c) items then Eps else Void
  | Cat r1 r2 =>
      let d := cat (deriv ignorecase c r1) r2 in
      if nullable r1 then alt d (deriv ignorecase c r2) else d
  | Alt r1 r2 => alt (deriv ignorecase c r1) (deriv ignorecase c r2)
  | Star r1 => cat (deriv ignorecase c r1) (Star r1)
  end.

(** Does [r] match at the start of [s]? *)
Fixpoint match_prefix (ignorecase : bool) (r : regex) (s : string) : bool :=
  nullable r ||
  match s with
  | EmptyString => false
  | String c s' => match_prefix ignorecase (deriv ignorecase c r) s'
  end.

(** Does [r] match somewhere in [s]? *)
Fixpoint search_regex (ignorecase : bool) (r : regex) (s : string) : bool :=
  match_prefix ignorecase r s ||
  match s with
  | EmptyString => false
  | String _ s' => search_regex ignorecase r s'
  end.

(** [re.search(pattern, content)] and [re.search(pattern, content,
    re.IGNORECASE)], as the truth value the scripts test. *)
Definition search (pattern content : string) : bool :=
  match compile pattern with
  | Some r => search_regex false r content
  | None => false
  end.

Definition search_i (pattern content : string) : bool :=
  match compile pattern with
  | Some r => search_regex true r content
  | None => false
  end.

End Re.

(** ** The scanned tree *)

Module FS.

(** What the scripts' [open(...).read()] can raise. *)
Inductive exn : Type :=
| UnicodeDecodeError
| PermissionError
| IsADirectoryError.

Inductive outcome (A : Type) : Type :=
| Raised (e : exn)
| Returned (a : A).
Arguments Raised {A} e.
Arguments Returned {A} a.

Inductive node : Type :=
| Dir
| File (text : string)   (* decodes as UTF-8, to [text] *)
| Undecodable            (* a regular file that is not valid UTF-8 *)
| Unreadable.            (* a regular file the process may not read *)

(** [path]: the components below the root. *)
Record entry : Type := { path : list string; what : node }.

Inductive tree : Type :=
| Missing                          (* the root path does not exist *)
| Present (entries : list entry).  (* in traversal order *)

Definition entries (t : tree) : list entry :=
  match t with
  | Missing => []
  | Present es => es
  end.

Definition root_exists (t : tree) : bool :=
  match t with
  | Missing => false
  | Present _ => true
  end.

Fixpoint is_prefix (p q : list string) : bool :=
  match p, q with
  | [], _ => true
  | a :: p', b :: q' => String.eqb a b && is_prefix p' q'
  | _ :: _, [] => false
  end.

(** [(root / p).exists()], for a path [p] below the root. *)
Definition exists_ (t : tree) (p : list string) : bool :=
  existsb (fun e => is_prefix p (path e)) (entries t).

Definition name (e : entry) : string := last (path e) "".

(** [root.rglob('*' + suffix)] *)
Definition rglob (suffix : string) (t : tree) : list entry :=
  filter (fun e => match path e with [] => false | _ => endswith suffix (name e) end)
         (entries t).

Fixpoint path_eqb (p q : list string) : bool :=
  match p, q with
  | [], [] => true
  | a :: p', b :: q' => String.eqb a b && path_eqb p' q'
  | _, _ => false
  end.

(** [(root / dir).glob('*' + suffix)]: the children of [dir], not deeper. *)
Definition glob (dir : list string) (suffix : string) (t : tree) : list entry :=
  filter (fun e => path_eqb (removelast (path e)) dir
                   && negb (path_eqb (path e) [])
                   && endswith suffix (name e))
         (entries t).

Definition is_file (e : entry) : bool :=
  match what e with
  | Dir => false
  | _ => true
  end.

(** [with open(p, 'r', encoding='utf-8') as f: f.read()] *)
Definition read (e : entry) : outcome string :=
  match what e with
  | Dir => Raised IsADirectoryError
  | File text => Returned text
  | Undecodable => Raised UnicodeDecodeError
  | Unreadable => Raised PermissionError
  end.

(** [except (UnicodeDecodeError, PermissionError)] *)
Definition caught (e : exn) : bool :=
  match e with
  | UnicodeDecodeError | PermissionError => true
  | IsADirectoryError => false
  end.

End FS.
Import FS.

(** ** State and exceptions *)

Definition M (S A : Type) : Type := S -> outcome (A * S).

Definition ret {S A} (a : A) : M S A := fun s => Returned (a, s).

Definition bind {S A B} (m : M S A) (k : A -> M S B) : M S B :=
  fun s =>
    match m s with
    | Raised e => Raised e
    | Returned (a, s') => k a s'
    end.

Definition lift {S A} (o : outcome A) : M S A :=
  fun s =>
    match o with
    | Raised e => Raised e
    | Returned a => Returned (a, s)
    end.

Definition modify {S} (f : S -> S) : M S unit := fun s => Returned (tt, f s).

Definition get {S} : M S S := fun s => Returned (s, s).

Declare Scope monad_scope.
Delimit Scope monad_scope with monad.
Notation "x <- m ;; k" := (bind m (fun x => k))
  (at level 61, m at next level, right associativity) : monad_scope.
Notation "m ;; k" := (bind m (fun _ => k))
  (at level 61, right associativity) : monad_scope.

Definition obind {A B} (o : outcome A) (k : A -> outcome B) : outcome B :=
  match o with
  | Raised e => Raised e
  | Returned a => k a
  end.

(** Every normal return of [m] relates the state before to the state after. *)
Definition keeps {S A} (P : S -> S -> Prop) (m : M S A) : Prop :=
  forall s a s', m s = Returned (a, s') -> P s s'.

(** [any(f(x) for x in xs)] *)
Definition any {A} (f : A -> bool) (xs : list A) : bool := existsb f xs.

(** A [for] loop over files whose body reads the file inside
    [try: ... except (UnicodeDecodeError, PermissionError): continue] and
    updates local variables [acc]. *)
Fixpoint for_each_try {A} (body : string -> A -> A) (files : list entry) (acc : A)
  : outcome A :=
  match files with
  | [] => Returned acc
  | f :: rest =>
      match read f with
      | Returned content => for_each_try body rest (body content acc)
      | Raised e =>
          if caught e then for_each_try body rest acc else Raised e
      end
  end.

(** The same loop without [try]: whatever the read raises leaves the loop. *)
Fixpoint for_each {A} (body : string -> A -> A) (files : list entry) (acc : A)
  : outcome A :=
  match files with
  | [] => Returned acc
  | f :: rest =>
      match read f with
      | Returned content => for_each body rest (body content acc)
      | Raised e => Raised e
      end
  end.

(** A loop that returns [True] at the first file whose content satisfies
    [test], reading inside the same [try]. *)
Fixpoint first_match_try (test : string -> bool) (files : list entry) : outcome bool :=
  match files with
  | [] => Returned false
  | f :: rest =>
      match read f with
      | Returned content =>
          if test content then Returned true else first_match_try test rest
      | Raised e =>
          if caught e then first_match_try test rest else Raised e
      end
  end.

(** ** aegis-architect/scripts/brazilian_compliance_validator.py *)

Module Aegis.

Local Open Scope monad_scope.

Record category : Type := { score : Z; issues : list string }.

(** [self.results]; the four entries of ['brazilian_compliance'] are fields. *)
Record results : Type := {
  valid : bool;
  compliance_score : Z;
  errors : list string;
  warnings : list string;
  recommendations : list string;
  checks_performed : list string;
  lgpd : category;
  pix : category;
  openbanking : category;
  security : category
}.

(** [__init__] *)
Definition init : results := {|
  valid := true;
  compliance_score := 0;
  errors := [];
  warnings := [];
  recommendations := [];
  checks_performed := [];
  lgpd := {| score := 0; issues := [] |};
  pix := {| score := 0; issues := [] |};
  openbanking := {| score := 0; issues := [] |};
  security := {| score := 0; issues := [] |}
|}.

Definition with_score (c : category) (n : Z) : category :=
  {| score := n; issues := issues c |}.

Definition with_issue (c : category) (msg : string) : category :=
  {| score := score c; issues := issues c ++ [msg] |}.

Definition on_lgpd (f : category -> category) (r : results) : results :=
  {| valid := valid r; compliance_score := compliance_score r; errors := errors r;
     warnings := warnings r; recommendations := recommendations r;
     checks_performed := checks_performed r;
     lgpd := f (lgpd r); pix := pix r; openbanking := openbanking r;
     security := security r |}.

Definition on_pix (f : category -> category) (r : results) : results :=
  {| valid := valid r; compliance_score := compliance_score r; errors := errors r;
     warnings := warnings r; recommendations := recommendations r;
     checks_performed := checks_performed r;
     lgpd := lgpd r; pix := f (pix r); openbanking := openbanking r;
     security := security r |}.

Definition on_openbanking (f : category -> category) (r : results) : results :=
  {| valid := valid r; compliance_score := compliance_score r; errors := errors r;
     warnings := warnings r; recommendations := recommendations r;
     checks_performed := checks_performed r;
     lgpd := lgpd r; pix := pix r; openbanking := f (openbanking r);
     security := security r |}.

Definition on_security (f : category -> category) (r : results) : results :=
  {| valid := valid r; compliance_score := compliance_score r; errors := errors r;
     warnings := warnings r; recommendations := recommendations r;
     checks_performed := checks_performed r;
     lgpd := lgpd r; pix := pix r; openbanking := openbanking r;
     security := f (security r) |}.

Definition add_check (nm : string) (r : results) : results :=
  {| valid := valid r; compliance_score := compliance_score r; errors := errors r;
     warnings := warnings r; recommendations := recommendations r;
     checks_performed := checks_performed r ++ [nm];
     lgpd := lgpd r; pix := pix r; openbanking := openbanking r;
     security := security r |}.

Definition add_warning (msg : string) (r : results) : results :=
  {| valid := valid r; compliance_score := compliance_score r; errors := errors r;
     warnings := warnings r ++ [msg]; recommendations := recommendations r;
     checks_performed := checks_performed r;
     lgpd := lgpd r; pix := pix r; openbanking := openbanking r;
     security := security r |}.

Definition add_recommendation (msg : string) (r : results) : results :=
  {| valid := valid r; compliance_score := compliance_score r; errors := errors r;
     warnings := warnings r; recommendations := recommendations r ++ [msg];
     checks_performed := checks_performed r;
     lgpd := lgpd r; pix := pix r; openbanking := openbanking r;
     security := security r |}.

Definition set_overall (n : Z) (v : bool) (r : results) : results :=
  {| valid := v; compliance_score := n; errors := errors r;
     warnings := warnings r; recommendations := recommendations r;
     checks_performed := checks_performed r;
     lgpd := lgpd r; pix := pix r; openbanking := openbanking r;
     security := security r |}.

(** [list(self.directory.rglob('*.ts')) + list(self.directory.rglob('*.tsx'))] *)
Definition code_files (t : tree) : list entry := rglob ".ts" t ++ rglob ".tsx" t.

(** [migrations_dir.glob('*.sql')] under the two [exists()] tests. *)
Definition supabase_dir : list string := ["supabase"].
Definition migrations_dir : list string := ["supabase"; "migrations"].

Definition migration_files (t : tree) : list entry :=
  if exists_ t supabase_dir then
    if exists_ t migrations_dir then glob migrations_dir ".sql" t else []
  else [].

(** [if found: score += weight; else: <report msg>], the shape of every check. *)
Definition check (found : bool) (weight : Z) (missing : results -> results)
    (sc : Z) : M results Z :=
  if found then ret (sc + weight) else (modify missing ;; ret sc).

Definition warn_below_70 (label : string) (sc : Z) : M results unit :=
  if sc <? 70 then
    modify (add_warning (label ++ " compliance score: " ++ str_of_Z sc
                         ++ "% (target: 70%+)"))
  else ret tt.

(** *** [_check_rls_implementation] *)

Definition rls_patterns : list string :=
  ["ENABLE ROW LEVEL SECURITY"; "CREATE POLICY"; "auth\.uid\(\)"].

Definition _check_rls_implementation (t : tree) : outcome bool :=
  if negb (exists_ t supabase_dir) then Returned false
  else if negb (exists_ t migrations_dir) then Returned false
  else first_match_try (fun content => any (fun p => Re.search_i p content) rls_patterns)
                       (glob migrations_dir ".sql" t).

(** *** [_search_in_code] *)

Definition _search_in_code (t : tree) (pattern : string) : outcome bool :=
  first_match_try (fun content => Re.search_i pattern content) (code_files t).

(** *** [validate_lgpd_compliance] *)

Module LgpdPatterns.
Definition consent_management : list string :=
  ["consentimento|consent"; "lgpd|lei[_\s]?geral"; "data[_\s]?protection";
   "pol[ií]tica[_\s]?de[_\s]?privacidade"].
Definition data_minimization : list string :=
  ["m[ií]nimo[_\s]?necess[áa]rio"; "data[_\s]?minimization";
   "coletar[_\s]?apenas[_\s]?necess[áa]rio"].
Definition user_rights : list string :=
  ["direito[_\s]?de[_\s]?acesso"; "direito[_\s]?de[_\s]?retifica[cç][ãa]o";
   "direito[_\s]?ao[_\s]?esquecimento"; "data[_\s]?portability"].
Definition security_measures : list string :=
  ["encry"; "criptografia"; "access[_\s]?control"; "audit[_\s]?trail"].
End LgpdPatterns.

(** The body of the loop over the migration files: [lgpd_score] after one
    file. *)
Definition lgpd_migration (raw : string) (lgpd_score : Z) : Z :=
  let content := lower raw in
  let s1 := if contains "consentimento" content
               || contains "data_processing_consent" content
            then lgpd_score + 10 else lgpd_score in
  let s2 := if contains "retention" content || contains "expira" content
            then s1 + 10 else s1 in
  if contains "created_at" content && contains "updated_at" content
  then s2 + 5 else s2.

(** The body of the loop over the code files: the three flags after one
    file. *)
Definition lgpd_code (raw : string) (flags : bool * bool * bool) : bool * bool * bool :=
  let content := lower raw in
  let '(consent_management, data_minimization, user_rights) := flags in
  (if any (fun p => Re.search p content) LgpdPatterns.consent_management
   then true else consent_management,
   if any (fun p => Re.search p content) LgpdPatterns.data_minimization
   then true else data_minimization,
   if any (fun p => Re.search p content) LgpdPatterns.user_rights
   then true else user_rights).

Definition privacy_policy_files : list (list string) :=
  [["privacy_policy.md"]; ["politica_privacidade.md"]; ["lgpd_compliance.md"];
   ["compliance"; "lgpd.md"]].

Definition validate_lgpd_compliance (t : tree) : M results unit :=
  modify (add_check "lgpd") ;;
  lgpd_score <- lift (for_each lgpd_migration (migration_files t) 0) ;;
  flags <- lift (for_each_try lgpd_code (code_files t) (false, false, false)) ;;
  let '(consent_management, data_minimization, user_rights) := flags in
  lgpd_score <- check consent_management 20
    (on_lgpd (fun c => with_issue c "Missing consent management implementation"))
    lgpd_score ;;
  lgpd_score <- check data_minimization 15
    (on_lgpd (fun c => with_issue c "Missing data minimization implementation"))
    lgpd_score ;;
  lgpd_score <- check user_rights 15
    (on_lgpd (fun c => with_issue c "Missing user rights implementation"))
    lgpd_score ;;
  let privacy_found := any (exists_ t) privacy_policy_files in
  lgpd_score <- check privacy_found 15
    (add_recommendation "Create LGPD privacy policy documentation")
    lgpd_score ;;
  rls_found <- lift (_check_rls_implementation t) ;;
  lgpd_score <- check rls_found 10
    (on_lgpd (fun c => with_issue c "Missing RLS for data protection"))
    lgpd_score ;;
  modify (on_lgpd (fun c => with_score c lgpd_score)) ;;
  warn_below_70 "LGPD" lgpd_score.

(** *** [validate_pix_compliance] *)

Module PixPatterns.
Definition transaction_fields : list string :=
  ["end[_\s]?to[_\s]?end[_\s]?id"; "transaction[_\s]?id"; "pix[_\s]?key";
   "descricao"].
Definition security_measures : list string :=
  ["double[_\s]?auth|autentica[cç][ãa]o[_\s]?dupla"; "biometric|biometria";
   "rate[_\s]?limit"; "fraud[_\s]?detection"].
Definition key_types : list string :=
  ["cpf|cnpj"; "email"; "phone|telefone"; "random[_\s]?key"].
Definition status_tracking : list string :=
  ["em[_\s]?processamento|processing"; "conclu[ií]do|completed";
   "falhou|failed"; "estornado|refunded"].
End PixPatterns.

Definition pix_migration (raw : string) (pix_score : Z) : Z :=
  let content := lower raw in
  if contains "pix_transactions" content || contains "transactions" content then
    let s1 := if contains "end_to_end_id" content then pix_score + 15 else pix_score in
    let s2 := if contains "transaction_id" content then s1 + 10 else s1 in
    let s3 := if contains "pix_key" content then s2 + 10 else s2 in
    let s4 := if contains "amount" content then s3 + 5 else s3 in
    if any (fun status => contains status content) ["status"; "transaction_status"]
    then s4 + 10 else s4
  else pix_score.

Definition pix_code (raw : string) (flags : bool * bool * bool) : bool * bool * bool :=
  let content := lower raw in
  let '(pix_implementation, pix_security, pix_key_types) := flags in
  (if any (fun p => Re.search p content) PixPatterns.transaction_fields
   then true else pix_implementation,
   if any (fun p => Re.search p content) PixPatterns.security_measures
   then true else pix_security,
   if any (fun p => Re.search p content) PixPatterns.key_types
   then true else pix_key_types).

Definition api_patterns : list string :=
  ["/api/v1/pix/"; "pix/transfer"; "pix/keys"; "pix/qrcode"].

(** [for pattern in api_patterns: if self._search_in_code(pattern): ...; break] *)
Fixpoint pix_endpoints_loop (t : tree) (patterns : list string) : outcome bool :=
  match patterns with
  | [] => Returned false
  | pattern :: rest =>
      obind (_search_in_code t pattern) (fun found =>
        if found then Returned true else pix_endpoints_loop t rest)
  end.

Definition validate_pix_compliance (t : tree) : M results unit :=
  modify (add_check "pix") ;;
  pix_score <- lift (for_each pix_migration (migration_files t) 0) ;;
  flags <- lift (for_each_try pix_code (code_files t) (false, false, false)) ;;
  let '(pix_implementation, pix_security, pix_key_types) := flags in
  pix_score <- check pix_implementation 20
    (on_pix (fun c => with_issue c "Missing PIX transaction implementation"))
    pix_score ;;
  pix_score <- check pix_security 15
    (on_pix (fun c => with_issue c "Missing PIX security measures"))
    pix_score ;;
  pix_score <- check pix_key_types 10
    (add_recommendation "Implement PIX key type validation (CPF, CNPJ, email, phone)")
    pix_score ;;
  pix_endpoints <- lift (pix_endpoints_loop t api_patterns) ;;
  pix_score <- check pix_endpoints 5
    (add_recommendation "Create PIX API endpoints following BCB patterns")
    pix_score ;;
  modify (on_pix (fun c => with_score c pix_score)) ;;
  warn_below_70 "PIX" pix_score.

(** *** [validate_openbanking_compliance] *)

Module ObPatterns.
Definition consent : list string := ["consents?"; "scope"; "expiration"].
Definition customer : list string :=
  ["customer[_\s]?data"; "personal[_\s]?data"; "identifica[cç][ãa]o"].
Definition accounts : list string := ["accounts?"; "balance"; "transactions"].
Definition security : list string :=
  ["oauth|oauth2"; "token"; "scope"; "redirect[_\s]?uri"].
End ObPatterns.

Definition ob_code (raw : string) (flags : bool * bool * bool * bool)
  : bool * bool * bool * bool :=
  let content := lower raw in
  let '(consent_api, customer_api, accounts_api, security_implementation) := flags in
  (if any (fun p => Re.search p content) ObPatterns.consent
   then true else consent_api,
   if any (fun p => Re.search p content) ObPatterns.customer
   then true else customer_api,
   if any (fun p => Re.search p content) ObPatterns.accounts
   then true else accounts_api,
   if any (fun p => Re.search p content) ObPatterns.security
   then true else security_implementation).

Definition ob_docs : list (list string) :=
  [["openbanking.md"]; ["open_banking.md"]; ["docs"; "openbanking"];
   ["openbanking_spec.md"]].

Definition validate_openbanking_compliance (t : tree) : M results unit :=
  modify (add_check "openbanking") ;;
  let ob_score := 0 in
  flags <- lift (for_each_try ob_code (code_files t) (false, false, false, false)) ;;
  let '(consent_api, customer_api, accounts_api, security_implementation) := flags in
  ob_score <- check consent_api 25
    (on_openbanking (fun c => with_issue c "Missing Open Banking consent API"))
    ob_score ;;
  ob_score <- check customer_api 20
    (add_recommendation "Implement Open Banking customer data endpoints")
    ob_score ;;
  ob_score <- check accounts_api 20
    (add_recommendation "Implement Open Banking accounts endpoints")
    ob_score ;;
  ob_score <- check security_implementation 25
    (on_openbanking
       (fun c => with_issue c "Missing Open Banking security implementation"))
    ob_score ;;
  let ob_doc_found := any (exists_ t) ob_docs in
  ob_score <- check ob_doc_found 10
    (add_recommendation "Create Open Banking implementation documentation")
    ob_score ;;
  modify (on_openbanking (fun c => with_score c ob_score)) ;;
  warn_below_70 "Open Banking" ob_score.

(** *** [validate_brazilian_security] *)

Module SecurityPatterns.
Definition encryption : list string := ["aes[-_]?256"; "tls[_\s]?1\.3"; "encrypt"].
Definition audit : list string :=
  ["audit[_\s]?trail"; "log[_\s]?access"; "audit[_\s]?log"].
Definition access_control : list string :=
  ["role[_\s]?based"; "multi[_\s]?factor"; "2fa|two[_\s]?factor"].
Definition data_protection : list string :=
  ["data[_\s]?masking"; "pseudonymiza[cç][ãa]o"; "anonymiza[cç][ãa]o"].
End SecurityPatterns.

Definition security_code (raw : string) (flags : bool * bool * bool * bool)
  : bool * bool * bool * bool :=
  let content := lower raw in
  let '(encryption, audit_trail, access_control, data_protection) := flags in
  (if any (fun p => Re.search p content) SecurityPatterns.encryption
   then true else encryption,
   if any (fun p => Re.search p content) SecurityPatterns.audit
   then true else audit_trail,
   if any (fun p => Re.search p content) SecurityPatterns.access_control
   then true else access_control,
   if any (fun p => Re.search p content) SecurityPatterns.data_protection
   then true else data_protection).

Definition validate_brazilian_security (t : tree) : M results unit :=
  modify (add_check "security") ;;
  let security_score := 0 in
  flags <- lift (for_each_try security_code (code_files t)
                              (false, false, false, false)) ;;
  let '(encryption, audit_trail, access_control, data_protection) := flags in
  security_score <- check encryption 25
    (on_security (fun c => with_issue c "Missing encryption implementation"))
    security_score ;;
  security_score <- check audit_trail 25
    (on_security (fun c => with_issue c "Missing audit trail implementation"))
    security_score ;;
  security_score <- check access_control 25
    (on_security (fun c => with_issue c "Missing access control implementation"))
    security_score ;;
  security_score <- check data_protection 25
    (add_recommendation "Implement data protection measures (masking, anonymization)")
    security_score ;;
  modify (on_security (fun c => with_score c security_score)) ;;
  warn_below_70 "Security" security_score.

(** Every regular expression of the validator. *)
Definition all_patterns : list string :=
  (rls_patterns ++ api_patterns
   ++ LgpdPatterns.consent_management ++ LgpdPatterns.data_minimization
   ++ LgpdPatterns.user_rights ++ LgpdPatterns.security_measures
   ++ PixPatterns.transaction_fields ++ PixPatterns.security_measures
   ++ PixPatterns.key_types ++ PixPatterns.status_tracking
   ++ ObPatterns.consent ++ ObPatterns.customer ++ ObPatterns.accounts
   ++ ObPatterns.security
   ++ SecurityPatterns.encryption ++ SecurityPatterns.audit
   ++ SecurityPatterns.access_control ++ SecurityPatterns.data_protection)%list.

(** *** [_calculate_overall_score] *)

(** [scores]: the scores above zero, in the order of the dictionary. *)
Definition positive_scores (r : results) : list Z :=
  filter (fun n => 0 <? n)
         [score (lgpd r); score (pix r); score (openbanking r); score (security r)].

Definition sum (l : list Z) : Z := fold_right Z.add 0 l.

Definition _calculate_overall_score (r : results) : results :=
  let scores := positive_scores r in
  let overall :=
    match scores with
    | [] => 0
    | _ => sum scores / Z.of_nat (length scores)
    end in
  set_overall overall (if overall <? 70 then false else valid r) r.

(** *** [validate_all] *)

Definition all_checks : list string := ["lgpd"; "pix"; "openbanking"; "security"].

Definition run_check (t : tree) (check : string) : M results unit :=
  if String.eqb check "lgpd" then validate_lgpd_compliance t
  else if String.eqb check "pix" then validate_pix_compliance t
  else if String.eqb check "openbanking" then validate_openbanking_compliance t
  else if String.eqb check "security" then validate_brazilian_security t
  else ret tt.

Fixpoint run_checks (t : tree) (checks : list string) : M results unit :=
  match checks with
  | [] => ret tt
  | c :: rest => run_check t c ;; run_checks t rest
  end.

(** [checks]: the value of [--check]; [None] when the option is absent. *)
Definition validate_all (t : tree) (checks : option (list string)) : M results results :=
  let checks :=
    match checks with
    | None | Some [] => all_checks
    | Some cs => cs
    end in
  run_checks t checks ;;
  modify _calculate_overall_score ;;
  get.

(** *** [main] *)

(** What a run leaves behind: the report printed by [print_results] with the
    exit status, or the uncaught exception. *)
Inductive run : Type :=
| Report (r : results) (exit_code : Z)
| Crash (e : exn).

Definition exit_code (r : results) : Z := if valid r then 0 else 1.

Definition main (t : tree) (checks : option (list string)) : run :=
  match validate_all t checks init with
  | Returned (r, _) => Report r (exit_code r)
  | Raised e => Crash e
  end.

End Aegis.

(** ** aegis-architect/scripts/performance_audit.py *)

Module Perf.

Local Open Scope monad_scope.

Record category : Type := {
  score : Z;
  issues : list string;
  recommendations : list string
}.

(** [self.results].  [overall_score] is the float that
    [round(sum(scores) / len(scores), 1)] yields, kept as the rational it
    denotes: the six scores are integers between 0 and 100, a sixth of their
    sum is never half-way between two tenths, and the comparison of the rounded
    value with 70 is the comparison of these rationals. *)
Record results : Type := {
  overall_score : Q;
  checks_performed : list string;
  voice_performance : category;
  bundle_optimization : category;
  database_performance : category;
  realtime_performance : category;
  mobile_optimization : category;
  core_web_vitals : category
}.

Definition empty_category : category :=
  {| score := 0; issues := []; recommendations := [] |}.

(** [__init__] *)
Definition init : results := {|
  overall_score := 0;
  checks_performed := [];
  voice_performance := empty_category;
  bundle_optimization := empty_category;
  database_performance := empty_category;
  realtime_performance := empty_category;
  mobile_optimization := empty_category;
  core_web_vitals := empty_category
|}.

Inductive key : Type :=
| Voice_performance | Bundle_optimization | Database_performance
| Realtime_performance | Mobile_optimization | Core_web_vitals.

Definition key_name (k : key) : string :=
  match k with
  | Voice_performance => "voice_performance"
  | Bundle_optimization => "bundle_optimization"
  | Database_performance => "database_performance"
  | Realtime_performance => "realtime_performance"
  | Mobile_optimization => "mobile_optimization"
  | Core_web_vitals => "core_web_vitals"
  end.

Definition lookup (k : key) (r : results) : category :=
  match k with
  | Voice_performance => voice_performance r
  | Bundle_optimization => bundle_optimization r
  | Database_performance => database_performance r
  | Realtime_performance => realtime_performance r
  | Mobile_optimization => mobile_optimization r
  | Core_web_vitals => core_web_vitals r
  end.

Definition key_eqb (a b : key) : bool := String.eqb (key_name a) (key_name b).

(** [self.results[k] = c] *)
Definition store (k : key) (c : category) (r : results) : results :=
  let pick k' := if key_eqb k k' then c else lookup k' r in
  {| overall_score := overall_score r;
     checks_performed := checks_performed r;
     voice_performance := pick Voice_performance;
     bundle_optimization := pick Bundle_optimization;
     database_performance := pick Database_performance;
     realtime_performance := pick Realtime_performance;
     mobile_optimization := pick Mobile_optimization;
     core_web_vitals := pick Core_web_vitals |}.

Definition add_check (nm : string) (r : results) : results :=
  {| overall_score := overall_score r;
     checks_performed := checks_performed r ++ [nm];
     voice_performance := voice_performance r;
     bundle_optimization := bundle_optimization r;
     database_performance := database_performance r;
     realtime_performance := realtime_performance r;
     mobile_optimization := mobile_optimization r;
     core_web_vitals := core_web_vitals r |}.

Definition set_overall (q : Q) (r : results) : results :=
  {| overall_score := q;
     checks_performed := checks_performed r;
     voice_performance := voice_performance r;
     bundle_optimization := bundle_optimization r;
     database_performance := database_performance r;
     realtime_performance := realtime_performance r;
     mobile_optimization := mobile_optimization r;
     core_web_vitals := core_web_vitals r |}.

(** *** [_search_in_files] *)

(** The inner loop: the paths of the files of [files] that [pattern] matches,
    case-insensitively; undecodable and unreadable files are passed over. *)
Fixpoint matching (pattern : string) (files : list entry) : outcome (list (list string)) :=
  match files with
  | [] => Returned []
  | f :: rest =>
      match read f with
      | Returned content =>
          obind (matching pattern rest) (fun matches =>
            Returned (if Re.search_i pattern content then path f :: matches
                      else matches))
      | Raised e => if caught e then matching pattern rest else Raised e
      end
  end.

Definition _search_in_files (t : tree) (pattern : string) (extensions : list string)
  : outcome (list (list string)) :=
  matching pattern (flat_map (fun ext => rglob ("." ++ ext) t) extensions).

(** The truth value of the list returned. *)
Definition found (t : tree) (pattern : string) (extensions : list string) : outcome bool :=
  obind (_search_in_files t pattern extensions) (fun matches =>
    Returned (match matches with [] => false | _ => true end)).

(** [any(self._search_in_files(pattern, extensions) for pattern in patterns)] *)
Fixpoint any_found (t : tree) (patterns : list string) (extensions : list string)
  : outcome bool :=
  match patterns with
  | [] => Returned false
  | pattern :: rest =>
      obind (found t pattern extensions) (fun hit =>
        if hit then Returned true else any_found t rest extensions)
  end.

(** *** The local variables of one audit *)

Record local : Type := { sc : Z; iss : list string; recs : list string }.

Definition start : local := {| sc := 100; iss := []; recs := [] |}.

(** [score -= weight], with the messages appended in the same branch. *)
Definition deduct (weight : Z) (issue recommendation : list string) : M local unit :=
  modify (fun a => {| sc := sc a - weight;
                      iss := iss a ++ issue;
                      recs := recs a ++ recommendation |}).

Definition unless (b : bool) (m : M local unit) : M local unit :=
  if b then ret tt else m.

(** The common frame of an audit: note the check, run the body on fresh local
    variables, store [max(0, score)] and the two lists. *)
Definition audit (k : key) (body : M local unit) : M results unit :=
  modify (add_check (key_name k)) ;;
  a <- lift (match body start with
             | Raised e => Raised e
             | Returned (_, a) => Returned a
             end) ;;
  modify (store k {| score := Z.max 0 (sc a);
                     issues := iss a;
                     recommendations := recs a |}).

(** *** [audit_voice_performance] *)

Definition optimization_patterns : list (string * string) :=
  [("preload_models", "preload|precache");
   ("web_workers", "web[\s_-]?worker|worker[\s_-]?thread");
   ("caching", "cache.*voice|voice.*cache");
   ("batching", "batch.*voice|voice.*batch")].

Fixpoint voice_patterns_loop (t : tree) (patterns : list (string * string)) : M local unit :=
  match patterns with
  | [] => ret tt
  | (pattern_name, pattern) :: rest =>
      hit <- lift (found t pattern ["ts"; "tsx"; "js"]) ;;
      unless hit
        (deduct 15
           ["Missing " ++ replace_underscore pattern_name ++ " for voice processing"]
           ["Implement " ++ replace_underscore pattern_name
            ++ " to improve voice response times"]) ;;
      voice_patterns_loop t rest
  end.

Definition async_patterns : list string :=
  ["async.*voice|voice.*async"; "await.*voice|voice.*await";
   "promise.*voice|voice.*promise"].

Definition voice_body (t : tree) : M local unit :=
  voice_patterns_loop t optimization_patterns ;;
  hit <- lift (any_found t async_patterns ["ts"; "tsx"]) ;;
  unless hit
    (deduct 20 ["Voice processing not properly asynchronous"]
               ["Ensure voice processing is non-blocking with async/await"]) ;;
  performance_comments <-
    lift (found t "500ms|<.*500.*ms|voice.*response.*time" ["ts"; "tsx"; "md"]) ;;
  unless performance_comments
    (deduct 10 [] ["Document voice response time targets (<500ms)"]).

Definition audit_voice_performance (t : tree) : M results unit :=
  audit Voice_performance (voice_body t).

(** *** [audit_bundle_optimization] *)

Definition optimization_features : list (string * string) :=
  [("code_splitting", "codeSplitting|splitVendorChunkPlugin");
   ("tree_shaking", "treeShaking|treeshake");
   ("minification", "minify|terser");
   ("asset_optimization", "asset|assetInlineLimit")].

Fixpoint features_loop (config_content : string) (features : list (string * string))
  : M local unit :=
  match features with
  | [] => ret tt
  | (feature, pattern) :: rest =>
      unless (Re.search_i pattern config_content)
        (deduct 20
           ["Missing " ++ replace_underscore feature ++ " in build configuration"]
           ["Enable " ++ replace_underscore feature ++ " for smaller bundles"]) ;;
      features_loop config_content rest
  end.

Definition vite_config : list string := ["vite.config.ts"].

(** [open(p).read()] for a path [p] that exists; a path that only has entries
    below it is a directory. *)
Definition read_path (t : tree) (p : list string) : outcome string :=
  match find (fun e => path_eqb (path e) p) (entries t) with
  | Some e => read e
  | None => Raised IsADirectoryError
  end.

Definition lazy_patterns : list string :=
  ["lazy\s*\("; "dynamic\s*\(\s*import"; "Suspense"; "react\.lazy"].

Definition bundle_body (t : tree) : M local unit :=
  (if exists_ t vite_config then
     config_content <- lift (read_path t vite_config) ;;
     features_loop config_content optimization_features
   else
     deduct 50 ["No Vite configuration found"]
               ["Set up Vite configuration with optimization features"]) ;;
  hit <- lift (any_found t lazy_patterns ["ts"; "tsx"]) ;;
  unless hit
    (deduct 25 ["No code splitting with lazy loading found"]
               ["Implement lazy loading for better initial load times"]) ;;
  bundle_analysis <-
    lift (found t "bundle[\s_-]?size|webpack[\s_-]?bundle|analyze" ["json"; "js"]) ;;
  unless bundle_analysis
    (deduct 15 [] ["Set up bundle size analysis and monitoring"]).

Definition audit_bundle_optimization (t : tree) : M results unit :=
  audit Bundle_optimization (bundle_body t).

(** *** [audit_database_performance] *)

(** The loop over the migrations: no [try], and [break] at the first file
    that creates an index. *)
Fixpoint index_loop (files : list entry) : outcome bool :=
  match files with
  | [] => Returned false
  | f :: rest =>
      match read f with
      | Returned content =>
          if contains "CREATE INDEX" content || contains "CREATE UNIQUE INDEX" content
          then Returned true
          else index_loop rest
      | Raised e => Raised e
      end
  end.

Definition query_patterns : list string :=
  ["\.select\(\s*[" ++ dq ++ "\']\*[" ++ dq ++ "\']"; "fetch.*all"; "N\+1.*query"].

Fixpoint query_loop (t : tree) (patterns : list string) : M local unit :=
  match patterns with
  | [] => ret tt
  | pattern :: rest =>
      hit <- lift (found t pattern ["ts"; "tsx"; "js"]) ;;
      (if hit then
         deduct 20 ["Potential inefficient query pattern: " ++ pattern]
                   ["Optimize database queries for better performance"]
       else ret tt) ;;
      query_loop t rest
  end.

Definition cache_patterns : list string :=
  ["useQuery.*staleTime"; "queryClient.*setQueryData"; "supabase.*cache";
   "react.*query.*cache"].

Definition database_body (t : tree) : M local unit :=
  (if exists_ t ["supabase"] then
     if exists_ t ["supabase"; "migrations"] then
       index_found <- lift (index_loop (glob ["supabase"; "migrations"] ".sql" t)) ;;
       unless index_found
         (deduct 30 ["No database indexes found in migrations"]
                    ["Add indexes for frequently queried columns"])
     else ret tt
   else ret tt) ;;
  query_loop t query_patterns ;;
  hit <- lift (any_found t cache_patterns ["ts"; "tsx"]) ;;
  unless hit
    (deduct 25 [] ["Implement query result caching for better performance"]).

Definition audit_database_performance (t : tree) : M results unit :=
  audit Database_performance (database_body t).

(** *** [audit_realtime_performance] *)

Definition realtime_patterns : list string :=
  ["supabase.*channel"; "on\([\'" ++ dq ++ "]postgres_changes[\'" ++ dq ++ "]";
   "realtime.*subscribe"; "subscribeToTable"].

Definition optimistic_patterns : list string :=
  ["useMutation.*onSuccess"; "optimistic.*update"; "queryClient.*invalidateQueries"].

Definition realtime_body (t : tree) : M local unit :=
  realtime_found <- lift (any_found t realtime_patterns ["ts"; "tsx"]) ;;
  unless realtime_found
    (deduct 40 [] ["Implement real-time synchronization for instant updates"]) ;;
  sub_optimization <-
    lift (found t "channel.*unsubscribe|cleanup.*subscription" ["ts"; "tsx"]) ;;
  (if realtime_found && negb sub_optimization then
     deduct 20 ["Missing subscription cleanup"]
               ["Ensure real-time subscriptions are properly cleaned up"]
   else ret tt) ;;
  hit <- lift (any_found t optimistic_patterns ["ts"; "tsx"]) ;;
  unless hit
    (deduct 25 [] ["Implement optimistic updates for better UX"]).

Definition audit_realtime_performance (t : tree) : M results unit :=
  audit Realtime_performance (realtime_body t).

(** *** [audit_mobile_optimization] *)

Definition responsive_patterns : list string :=
  ["responsive|mobile|tablet"; "breakpoint|screen.*size";
   "tailwind.*sm:|md:|lg:|xl:"; "media.*query"].

Definition touch_patterns : list string :=
  ["onClick|onTouch"; "button.*size"; "touch.*target"; "mobile.*optimized"].

Definition mobile_optimizations : list string :=
  ["mobile.*viewport|viewport.*scale"; "touch.*action|user.*select";
   "mobile.*performance|device.*memory"].

Definition mobile_body (t : tree) : M local unit :=
  responsive_found <- lift (any_found t responsive_patterns ["ts"; "tsx"; "css"]) ;;
  unless responsive_found
    (deduct 30 [] ["Implement responsive design for mobile devices"]) ;;
  touch <- lift (any_found t touch_patterns ["ts"; "tsx"]) ;;
  unless touch
    (deduct 25 [] ["Ensure buttons and interactive elements are touch-friendly"]) ;;
  mobile <- lift (any_found t mobile_optimizations ["tsx"; "html"; "css"]) ;;
  unless mobile
    (deduct 20 [] ["Add mobile-specific viewport and performance optimizations"]).

Definition audit_mobile_optimization (t : tree) : M results unit :=
  audit Mobile_optimization (mobile_body t).

(** *** [audit_core_web_vitals] *)

Definition monitoring_patterns : list string :=
  ["web[-_]?vitals"; "performance.*observer"; "LCP|INP|CLS";
   "performance.*mark|performance.*measure"].

Definition image_patterns : list string :=
  ["next[/\\]image|next/image"; "lazy.*load.*image|image.*lazy"; "srcset|sizes";
   "webp|avif|optimization"].

Definition font_patterns : list string :=
  ["font.*display.*swap"; "preload.*font"; "font.*optimization"; "webfont.*loader"].

Definition layout_patterns : list string :=
  ["CLS|cumulative.*layout.*shift"; "layout.*shift|layout.*stability";
   "animation.*hardware|gpu"].

Definition vitals_body (t : tree) : M local unit :=
  monitoring_found <- lift (any_found t monitoring_patterns ["ts"; "tsx"; "js"]) ;;
  unless monitoring_found
    (deduct 30 [] ["Set up Core Web Vitals monitoring"]) ;;
  image <- lift (any_found t image_patterns ["ts"; "tsx"; "jsx"]) ;;
  unless image (deduct 25 [] ["Optimize images for better LCP"]) ;;
  font <- lift (any_found t font_patterns ["tsx"; "html"; "css"]) ;;
  unless font (deduct 20 [] ["Optimize font loading for better performance"]) ;;
  layout <- lift (any_found t layout_patterns ["ts"; "tsx"; "css"]) ;;
  unless layout (deduct 25 [] ["Ensure layout stability to prevent CLS"]).

Definition audit_core_web_vitals (t : tree) : M results unit :=
  audit Core_web_vitals (vitals_body t).

(** Every regular expression of the audit. *)
Definition all_patterns : list string :=
  (map snd optimization_patterns ++ async_patterns
   ++ ["500ms|<.*500.*ms|voice.*response.*time"]
   ++ map snd optimization_features ++ lazy_patterns
   ++ ["bundle[\s_-]?size|webpack[\s_-]?bundle|analyze"]
   ++ query_patterns ++ cache_patterns ++ realtime_patterns
   ++ ["channel.*unsubscribe|cleanup.*subscription"] ++ optimistic_patterns
   ++ responsive_patterns ++ touch_patterns ++ mobile_optimizations
   ++ monitoring_patterns ++ image_patterns ++ font_patterns ++ layout_patterns)%list.

(** *** [calculate_overall_score] *)

Definition keys : list key :=
  [Voice_performance; Bundle_optimization; Database_performance;
   Realtime_performance; Mobile_optimization; Core_web_vitals].

Definition sum (l : list Z) : Z := fold_right Z.add 0 l.

(** [round(q, 1)]: to the nearest tenth, a tie to the even one. *)
Definition round1 (q : Q) : Q :=
  let scaled := (q * 10)%Q in
  let low := Qfloor scaled in
  let rest := (scaled - inject_Z low)%Q in
  let tenths :=
    if Qeq_bool rest (1 # 2) then (if Z.even low then low else low + 1)
    else if Qle_bool rest (1 # 2) then low
    else low + 1 in
  (tenths # 10)%Q.

Definition calculate_overall_score (r : results) : results :=
  let scores := map (fun k => score (lookup k r)) keys in
  set_overall (round1 (inject_Z (sum scores) / inject_Z (Z.of_nat (length scores)))) r.

(** *** [audit_all] and [main] *)

Definition audit_all (t : tree) : M results results :=
  audit_voice_performance t ;;
  audit_bundle_optimization t ;;
  audit_database_performance t ;;
  audit_realtime_performance t ;;
  audit_mobile_optimization t ;;
  audit_core_web_vitals t ;;
  modify calculate_overall_score ;;
  get.

Inductive run : Type :=
| Report (r : results) (exit_code : Z)
| Crash (e : exn).

(** [0 if results['overall_score'] >= 70 else 1] *)
Definition exit_code (r : results) : Z :=
  if Qle_bool 70 (overall_score r) then 0 else 1.

Definition main (t : tree) : run :=
  match audit_all t init with
  | Returned (r, _) => Report r (exit_code r)
  | Raised e => Crash e
  end.

End Perf.

(** ** aegis-architect/scripts/voice_performance_analyzer.py *)

Module Voice.

(** [self.results]; the two dictionaries of flags are lists of pairs in
    insertion order.  The score is a sum of integers and multiples of 7.5; it
    is kept as the rational it denotes. *)
Record results : Type := {
  performance_score : Q;
  target_ms : Z;
  voice_response_time : Z;
  issues : list string;
  recommendations : list string;
  optimizations_found : list string;
  performance_patterns : list (string * bool);
  brazilian_patterns : list (string * bool)
}.

(** [__init__] *)
Definition init (target_ms : Z) : results := {|
  performance_score := 0;
  target_ms := target_ms;
  voice_response_time := 0;
  issues := [];
  recommendations := [];
  optimizations_found := [];
  performance_patterns :=
    [("voice_activity_detection", false); ("processing_optimization", false);
     ("caching_strategy", false); ("memory_management", false);
     ("regional_adaptation", false)];
  brazilian_patterns :=
    [("portuguese_support", false); ("regional_variations", false);
     ("financial_terminology", false); ("slang_recognition", false)]
|}.

(** [sum(d.values())] for a dictionary of booleans *)
Definition count_true (d : list (string * bool)) : Z :=
  fold_right (fun (kv : string * bool) (n : Z) => if snd kv then n + 1 else n) 0 d.

Definition qmin (a b : Q) : Q := if Qle_bool a b then a else b.

(** The estimate read off the score: the [if]/[elif] chain of
    [calculate_performance_score]. *)
Definition estimate (performance_score : Q) : Z :=
  if Qle_bool 90 performance_score then 150
  else if Qle_bool 80 performance_score then 180
  else if Qle_bool 70 performance_score then 220
  else if Qle_bool 60 performance_score then 280
  else 350.

Definition calculate_performance_score (r : results) : results :=
  let score := 0%Q in
  let perf_patterns_score := inject_Z (count_true (performance_patterns r) * 8) in
  let score := (score + qmin perf_patterns_score 40)%Q in
  let brazilian_patterns_score :=
    (inject_Z (count_true (brazilian_patterns r)) * (15 # 2))%Q in
  let score := (score + qmin brazilian_patterns_score 30)%Q in
  let score :=
    match optimizations_found r with
    | [] => score
    | _ => (score + inject_Z (Z.min (Z.of_nat (length (optimizations_found r)) * 4) 20))%Q
    end in
  let score :=
    match issues r with
    | [] => (score + 10)%Q
    | _ => score
    end in
  let performance_score := qmin score 100 in
  let voice_response_time := estimate performance_score in
  {| performance_score := performance_score;
     target_ms := target_ms r;
     voice_response_time := voice_response_time;
     issues :=
       if voice_response_time <=? target_ms r then issues r
       else issues r ++ ["Voice response time exceeds target by "
                         ++ str_of_Z (voice_response_time - target_ms r) ++ "ms"];
     recommendations := recommendations r;
     optimizations_found := optimizations_found r;
     performance_patterns := performance_patterns r;
     brazilian_patterns := brazilian_patterns r |}.

(** [0 if results['voice_response_time'] <= args.target_ms else 1] *)
Definition exit_code (r : results) : Z :=
  if voice_response_time r <=? target_ms r then 0 else 1.

(** The step table as the specification words it: pairs of a lower bound of
    the score and an estimate in milliseconds, highest bound first, the first
    pair whose bound the score reaches wins. *)
Definition step_table : list (Q * Z) :=
  [(90%Q, 150); (80%Q, 180); (70%Q, 220); (60%Q, 280)].

Fixpoint first_match (table : list (Q * Z)) (default : Z) (score : Q) : Z :=
  match table with
  | [] => default
  | (bound, ms) :: rest =>
      if Qle_bool bound score then ms else first_match rest default score
  end.

End Voice.

(** ** brazilian-fintech-compliance/scripts/compliance-validator.py *)

Module Fintech.

Record category : Type := {
  score : Z;
  issues : list string;
  recommendations : list string
}.

(** [self.validation_results] *)
Record results : Type := {
  lgpd_compliance : category;
  bcb_regulations : category;
  data_protection : category;
  financial_security : category;
  overall_score : Z
}.

Definition empty_category : category :=
  {| score := 0; issues := []; recommendations := [] |}.

(** [__init__] *)
Definition init : results := {|
  lgpd_compliance := empty_category;
  bcb_regulations := empty_category;
  data_protection := empty_category;
  financial_security := empty_category;
  overall_score := 0
|}.

Module lgpd_patterns.
Definition consent_management : list string :=
  ["consent"; "consentimento"; "privacy"; "privacidade";
   "data_subject"; "titular_dados"; "user_rights"; "direitos_titular"].
Definition data_minimization : list string :=
  ["data_minimization"; "minimizacao_dados"; "only_necessary";
   "purpose_limitation"; "limitacao_finalidade"].
Definition retention_policies : list string :=
  ["retention"; "retencao"; "data_retention"; "politica_retentao";
   "data_deletion"; "exclusao_dados"; "right_to_be_forgotten"].
Definition security_measures : list string :=
  ["encryption"; "criptografia"; "access_control"; "controle_acesso";
   "audit_logging"; "registro_auditoria"; "security"; "seguranca"].
End lgpd_patterns.

Module bcb_patterns.
Definition pix_compliance : list string :=
  ["pix"; "instant_payment"; "pagamento_instantaneo";
   "transaction_limits"; "limites_transacao";
   "fraud_detection"; "detecao_fraude"; "circular_4015"].
Definition open_banking : list string :=
  ["open_banking"; "banco_aberto"; "api_security";
   "oauth2"; "rate_limiting"; "api_documentation";
   "circular_4842"].
Definition transaction_logging : list string :=
  ["transaction_log"; "registro_transacao"; "audit_trail";
   "financial_audit"; "auditoria_financeira";
   "5_year_retention"; "retencao_5_anos"].
Definition availability_requirements : list string :=
  ["uptime"; "disponibilidade"; "sla"; "99.9";
   "high_availability"; "alta_disponibilidade";
   "disaster_recovery"; "recuperacao_desastres"].
End bcb_patterns.

Module security_patterns.
Definition authentication : list string :=
  ["mfa"; "multi_factor"; "biometric"; "biometria";
   "device_trust"; "confianca_dispositivo"; "session_management"].
Definition encryption : list string :=
  ["aes-256"; "tls_1.3"; "end_to_end_encryption";
   "data_encryption"; "criptografia_dados"].
Definition fraud_prevention : list string :=
  ["fraud_detection"; "behavioral_analysis"; "risk_scoring";
   "anomaly_detection"; "transaction_monitoring"].
Definition audit_logging : list string :=
  ["audit_log"; "security_event"; "evento_seguranca";
   "incident_response"; "resposta_incidente"].
End security_patterns.

(** Every pattern some check of the validator looks for. *)
Definition all_patterns : list string :=
  (lgpd_patterns.consent_management ++ lgpd_patterns.data_minimization
   ++ lgpd_patterns.retention_policies ++ lgpd_patterns.security_measures
   ++ bcb_patterns.pix_compliance ++ bcb_patterns.open_banking
   ++ bcb_patterns.transaction_logging ++ bcb_patterns.availability_requirements
   ++ security_patterns.authentication ++ security_patterns.encryption
   ++ security_patterns.fraud_prevention ++ security_patterns.audit_logging
   ++ ["access_control"; "controle_acesso"; "authorization"; "role_based"]
   ++ ["audit"; "audit_log"; "logging"; "registro_auditoria"]
   ++ ["security_monitoring"; "intrusion_detection"; "security_events"])%list.

(** *** [_collect_source_files] *)

Definition extensions : list string :=
  [".py"; ".js"; ".ts"; ".tsx"; ".jsx"; ".java"; ".go"; ".rs"; ".php"].

Definition _collect_source_files (t : tree) : list entry :=
  let source_files :=
    (flat_map (fun ext => rglob ext t) extensions
     ++ rglob ".json" t ++ rglob ".yaml" t ++ rglob ".yml" t
     ++ rglob ".md" t ++ rglob ".sql" t)%list in
  filter is_file source_files.

(** *** [_analyze_files_content] *)

(** The loop body, under a bare [except: continue]. *)
Fixpoint concat_contents (files : list entry) (content : string) : string :=
  match files with
  | [] => content
  | file_path :: rest =>
      match read file_path with
      | Returned text => concat_contents rest (content ++ lower text ++ nl)
      | Raised _ => concat_contents rest content
      end
  end.

Definition _analyze_files_content (source_files : list entry) : string :=
  concat_contents (firstn 50 source_files) "".

(** *** [_check_pattern_presence] *)

Fixpoint _check_pattern_presence (content : string) (patterns : list string) : bool :=
  let content_lower := lower content in
  match patterns with
  | [] => false
  | pattern :: rest =>
      if contains (lower pattern) content_lower then true
      else _check_pattern_presence content rest
  end.

(** *** The four validations *)

(** [if found: results[k]['score'] += weight; else: append the issue and the
    recommendation], the shape of every check. *)
Definition check (content_analysis : string) (patterns : list string) (weight : Z)
    (issue recommendation : string) (c : category) : category :=
  if _check_pattern_presence content_analysis patterns then
    {| score := score c + weight;
       issues := issues c;
       recommendations := recommendations c |}
  else
    {| score := score c;
       issues := issues c ++ [issue];
       recommendations := recommendations c ++ [recommendation] |}.

Definition on_lgpd_compliance (f : category -> category) (r : results) : results :=
  {| lgpd_compliance := f (lgpd_compliance r); bcb_regulations := bcb_regulations r;
     data_protection := data_protection r; financial_security := financial_security r;
     overall_score := overall_score r |}.

Definition on_bcb_regulations (f : category -> category) (r : results) : results :=
  {| lgpd_compliance := lgpd_compliance r; bcb_regulations := f (bcb_regulations r);
     data_protection := data_protection r; financial_security := financial_security r;
     overall_score := overall_score r |}.

Definition on_data_protection (f : category -> category) (r : results) : results :=
  {| lgpd_compliance := lgpd_compliance r; bcb_regulations := bcb_regulations r;
     data_protection := f (data_protection r); financial_security := financial_security r;
     overall_score := overall_score r |}.

Definition on_financial_security (f : category -> category) (r : results) : results :=
  {| lgpd_compliance := lgpd_compliance r; bcb_regulations := bcb_regulations r;
     data_protection := data_protection r; financial_security := f (financial_security r);
     overall_score := overall_score r |}.

Definition _validate_lgpd_compliance (source_files : list entry) (r : results) : results :=
  let content_analysis := _analyze_files_content source_files in
  let r := on_lgpd_compliance
    (check content_analysis lgpd_patterns.consent_management 25
       "Consent management system not found - LGPD Art. 7 requires explicit consent"
       "Implement consent collection, recording, and management system") r in
  let r := on_lgpd_compliance
    (check content_analysis lgpd_patterns.data_minimization 20
       "Data minimization principles not implemented - LGPD Art. 6"
       "Implement data minimization and purpose limitation") r in
  let r := on_lgpd_compliance
    (check content_analysis lgpd_patterns.retention_policies 25
       "Data retention policies not defined - LGPD Art. 15"
       "Define and implement data retention and deletion policies") r in
  on_lgpd_compliance
    (check content_analysis lgpd_patterns.security_measures 30
       "Security measures not properly implemented - LGPD Art. 46"
       "Implement appropriate technical and organizational security measures") r.

Definition _validate_bcb_regulations (source_files : list entry) (r : results) : results :=
  let content_analysis := _analyze_files_content source_files in
  let r := on_bcb_regulations
    (check content_analysis bcb_patterns.pix_compliance 35
       "PIX system not compliant with BCB Circular No 4.015"
       "Implement PIX transaction limits, fraud detection, and logging") r in
  let r := on_bcb_regulations
    (check content_analysis bcb_patterns.open_banking 30
       "Open Banking API not compliant with BCB Circular No 4.842"
       "Implement API security, documentation, and data sharing standards") r in
  on_bcb_regulations
    (check content_analysis bcb_patterns.transaction_logging 35
       "Financial transaction logging not implemented"
       "Implement 5-year transaction logging and audit trails") r.

Definition _validate_data_protection (source_files : list entry) (r : results) : results :=
  let content_analysis := _analyze_files_content source_files in
  let r := on_data_protection
    (check content_analysis security_patterns.encryption 40
       "Data encryption not properly implemented"
       "Implement AES-256 encryption and TLS 1.3 for data in transit") r in
  let r := on_data_protection
    (check content_analysis
       ["access_control"; "controle_acesso"; "authorization"; "role_based"] 30
       "Access control system not implemented"
       "Implement role-based access control with audit logging") r in
  on_data_protection
    (check content_analysis ["audit"; "audit_log"; "logging"; "registro_auditoria"] 30
       "Audit logging system not implemented"
       "Implement comprehensive audit logging for all data access") r.

Definition _validate_financial_security (source_files : list entry) (r : results) : results :=
  let content_analysis := _analyze_files_content source_files in
  let r := on_financial_security
    (check content_analysis security_patterns.authentication 30
       "Multi-factor authentication not implemented"
       "Implement MFA, biometric authentication, and device trust") r in
  let r := on_financial_security
    (check content_analysis security_patterns.fraud_prevention 35
       "Fraud detection system not implemented"
       "Implement real-time fraud detection and behavioral analysis") r in
  on_financial_security
    (check content_analysis
       ["security_monitoring"; "intrusion_detection"; "security_events"] 35
       "Security monitoring not implemented"
       "Implement 24/7 security monitoring and incident response") r.

(** *** [_calculate_overall_score] *)

Definition sum (l : list Z) : Z := fold_right Z.add 0 l.

Definition _calculate_overall_score (r : results) : results :=
  let scores :=
    [score (lgpd_compliance r); score (bcb_regulations r);
     score (data_protection r); score (financial_security r)] in
  {| lgpd_compliance := lgpd_compliance r; bcb_regulations := bcb_regulations r;
     data_protection := data_protection r; financial_security := financial_security r;
     overall_score := sum scores / Z.of_nat (length scores) |}.

(** *** [Path(project_path)] *)

(** [part.split('/')] *)
Fixpoint split_sep (part : string) : list string :=
  match part with
  | EmptyString => [EmptyString]
  | String c rest =>
      if Ascii.eqb c "/" then EmptyString :: split_sep rest
      else match split_sep rest with
           | x :: parts => String c x :: parts
           | [] => [String c EmptyString]
           end
  end.

(** [part.lstrip('/')] *)
Fixpoint lstrip_sep (part : string) : string :=
  match part with
  | String c rest => if Ascii.eqb c "/" then lstrip_sep rest else part
  | EmptyString => EmptyString
  end.

(** [_PosixFlavour.splitroot]: the root and what follows it.  Two leading
    slashes are kept, any other number of them is one. *)
Definition splitroot (part : string) : string * string :=
  if startswith "/" part then
    let stripped_part := lstrip_sep part in
    if (String.length part - String.length stripped_part =? 2)%nat
    then ("//", stripped_part)
    else ("/", stripped_part)
  else ("", part).

(** [parse_parts] on one argument: empty components and [.] are dropped. *)
Definition parse_parts (part : string) : string * list string :=
  let '(root, rel) := splitroot part in
  (root, filter (fun x => negb (String.eqb x "") && negb (String.eqb x ".")) (split_sep rel)).

(** [str(Path(project_path))] *)
Definition path_str (project_path : string) : string :=
  let '(root, parts) := parse_parts project_path in
  let formatted := root ++ String.concat "/" parts in
  if String.eqb formatted "" then "." else formatted.

(** *** [validate_project] and [main] *)

(** The dictionary returned: [{'error': ...}] or the validation results. *)
Inductive report : Type :=
| Error (msg : string)
| Results (r : results).

(** [t]: the tree at [project_path].  The validations run on the
    dictionary of the validator, [r].  The message formats
    [Path(project_path)], not the argument as it was typed. *)
Definition validate_project (project_path : string) (t : tree) (r : results) : report :=
  if negb (root_exists t)
  then Error ("Project path not found: " ++ path_str project_path)
  else
    let source_files := _collect_source_files t in
    let r := _validate_lgpd_compliance source_files r in
    let r := _validate_bcb_regulations source_files r in
    let r := _validate_data_protection source_files r in
    let r := _validate_financial_security source_files r in
    Results (_calculate_overall_score r).

(** What a run prints, with its exit status. *)
Inductive run : Type :=
| Usage (exit_code : Z)
| Failed (msg : string) (exit_code : Z)
| Report (r : results) (exit_code : Z).

(** [argv]: [sys.argv]; [resolve]: the tree found at a path. *)
Definition main (argv : list string) (resolve : string -> tree) : run :=
  match argv with
  | [_; project_path] =>
      match validate_project project_path (resolve project_path) init with
      | Error msg => Failed ("Error: " ++ msg) 1
      | Results results =>
          let score := overall_score results in
          if 80 <=? score then Report results 0
          else if 60 <=? score then Report results 1
          else Report results 2
      end
  | _ => Usage 1
  end.

End Fintech.

(** ** Counting matches: [len(re.findall(pattern, content, re.IGNORECASE))] *)

Module Findall.

(** Matching as [re] does it, by backtracking: [bmatch r s k] tries the ways
    [r] can match at the start of [s] in the order of [re] (the left
    alternative first, the longest repetition first) and hands what is left of
    [s] to [k]; the first way [k] accepts wins. *)

(** The loop of a [*]: once more round the body, if that consumes something
    and the rest can be matched; otherwise on with what follows. *)
Fixpoint star (body : string -> (string -> option string) -> option string)
    (k : string -> option string) (fuel : nat) (s : string) : option string :=
  match fuel with
  | O => k s
  | S fuel' =>
      match body s (fun s' => if (String.length s' <? String.length s)%nat
                              then star body k fuel' s'
                              else None) with
      | Some rest => Some rest
      | None => k s
      end
  end.

Fixpoint bmatch (ignorecase : bool) (r : Re.regex) (s : string)
    (k : string -> option string) : option string :=
  match r with
  | Re.Void => None
  | Re.Eps => k s
  | Re.Dot =>
      match s with
      | String c s' => if (code c =? 10)%N then None else k s'
      | EmptyString => None
      end
  | Re.Class items =>
      match s with
      | String c s' =>
          if existsb (fun it => Re.citem_matches ignorecase it c) items then k s' else None
      | EmptyString => None
      end
  | Re.Cat r1 r2 => bmatch ignorecase r1 s (fun s' => bmatch ignorecase r2 s' k)
  | Re.Alt r1 r2 =>
      match bmatch ignorecase r1 s k with
      | Some rest => Some rest
      | None => bmatch ignorecase r2 s k
      end
  | Re.Star r1 => star (bmatch ignorecase r1) k (String.length s) s
  end.

(** The match of [r] at the start of [s], as what it leaves of [s]; with
    [must_advance], an empty match is refused. *)
Definition match_at (ignorecase : bool) (r : Re.regex) (s : string) (must_advance : bool)
  : option string :=
  bmatch ignorecase r s
    (fun rest => if must_advance && (String.length rest =? String.length s)%nat
                 then None else Some rest).

(** The number of matches [findall] collects in [s], [skip] characters of
    which lie inside the match before: the search goes on where a match ends,
    and after an empty match the next one must advance. *)
Fixpoint count_matches (ignorecase : bool) (r : Re.regex) (s : string) (skip : nat) : Z :=
  match skip with
  | S n =>
      match s with
      | String _ s' => count_matches ignorecase r s' n
      | EmptyString => 0
      end
  | O =>
      let after (consumed : nat) : Z :=
        match s with
        | String _ s' => count_matches ignorecase r s' (consumed - 1)
        | EmptyString => 0
        end in
      match match_at ignorecase r s false with
      | None => after 1%nat
      | Some rest =>
          match (String.length s - String.length rest)%nat with
          | S n => 1 + after (S n)
          | O =>
              1 + match match_at ignorecase r s true with
                  | Some rest' => 1 + after (String.length s - String.length rest')%nat
                  | None => after 1%nat
                  end
          end
      end
  end.

Definition findall_count (pattern content : string) : Z :=
  match Re.compile pattern with
  | Some r => count_matches true r content 0
  | None => 0
  end.

End Findall.

(** ** aegis-architect/scripts/voice_performance_analyzer.py: the analyses *)

Module Analyzer.

Import Voice.
Local Open Scope monad_scope.

Definition add_issue (msg : string) (r : results) : results :=
  {| performance_score := performance_score r; target_ms := target_ms r;
     voice_response_time := voice_response_time r;
     issues := issues r ++ [msg];
     recommendations := recommendations r;
     optimizations_found := optimizations_found r;
     performance_patterns := performance_patterns r;
     brazilian_patterns := brazilian_patterns r |}.

Definition add_recommendation (msg : string) (r : results) : results :=
  {| performance_score := performance_score r; target_ms := target_ms r;
     voice_response_time := voice_response_time r;
     issues := issues r;
     recommendations := recommendations r ++ [msg];
     optimizations_found := optimizations_found r;
     performance_patterns := performance_patterns r;
     brazilian_patterns := brazilian_patterns r |}.

Definition add_optimization (msg : string) (r : results) : results :=
  {| performance_score := performance_score r; target_ms := target_ms r;
     voice_response_time := voice_response_time r;
     issues := issues r;
     recommendations := recommendations r;
     optimizations_found := optimizations_found r ++ [msg];
     performance_patterns := performance_patterns r;
     brazilian_patterns := brazilian_patterns r |}.

(** [d[key] = True]: a key of the dictionary keeps its place, a new key goes
    last. *)
Fixpoint set_true (key : string) (d : list (string * bool)) : list (string * bool) :=
  match d with
  | [] => [(key, true)]
  | (k, v) :: rest =>
      if String.eqb k key then (k, true) :: rest else (k, v) :: set_true key rest
  end.

Definition set_performance_pattern (key : string) (r : results) : results :=
  {| performance_score := performance_score r; target_ms := target_ms r;
     voice_response_time := voice_response_time r;
     issues := issues r;
     recommendations := recommendations r;
     optimizations_found := optimizations_found r;
     performance_patterns := set_true key (performance_patterns r);
     brazilian_patterns := brazilian_patterns r |}.

Definition set_brazilian_pattern (key : string) (r : results) : results :=
  {| performance_score := performance_score r; target_ms := target_ms r;
     voice_response_time := voice_response_time r;
     issues := issues r;
     recommendations := recommendations r;
     optimizations_found := optimizations_found r;
     performance_patterns := performance_patterns r;
     brazilian_patterns := set_true key (brazilian_patterns r) |}.

(** [list(self.directory.rglob('*.ts')) + list(self.directory.rglob('*.tsx'))] *)
Definition code_files (t : tree) : list entry := rglob ".ts" t ++ rglob ".tsx" t.

(** The patterns of [patterns] some file of [files] holds a match of, each
    searched through the files up to the first match. *)
Fixpoint found_patterns (files : list entry) (patterns : list string)
  : outcome (list string) :=
  match patterns with
  | [] => Returned []
  | pattern :: rest =>
      obind (first_match_try (fun content => Re.search_i pattern content) files)
        (fun hit =>
           obind (found_patterns files rest)
             (fun found => Returned (if hit then pattern :: found else found)))
  end.

(** [found_count] after the loops over the patterns of a category and over
    the files. *)
Fixpoint count_patterns (files : list entry) (patterns : list string) (found_count : Z)
  : outcome Z :=
  match patterns with
  | [] => Returned found_count
  | pattern :: rest =>
      obind (for_each_try (fun content n => n + Findall.findall_count pattern content)
                          files found_count)
        (fun n => count_patterns files rest n)
  end.

(** *** [analyze_voice_components] *)

Definition voice_patterns : list (string * list string) :=
  [("speech_recognition",
    ["webkitSpeechRecognition"; "SpeechRecognition"; "start\(\)"; "stop\(\)";
     "onresult"; "onerror"]);
   ("voice_activity_detection",
    ["VAD|voice.*activity.*detection"; "detectSpeech"; "speech.*end";
     "silence.*duration"; "audio.*level"]);
   ("speech_synthesis",
    ["speechSynthesis"; "speechSynthesisUtterance"; "speak\(\)"; "voice.*synthesis"]);
   ("voice_state",
    ["isListening"; "transcript"; "voiceState"; "voiceRecognition"])].

Definition performance_configs : list string :=
  ["auto.*stop.*timeout"; "processing.*delay"; "min.*audio.*duration";
   "max.*audio.*duration"; "silence.*timeout"].

Definition keywords : list string := ["voice"; "speech"; "stt"; "tts"].

Section Paths.

(** [str(file_path)]: how the path of an entry prints, the directory
    analysed included. *)
Variable str : entry -> string.

Definition is_voice_file (file_path : entry) : bool :=
  any (fun keyword => contains keyword (lower (str file_path))) keywords.

Definition voice_files (t : tree) : list entry :=
  filter is_voice_file (rglob ".ts" t) ++ filter is_voice_file (rglob ".tsx" t).

Fixpoint voice_categories_loop (voice_files : list entry)
    (categories : list (string * list string)) : M results unit :=
  match categories with
  | [] => ret tt
  | (category, patterns) :: rest =>
      found <- lift (found_patterns voice_files patterns) ;;
      match found with
      | [] => modify (add_issue ("Missing " ++ category ++ " implementation"))
      | _ => modify (set_performance_pattern category)
      end ;;
      voice_categories_loop voice_files rest
  end.

Definition analyze_voice_components (t : tree) : M results unit :=
  let voice_files := voice_files t in
  voice_categories_loop voice_files voice_patterns ;;
  found_configs <- lift (found_patterns voice_files performance_configs) ;;
  match found_configs with
  | [] => modify (add_recommendation "Add voice performance timeout configurations")
  | _ => modify (set_performance_pattern "processing_optimization")
  end.

End Paths.

(** *** [analyze_performance_patterns] *)

Definition perf_patterns : list (string * list string) :=
  [("react_optimizations", ["useMemo"; "useCallback"; "React\.lazy"; "Suspense"; "memo"]);
   ("async_operations", ["await"; "Promise"; "async"; "timeout"; "setTimeout"]);
   ("error_handling", ["try.*catch"; "error.*boundary"; "onError"; "fallback"]);
   ("performance_monitoring",
    ["performance\.now\(\)"; "console\.time"; "benchmark"; "metrics"])].

Fixpoint performance_loop (files : list entry) (categories : list (string * list string))
  : M results unit :=
  match categories with
  | [] => ret tt
  | (category, patterns) :: rest =>
      found_count <- lift (count_patterns files patterns 0) ;;
      (if 0 <? found_count
       then modify (add_optimization
                      (category ++ ": " ++ str_of_Z found_count ++ " instances"))
       else modify (add_recommendation
                      ("Consider adding " ++ category ++ " optimizations"))) ;;
      performance_loop files rest
  end.

Definition analyze_performance_patterns (t : tree) : M results unit :=
  performance_loop (code_files t) perf_patterns.

(** *** [analyze_brazilian_patterns] *)

Definition brazilian_patterns : list (string * list string) :=
  [("portuguese_support",
    ["pt[-_]?BR"; "portugu[eê]s"; "brazilian"; "portugal";
     "locale.*[\'" ++ dq ++ "]pt"]);
   ("regional_variations",
    ["s[aã]o.*paulo|sp"; "rio.*de.*janeiro|rj"; "nordeste|ne"; "sul"; "norte";
     "centro[-_]?oeste|co"]);
   ("financial_terminology",
    ["pix|PIX"; "boleto|Boleto"; "grana"; "pilas"; "conta"; "transfer[eê]ncia"]);
   ("slang_recognition",
    ["eai|eae"; "beleza"; "oxente"; "bah|tch[eê]"; "mano|parça|guri";
     "caraca|sinistro"])].

Fixpoint brazilian_loop (files : list entry) (categories : list (string * list string))
  : M results unit :=
  match categories with
  | [] => ret tt
  | (category, patterns) :: rest =>
      found_count <- lift (count_patterns files patterns 0) ;;
      (if 0 <? found_count
       then modify (set_brazilian_pattern category)
       else modify (add_recommendation
                      ("Consider adding " ++ category ++ " support for Brazilian users"))) ;;
      brazilian_loop files rest
  end.

Definition analyze_brazilian_patterns (t : tree) : M results unit :=
  brazilian_loop (code_files t) brazilian_patterns.

(** *** [analyze_memory_management] *)

Definition memory_patterns : list (string * list string) :=
  [("cleanup_patterns",
    ["clearInterval"; "clearTimeout"; "abortController"; "cleanup"; "dispose";
     "unsubscribe"]);
   ("leak_prevention",
    ["useEffect.*\[\].*return.*cleanup"; "componentWillUnmount"; "removeEventListener";
     "cancelAnimationFrame"]);
   ("resource_management", ["RefObject"; "useRef"; "WeakMap"; "WeakSet"; "finalize"])].

Fixpoint memory_loop (files : list entry) (categories : list (string * list string))
    (memory_score : Z) : M results Z :=
  match categories with
  | [] => ret memory_score
  | (category, patterns) :: rest =>
      found_count <- lift (count_patterns files patterns 0) ;;
      memory_score <-
        (if 0 <? found_count
         then ret (memory_score + Z.min (found_count * 2) 10)
         else modify (add_recommendation
                        ("Add " ++ category ++ " to prevent memory leaks")) ;;
              ret memory_score) ;;
      memory_loop files rest memory_score
  end.

Definition analyze_memory_management (t : tree) : M results unit :=
  memory_score <- memory_loop (code_files t) memory_patterns 0 ;;
  if 20 <=? memory_score
  then modify (set_performance_pattern "memory_management")
  else modify (add_issue "Insufficient memory management patterns").

(** *** [analyze_caching_strategies] *)

Definition cache_patterns : list (string * list string) :=
  [("react_query", ["useQuery"; "useMutation"; "queryClient"; "staleTime"; "cacheTime"]);
   ("voice_caching",
    ["cache.*voice"; "voice.*cache"; "command.*cache"; "recognition.*cache"]);
   ("general_caching", ["cache\(|Map\(|localStorage"; "sessionStorage"; "TTL|ttl"; "expire"])].

Fixpoint cache_loop (files : list entry) (categories : list (string * list string))
    (cache_score : Z) : M results Z :=
  match categories with
  | [] => ret cache_score
  | (category, patterns) :: rest =>
      found_count <- lift (count_patterns files patterns 0) ;;
      cache_score <-
        (if 0 <? found_count
         then ret (cache_score + Z.min found_count 5)
         else (if String.eqb category "voice_caching"
               then modify (add_recommendation
                              "Implement voice command caching for performance")
               else ret tt) ;;
              ret cache_score) ;;
      cache_loop files rest cache_score
  end.

Definition analyze_caching_strategies (t : tree) : M results unit :=
  cache_score <- cache_loop (code_files t) cache_patterns 0 ;;
  if 5 <=? cache_score
  then modify (set_performance_pattern "caching_strategy")
  else modify (add_recommendation "Implement caching strategies for voice commands").

(** Every regular expression of the analyzer. *)
Definition all_patterns : list string :=
  (flat_map snd voice_patterns ++ performance_configs ++ flat_map snd perf_patterns
   ++ flat_map snd brazilian_patterns ++ flat_map snd memory_patterns
   ++ flat_map snd cache_patterns)%list.

(** *** [analyze_all] *)

Definition analyze_all (str : entry -> string) (t : tree) : M results results :=
  analyze_voice_components str t ;;
  analyze_performance_patterns t ;;
  analyze_brazilian_patterns t ;;
  analyze_memory_management t ;;
  analyze_caching_strategies t ;;
  modify calculate_performance_score ;;
  get.

(** *** [generate_optimization_recommendations] *)

(** [d[key]]; [None] stands for the [KeyError] of a key that is missing. *)
Fixpoint get_item (key : string) (d : list (string * bool)) : option bool :=
  match d with
  | [] => None
  | (k, v) :: rest => if String.eqb k key then Some v else get_item key rest
  end.

(** [if not found: recommendations.append(msg)] *)
Definition append_unless (found : bool) (msg : string) (recommendations : list string)
  : list string :=
  if found then recommendations else (recommendations ++ [msg])%list.

Definition generate_optimization_recommendations (r : results) : option (list string) :=
  let recommendations : list string := [] in
  let recommendations :=
    if target_ms r <? voice_response_time r then
      let delay := voice_response_time r - target_ms r in
      (recommendations
       ++ [("Reduce voice response time by " ++ str_of_Z delay
             ++ "ms to meet target")%string])%list
    else recommendations in
  match get_item "voice_activity_detection" (performance_patterns r) with
  | None => None
  | Some found =>
  let recommendations :=
    append_unless found
      "Implement Voice Activity Detection (VAD) for faster speech processing"
      recommendations in
  match get_item "caching_strategy" (performance_patterns r) with
  | None => None
  | Some found =>
  let recommendations :=
    append_unless found "Add caching for frequently used voice commands"
      recommendations in
  match get_item "memory_management" (performance_patterns r) with
  | None => None
  | Some found =>
  let recommendations :=
    append_unless found
      "Fix memory leaks in voice components to prevent performance degradation"
      recommendations in
  match get_item "regional_variations" (Voice.brazilian_patterns r) with
  | None => None
  | Some found =>
  let recommendations :=
    append_unless found
      "Add regional Brazilian Portuguese variations for better recognition accuracy"
      recommendations in
  match get_item "slang_recognition" (Voice.brazilian_patterns r) with
  | None => None
  | Some found =>
  Some (append_unless found
          "Implement Brazilian slang recognition for improved user experience"
          recommendations)
  end end end end end.

(** *** [print_results] *)

(** [self.results['recommendations'].extend(additional_recommendations)] *)
Definition extend_recommendations (additional : list string) (r : results) : results :=
  {| performance_score := performance_score r; target_ms := target_ms r;
     voice_response_time := voice_response_time r;
     issues := issues r;
     recommendations := (recommendations r ++ additional)%list;
     optimizations_found := optimizations_found r;
     performance_patterns := performance_patterns r;
     Voice.brazilian_patterns := Voice.brazilian_patterns r |}.

(** What [print_results] does to [self.results] before it prints them, in
    either output format. *)
Definition print_results (r : results) : option results :=
  match generate_optimization_recommendations r with
  | Some additional_recommendations =>
      Some (extend_recommendations additional_recommendations r)
  | None => None
  end.

(** *** [main] *)

(** What a run leaves behind: the results as [print_results] prints them
    with the exit status, or the uncaught exception.  The dictionary
    [analyze_all] returns is [self.results] itself, so [main] reads the exit
    status from the dictionary [print_results] has extended. *)
Inductive run : Type :=
| Analysed (r : results) (exit_code : Z)
| Crash (e : exn)
| KeyError.

Definition main (str : entry -> string) (t : tree) (target_ms : Z) : run :=
  match analyze_all str t (init target_ms) with
  | Returned (results, _) =>
      match print_results results with
      | Some results => Analysed results (exit_code results)
      | None => KeyError
      end
  | Raised e => Crash e
  end.

End Analyzer.

(** ** What the properties below speak of *)

(** [w] occurs in [s]. *)
Definition occurs (w s : string) : Prop := exists a b, s = a ++ w ++ b.


(** A pattern of the fintech validator as its checks need it: not empty, and
    without a newline, the separator of the analysed content. *)
Definition plain (q : string) : Prop := q <> "" /\ contains nl q = false.

(** What a check adds to a score, and what it reports. *)
Definition points (found : bool) (weight : Z) : Z := if found then weight else 0.

Definition report (found : bool) (msg : string) : list string :=
  if found then [] else [msg].


(** Relations between the state before and the state after a step. *)
Definition zero_scores (r : Aegis.results) : Prop :=
  Aegis.score (Aegis.lgpd r) = 0 /\ Aegis.score (Aegis.pix r) = 0
  /\ Aegis.score (Aegis.openbanking r) = 0 /\ Aegis.score (Aegis.security r) = 0.

Definition unchanged {B} (proj : Aegis.results -> B) (s s' : Aegis.results) : Prop :=
  proj s' = proj s.

(** What every run of the compliance validator keeps true of its scores. *)
Definition scores_ok (r : Aegis.results) : Prop :=
  0 <= Aegis.score (Aegis.lgpd r) /\ 0 <= Aegis.score (Aegis.pix r)
  /\ 0 <= Aegis.score (Aegis.openbanking r) <= 100
  /\ 0 <= Aegis.score (Aegis.security r) <= 100.

Definition no_higher (a a' : Perf.local) : Prop := Perf.sc a' <= Perf.sc a.

Definition bounded (r : Perf.results) : Prop :=
  forall k, 0 <= Perf.score (Perf.lookup k r) <= 100.

Definition stays_bounded (r r' : Perf.results) : Prop := bounded r -> bounded r'.

Module View.

(** What the compliance validator of aegis-architect reads of a tree: the
    outcome of reading each code file and each migration, in order, and
    whether one of the privacy documents and one of the Open Banking documents
    exists. *)
Definition aegis (t : tree) : list (outcome string) * list (outcome string) * bool * bool :=
  (map read (Aegis.code_files t),
   map read (Aegis.migration_files t),
   any (exists_ t) Aegis.privacy_policy_files,
   any (exists_ t) Aegis.ob_docs).

(** What the validator of brazilian-fintech-compliance reads of a tree:
    whether the root exists and the outcome of reading each of the first 50
    files collected. *)
Definition fintech (t : tree) : bool * list (outcome string) :=
  (root_exists t, map read (firstn 50 (Fintech._collect_source_files t))).

End View.

Module Corpus.



(** The extensions the performance audit searches. *)
Definition perf_extensions : list string :=
  ["ts"; "tsx"; "js"; "md"; "json"; "css"; "html"; "jsx"].


End Corpus.

Module Rules.

(** The rules of each category of the performance audit, as the source
    deducts them: the weight, and whether the rule is required, that is,
    whether the branch that deducts it appends to [issues]. *)
Record rule : Type := { weight : Z; required : bool }.


Definition total (rules : list rule) : Z := fold_right (fun r n => weight r + n) 0 rules.



End Rules.

Module Mean.

(** The mean of a list of scores, as a rational. *)
Definition mean (l : list Z) : Q :=
  (inject_Z (fold_right Z.add 0%Z l) / inject_Z (Z.of_nat (length l)))%Q.

Definition nonzero (l : list Z) : list Z := filter (fun n => negb (n =? 0)) l.

(** The two policies as the specification words them. *)
Definition over_nonzero (l : list Z) : Q :=
  match nonzero l with
  | [] => 0%Q
  | l' => mean l'
  end.

Definition over_all (l : list Z) : Q := mean l.

End Mean.

(** *** Trees used as examples *)

Module Sample.

Definition file (p : list string) (text : string) : entry :=
  {| path := p; what := File text |}.

Definition migration_text : string :=
  "consentimento retention created_at updated_at transactions end_to_end_id transaction_id pix_key amount status".

(** Five migrations, each with every field the schema checks look for. *)
Definition five_migrations : tree :=
  Present
    [file ["supabase"; "migrations"; "001.sql"] migration_text;
     file ["supabase"; "migrations"; "002.sql"] migration_text;
     file ["supabase"; "migrations"; "003.sql"] migration_text;
     file ["supabase"; "migrations"; "004.sql"] migration_text;
     file ["supabase"; "migrations"; "005.sql"] migration_text].

(** One migration that is not valid UTF-8, beside a code file. *)
Definition undecodable_migration : tree :=
  Present
    [file ["src"; "app.ts"] "export const consent = true";
     {| path := ["supabase"; "migrations"; "001.sql"]; what := Undecodable |}].

(** The same code file, with the undecodable file among the code files. *)
Definition undecodable_code : tree :=
  Present
    [file ["src"; "app.ts"] "export const consent = true";
     {| path := ["src"; "blob.ts"]; what := Undecodable |}].

(** Two trees that differ in what is not scanned. *)
Definition scanned_once : tree :=
  Present [file ["src"; "app.ts"] "const Consentimento = oauth2"].

Definition scanned_twice : tree :=
  Present
    [file ["NOTES.txt"] "pix encryption audit";
     file ["lib"; "deep"; "main.ts"] "const Consentimento = oauth2";
     {| path := ["assets"]; what := Dir |}].

(** A root with no scanned file and no probed path. *)
Definition unscanned : tree := Present [file ["LICENSE"] "consentimento pix"].

(** One file that mentions consent and nothing else. *)
Definition consent_only : tree := Present [file ["app.py"] "CONSENT"].

Definition consent_in_code : tree :=
  Present [file ["src"; "form.tsx"] "<label>Termo de CONSENTIMENTO</label>"].



Fixpoint repeat_entry (e : entry) (n : nat) : list entry :=
  match n with
  | O => []
  | S n' => e :: repeat_entry e n'
  end.

(** Fifty files without a pattern, then one with. *)
Definition fifty_one : list entry :=
  (repeat_entry (file ["a.py"] "x = 1") 50 ++ [file ["z.py"] "pix"])%list.

Definition scores (a b c d : Z) : Aegis.results :=
  Aegis.on_security (fun x => Aegis.with_score x d)
    (Aegis.on_openbanking (fun x => Aegis.with_score x c)
       (Aegis.on_pix (fun x => Aegis.with_score x b)
          (Aegis.on_lgpd (fun x => Aegis.with_score x a) Aegis.init))).

End Sample.

(** *** What the further properties speak of *)

From Stdlib Require Import Permutation.

Module PerfReport.

(** [print_results], text mode: the label printed beside the overall score. *)
Definition status (score : Q) : string :=
  if Qle_bool 90 score then "EXCELLENT"
  else if Qle_bool 80 score then "GOOD"
  else if Qle_bool 70 score then "FAIR"
  else "NEEDS IMPROVEMENT".

End PerfReport.

(** What an audit stores for its category, from its local variables. *)
Definition stored (a : Perf.local) : Perf.category :=
  {| Perf.score := Z.max 0 (Perf.sc a);
     Perf.issues := Perf.iss a;
     Perf.recommendations := Perf.recs a |}.

(** The results after the six audits of a fresh auditor, from the local
    variables each audit ends with. *)
Definition assembled (a1 a2 a3 a4 a5 a6 : Perf.local) : Perf.results :=
  Perf.calculate_overall_score
    {| Perf.overall_score := 0;
       Perf.checks_performed := map Perf.key_name Perf.keys;
       Perf.voice_performance := stored a1;
       Perf.bundle_optimization := stored a2;
       Perf.database_performance := stored a3;
       Perf.realtime_performance := stored a4;
       Perf.mobile_optimization := stored a5;
       Perf.core_web_vitals := stored a6 |}.

(** A deduction and its messages go together: the score falls exactly when a
    recommendation is added, and no issue comes without a recommendation. *)
Definition tracks (a a' : Perf.local) : Prop :=
  Perf.sc a' <= Perf.sc a
  /\ (length (Perf.recs a) <= length (Perf.recs a'))%nat
  /\ (Perf.sc a' = Perf.sc a <-> length (Perf.recs a') = length (Perf.recs a))
  /\ (length (Perf.iss a') + length (Perf.recs a)
      <= length (Perf.iss a) + length (Perf.recs a'))%nat.

(** The sum of the six category scores. *)
Definition total_score (r : Perf.results) : Z :=
  Perf.sum (map (fun k => Perf.score (Perf.lookup k r)) Perf.keys).

(** A computation that returns from every state. *)
Definition returns {S A} (m : M S A) : Prop :=
  forall s, exists a s', m s = Returned (a, s').

(** The checks a run of the compliance validator goes through: the value of
    [--check], or all four. *)
Definition selected (checks : option (list string)) : list string :=
  match checks with
  | None | Some [] => Aegis.all_checks
  | Some cs => cs
  end.

Module Project.

(** A package directory whose name ends in [.js], as under [node_modules],
    beside a source file. *)
Definition package_directory : tree :=
  Present
    [Sample.file ["src"; "app.ts"] "export const consent = true";
     {| path := ["node_modules"; "chart.js"]; what := Dir |};
     Sample.file ["node_modules"; "chart.js"; "package.json"] "{}"].

(** A directory whose name ends in [.ts]. *)
Definition script_directory : tree :=
  Present
    [{| path := ["src"; "legacy.ts"]; what := Dir |};
     Sample.file ["src"; "legacy.ts"; "index.tsx"] "export const consent = true"].

End Project.

(** [self.results['brazilian_compliance'][check]] *)
Definition category_of (check : string) (r : Aegis.results) : option Aegis.category :=
  if String.eqb check "lgpd" then Some (Aegis.lgpd r)
  else if String.eqb check "pix" then Some (Aegis.pix r)
  else if String.eqb check "openbanking" then Some (Aegis.openbanking r)
  else if String.eqb check "security" then Some (Aegis.security r)
  else None.

(** The name a check carries in its warning. *)
Definition label_of (check : string) : string :=
  if String.eqb check "lgpd" then "LGPD"
  else if String.eqb check "pix" then "PIX"
  else if String.eqb check "openbanking" then "Open Banking"
  else "Security".

(** The warning a category earns with a score. *)
Definition warning (label : string) (sc : Z) : list string :=
  if sc <? 70
  then [label ++ " compliance score: " ++ str_of_Z sc ++ "% (target: 70%+)"]
  else [].

Definition warning_of (r : Aegis.results) (check : string) : list string :=
  match category_of check r with
  | Some c => warning (label_of check) (Aegis.score c)
  | None => []
  end.

Definition known (check : string) : bool := existsb (String.eqb check) Aegis.all_checks.

(** The four categories of the fintech validator, by name. *)
Definition fintech_categories : list (Fintech.results -> Fintech.category) :=
  [Fintech.lgpd_compliance; Fintech.bcb_regulations; Fintech.data_protection;
   Fintech.financial_security].

(** Every suffix [_collect_source_files] globs for, in the order of its
    calls. *)
Definition collected_suffixes : list string :=
  (Fintech.extensions ++ [".json"; ".yaml"; ".yml"; ".md"; ".sql"])%list.

(** The sum of the four category scores. *)
Definition fintech_total (r : Fintech.results) : Z :=
  Fintech.sum (map (fun c => Fintech.score (c r)) fintech_categories).

(** A field of the state that a step leaves as it was. *)
Definition preserved {S B} (proj : S -> B) (s s' : S) : Prop := proj s' = proj s.

(** A flag of the analyzer that stays as [__init__] sets it. *)
Definition stays_unset (key : string) (s s' : Voice.results) : Prop :=
  In (key, false) (Voice.performance_patterns s) ->
  In (key, false) (Voice.performance_patterns s').

Module VoiceSample.

(** A component that holds every pattern the analyzer counts. *)
Definition recognizer : string :=
  "const r = new webkitSpeechRecognition(); r.start(); r.onresult = x;" ++ nl
  ++ "VAD detectSpeech speechSynthesis speak() isListening transcript" ++ nl
  ++ "auto stop timeout" ++ nl
  ++ "useMemo useCallback await Promise try { } catch onError performance.now() metrics" ++ nl
  ++ "pt-BR pix boleto beleza mano sp rio de janeiro" ++ nl
  ++ "clearInterval clearTimeout cleanup dispose unsubscribe removeEventListener" ++ nl
  ++ "cancelAnimationFrame componentWillUnmount useRef WeakMap useRef RefObject finalize" ++ nl
  ++ "useQuery staleTime cache voice localStorage".

Definition project : tree :=
  Present [Sample.file ["src"; "voice"; "recognizer.ts"] recognizer].

(** A path printed below a root directory. *)
Definition str (e : entry) : string := "app/" ++ String.concat "/" (path e).

End VoiceSample.

(** A relation between states that every step of the analyses respects,
    short of recording an optimization and of setting the flag
    [regional_adaptation]. *)
Definition stable (P : Voice.results -> Voice.results -> Prop) : Prop :=
  (forall s, P s s)
  /\ (forall a b c, P a b -> P b c -> P a c)
  /\ (forall msg s, P s (Analyzer.add_issue msg s))
  /\ (forall msg s, P s (Analyzer.add_recommendation msg s))
  /\ (forall key s, P s (Analyzer.set_brazilian_pattern key s))
  /\ (forall key s, key <> "regional_adaptation" ->
                    P s (Analyzer.set_performance_pattern key s)).

(** What a regular expression matches: [matches ic r s] when [r] matches the
    whole of [s], ignoring case with [ic]. *)
Inductive matches (ic : bool) : Re.regex -> string -> Prop :=
| MEps : matches ic Re.Eps ""
| MDot c : (code c =? 10)%N = false -> matches ic Re.Dot (String c "")
| MClass items c :
    existsb (fun it => Re.citem_matches ic it c) items = true ->
    matches ic (Re.Class items) (String c "")
| MCat r1 r2 s1 s2 :
    matches ic r1 s1 -> matches ic r2 s2 -> matches ic (Re.Cat r1 r2) (s1 ++ s2)
| MAltL r1 r2 s : matches ic r1 s -> matches ic (Re.Alt r1 r2) s
| MAltR r1 r2 s : matches ic r2 s -> matches ic (Re.Alt r1 r2) s
| MStar0 r : matches ic (Re.Star r) ""
| MStarS r s1 s2 :
    matches ic r s1 -> matches ic (Re.Star r) s2 -> matches ic (Re.Star r) (s1 ++ s2).

(** [r] matches somewhere in [s]. *)
Definition matches_within (ic : bool) (r : Re.regex) (s : string) : Prop :=
  exists a p b, s = a ++ p ++ b /\ matches ic r p.

(** Some pattern of [patterns] matches, ignoring case, in some file of [files]
    that can be read. *)
Definition matched_in (files : list entry) (patterns : list string) : Prop :=
  exists pattern file text,
    In pattern patterns /\ In file files /\ read file = Returned text
    /\ Re.search_i pattern text = true.

Module Listing.

(** [n] source files without a pattern, each with a name of its own. *)
Fixpoint filler (n : nat) : list entry :=
  match n with
  | O => []
  | S n' =>
      (filler n'
       ++ [Sample.file ["src"; ("module" ++ str_of_Z (Z.of_nat n') ++ ".py")%string] "x = 1"])%list
  end.

Definition payments : entry := Sample.file ["src"; "payments.py"] "def send_pix(): pass".

(** Fifty-one files, listed in two orders. *)
Definition payments_last : tree := Present (filler 50 ++ [payments]).
Definition payments_first : tree := Present (payments :: filler 50).

End Listing.

(** Whatever [m] returns, [m'] returns too, from the same state. *)
Definition carries_over {S A} (m m' : M S A) : Prop :=
  forall s out, m s = Returned out -> m' s = Returned out.

(** The order in which a loop body sees two files does not matter. *)
Definition commutes {A} (body : string -> A -> A) : Prop :=
  forall c c' acc, body c (body c' acc) = body c' (body c acc).

(** No read of [files] raises what the loops do not catch. *)
Definition all_caught (files : list entry) : Prop :=
  forall f e, In f files -> read f = Raised e -> caught e = true.

(** What [first_match_try] looks for in one file. *)
Definition satisfies (test : string -> bool) (f : entry) : bool :=
  match read f with
  | Returned content => test content
  | Raised _ => false
  end.

Module Backwards.

(** The entries of [Sample.scanned_twice], listed backwards. *)
Definition scanned_backwards : tree :=
  Present
    [{| path := ["assets"]; what := Dir |};
     Sample.file ["lib"; "deep"; "main.ts"] "const Consentimento = oauth2";
     Sample.file ["NOTES.txt"] "pix encryption audit"].

Definition binary : entry :=
  {| path := ["supabase"; "migrations"; "001_dump.sql"]; what := Undecodable |}.

Definition locked : entry :=
  {| path := ["supabase"; "migrations"; "002_keys.sql"]; what := Unreadable |}.

(** Two migrations that cannot be read, each for a reason of its own, in both
    orders. *)
Definition binary_first : tree := Present [binary; locked].
Definition locked_first : tree := Present [locked; binary].

End Backwards.

(** A read of [f] raises what the loops do not catch. *)
Definition escapes (f : entry) : bool :=
  match read f with
  | Raised e => negb (caught e)
  | Returned _ => false
  end.

(** What the loop over the migrations looks for. *)
Definition creates_index (content : string) : bool :=
  contains "CREATE INDEX" content || contains "CREATE UNIQUE INDEX" content.

(** Every migration of [t] can be read. *)
Definition migrations_readable (t : tree) : Prop :=
  forall f, In f (glob ["supabase"; "migrations"] ".sql" t) ->
            exists text, read f = Returned text.

Module Migrations.

Definition indexed : entry :=
  Sample.file ["supabase"; "migrations"; "001_init.sql"]
    "CREATE INDEX idx_user ON transactions (user_id);".

Definition binary : entry :=
  {| path := ["supabase"; "migrations"; "002_dump.sql"]; what := Undecodable |}.

(** Two migrations, the second of them not valid UTF-8, in both orders. *)
Definition indexed_first : tree := Present [indexed; binary].
Definition binary_first : tree := Present [binary; indexed].

End Migrations.

Module Components.

Definition hook : entry :=
  Sample.file ["src"; "hooks"; "useVoice.ts"]
    "const { transcript, isListening } = useMemo(() => speechSynthesis, [])".

Definition cache : entry :=
  Sample.file ["src"; "lib"; "voiceCache.tsx"] "await queryClient.cache(voice)".

Definition blob : entry := {| path := ["src"; "speech.ts"]; what := Undecodable |}.

(** Three components, one of them not valid UTF-8, in two orders. *)
Definition listed : tree := Present [hook; cache; blob].
Definition relisted : tree := Present [blob; cache; hook].

End Components.

(** [t'] holds the entries of [t] and possibly more, in any order. *)
Definition grown (t t' : tree) : Prop :=
  exists extra, Permutation.Permutation (entries t') (entries t ++ extra).

(** A flag that is set stays set. *)
Definition stays_set (b b' : bool) : Prop := b = true -> b' = true.

Definition flags3_stay_set (f f' : bool * bool * bool) : Prop :=
  let '(a, b, c) := f in
  let '(a', b', c') := f' in
  stays_set a a' /\ stays_set b b' /\ stays_set c c'.

Definition flags4_stay_set (f f' : bool * bool * bool * bool) : Prop :=
  let '(a, b, c, d) := f in
  let '(a', b', c', d') := f' in
  stays_set a a' /\ stays_set b b' /\ stays_set c c' /\ stays_set d d'.

(** No category scores lower in [r'] than in [r]. *)
Definition scores_no_lower (r r' : Aegis.results) : Prop :=
  Aegis.score (Aegis.lgpd r) <= Aegis.score (Aegis.lgpd r')
  /\ Aegis.score (Aegis.pix r) <= Aegis.score (Aegis.pix r')
  /\ Aegis.score (Aegis.openbanking r) <= Aegis.score (Aegis.openbanking r')
  /\ Aegis.score (Aegis.security r) <= Aegis.score (Aegis.security r').

Module Growth.

Definition vault : entry :=
  Sample.file ["src"; "vault.ts"]
    "aes256 cipher; audit_log(entry); role_based guard; data_masking(card)".

Definition contact : entry :=
  Sample.file ["src"; "contact.ts"] "const email = form.value".

(** A project with its security in place, before and after a contact form
    is added. *)
Definition secure : tree := Present [vault].
Definition with_contact : tree := Present [vault; contact].

End Growth.

Module Crowd.

Definition setup : entry := Sample.file ["setup.py"] "from setuptools import setup".

(** Fifty files, the last of which mentions PIX, before and after a setup
    script is listed in front of them. *)
Definition fifty : tree := Present (Listing.filler 49 ++ [Listing.payments]).
Definition fifty_and_setup : tree :=
  Present (setup :: Listing.filler 49 ++ [Listing.payments]).

End Crowd.

(** The keys of a dictionary of flags that are set. *)
Definition set_keys (d : list (string * bool)) : list string := map fst (filter snd d).

(** What the analyses of a larger tree leave, [s'], beside what those of a
    smaller tree leave, [s]: every flag set in [s] is set in [s'], [s'] records
    at least as many optimizations, and it has no issue unless [s] has one. *)
Definition no_worse (s s' : Voice.results) : Prop :=
  NoDup (map fst (Voice.performance_patterns s))
  /\ NoDup (map fst (Voice.brazilian_patterns s))
  /\ incl (set_keys (Voice.performance_patterns s)) (set_keys (Voice.performance_patterns s'))
  /\ incl (set_keys (Voice.brazilian_patterns s)) (set_keys (Voice.brazilian_patterns s'))
  /\ (length (Voice.optimizations_found s) <= length (Voice.optimizations_found s'))%nat
  /\ (Voice.issues s = [] -> Voice.issues s' = [])
  /\ Voice.target_ms s = Voice.target_ms s'.

(** * Properties *)

(** ** The patterns *)

Lemma every_pattern_compiles :
  forallb (fun p => match Re.compile p with Some _ => true | None => false end)
          (Aegis.all_patterns ++ Perf.all_patterns) = true.
Proof. vm_compute. reflexivity. Qed.

(** ** Invariants of monadic code *)

Section Keeps.
Context {S : Type} (P : S -> S -> Prop).
Hypothesis P_refl : forall s, P s s.
Hypothesis P_trans : forall a b c, P a b -> P b c -> P a c.

Lemma keeps_ret {A} (a : A) : keeps P (ret a).
Proof. intros s a' s' H. inversion H. subst. apply P_refl. Qed.

Lemma keeps_lift {A} (o : outcome A) : keeps P (lift o).
Proof.
  intros s a s' H. unfold lift in H. destruct o; inversion H. subst. apply P_refl.
Qed.

Lemma keeps_get : keeps P get.
Proof. intros s a s' H. inversion H. subst. apply P_refl. Qed.

Lemma keeps_modify (f : S -> S) : (forall s, P s (f s)) -> keeps P (modify f).
Proof. intros Hf s a s' H. inversion H. subst. apply Hf. Qed.

Lemma keeps_bind {A B} (m : M S A) (k : A -> M S B) :
  keeps P m -> (forall a, keeps P (k a)) -> keeps P (bind m k).
Proof.
  intros Hm Hk s b s' H. unfold bind in H.
  destruct (m s) as [e | [a s1]] eqn:E; [discriminate|].
  apply (P_trans _ s1); [exact (Hm _ _ _ E) | exact (Hk _ _ _ _ H)].
Qed.
End Keeps.

Ltac keeps_step refl trans :=
  first
    [ apply (keeps_bind _ trans); [| intros ]
    | apply (keeps_ret _ refl)
    | apply (keeps_lift _ refl)
    | apply (keeps_get _ refl)
    | match goal with
      | |- keeps _ (let '(_, _) := ?x in _) => destruct x
      | |- keeps _ (if ?b then _ else _) => destruct b
      | |- keeps _ (match ?x with _ => _ end) => destruct x
      end ].

(** A run that returns, taken apart. *)

Lemma bind_returns {S A B} (m : M S A) (k : A -> M S B) s b s' :
  bind m k s = Returned (b, s') ->
  exists a s1, m s = Returned (a, s1) /\ k a s1 = Returned (b, s').
Proof.
  unfold bind. destruct (m s) as [e | [a s1]]; [discriminate|].
  intros H. exists a, s1. split; [reflexivity | exact H].
Qed.

Lemma lift_returns {S A} (o : outcome A) (s : S) a s' :
  lift o s = Returned (a, s') -> o = Returned a /\ s' = s.
Proof. unfold lift. destruct o; [discriminate|]. intros H. injection H as -> ->. auto. Qed.

Lemma modify_returns {S} (f : S -> S) s u s' :
  modify f s = Returned (u, s') -> s' = f s.
Proof. unfold modify. intros H. injection H as _ <-. reflexivity. Qed.

(** ** Steps of the compliance validator *)

(** What a step leaves as it was. *)

Section Unchanged.
Context {B : Type} (proj : Aegis.results -> B).

Lemma unchanged_refl s : unchanged proj s s.
Proof. reflexivity. Qed.

Lemma unchanged_trans a b c :
  unchanged proj a b -> unchanged proj b c -> unchanged proj a c.
Proof. unfold unchanged. congruence. Qed.

Lemma check_unchanged found w missing sc :
  (forall s, unchanged proj s (missing s)) ->
  keeps (unchanged proj) (Aegis.check found w missing sc).
Proof.
  intros H. unfold Aegis.check. destruct found.
  - apply keeps_ret, unchanged_refl.
  - apply (keeps_bind _ unchanged_trans); [apply keeps_modify, H|].
    intros. apply keeps_ret, unchanged_refl.
Qed.

Lemma warn_unchanged label sc :
  (forall msg s, unchanged proj s (Aegis.add_warning msg s)) ->
  keeps (unchanged proj) (Aegis.warn_below_70 label sc).
Proof.
  intros H. unfold Aegis.warn_below_70. destruct (sc <? 70).
  - apply keeps_modify. intros s. apply H.
  - apply keeps_ret, unchanged_refl.
Qed.
End Unchanged.

Ltac frame_tac proj :=
  repeat first
    [ apply (check_unchanged proj); intros; reflexivity
    | apply (warn_unchanged proj); intros; reflexivity
    | apply keeps_modify; intros; reflexivity
    | keeps_step (unchanged_refl proj) (unchanged_trans proj) ].

(** What a check returns, and what it does to a score of the results that
    the report of a miss leaves alone. *)
Lemma check_returns found w missing sc s sc' s' :
  Aegis.check found w missing sc s = Returned (sc', s') ->
  sc' = sc + points found w /\ s' = (if found then s else missing s).
Proof.
  unfold Aegis.check, points. destruct found.
  - intros H. injection H as <- <-. auto.
  - unfold bind, modify, ret. intros H. injection H as <- <-. split; [lia | reflexivity].
Qed.

Lemma warn_returns label sc s u s' :
  Aegis.warn_below_70 label sc s = Returned (u, s') ->
  Aegis.lgpd s' = Aegis.lgpd s /\ Aegis.pix s' = Aegis.pix s
  /\ Aegis.openbanking s' = Aegis.openbanking s /\ Aegis.security s' = Aegis.security s.
Proof.
  unfold Aegis.warn_below_70. destruct (sc <? 70); intros H.
  - apply modify_returns in H. subst. repeat split.
  - injection H as _ <-. repeat split.
Qed.

Lemma lgpd_frame t :
  keeps (unchanged Aegis.pix) (Aegis.validate_lgpd_compliance t)
  /\ keeps (unchanged Aegis.openbanking) (Aegis.validate_lgpd_compliance t)
  /\ keeps (unchanged Aegis.security) (Aegis.validate_lgpd_compliance t).
Proof.
  unfold Aegis.validate_lgpd_compliance.
  split; [frame_tac Aegis.pix | split; [frame_tac Aegis.openbanking | frame_tac Aegis.security]].
Qed.

Lemma pix_frame t :
  keeps (unchanged Aegis.lgpd) (Aegis.validate_pix_compliance t)
  /\ keeps (unchanged Aegis.openbanking) (Aegis.validate_pix_compliance t)
  /\ keeps (unchanged Aegis.security) (Aegis.validate_pix_compliance t).
Proof.
  unfold Aegis.validate_pix_compliance.
  split; [frame_tac Aegis.lgpd | split; [frame_tac Aegis.openbanking | frame_tac Aegis.security]].
Qed.

Lemma openbanking_frame t :
  keeps (unchanged Aegis.lgpd) (Aegis.validate_openbanking_compliance t)
  /\ keeps (unchanged Aegis.pix) (Aegis.validate_openbanking_compliance t)
  /\ keeps (unchanged Aegis.security) (Aegis.validate_openbanking_compliance t).
Proof.
  unfold Aegis.validate_openbanking_compliance.
  split; [frame_tac Aegis.lgpd | split; [frame_tac Aegis.pix | frame_tac Aegis.security]].
Qed.

Lemma security_frame t :
  keeps (unchanged Aegis.lgpd) (Aegis.validate_brazilian_security t)
  /\ keeps (unchanged Aegis.pix) (Aegis.validate_brazilian_security t)
  /\ keeps (unchanged Aegis.openbanking) (Aegis.validate_brazilian_security t).
Proof.
  unfold Aegis.validate_brazilian_security.
  split; [frame_tac Aegis.lgpd | split; [frame_tac Aegis.pix | frame_tac Aegis.openbanking]].
Qed.

(** ** The validity flag *)

Lemma run_check_keeps_valid t c : keeps (unchanged Aegis.valid) (Aegis.run_check t c).
Proof.
  unfold Aegis.run_check.
  destruct (c =? "lgpd")%string;
    [unfold Aegis.validate_lgpd_compliance; frame_tac Aegis.valid|].
  destruct (c =? "pix")%string;
    [unfold Aegis.validate_pix_compliance; frame_tac Aegis.valid|].
  destruct (c =? "openbanking")%string;
    [unfold Aegis.validate_openbanking_compliance; frame_tac Aegis.valid|].
  destruct (c =? "security")%string;
    [unfold Aegis.validate_brazilian_security; frame_tac Aegis.valid|].
  frame_tac Aegis.valid.
Qed.

Lemma run_checks_keeps_valid t cs : keeps (unchanged Aegis.valid) (Aegis.run_checks t cs).
Proof.
  induction cs as [| c cs IH]; simpl.
  - apply keeps_ret, unchanged_refl.
  - apply (keeps_bind _ (unchanged_trans _));
      [apply run_check_keeps_valid | intros; exact IH].
Qed.

Lemma validate_all_inv t checks r0 r s :
  Aegis.validate_all t checks r0 = Returned (r, s) ->
  exists r1, r = Aegis._calculate_overall_score r1 /\ Aegis.valid r1 = Aegis.valid r0.
Proof.
  unfold Aegis.validate_all. intros H. unfold bind in H.
  destruct (Aegis.run_checks t _ r0) as [e | [u r1]] eqn:E; [discriminate|].
  simpl in H. inversion H. subst. exists r1. split; [reflexivity|].
  exact (run_checks_keeps_valid _ _ _ _ _ E).
Qed.

Lemma calc_valid r :
  Aegis.valid (Aegis._calculate_overall_score r)
  = Aegis.valid r && (70 <=? Aegis.compliance_score (Aegis._calculate_overall_score r)).
Proof.
  unfold Aegis._calculate_overall_score. simpl.
  destruct (_ <? 70) eqn:E.
  - apply Z.ltb_lt in E. replace (70 <=? _) with false; [now rewrite andb_false_r|].
    symmetry. apply Z.leb_gt. exact E.
  - apply Z.ltb_ge in E. replace (70 <=? _) with true; [now rewrite andb_true_r|].
    symmetry. apply Z.leb_le. exact E.
Qed.

(** C4.  Validity is "overall score at least 70".  In the compliance
    validator [_calculate_overall_score] clears [valid] exactly when the score
    is below 70, and a run that reports exits with 0 exactly when the score is
    at least 70; a score of 69 is invalid with exit status 1, a score of 70 is
    valid with exit status 0.  The performance audit exits with 0 exactly when
    its overall score is at least 70. *)
Theorem valid_iff_score_at_least_70 :
  (forall r,
     Aegis.valid (Aegis._calculate_overall_score r)
     = Aegis.valid r && (70 <=? Aegis.compliance_score (Aegis._calculate_overall_score r)))
  /\ (forall t checks r code,
        Aegis.main t checks = Aegis.Report r code ->
        Aegis.valid r = (70 <=? Aegis.compliance_score r)
        /\ code = if 70 <=? Aegis.compliance_score r then 0 else 1)
  /\ (Aegis.compliance_score (Aegis._calculate_overall_score (Sample.scores 69 0 0 0)) = 69
      /\ Aegis.valid (Aegis._calculate_overall_score (Sample.scores 69 0 0 0)) = false
      /\ Aegis.exit_code (Aegis._calculate_overall_score (Sample.scores 69 0 0 0)) = 1)
  /\ (Aegis.compliance_score (Aegis._calculate_overall_score (Sample.scores 70 0 0 0)) = 70
      /\ Aegis.valid (Aegis._calculate_overall_score (Sample.scores 70 0 0 0)) = true
      /\ Aegis.exit_code (Aegis._calculate_overall_score (Sample.scores 70 0 0 0)) = 0)
  /\ (forall r, (Perf.overall_score r == 69)%Q -> Perf.exit_code r = 1)
  /\ (forall r, (Perf.overall_score r == 70)%Q -> Perf.exit_code r = 0)
  /\ (forall r, Perf.exit_code r = 0 <-> (70 <= Perf.overall_score r)%Q)
  /\ (forall t r code,
        Perf.main t = Perf.Report r code ->
        code = if Qle_bool 70 (Perf.overall_score r) then 0 else 1).
Proof.
  split; [exact calc_valid|].
  split.
  { intros t checks r code H. unfold Aegis.main in H.
    destruct (Aegis.validate_all t checks Aegis.init) as [e | [r' s]] eqn:E;
      [discriminate|].
    inversion H. subst r' code. clear H.
    destruct (validate_all_inv _ _ _ _ _ E) as [r1 [-> Hv]].
    rewrite calc_valid, Hv. simpl.
    split; [reflexivity|]. unfold Aegis.exit_code. rewrite calc_valid, Hv. simpl.
    reflexivity. }
  split; [repeat split|]. split; [repeat split|].
  split.
  { intros r H. unfold Perf.exit_code.
    replace (Qle_bool 70 (Perf.overall_score r)) with false; [reflexivity|].
    symmetry. destruct (Qle_bool 70 _) eqn:E; [|reflexivity].
    apply Qle_bool_iff in E. rewrite H in E. exfalso. now apply E. }
  split.
  { intros r H. unfold Perf.exit_code.
    replace (Qle_bool 70 (Perf.overall_score r)) with true; [reflexivity|].
    symmetry. apply Qle_bool_iff. rewrite H. apply Qle_refl. }
  split.
  { intros r. unfold Perf.exit_code. destruct (Qle_bool 70 _) eqn:E.
    - split; [intros _; now apply Qle_bool_iff | reflexivity].
    - split; [discriminate|]. intros H. apply Qle_bool_iff in H. congruence. }
  intros t r code H. unfold Perf.main in H.
  destruct (Perf.audit_all t Perf.init) as [e | [r' s]]; [discriminate|].
  inversion H. reflexivity.
Qed.

Lemma valid_iff_score_at_least_70_witness :
  exists r,
    Aegis.main Sample.scanned_once None = Aegis.Report r 1
    /\ Aegis.valid r = (70 <=? Aegis.compliance_score r)
    /\ 1 = (if 70 <=? Aegis.compliance_score r then 0 else 1).
Proof.
  eexists. split; [vm_compute; reflexivity|].
  apply (proj1 (proj2 valid_iff_score_at_least_70) Sample.scanned_once None).
  vm_compute. reflexivity.
Defined.

(** ** Two runs that do not stay within the contract *)

(** C1.  An accrual category can leave the range 0..100: the loops of
    [validate_lgpd_compliance] and [validate_pix_compliance] over the
    migrations add their weights once per file, and nothing clamps the sum
    (each method sets [max_score = 100] and never reads it).  With five
    migrations that hold every field, the LGPD category scores 125, the PIX
    category 250, and the overall score is 187. *)
Theorem migrations_push_scores_past_100 :
  exists r,
    Aegis.main Sample.five_migrations None = Aegis.Report r 0
    /\ Aegis.score (Aegis.lgpd r) = 125
    /\ Aegis.score (Aegis.pix r) = 250
    /\ Aegis.compliance_score r = 187.
Proof.
  eexists. split; [vm_compute; reflexivity|]. repeat split.
Qed.

(** C6.  A migration that does not decode is not skipped: the loops of
    [validate_lgpd_compliance] and [validate_pix_compliance] over the
    migrations read without [try], as does the loop of
    [audit_database_performance], so [UnicodeDecodeError] leaves the scan and
    no report is printed.  The same file among the code files is skipped, and
    the run reports. *)
Theorem undecodable_migration_aborts_the_run :
  Aegis.main Sample.undecodable_migration None = Aegis.Crash UnicodeDecodeError
  /\ Aegis.validate_lgpd_compliance Sample.undecodable_migration Aegis.init
     = Raised UnicodeDecodeError
  /\ Aegis.validate_pix_compliance Sample.undecodable_migration Aegis.init
     = Raised UnicodeDecodeError
  /\ Perf.main Sample.undecodable_migration = Perf.Crash UnicodeDecodeError
  /\ exists r, Aegis.main Sample.undecodable_code None = Aegis.Report r 1.
Proof.
  repeat split; try (vm_compute; reflexivity).
  eexists. vm_compute. reflexivity.
Qed.

(** ** The estimated response time *)

Lemma Qle_bool_false (a b : Q) : (b < a)%Q -> Qle_bool a b = false.
Proof.
  intros H. destruct (Qle_bool a b) eqn:E; [|reflexivity].
  apply Qle_bool_iff in E. exfalso. exact (Qlt_not_le _ _ H E).
Qed.

Lemma Qle_bool_true (a b : Q) : (a <= b)%Q -> Qle_bool a b = true.
Proof. apply Qle_bool_iff. Qed.

Lemma estimate_first_match (s : Q) :
  Voice.estimate s = Voice.first_match Voice.step_table 350 s.
Proof. reflexivity. Qed.

Lemma estimate_compat (s1 s2 : Q) : (s1 == s2)%Q -> Voice.estimate s1 = Voice.estimate s2.
Proof.
  intros H. unfold Voice.estimate.
  assert (E : forall b, Qle_bool b s1 = Qle_bool b s2).
  { intros b. apply Qleb_comp; [reflexivity | exact H]. }
  now rewrite !E.
Qed.

(** C5.  The estimated voice response time is the first match of the step
    table (90, 150), (80, 180), (70, 220), (60, 280), with 350 below every
    bound, looked up at the performance score; two runs with the same score
    get the same estimate. *)
Theorem response_time_is_a_step_table_lookup :
  (forall r,
     Voice.voice_response_time (Voice.calculate_performance_score r)
     = Voice.first_match Voice.step_table 350
         (Voice.performance_score (Voice.calculate_performance_score r)))
  /\ (forall s, (90 <= s)%Q -> Voice.estimate s = 150)
  /\ (forall s, (80 <= s)%Q -> (s < 90)%Q -> Voice.estimate s = 180)
  /\ (forall s, (70 <= s)%Q -> (s < 80)%Q -> Voice.estimate s = 220)
  /\ (forall s, (60 <= s)%Q -> (s < 70)%Q -> Voice.estimate s = 280)
  /\ (forall s, (s < 60)%Q -> Voice.estimate s = 350)
  /\ (forall r1 r2,
        (Voice.performance_score (Voice.calculate_performance_score r1)
         == Voice.performance_score (Voice.calculate_performance_score r2))%Q ->
        Voice.voice_response_time (Voice.calculate_performance_score r1)
        = Voice.voice_response_time (Voice.calculate_performance_score r2)).
Proof.
  split; [intros r; reflexivity|].
  split; [intros s H; unfold Voice.estimate; now rewrite (Qle_bool_true _ _ H)|].
  split; [intros s H1 H2; unfold Voice.estimate;
          now rewrite (Qle_bool_false _ _ H2), (Qle_bool_true _ _ H1)|].
  split; [intros s H1 H2; unfold Voice.estimate;
          rewrite (Qle_bool_false 80 _ H2), (Qle_bool_true _ _ H1),
            (Qle_bool_false 90 s); [reflexivity|]; apply (Qlt_trans _ _ _ H2); reflexivity|].
  split; [intros s H1 H2; unfold Voice.estimate;
          rewrite (Qle_bool_false 70 _ H2), (Qle_bool_true _ _ H1),
            (Qle_bool_false 80 s), (Qle_bool_false 90 s); [reflexivity| |];
          apply (Qlt_trans _ _ _ H2); reflexivity|].
  split; [intros s H; unfold Voice.estimate;
          rewrite (Qle_bool_false 60 _ H), (Qle_bool_false 70 s),
            (Qle_bool_false 80 s), (Qle_bool_false 90 s); [reflexivity| | |];
          apply (Qlt_trans _ _ _ H); reflexivity|].
  intros r1 r2 H. exact (estimate_compat _ _ H).
Qed.

Lemma response_time_is_a_step_table_lookup_witness :
  (80 <= 85)%Q /\ (85 < 90)%Q /\ Voice.estimate 85 = 180.
Proof.
  assert (H1 : (80 <= 85)%Q) by (unfold Qle; simpl; lia).
  assert (H2 : (85 < 90)%Q) by (unfold Qlt; simpl; lia).
  split; [exact H1|]. split; [exact H2|].
  exact (proj1 (proj2 (proj2 response_time_is_a_step_table_lookup)) 85%Q H1 H2).
Defined.

(** ** A root that does not exist *)

Lemma run_check_nothing_to_scan c r :
  zero_scores r ->
  exists r', Aegis.run_check (Present []) c r = Returned (tt, r') /\ zero_scores r'.
Proof.
  intros (Ha & Hb & Hc & Hd). unfold Aegis.run_check.
  destruct (c =? "lgpd")%string;
    [eexists; split; [vm_compute; reflexivity | repeat split; assumption]|].
  destruct (c =? "pix")%string;
    [eexists; split; [vm_compute; reflexivity | repeat split; assumption]|].
  destruct (c =? "openbanking")%string;
    [eexists; split; [vm_compute; reflexivity | repeat split; assumption]|].
  destruct (c =? "security")%string;
    [eexists; split; [vm_compute; reflexivity | repeat split; assumption]|].
  eexists; split; [reflexivity | repeat split; assumption].
Qed.

Lemma run_checks_nothing_to_scan cs r :
  zero_scores r ->
  exists r', Aegis.run_checks (Present []) cs r = Returned (tt, r') /\ zero_scores r'.
Proof.
  revert r. induction cs as [| c cs IH]; intros r Hr; simpl.
  - exists r. split; [reflexivity | exact Hr].
  - destruct (run_check_nothing_to_scan c r Hr) as (r1 & E1 & H1).
    destruct (IH r1 H1) as (r2 & E2 & H2).
    exists r2. split; [| exact H2]. unfold bind. rewrite E1. exact E2.
Qed.

Lemma validate_all_unfold t checks r0 :
  Aegis.validate_all t checks r0
  = match Aegis.run_checks t (match checks with
                              | None | Some [] => Aegis.all_checks
                              | Some cs => cs
                              end) r0 with
    | Raised e => Raised e
    | Returned (_, r1) =>
        Returned (Aegis._calculate_overall_score r1, Aegis._calculate_overall_score r1)
    end.
Proof.
  unfold Aegis.validate_all, bind.
  destruct (Aegis.run_checks t _ r0) as [e | [u r1]]; reflexivity.
Qed.

Lemma main_nothing_to_scan checks :
  exists r, Aegis.main (Present []) checks = Aegis.Report r 1
            /\ Aegis.compliance_score r = 0 /\ Aegis.valid r = false.
Proof.
  unfold Aegis.main. rewrite validate_all_unfold.
  destruct (run_checks_nothing_to_scan
              (match checks with None | Some [] => Aegis.all_checks | Some cs => cs end)
              Aegis.init) as (r1 & E1 & Ha & Hb & Hc & Hd);
    [repeat split|].
  rewrite E1.
  assert (Hp : Aegis.positive_scores r1 = []).
  { unfold Aegis.positive_scores. now rewrite Ha, Hb, Hc, Hd. }
  assert (Hs : Aegis.compliance_score (Aegis._calculate_overall_score r1) = 0).
  { unfold Aegis._calculate_overall_score. rewrite Hp. reflexivity. }
  assert (Hv : Aegis.valid (Aegis._calculate_overall_score r1) = false).
  { unfold Aegis._calculate_overall_score. rewrite Hp. reflexivity. }
  exists (Aegis._calculate_overall_score r1).
  split; [| split; assumption].
  unfold Aegis.exit_code. now rewrite Hv.
Qed.

Lemma aegis_missing_is_empty checks :
  Aegis.main Missing checks = Aegis.main (Present []) checks.
Proof.
  unfold Aegis.main, Aegis.validate_all.
  assert (E : forall cs, Aegis.run_checks Missing cs = Aegis.run_checks (Present []) cs).
  { induction cs as [| c cs IH]; [reflexivity|]. simpl. rewrite IH. reflexivity. }
  now rewrite E.
Qed.

Lemma split_sep_plain name : contains "/" name = false -> Fintech.split_sep name = [name].
Proof.
  induction name as [| c rest IH]; [reflexivity|].
  cbn [contains startswith Fintech.split_sep]. rewrite Ascii.eqb_sym.
  destruct (Ascii.eqb c "/"); cbn [andb orb]; [discriminate|].
  intros H. now rewrite (IH H).
Qed.

Lemma path_str_plain name :
  contains "/" name = false -> name <> "" -> name <> "." ->
  Fintech.path_str name = name.
Proof.
  intros Hs He Hd. unfold Fintech.path_str, Fintech.parse_parts, Fintech.splitroot.
  assert (Hr : startswith "/" name = false).
  { destruct name as [| c rest]; [reflexivity|].
    cbn [contains] in Hs. now apply orb_false_elim in Hs. }
  rewrite Hr, (split_sep_plain name Hs). cbn [filter].
  destruct (String.eqb_spec name ""); [contradiction|].
  destruct (String.eqb_spec name "."); [contradiction|].
  cbn [negb andb String.concat append].
  destruct (String.eqb_spec name ""); [contradiction | reflexivity].
Qed.

(** C7, amended.  Only the validator of brazilian-fintech-compliance tests
    the root: on a root that does not exist [validate_project] returns the
    error record without collecting a file, and [main] prints one error line
    and exits with 1.  The line names the path as [Path] prints it: a name
    without a slash as it was typed, [nope/] and [./nope] as [nope].  The
    compliance validator and the performance audit of aegis-architect treat
    such a root as a tree without entries: every check runs, the report is
    printed, and the exit status is 1 because the overall score is below
    70. *)
Theorem missing_root_fails_fast_in_fintech_only :
  (forall path r,
     Fintech.validate_project path Missing r
     = Fintech.Error ("Project path not found: " ++ Fintech.path_str path))
  /\ (forall prog path,
        Fintech.main [prog; path] (fun _ => Missing)
        = Fintech.Failed ("Error: Project path not found: " ++ Fintech.path_str path) 1)
  /\ (forall name,
        contains "/" name = false -> name <> "" -> name <> "." ->
        Fintech.path_str name = name)
  /\ (Fintech.path_str "nope/" = "nope" /\ Fintech.path_str "./nope" = "nope"
      /\ Fintech.path_str "" = ".")
  /\ (forall checks, Aegis.main Missing checks = Aegis.main (Present []) checks)
  /\ (forall checks,
        exists r, Aegis.main Missing checks = Aegis.Report r 1
                  /\ Aegis.compliance_score r = 0)
  /\ Perf.main Missing = Perf.main (Present [])
  /\ (exists r, Perf.main Missing = Perf.Report r 1
                /\ Qeq_bool (Perf.overall_score r) (258 # 10) = true).
Proof.
  split; [reflexivity|]. split; [reflexivity|].
  split; [exact path_str_plain|].
  split; [repeat split; reflexivity|].
  split; [exact aegis_missing_is_empty|].
  split.
  { intros checks. rewrite aegis_missing_is_empty.
    destruct (main_nothing_to_scan checks) as (r & E & H0 & _).
    exists r. split; assumption. }
  split; [reflexivity|].
  eexists. split; [vm_compute; reflexivity | reflexivity].
Qed.

Lemma missing_root_fails_fast_in_fintech_only_witness :
  contains "/" "nope" = false
  /\ Fintech.path_str "nope" = "nope"
  /\ Fintech.main ["compliance-validator.py"; "nope"] (fun _ => Missing)
     = Fintech.Failed "Error: Project path not found: nope" 1.
Proof.
  split; [reflexivity|]. split.
  - apply (proj1 (proj2 (proj2 missing_root_fails_fast_in_fintech_only)) "nope");
      [reflexivity | discriminate | discriminate].
  - exact (proj1 (proj2 missing_root_fails_fast_in_fintech_only)
             "compliance-validator.py" "nope").
Defined.

Lemma missing_root_is_scanned_and_reported :
  (exists r,
     Aegis.main Missing None = Aegis.Report r 1
     /\ Aegis.checks_performed r = ["lgpd"; "pix"; "openbanking"; "security"]
     /\ length (Aegis.warnings r) = 4%nat)
  /\ (exists r,
        Perf.main Missing = Perf.Report r 1
        /\ Perf.checks_performed r
           = ["voice_performance"; "bundle_optimization"; "database_performance";
              "realtime_performance"; "mobile_optimization"; "core_web_vitals"]
        /\ map (fun k => Perf.score (Perf.lookup k r)) Perf.keys = [10; 10; 75; 35; 25; 0]).
Proof.
  split; eexists; (split; [vm_compute; reflexivity | split; reflexivity]).
Qed.

(** ** Loops read the files and nothing else *)

Lemma for_each_reads {A} (body : string -> A -> A) fs1 :
  forall fs2 acc, map read fs1 = map read fs2 ->
                  for_each body fs1 acc = for_each body fs2 acc.
Proof.
  induction fs1 as [| f fs1 IH]; intros [| g fs2] acc H; try discriminate.
  - reflexivity.
  - simpl in H. injection H as Hr Ht. simpl. rewrite Hr.
    destruct (read g); [reflexivity | apply IH, Ht].
Qed.

Lemma for_each_try_reads {A} (body : string -> A -> A) fs1 :
  forall fs2 acc, map read fs1 = map read fs2 ->
                  for_each_try body fs1 acc = for_each_try body fs2 acc.
Proof.
  induction fs1 as [| f fs1 IH]; intros [| g fs2] acc H; try discriminate.
  - reflexivity.
  - simpl in H. injection H as Hr Ht. simpl. rewrite Hr.
    destruct (read g) as [e | c]; [destruct (caught e); [apply IH, Ht | reflexivity]|].
    apply IH, Ht.
Qed.

Lemma first_match_try_reads test fs1 :
  forall fs2, map read fs1 = map read fs2 ->
              first_match_try test fs1 = first_match_try test fs2.
Proof.
  induction fs1 as [| f fs1 IH]; intros [| g fs2] H; try discriminate.
  - reflexivity.
  - simpl in H. injection H as Hr Ht. simpl. rewrite Hr.
    destruct (read g) as [e | c].
    + destruct (caught e); [apply IH, Ht | reflexivity].
    + destruct (test c); [reflexivity | apply IH, Ht].
Qed.

Lemma rls_reads_the_migrations t :
  Aegis._check_rls_implementation t
  = first_match_try
      (fun content => any (fun p => Re.search_i p content) Aegis.rls_patterns)
      (Aegis.migration_files t).
Proof.
  unfold Aegis._check_rls_implementation, Aegis.migration_files.
  destruct (exists_ t Aegis.supabase_dir); [|reflexivity].
  destruct (exists_ t Aegis.migrations_dir); reflexivity.
Qed.

Section AegisView.
Variables t1 t2 : tree.
Hypothesis same : View.aegis t1 = View.aegis t2.

Lemma same_code : map read (Aegis.code_files t1) = map read (Aegis.code_files t2).
Proof. unfold View.aegis in same. congruence. Qed.

Lemma same_migrations :
  map read (Aegis.migration_files t1) = map read (Aegis.migration_files t2).
Proof. unfold View.aegis in same. congruence. Qed.

Lemma same_privacy :
  any (exists_ t1) Aegis.privacy_policy_files = any (exists_ t2) Aegis.privacy_policy_files.
Proof. unfold View.aegis in same. congruence. Qed.

Lemma same_docs : any (exists_ t1) Aegis.ob_docs = any (exists_ t2) Aegis.ob_docs.
Proof. unfold View.aegis in same. congruence. Qed.

Lemma view_search_in_code pattern :
  Aegis._search_in_code t1 pattern = Aegis._search_in_code t2 pattern.
Proof. apply first_match_try_reads, same_code. Qed.

Lemma view_pix_endpoints patterns :
  Aegis.pix_endpoints_loop t1 patterns = Aegis.pix_endpoints_loop t2 patterns.
Proof.
  induction patterns as [| p ps IH]; [reflexivity|].
  simpl. rewrite view_search_in_code, IH. reflexivity.
Qed.

Lemma view_lgpd : Aegis.validate_lgpd_compliance t1 = Aegis.validate_lgpd_compliance t2.
Proof.
  unfold Aegis.validate_lgpd_compliance.
  rewrite !rls_reads_the_migrations.
  rewrite (for_each_reads Aegis.lgpd_migration _ _ 0 same_migrations).
  rewrite (for_each_try_reads Aegis.lgpd_code _ _ (false, false, false) same_code).
  rewrite (first_match_try_reads _ _ _ same_migrations).
  rewrite same_privacy. reflexivity.
Qed.

Lemma view_pix : Aegis.validate_pix_compliance t1 = Aegis.validate_pix_compliance t2.
Proof.
  unfold Aegis.validate_pix_compliance.
  rewrite (for_each_reads Aegis.pix_migration _ _ 0 same_migrations).
  rewrite (for_each_try_reads Aegis.pix_code _ _ (false, false, false) same_code).
  rewrite view_pix_endpoints. reflexivity.
Qed.

Lemma view_openbanking :
  Aegis.validate_openbanking_compliance t1 = Aegis.validate_openbanking_compliance t2.
Proof.
  unfold Aegis.validate_openbanking_compliance.
  rewrite (for_each_try_reads Aegis.ob_code _ _ (false, false, false, false) same_code).
  rewrite same_docs. reflexivity.
Qed.

Lemma view_security :
  Aegis.validate_brazilian_security t1 = Aegis.validate_brazilian_security t2.
Proof.
  unfold Aegis.validate_brazilian_security.
  rewrite (for_each_try_reads Aegis.security_code _ _ (false, false, false, false)
             same_code).
  reflexivity.
Qed.

Lemma view_run_checks checks : Aegis.run_checks t1 checks = Aegis.run_checks t2 checks.
Proof.
  induction checks as [| c cs IH]; [reflexivity|].
  simpl. rewrite IH. unfold Aegis.run_check.
  rewrite view_lgpd, view_pix, view_openbanking, view_security. reflexivity.
Qed.

Lemma view_main checks : Aegis.main t1 checks = Aegis.main t2 checks.
Proof. unfold Aegis.main, Aegis.validate_all. now rewrite view_run_checks. Qed.
End AegisView.

Lemma concat_contents_reads fs1 :
  forall fs2 content, map read fs1 = map read fs2 ->
                      Fintech.concat_contents fs1 content = Fintech.concat_contents fs2 content.
Proof.
  induction fs1 as [| f fs1 IH]; intros [| g fs2] content H; try discriminate.
  - reflexivity.
  - simpl in H. injection H as Hr Ht. simpl. rewrite Hr.
    destruct (read g); apply IH, Ht.
Qed.

Lemma fintech_validations_read_the_analysis fs1 fs2 r :
  Fintech._analyze_files_content fs1 = Fintech._analyze_files_content fs2 ->
  Fintech._validate_financial_security fs1
    (Fintech._validate_data_protection fs1
       (Fintech._validate_bcb_regulations fs1
          (Fintech._validate_lgpd_compliance fs1 r)))
  = Fintech._validate_financial_security fs2
      (Fintech._validate_data_protection fs2
         (Fintech._validate_bcb_regulations fs2
            (Fintech._validate_lgpd_compliance fs2 r))).
Proof.
  intros H.
  unfold Fintech._validate_financial_security, Fintech._validate_data_protection,
    Fintech._validate_bcb_regulations, Fintech._validate_lgpd_compliance.
  rewrite H. reflexivity.
Qed.

Lemma fintech_view_project t1 t2 path r :
  View.fintech t1 = View.fintech t2 ->
  Fintech.validate_project path t1 r = Fintech.validate_project path t2 r.
Proof.
  unfold View.fintech. intros H. injection H as Hroot Hreads.
  unfold Fintech.validate_project. rewrite Hroot.
  destruct (negb (root_exists t2)); [reflexivity|].
  cbv zeta. f_equal. f_equal.
  apply fintech_validations_read_the_analysis.
  unfold Fintech._analyze_files_content. apply concat_contents_reads, Hreads.
Qed.

(** C2.  The result of a run is a function of what the run reads of the
    tree: two trees with the same view (the outcomes of reading the scanned
    files in order, and whether the probed documents exist) give the same
    report, scores, lists and exit status alike.  A run starts from [init],
    so two runs over one unchanged tree agree. *)
Theorem result_is_a_function_of_what_is_scanned :
  (forall t1 t2 checks,
     View.aegis t1 = View.aegis t2 -> Aegis.main t1 checks = Aegis.main t2 checks)
  /\ (forall t1 t2 path,
        View.fintech t1 = View.fintech t2 ->
        Fintech.validate_project path t1 Fintech.init
        = Fintech.validate_project path t2 Fintech.init)
  /\ (forall resolve1 resolve2 argv,
        (forall path, View.fintech (resolve1 path) = View.fintech (resolve2 path)) ->
        Fintech.main argv resolve1 = Fintech.main argv resolve2).
Proof.
  split; [intros t1 t2 checks H; exact (view_main t1 t2 H checks)|].
  split; [intros t1 t2 path H; exact (fintech_view_project t1 t2 path _ H)|].
  intros resolve1 resolve2 argv H.
  destruct argv as [| prog [| path [| x rest]]]; try reflexivity.
  unfold Fintech.main. now rewrite (fintech_view_project _ _ path _ (H path)).
Qed.

Lemma result_is_a_function_of_what_is_scanned_witness :
  Sample.scanned_once <> Sample.scanned_twice
  /\ Aegis.main Sample.scanned_once None = Aegis.main Sample.scanned_twice None
  /\ Fintech.validate_project "app" Sample.scanned_once Fintech.init
     = Fintech.validate_project "app" Sample.scanned_twice Fintech.init.
Proof.
  split; [discriminate|]. split.
  - apply (proj1 result_is_a_function_of_what_is_scanned). reflexivity.
  - apply (proj1 (proj2 result_is_a_function_of_what_is_scanned)). reflexivity.
Defined.

(** ** An empty corpus *)









Ltac incl_tac :=
  let x := fresh in let Hx := fresh in
  intros x Hx; simpl in Hx; simpl;
  repeat (destruct Hx as [<- | Hx]; [tauto|]); contradiction.






(** ** Text *)

Lemma append_nil_r (s : string) : s ++ "" = s.
Proof. induction s as [| c s IH]; simpl; [reflexivity | now rewrite IH]. Qed.

Lemma append_assoc (a b c : string) : (a ++ b) ++ c = a ++ b ++ c.
Proof. induction a as [| x a IH]; simpl; [reflexivity | now rewrite IH]. Qed.

Lemma lower_append (a b : string) : lower (a ++ b) = lower a ++ lower b.
Proof. induction a as [| x a IH]; simpl; [reflexivity | now rewrite IH]. Qed.

Lemma lower_char_idempotent (c : ascii) : lower_char (lower_char c) = lower_char c.
Proof. destruct c as [[] [] [] [] [] [] [] []]; reflexivity. Qed.

Lemma lower_idempotent (s : string) : lower (lower s) = lower s.
Proof.
  induction s as [| c s IH]; simpl; [reflexivity|].
  now rewrite lower_char_idempotent, IH.
Qed.

Lemma startswith_append (w b : string) : startswith w (w ++ b) = true.
Proof.
  induction w as [| c w IH]; simpl; [reflexivity|].
  now rewrite Ascii.eqb_refl, IH.
Qed.

Lemma startswith_split (w s : string) :
  startswith w s = true -> exists b, s = w ++ b.
Proof.
  revert s. induction w as [| c w IH]; intros s H.
  - exists s. reflexivity.
  - destruct s as [| d s]; [discriminate|]. simpl in H.
    apply andb_prop in H. destruct H as [Hc Hw].
    apply Ascii.eqb_eq in Hc. subst d.
    destruct (IH s Hw) as [b ->]. exists b. reflexivity.
Qed.

Lemma contains_unfold (w s : string) :
  contains w s
  = startswith w s || match s with "" => false | String _ s' => contains w s' end.
Proof. destruct s; reflexivity. Qed.

Lemma occurs_contains (w s : string) : occurs w s -> contains w s = true.
Proof.
  intros (a & b & ->). induction a as [| c a IH].
  - cbn [append]. now rewrite contains_unfold, startswith_append.
  - cbn [append contains]. rewrite IH. apply orb_true_r.
Qed.

Lemma contains_occurs (w s : string) : contains w s = true -> occurs w s.
Proof.
  induction s as [| c s IH]; simpl; intros H.
  - rewrite orb_false_r in H. destruct (startswith_split _ _ H) as [b E].
    exists "", b. exact E.
  - apply orb_prop in H. destruct H as [H | H].
    + destruct (startswith_split _ _ H) as [b E]. exists "", b. exact E.
    + destruct (IH H) as (a & b & ->). exists (String c a), b. reflexivity.
Qed.


Lemma occurs_trans (w u s : string) : occurs w u -> occurs u s -> occurs w s.
Proof.
  intros (a & b & ->) (c & d & ->). exists (c ++ a), (b ++ d).
  now rewrite !append_assoc.
Qed.


(** ** The consent pattern *)




(** ** The consent check of the LGPD category *)




Lemma validate_lgpd_returns t r r' :
  Aegis.validate_lgpd_compliance t r = Returned (tt, r') ->
  exists m cm dm ur rls,
    for_each Aegis.lgpd_migration (Aegis.migration_files t) 0 = Returned m
    /\ for_each_try Aegis.lgpd_code (Aegis.code_files t) (false, false, false)
       = Returned (cm, dm, ur)
    /\ Aegis._check_rls_implementation t = Returned rls
    /\ Aegis.score (Aegis.lgpd r')
       = m + points cm 20 + points dm 15 + points ur 15
         + points (any (exists_ t) Aegis.privacy_policy_files) 15 + points rls 10
    /\ Aegis.issues (Aegis.lgpd r')
       = (Aegis.issues (Aegis.lgpd r)
          ++ report cm "Missing consent management implementation"
          ++ report dm "Missing data minimization implementation"
          ++ report ur "Missing user rights implementation"
          ++ report rls "Missing RLS for data protection")%list.
Proof.
  unfold Aegis.validate_lgpd_compliance. unfold bind at 1 2 3. unfold lift at 1 2.
  cbn [modify].
  destruct (for_each Aegis.lgpd_migration _ 0) as [e | m]; [discriminate|].
  destruct (for_each_try Aegis.lgpd_code _ _) as [e | [[cm dm] ur]]; [discriminate|].
  intros H. exists m, cm, dm, ur.
  destruct (Aegis._check_rls_implementation t) as [e | rls] eqn:Erls.
  - exfalso. destruct cm, dm, ur, (any (exists_ t) Aegis.privacy_policy_files);
      vm_compute in H; discriminate.
  - exists rls. split; [reflexivity|]. split; [reflexivity|]. split; [reflexivity|].
    destruct cm, dm, ur, (any (exists_ t) Aegis.privacy_policy_files), rls;
      unfold Aegis.check, Aegis.warn_below_70, bind, lift, modify, ret in H;
      cbn [points report] in *;
      match type of H with
      | (if ?b then _ else _) _ = _ => destruct b
      end;
      injection H as <-; cbn; split; try lia;
      rewrite <- ?app_assoc; cbn [app]; rewrite ?app_nil_r; reflexivity.
Qed.

(** ** The analysed content of the fintech validator *)

Lemma concat_contents_acc files :
  forall acc, Fintech.concat_contents files acc = acc ++ Fintech.concat_contents files "".
Proof.
  induction files as [| f files IH]; intros acc; cbn [Fintech.concat_contents].
  - now rewrite append_nil_r.
  - destruct (read f) as [e | text]; [apply IH|].
    rewrite IH, (IH ("" ++ lower text ++ nl)). cbn [append].
    now rewrite !append_assoc.
Qed.

Lemma concat_contents_has files :
  forall f text acc,
    In f files -> read f = Returned text ->
    occurs (lower text) (Fintech.concat_contents files acc).
Proof.
  induction files as [| g files IH]; intros f text acc Hin Hr; [contradiction|].
  cbn [Fintech.concat_contents]. destruct Hin as [-> | Hin].
  - rewrite Hr, concat_contents_acc. exists acc, (nl ++ Fintech.concat_contents files "").
    now rewrite !append_assoc.
  - destruct (read g); exact (IH _ _ _ Hin Hr).
Qed.

Lemma lower_concat_contents files :
  forall acc, lower (Fintech.concat_contents files acc)
              = Fintech.concat_contents files (lower acc).
Proof.
  induction files as [| f files IH]; intros acc; cbn [Fintech.concat_contents];
    [reflexivity|].
  destruct (read f) as [e | text]; [apply IH|].
  rewrite IH, !lower_append, lower_idempotent. reflexivity.
Qed.

Lemma presence_true content patterns p :
  In p patterns -> occurs (lower p) (lower content) ->
  Fintech._check_pattern_presence content patterns = true.
Proof.
  intros Hin Ho. induction patterns as [| q qs IH]; [contradiction|].
  cbn [Fintech._check_pattern_presence]. destruct Hin as [-> | Hin].
  - now rewrite (occurs_contains _ _ Ho).
  - destruct (contains (lower q) (lower content)); [reflexivity | exact (IH Hin)].
Qed.

Lemma check_score content patterns weight issue recommendation c :
  Fintech.score (Fintech.check content patterns weight issue recommendation c)
  = Fintech.score c + points (Fintech._check_pattern_presence content patterns) weight
  /\ Fintech.issues (Fintech.check content patterns weight issue recommendation c)
     = (Fintech.issues c
        ++ report (Fintech._check_pattern_presence content patterns) issue)%list.
Proof.
  unfold Fintech.check, points, report.
  destruct (Fintech._check_pattern_presence content patterns); cbn;
    [split; [lia | now rewrite app_nil_r] | split; [lia | reflexivity]].
Qed.




(** ** Where a pattern can occur in the analysed content *)

Lemma append_eq_append (a : string) :
  forall b c d, a ++ b = c ++ d ->
                (exists l, a = c ++ l /\ d = l ++ b) \/ (exists l, c = a ++ l /\ b = l ++ d).
Proof.
  induction a as [| x a IH]; intros b c d H.
  - right. exists c. split; [reflexivity | exact H].
  - destruct c as [| y c].
    + left. exists (String x a). split; [reflexivity | symmetry; exact H].
    + cbn [append] in H. injection H as -> H.
      destruct (IH _ _ _ H) as [(l & -> & ->) | (l & -> & ->)];
        [left | right]; exists l; split; reflexivity.
Qed.

Lemma plain_no_newline q l m : plain q -> q <> l ++ nl ++ m.
Proof.
  intros [_ H] E. assert (C : contains nl q = true).
  { apply occurs_contains. exists l, m. exact E. }
  congruence.
Qed.

Lemma plain_not_in_empty q : plain q -> ~ occurs q "".
Proof.
  intros [Hq _] (a & b & E). destruct a; [| discriminate].
  destruct q; [congruence | discriminate].
Qed.

(** A pattern without a newline that occurs in two texts joined by a newline
    occurs in one of them. *)
Lemma occurs_across_newline q x y :
  plain q -> occurs q (x ++ nl ++ y) -> occurs q x \/ occurs q y.
Proof.
  intros Hq (a & b & E). symmetry in E.
  destruct (append_eq_append _ _ _ _ E) as [(l & -> & E1) | (l & -> & E1)].
  - destruct l as [| c l].
    + cbn [append] in E1. exfalso. destruct Hq as [Hq Hn].
      destruct q as [| c q]; [congruence|].
      cbn [append] in E1. unfold nl in E1. cbn [append] in E1. injection E1 as <- _.
      vm_compute in Hn. discriminate.
    + unfold nl in E1. cbn [append] in E1. injection E1 as <- ->.
      right. exists l, b. reflexivity.
  - destruct (append_eq_append _ _ _ _ E1) as [(m & -> & E2) | (m & -> & E2)].
    + destruct m as [| c m].
      * left. exists a, "". now rewrite !append_nil_r.
      * exfalso. unfold nl in E2. cbn [append] in E2. injection E2 as <- _.
        exact (plain_no_newline _ l m Hq eq_refl).
    + left. exists a, m. reflexivity.
Qed.

Lemma occurs_in_contents q files :
  plain q ->
  forall acc,
    (acc = "" \/ exists a, acc = a ++ nl) ->
    occurs q (Fintech.concat_contents files acc) ->
    occurs q acc
    \/ exists f text, In f files /\ read f = Returned text /\ occurs q (lower text).
Proof.
  intros Hq. induction files as [| f files IH]; intros acc Hacc H;
    cbn [Fintech.concat_contents] in H.
  - left. exact H.
  - destruct (read f) as [e | text] eqn:Er.
    + destruct (IH acc Hacc H) as [Ha | (g & tx & Hin & Hr & Ho)]; [left; exact Ha|].
      right. exists g, tx. split; [right; exact Hin | split; assumption].
    + destruct (IH (acc ++ lower text ++ nl)) as [Ha | (g & tx & Hin & Hr & Ho)].
      * right. exists (acc ++ lower text). now rewrite append_assoc.
      * exact H.
      * assert (Ht : occurs q (lower text ++ nl ++ "") -> occurs q (lower text)).
        { intros Ho. destruct (occurs_across_newline _ _ _ Hq Ho) as [Ho' | Ho'];
            [exact Ho' | destruct (plain_not_in_empty _ Hq Ho')]. }
        destruct Hacc as [-> | (a & ->)].
        -- cbn [append] in Ha. right. exists f, text.
           split; [left; reflexivity | split; [exact Er|]].
           apply Ht. now rewrite append_nil_r.
        -- rewrite append_assoc in Ha.
           destruct (occurs_across_newline _ _ _ Hq Ha) as [Ho | Ho].
           ++ left. destruct Ho as (u & v & ->). exists u, (v ++ nl).
              now rewrite !append_assoc.
           ++ right. exists f, text. split; [left; reflexivity | split; [exact Er|]].
              apply Ht. now rewrite append_nil_r.
      * right. exists g, tx. split; [right; exact Hin | split; assumption].
Qed.

Lemma analysis_of_the_first_50 files :
  Fintech._analyze_files_content files
  = Fintech._analyze_files_content (firstn 50 files).
Proof. unfold Fintech._analyze_files_content. now rewrite firstn_firstn. Qed.

Lemma absent_pattern_is_reported_absent files pattern :
  plain (lower pattern) ->
  (forall f text, In f (firstn 50 files) -> read f = Returned text ->
                  contains (lower pattern) (lower text) = false) ->
  Fintech._check_pattern_presence (Fintech._analyze_files_content files) [pattern] = false.
Proof.
  intros Hq Habs. cbn [Fintech._check_pattern_presence].
  destruct (contains (lower pattern) _) eqn:E; [| reflexivity].
  exfalso. apply contains_occurs in E.
  unfold Fintech._analyze_files_content in E. rewrite lower_concat_contents in E.
  cbn [lower] in E.
  destruct (occurs_in_contents _ _ Hq "" (or_introl eq_refl) E)
    as [Ho | (f & text & Hin & Hr & Ho)].
  - exact (plain_not_in_empty _ Hq Ho).
  - apply occurs_contains in Ho.
    rewrite (Habs f text Hin Hr) in Ho. discriminate.
Qed.

Lemma table_patterns_are_plain :
  forall p, In p Fintech.all_patterns -> plain (lower p).
Proof.
  assert (H : forallb (fun p => negb (String.eqb (lower p) "")
                                && negb (contains nl (lower p)))
                      Fintech.all_patterns = true) by (vm_compute; reflexivity).
  rewrite forallb_forall in H. intros p Hin. specialize (H p Hin).
  apply andb_prop in H. destruct H as [H1 H2]. split.
  - intros E. rewrite E in H1. discriminate.
  - now destruct (contains nl (lower p)).
Qed.

(** C10.  The validator of brazilian-fintech-compliance analyses the first
    50 files collected and no other: the analysed content, and so each of the
    four validations, is that of the first 50 files alone, and a pattern of
    the tables that occurs in none of them is reported absent, whatever the
    later files hold. *)
Theorem only_the_first_50_files_are_analysed :
  (forall files,
     Fintech._analyze_files_content files
     = Fintech._analyze_files_content (firstn 50 files))
  /\ (forall files r,
        Fintech._validate_lgpd_compliance files r
        = Fintech._validate_lgpd_compliance (firstn 50 files) r
        /\ Fintech._validate_bcb_regulations files r
           = Fintech._validate_bcb_regulations (firstn 50 files) r
        /\ Fintech._validate_data_protection files r
           = Fintech._validate_data_protection (firstn 50 files) r
        /\ Fintech._validate_financial_security files r
           = Fintech._validate_financial_security (firstn 50 files) r)
  /\ (forall files pattern,
        In pattern Fintech.all_patterns ->
        (forall f text, In f (firstn 50 files) -> read f = Returned text ->
                        contains (lower pattern) (lower text) = false) ->
        Fintech._check_pattern_presence (Fintech._analyze_files_content files) [pattern]
        = false).
Proof.
  split; [exact analysis_of_the_first_50|]. split.
  - intros files r.
    unfold Fintech._validate_lgpd_compliance, Fintech._validate_bcb_regulations,
      Fintech._validate_data_protection, Fintech._validate_financial_security.
    rewrite <- analysis_of_the_first_50. repeat split.
  - intros files pattern Hin Habs.
    apply absent_pattern_is_reported_absent;
      [exact (table_patterns_are_plain _ Hin) | exact Habs].
Qed.

Lemma only_the_first_50_files_are_analysed_witness :
  In "pix" Fintech.all_patterns
  /\ length Sample.fifty_one = 51%nat
  /\ Fintech._check_pattern_presence
       (Fintech._analyze_files_content [Sample.file ["z.py"] "pix"]) ["pix"] = true
  /\ Fintech._check_pattern_presence
       (Fintech._analyze_files_content Sample.fifty_one) ["pix"] = false.
Proof.
  assert (Hin : In "pix" Fintech.all_patterns) by (vm_compute; tauto).
  split; [exact Hin|]. split; [reflexivity|]. split; [reflexivity|].
  apply (proj2 (proj2 only_the_first_50_files_are_analysed) Sample.fifty_one "pix" Hin).
  intros f text Hf Hr. vm_compute in Hf.
  repeat (destruct Hf as [<- | Hf]; [injection Hr as <-; reflexivity|]).
  contradiction.
Defined.

(** ** Deduction never raises a score *)

Lemma no_higher_refl a : no_higher a a.
Proof. unfold no_higher. lia. Qed.

Lemma no_higher_trans a b c : no_higher a b -> no_higher b c -> no_higher a c.
Proof. unfold no_higher. lia. Qed.

Lemma deduct_no_higher w issue recommendation :
  0 <= w -> keeps no_higher (Perf.deduct w issue recommendation).
Proof. intros Hw. apply keeps_modify. intros s. unfold no_higher. cbn. lia. Qed.

Ltac lower_tac :=
  repeat first
    [ apply deduct_no_higher; lia
    | progress unfold Perf.unless
    | keeps_step no_higher_refl no_higher_trans ].

Lemma voice_loop_no_higher t ps : keeps no_higher (Perf.voice_patterns_loop t ps).
Proof.
  induction ps as [| [n p] ps IH]; cbn [Perf.voice_patterns_loop]; lower_tac; exact IH.
Qed.

Lemma features_loop_no_higher content fs : keeps no_higher (Perf.features_loop content fs).
Proof.
  induction fs as [| [n p] fs IH]; cbn [Perf.features_loop]; lower_tac; exact IH.
Qed.

Lemma query_loop_no_higher t ps : keeps no_higher (Perf.query_loop t ps).
Proof.
  induction ps as [| p ps IH]; cbn [Perf.query_loop]; lower_tac; exact IH.
Qed.

Ltac body_tac :=
  repeat first
    [ apply voice_loop_no_higher
    | apply features_loop_no_higher
    | apply query_loop_no_higher
    | apply deduct_no_higher; lia
    | progress unfold Perf.unless
    | keeps_step no_higher_refl no_higher_trans ].

Lemma bodies_no_higher t :
  keeps no_higher (Perf.voice_body t) /\ keeps no_higher (Perf.bundle_body t)
  /\ keeps no_higher (Perf.database_body t) /\ keeps no_higher (Perf.realtime_body t)
  /\ keeps no_higher (Perf.mobile_body t) /\ keeps no_higher (Perf.vitals_body t).
Proof.
  repeat split.
  - unfold Perf.voice_body. body_tac.
  - unfold Perf.bundle_body. body_tac.
  - unfold Perf.database_body. body_tac.
  - unfold Perf.realtime_body. body_tac.
  - unfold Perf.mobile_body. body_tac.
  - unfold Perf.vitals_body. body_tac.
Qed.

Lemma stays_bounded_refl r : stays_bounded r r.
Proof. intros H. exact H. Qed.

Lemma stays_bounded_trans a b c : stays_bounded a b -> stays_bounded b c -> stays_bounded a c.
Proof. unfold stays_bounded. auto. Qed.

Lemma audit_stays_bounded k body :
  keeps no_higher body -> keeps stays_bounded (Perf.audit k body).
Proof.
  intros Hb r u r' H. unfold Perf.audit, bind, modify, lift in H.
  destruct (body Perf.start) as [e | [v a]] eqn:E; [discriminate|].
  injection H as _ <-. intros Hr k'.
  pose proof (Hb _ _ _ E) as Ha. unfold no_higher in Ha. cbn in Ha.
  specialize (Hr k').
  destruct k, k'; cbn in *; lia.
Qed.

Lemma overall_stays_bounded r : stays_bounded r (Perf.calculate_overall_score r).
Proof. intros Hr k. specialize (Hr k). destruct k; exact Hr. Qed.

Lemma audit_all_stays_bounded t : keeps stays_bounded (Perf.audit_all t).
Proof.
  destruct (bodies_no_higher t) as (H1 & H2 & H3 & H4 & H5 & H6).
  unfold Perf.audit_all, Perf.audit_voice_performance, Perf.audit_bundle_optimization,
    Perf.audit_database_performance, Perf.audit_realtime_performance,
    Perf.audit_mobile_optimization, Perf.audit_core_web_vitals.
  repeat first
    [ apply audit_stays_bounded; assumption
    | apply keeps_modify; exact overall_stays_bounded
    | keeps_step stays_bounded_refl stays_bounded_trans ].
Qed.

(** X1.  Every category score the performance audit reports lies between 0 and
    100: an audit starts at 100, only deducts, and stores [max(0, score)]. *)
Theorem deduction_scores_stay_within_0_and_100 :
  forall t r code k,
    Perf.main t = Perf.Report r code -> 0 <= Perf.score (Perf.lookup k r) <= 100.
Proof.
  intros t r code k H. unfold Perf.main in H.
  destruct (Perf.audit_all t Perf.init) as [e | [r' s]] eqn:E; [discriminate|].
  injection H as <- _.
  assert (Hs : bounded s).
  { apply (audit_all_stays_bounded t _ _ _ E). intros k'. destruct k'; cbn; lia. }
  unfold Perf.audit_all in E.
  assert (r' = s).
  { revert E. unfold bind, get.
    repeat match goal with
           | |- context [match ?m ?x with _ => _ end] =>
               destruct (m x) as [? | [? ?]]; try discriminate
           end.
    intros E. injection E as -> ->. reflexivity. }
  subst. apply Hs.
Qed.

Lemma deduction_scores_stay_within_0_and_100_witness :
  exists r, Perf.main Sample.scanned_once = Perf.Report r 1
            /\ 0 <= Perf.score (Perf.lookup Perf.Core_web_vitals r) <= 100.
Proof.
  eexists. split; [vm_compute; reflexivity|].
  apply (deduction_scores_stay_within_0_and_100 Sample.scanned_once _ 1).
  vm_compute. reflexivity.
Defined.

(** ** The scores of the compliance validators *)

Lemma lgpd_migration_adds raw n : n <= Aegis.lgpd_migration raw n.
Proof.
  unfold Aegis.lgpd_migration.
  repeat match goal with |- context [if ?b then _ else _] => destruct b end; lia.
Qed.

Lemma pix_migration_adds raw n : n <= Aegis.pix_migration raw n.
Proof.
  unfold Aegis.pix_migration.
  repeat match goal with |- context [if ?b then _ else _] => destruct b end; lia.
Qed.

Lemma for_each_adds (body : string -> Z -> Z) :
  (forall raw n, n <= body raw n) ->
  forall files n m, for_each body files n = Returned m -> n <= m.
Proof.
  intros Hb. induction files as [| f files IH]; intros n m H; cbn [for_each] in H.
  - injection H as <-. lia.
  - destruct (read f) as [e | raw]; [discriminate|].
    specialize (IH _ _ H). specialize (Hb raw n). lia.
Qed.

Lemma pix_score t r r' :
  Aegis.validate_pix_compliance t r = Returned (tt, r') ->
  0 <= Aegis.score (Aegis.pix r').
Proof.
  unfold Aegis.validate_pix_compliance. intros H.
  apply bind_returns in H. destruct H as (u0 & s0 & H0 & H).
  apply bind_returns in H. destruct H as (m & s1 & Hm & H).
  apply lift_returns in Hm. destruct Hm as [Hm ->].
  apply bind_returns in H. destruct H as ([[f1 f2] f3] & s2 & Hf & H).
  apply lift_returns in Hf. destruct Hf as [_ ->].
  apply bind_returns in H. destruct H as (c1 & s3 & H1 & H).
  apply bind_returns in H. destruct H as (c2 & s4 & H2 & H).
  apply bind_returns in H. destruct H as (c3 & s5 & H3 & H).
  apply bind_returns in H. destruct H as (e & s6 & He & H).
  apply lift_returns in He. destruct He as [_ ->].
  apply bind_returns in H. destruct H as (c4 & s7 & H4 & H).
  apply bind_returns in H. destruct H as (u1 & s8 & Hset & Hw).
  apply modify_returns in Hset.
  destruct (warn_returns _ _ _ _ _ Hw) as (_ & -> & _ & _). subst s8. cbn.
  apply check_returns in H1, H2, H3, H4.
  destruct H1 as [-> _], H2 as [-> _], H3 as [-> _], H4 as [-> _].
  pose proof (for_each_adds _ pix_migration_adds _ _ _ Hm).
  unfold points. destruct f1, f2, f3, e; lia.
Qed.

Lemma lgpd_score t r r' :
  Aegis.validate_lgpd_compliance t r = Returned (tt, r') ->
  0 <= Aegis.score (Aegis.lgpd r').
Proof.
  intros H. destruct (validate_lgpd_returns t r r' H)
    as (m & cm & dm & ur & rls & Em & _ & _ & -> & _).
  pose proof (for_each_adds _ lgpd_migration_adds _ _ _ Em).
  unfold points.
  destruct cm, dm, ur, (any (exists_ t) Aegis.privacy_policy_files), rls; lia.
Qed.

Lemma openbanking_score t r r' :
  Aegis.validate_openbanking_compliance t r = Returned (tt, r') ->
  0 <= Aegis.score (Aegis.openbanking r') <= 100.
Proof.
  unfold Aegis.validate_openbanking_compliance. intros H.
  apply bind_returns in H. destruct H as (u0 & s0 & H0 & H). cbv zeta in H.
  apply bind_returns in H. destruct H as ([[[f1 f2] f3] f4] & s1 & Hf & H).
  apply lift_returns in Hf. destruct Hf as [_ ->].
  apply bind_returns in H. destruct H as (c1 & s2 & H1 & H).
  apply bind_returns in H. destruct H as (c2 & s3 & H2 & H).
  apply bind_returns in H. destruct H as (c3 & s4 & H3 & H).
  apply bind_returns in H. destruct H as (c4 & s5 & H4 & H).
  apply bind_returns in H. destruct H as (c5 & s6 & H5 & H).
  apply bind_returns in H. destruct H as (u1 & s7 & Hset & Hw).
  apply modify_returns in Hset.
  destruct (warn_returns _ _ _ _ _ Hw) as (_ & _ & -> & _). subst s7. cbn.
  apply check_returns in H1, H2, H3, H4, H5.
  destruct H1 as [-> _], H2 as [-> _], H3 as [-> _], H4 as [-> _], H5 as [-> _].
  unfold points. destruct f1, f2, f3, f4, (any (exists_ t) Aegis.ob_docs); lia.
Qed.

Lemma security_score t r r' :
  Aegis.validate_brazilian_security t r = Returned (tt, r') ->
  0 <= Aegis.score (Aegis.security r') <= 100.
Proof.
  unfold Aegis.validate_brazilian_security. intros H.
  apply bind_returns in H. destruct H as (u0 & s0 & H0 & H). cbv zeta in H.
  apply bind_returns in H. destruct H as ([[[f1 f2] f3] f4] & s1 & Hf & H).
  apply lift_returns in Hf. destruct Hf as [_ ->].
  apply bind_returns in H. destruct H as (c1 & s2 & H1 & H).
  apply bind_returns in H. destruct H as (c2 & s3 & H2 & H).
  apply bind_returns in H. destruct H as (c3 & s4 & H3 & H).
  apply bind_returns in H. destruct H as (c4 & s5 & H4 & H).
  apply bind_returns in H. destruct H as (u1 & s6 & Hset & Hw).
  apply modify_returns in Hset.
  destruct (warn_returns _ _ _ _ _ Hw) as (_ & _ & _ & ->). subst s6. cbn.
  apply check_returns in H1, H2, H3, H4.
  destruct H1 as [-> _], H2 as [-> _], H3 as [-> _], H4 as [-> _].
  unfold points. destruct f1, f2, f3, f4; lia.
Qed.

Lemma run_check_scores_ok t c r u r' :
  Aegis.run_check t c r = Returned (u, r') -> scores_ok r -> scores_ok r'.
Proof.
  unfold Aegis.run_check. intros H (Ha & Hb & Hc & Hd). destruct u.
  destruct (c =? "lgpd")%string.
  { destruct (lgpd_frame t) as (F1 & F2 & F3).
    pose proof (F1 _ _ _ H) as E1. pose proof (F2 _ _ _ H) as E2.
    pose proof (F3 _ _ _ H) as E3. unfold unchanged in *.
    pose proof (lgpd_score _ _ _ H). unfold scores_ok. rewrite E1, E2, E3. auto. }
  destruct (c =? "pix")%string.
  { destruct (pix_frame t) as (F1 & F2 & F3).
    pose proof (F1 _ _ _ H) as E1. pose proof (F2 _ _ _ H) as E2.
    pose proof (F3 _ _ _ H) as E3. unfold unchanged in *.
    pose proof (pix_score _ _ _ H). unfold scores_ok. rewrite E1, E2, E3. auto. }
  destruct (c =? "openbanking")%string.
  { destruct (openbanking_frame t) as (F1 & F2 & F3).
    pose proof (F1 _ _ _ H) as E1. pose proof (F2 _ _ _ H) as E2.
    pose proof (F3 _ _ _ H) as E3. unfold unchanged in *.
    pose proof (openbanking_score _ _ _ H). unfold scores_ok. rewrite E1, E2, E3. auto. }
  destruct (c =? "security")%string.
  { destruct (security_frame t) as (F1 & F2 & F3).
    pose proof (F1 _ _ _ H) as E1. pose proof (F2 _ _ _ H) as E2.
    pose proof (F3 _ _ _ H) as E3. unfold unchanged in *.
    pose proof (security_score _ _ _ H). unfold scores_ok. rewrite E1, E2, E3. auto. }
  injection H as <-. unfold scores_ok. lia.
Qed.

Lemma run_checks_scores_ok t cs :
  forall r u r', Aegis.run_checks t cs r = Returned (u, r') -> scores_ok r -> scores_ok r'.
Proof.
  induction cs as [| c cs IH]; intros r u r' H Hr; cbn [Aegis.run_checks] in H.
  - injection H as _ <-. exact Hr.
  - apply bind_returns in H. destruct H as (u1 & r1 & H1 & H).
    exact (IH _ _ _ H (run_check_scores_ok _ _ _ _ _ H1 Hr)).
Qed.

Lemma report_scores_ok t checks r code :
  Aegis.main t checks = Aegis.Report r code -> scores_ok r.
Proof.
  unfold Aegis.main. rewrite validate_all_unfold.
  destruct (Aegis.run_checks t _ Aegis.init) as [e | [u r1]] eqn:E; [discriminate|].
  intros H. injection H as <- _.
  assert (H1 : scores_ok r1).
  { apply (run_checks_scores_ok _ _ _ _ _ E). unfold scores_ok. cbn. lia. }
  exact H1.
Qed.

(** X2.  The categories of the compliance validator that have no loop over the
    migrations stay between 0 and 100, and no category score is negative. *)
Theorem accrual_scores_without_a_file_loop_stay_within_0_and_100 :
  forall t checks r code,
    Aegis.main t checks = Aegis.Report r code ->
    0 <= Aegis.score (Aegis.openbanking r) <= 100
    /\ 0 <= Aegis.score (Aegis.security r) <= 100
    /\ 0 <= Aegis.score (Aegis.lgpd r)
    /\ 0 <= Aegis.score (Aegis.pix r).
Proof.
  intros t checks r code H.
  destruct (report_scores_ok _ _ _ _ H) as (Ha & Hb & Hc & Hd). auto.
Qed.

Lemma accrual_scores_without_a_file_loop_stay_within_0_and_100_witness :
  exists r,
    Aegis.main Sample.five_migrations None = Aegis.Report r 0
    /\ 0 <= Aegis.score (Aegis.openbanking r) <= 100
    /\ 0 <= Aegis.score (Aegis.security r) <= 100
    /\ 0 <= Aegis.score (Aegis.lgpd r)
    /\ 0 <= Aegis.score (Aegis.pix r).
Proof.
  eexists. split; [vm_compute; reflexivity|].
  apply (accrual_scores_without_a_file_loop_stay_within_0_and_100
           Sample.five_migrations None _ 0).
  vm_compute. reflexivity.
Defined.

Lemma points_bound found w : 0 <= w -> 0 <= points found w <= w.
Proof. unfold points. destruct found; lia. Qed.

(** X3.  A run of the validator of brazilian-fintech-compliance from a fresh
    validator leaves every category score and the overall score between 0
    and 100. *)
Theorem fintech_scores_stay_within_0_and_100 :
  forall path t r,
    Fintech.validate_project path t Fintech.init = Fintech.Results r ->
    0 <= Fintech.score (Fintech.lgpd_compliance r) <= 100
    /\ 0 <= Fintech.score (Fintech.bcb_regulations r) <= 100
    /\ 0 <= Fintech.score (Fintech.data_protection r) <= 100
    /\ 0 <= Fintech.score (Fintech.financial_security r) <= 100
    /\ 0 <= Fintech.overall_score r <= 100.
Proof.
  intros path t r. unfold Fintech.validate_project.
  destruct (negb (root_exists t)); [discriminate|]. cbv zeta.
  intros H. injection H as <-.
  unfold Fintech._calculate_overall_score, Fintech._validate_financial_security,
    Fintech._validate_data_protection, Fintech._validate_bcb_regulations,
    Fintech._validate_lgpd_compliance.
  cbn [Fintech.lgpd_compliance Fintech.bcb_regulations Fintech.data_protection
       Fintech.financial_security Fintech.overall_score
       Fintech.on_lgpd_compliance Fintech.on_bcb_regulations
       Fintech.on_data_protection Fintech.on_financial_security].
  rewrite !(proj1 (check_score _ _ _ _ _ _)).
  cbn [Fintech.score Fintech.init Fintech.lgpd_compliance Fintech.bcb_regulations
       Fintech.data_protection Fintech.financial_security Fintech.empty_category
       Fintech.sum fold_right length].
  repeat match goal with
         | |- context [points ?b ?w] =>
             let Hp := fresh "Hp" in
             pose proof (points_bound b w ltac:(lia)) as Hp;
             generalize dependent (points b w); intros
         end.
  change (Z.of_nat 4) with 4.
  repeat split; try lia.
  - apply Z.div_pos; lia.
  - apply Z.div_le_upper_bound; lia.
Qed.

Lemma fintech_scores_stay_within_0_and_100_witness :
  exists r,
    Fintech.validate_project "app" Sample.consent_only Fintech.init = Fintech.Results r
    /\ 0 <= Fintech.score (Fintech.lgpd_compliance r) <= 100
    /\ 0 <= Fintech.score (Fintech.bcb_regulations r) <= 100
    /\ 0 <= Fintech.score (Fintech.data_protection r) <= 100
    /\ 0 <= Fintech.score (Fintech.financial_security r) <= 100
    /\ 0 <= Fintech.overall_score r <= 100.
Proof.
  eexists. split; [vm_compute; reflexivity|].
  apply (fintech_scores_stay_within_0_and_100 "app" Sample.consent_only).
  vm_compute. reflexivity.
Defined.

(** ** Means *)

Lemma floor_of_mean (l : list Z) :
  l <> [] -> Qfloor (Mean.mean l) = fold_right Z.add 0 l / Z.of_nat (length l).
Proof.
  intros Hl. destruct l as [| x l]; [congruence|].
  unfold Mean.mean. generalize (fold_right Z.add 0 (x :: l)). intros a.
  simpl length. rewrite Nat2Z.inj_succ, <- Z.add_1_r.
  destruct (Z.of_nat (length l) + 1) as [| p | p] eqn:E; [lia | | lia].
  unfold Qdiv, Qinv, Qmult, inject_Z, Qfloor. simpl.
  now rewrite Z.mul_1_r.
Qed.

Lemma aegis_overall (r : Aegis.results) :
  0 <= Aegis.score (Aegis.lgpd r) -> 0 <= Aegis.score (Aegis.pix r) ->
  0 <= Aegis.score (Aegis.openbanking r) -> 0 <= Aegis.score (Aegis.security r) ->
  Aegis.compliance_score (Aegis._calculate_overall_score r)
  = Qfloor (Mean.over_nonzero
              [Aegis.score (Aegis.lgpd r); Aegis.score (Aegis.pix r);
               Aegis.score (Aegis.openbanking r); Aegis.score (Aegis.security r)]).
Proof.
  intros Ha Hb Hc Hd.
  unfold Aegis._calculate_overall_score, Mean.over_nonzero, Mean.nonzero,
    Aegis.positive_scores. simpl Aegis.compliance_score.
  assert (E : forall n, 0 <= n -> (0 <? n) = negb (n =? 0)).
  { intros n Hn. destruct (Z.eqb_spec n 0); simpl; [subst; reflexivity|].
    apply Z.ltb_lt. lia. }
  simpl filter. rewrite !E by assumption.
  set (l := (if negb (_ =? 0) then _ else _)).
  destruct l as [| x l'] eqn:El; [reflexivity|].
  rewrite floor_of_mean by discriminate. reflexivity.
Qed.

Lemma fintech_overall (r : Fintech.results) :
  Fintech.overall_score (Fintech._calculate_overall_score r)
  = Qfloor (Mean.over_all
              [Fintech.score (Fintech.lgpd_compliance r);
               Fintech.score (Fintech.bcb_regulations r);
               Fintech.score (Fintech.data_protection r);
               Fintech.score (Fintech.financial_security r)]).
Proof.
  unfold Mean.over_all. rewrite floor_of_mean by discriminate. reflexivity.
Qed.

Lemma report_overall t checks r code :
  Aegis.main t checks = Aegis.Report r code ->
  Aegis.compliance_score r
  = Qfloor (Mean.over_nonzero
              [Aegis.score (Aegis.lgpd r); Aegis.score (Aegis.pix r);
               Aegis.score (Aegis.openbanking r); Aegis.score (Aegis.security r)]).
Proof.
  unfold Aegis.main. rewrite validate_all_unfold.
  destruct (Aegis.run_checks t _ Aegis.init) as [e | [u r1]] eqn:E; [discriminate|].
  intros H. injection H as <- _.
  assert (H1 : scores_ok r1).
  { apply (run_checks_scores_ok _ _ _ _ _ E). unfold scores_ok. cbn. lia. }
  destruct H1 as (Ha & Hb & Hc & Hd).
  exact (aegis_overall r1 Ha Hb (proj1 Hc) (proj1 Hd)).
Qed.

(** C8, amended.  The overall score is the mean rounded down to an integer:
    in the compliance validator of aegis-architect the floor of the mean over
    the categories whose score is not zero (0 when there is none), for every
    results record without a negative score and so for every run that
    reports; in the validator of brazilian-fintech-compliance the floor of the
    mean over the four categories. *)
Theorem overall_score_is_the_floor_of_the_mean :
  (forall r,
     0 <= Aegis.score (Aegis.lgpd r) -> 0 <= Aegis.score (Aegis.pix r) ->
     0 <= Aegis.score (Aegis.openbanking r) -> 0 <= Aegis.score (Aegis.security r) ->
     Aegis.compliance_score (Aegis._calculate_overall_score r)
     = Qfloor (Mean.over_nonzero
                 [Aegis.score (Aegis.lgpd r); Aegis.score (Aegis.pix r);
                  Aegis.score (Aegis.openbanking r); Aegis.score (Aegis.security r)]))
  /\ (forall r,
        Fintech.overall_score (Fintech._calculate_overall_score r)
        = Qfloor (Mean.over_all
                    [Fintech.score (Fintech.lgpd_compliance r);
                     Fintech.score (Fintech.bcb_regulations r);
                     Fintech.score (Fintech.data_protection r);
                     Fintech.score (Fintech.financial_security r)]))
  /\ (forall t checks r code,
        Aegis.main t checks = Aegis.Report r code ->
        Aegis.compliance_score r
        = Qfloor (Mean.over_nonzero
                    [Aegis.score (Aegis.lgpd r); Aegis.score (Aegis.pix r);
                     Aegis.score (Aegis.openbanking r); Aegis.score (Aegis.security r)])).
Proof.
  split; [exact aegis_overall|]. split; [exact fintech_overall | exact report_overall].
Qed.

Lemma overall_score_is_the_floor_of_the_mean_witness :
  Aegis.compliance_score (Aegis._calculate_overall_score (Sample.scores 20 0 25 0))
  = Qfloor (Mean.over_nonzero [20; 0; 25; 0])
  /\ Aegis.compliance_score (Aegis._calculate_overall_score (Sample.scores 20 0 25 0)) = 22.
Proof.
  split; [| reflexivity].
  apply (proj1 overall_score_is_the_floor_of_the_mean (Sample.scores 20 0 25 0));
    simpl; lia.
Defined.

Lemma overall_score_is_not_the_exact_mean :
  (exists r,
     Fintech.validate_project "app" Sample.consent_only Fintech.init = Fintech.Results r
     /\ [Fintech.score (Fintech.lgpd_compliance r); Fintech.score (Fintech.bcb_regulations r);
         Fintech.score (Fintech.data_protection r); Fintech.score (Fintech.financial_security r)]
        = [25; 0; 0; 0]
     /\ Fintech.overall_score r = 6
     /\ Qeq_bool (inject_Z (Fintech.overall_score r)) (Mean.over_all [25; 0; 0; 0]) = false)
  /\ Aegis.compliance_score (Aegis._calculate_overall_score (Sample.scores 20 0 25 0)) = 22
  /\ Qeq_bool (inject_Z 22) (Mean.over_nonzero [20; 0; 25; 0]) = false.
Proof.
  split; [| split; reflexivity].
  eexists. split; [vm_compute; reflexivity|]. repeat split.
Qed.

(** * Further properties *)

Lemma audit_returns k body s u s' :
  Perf.audit k body s = Returned (u, s') ->
  exists v a, body Perf.start = Returned (v, a)
              /\ s' = Perf.store k (stored a) (Perf.add_check (Perf.key_name k) s).
Proof.
  unfold Perf.audit. intros H.
  apply bind_returns in H. destruct H as (u0 & s0 & H0 & H).
  apply modify_returns in H0. subst s0.
  apply bind_returns in H. destruct H as (a & s1 & Ha & H).
  apply lift_returns in Ha. destruct Ha as [Ha ->].
  apply modify_returns in H. subst s'.
  destruct (body Perf.start) as [e | [v a']]; [discriminate|].
  injection Ha as ->. exists v, a. split; reflexivity.
Qed.

Lemma main_reports t r code :
  Perf.main t = Perf.Report r code ->
  exists a1 a2 a3 a4 a5 a6,
    Perf.voice_body t Perf.start = Returned (tt, a1)
    /\ Perf.bundle_body t Perf.start = Returned (tt, a2)
    /\ Perf.database_body t Perf.start = Returned (tt, a3)
    /\ Perf.realtime_body t Perf.start = Returned (tt, a4)
    /\ Perf.mobile_body t Perf.start = Returned (tt, a5)
    /\ Perf.vitals_body t Perf.start = Returned (tt, a6)
    /\ r = assembled a1 a2 a3 a4 a5 a6
    /\ code = Perf.exit_code r.
Proof.
  unfold Perf.main.
  destruct (Perf.audit_all t Perf.init) as [e | [r' s']] eqn:H; [discriminate|].
  intros E. injection E as <- <-.
  unfold Perf.audit_all, Perf.audit_voice_performance, Perf.audit_bundle_optimization,
    Perf.audit_database_performance, Perf.audit_realtime_performance,
    Perf.audit_mobile_optimization, Perf.audit_core_web_vitals in H.
  apply bind_returns in H. destruct H as (u1 & s1 & H1 & H).
  apply bind_returns in H. destruct H as (u2 & s2 & H2 & H).
  apply bind_returns in H. destruct H as (u3 & s3 & H3 & H).
  apply bind_returns in H. destruct H as (u4 & s4 & H4 & H).
  apply bind_returns in H. destruct H as (u5 & s5 & H5 & H).
  apply bind_returns in H. destruct H as (u6 & s6 & H6 & H).
  apply bind_returns in H. destruct H as (u7 & s7 & H7 & H).
  apply modify_returns in H7. injection H as <- _.
  apply audit_returns in H1, H2, H3, H4, H5, H6.
  destruct H1 as ([] & a1 & B1 & ->), H2 as ([] & a2 & B2 & ->),
    H3 as ([] & a3 & B3 & ->), H4 as ([] & a4 & B4 & ->),
    H5 as ([] & a5 & B5 & ->), H6 as ([] & a6 & B6 & ->).
  exists a1, a2, a3, a4, a5, a6. subst s7. repeat split; assumption.
Qed.

Lemma stored_bounds body a :
  keeps no_higher body -> body Perf.start = Returned (tt, a) ->
  0 <= Perf.score (stored a) <= 100.
Proof.
  intros K H. pose proof (K _ _ _ H) as L. unfold no_higher in L. cbn in *. lia.
Qed.

Lemma sum_thresholds :
  forallb (fun m =>
             let n := Z.of_nat m in
             let q := Perf.round1 (inject_Z n / inject_Z (Z.of_nat 6)) in
             Bool.eqb (Qle_bool 70 q) (420 <=? n)
             && Bool.eqb (Qle_bool 80 q) (480 <=? n)
             && Bool.eqb (Qle_bool 90 q) (540 <=? n)
             && Qle_bool 0 q && Qle_bool q 100
             && Qle_bool (q - (1 # 20)) (inject_Z n / 6)
             && Qle_bool (inject_Z n / 6) (q + (1 # 20)))
          (seq 0 601) = true.
Proof. vm_compute. reflexivity. Qed.

Lemma thresholds (n : Z) :
  0 <= n <= 600 ->
  let q := Perf.round1 (inject_Z n / inject_Z (Z.of_nat 6)) in
  Qle_bool 70 q = (420 <=? n) /\ Qle_bool 80 q = (480 <=? n)
  /\ Qle_bool 90 q = (540 <=? n) /\ Qle_bool 0 q = true /\ Qle_bool q 100 = true
  /\ Qle_bool (q - (1 # 20)) (inject_Z n / 6) = true
  /\ Qle_bool (inject_Z n / 6) (q + (1 # 20)) = true.
Proof.
  intros Hn. pose proof sum_thresholds as H. rewrite forallb_forall in H.
  specialize (H (Z.to_nat n)). rewrite Z2Nat.id in H by lia.
  assert (Hin : In (Z.to_nat n) (seq 0 601)) by (apply in_seq; lia).
  specialize (H Hin). cbv zeta in H.
  repeat (apply andb_prop in H; destruct H as [H ?]).
  repeat match goal with
         | E : Bool.eqb _ _ = true |- _ => apply eqb_prop in E
         end.
  cbv zeta. repeat split; assumption.
Qed.

Lemma assembled_total a1 a2 a3 a4 a5 a6 :
  total_score (assembled a1 a2 a3 a4 a5 a6)
  = Perf.score (stored a1) + Perf.score (stored a2) + Perf.score (stored a3)
    + Perf.score (stored a4) + Perf.score (stored a5) + Perf.score (stored a6).
Proof. unfold total_score, assembled. cbn. lia. Qed.

Lemma report_total t r code :
  Perf.main t = Perf.Report r code ->
  0 <= total_score r <= 600
  /\ Perf.overall_score r
     = Perf.round1 (inject_Z (total_score r) / inject_Z (Z.of_nat 6))
  /\ code = Perf.exit_code r.
Proof.
  intros H.
  destruct (main_reports _ _ _ H) as (a1 & a2 & a3 & a4 & a5 & a6 & B1 & B2 & B3 & B4 & B5 & B6 & -> & ->).
  destruct (bodies_no_higher t) as (K1 & K2 & K3 & K4 & K5 & K6).
  pose proof (stored_bounds _ _ K1 B1). pose proof (stored_bounds _ _ K2 B2).
  pose proof (stored_bounds _ _ K3 B3). pose proof (stored_bounds _ _ K4 B4).
  pose proof (stored_bounds _ _ K5 B5). pose proof (stored_bounds _ _ K6 B6).
  split; [rewrite assembled_total; lia|]. split; reflexivity.
Qed.

(** X4.  What a run of the performance audit that reports ends with is
    decided by the sum of its six category scores: the exit status is 0
    exactly when the sum is at least 420, and 1 otherwise; the label
    [print_results] puts beside the overall score is EXCELLENT from 540, GOOD
    from 480, FAIR from 420 and NEEDS IMPROVEMENT below, so the label and the
    exit status agree.  Rounding to one decimal never moves the overall score
    across a threshold: it stays between 0 and 100 and within a twentieth of
    the exact mean. *)
Theorem audit_outcome_is_decided_by_the_sum_of_the_scores :
  forall t r code,
    Perf.main t = Perf.Report r code ->
    (code = 0 <-> 420 <= total_score r)
    /\ (code = 1 <-> total_score r < 420)
    /\ PerfReport.status (Perf.overall_score r)
       = (if 540 <=? total_score r then "EXCELLENT"
          else if 480 <=? total_score r then "GOOD"
          else if 420 <=? total_score r then "FAIR"
          else "NEEDS IMPROVEMENT")
    /\ (0 <= Perf.overall_score r <= 100)%Q
    /\ (Perf.overall_score r - (1 # 20) <= inject_Z (total_score r) / 6
        <= Perf.overall_score r + (1 # 20))%Q.
Proof.
  intros t r code H.
  destruct (report_total _ _ _ H) as (Hn & Ho & ->).
  destruct (thresholds _ Hn) as (T70 & T80 & T90 & T0 & T100 & Tl & Tu).
  cbv zeta in *. rewrite <- Ho in *.
  unfold Perf.exit_code, PerfReport.status. rewrite T70, T80, T90.
  repeat split; try (now apply Qle_bool_iff).
  - destruct (420 <=? total_score r) eqn:E; [intros _; now apply Z.leb_le | discriminate].
  - intros E. now rewrite (proj2 (Z.leb_le _ _) E).
  - destruct (420 <=? total_score r) eqn:E; [discriminate | intros _; now apply Z.leb_gt].
  - intros E. now rewrite (proj2 (Z.leb_gt _ _) E).
Qed.

Lemma audit_outcome_is_decided_by_the_sum_of_the_scores_witness :
  exists r,
    Perf.main Sample.scanned_once = Perf.Report r 1 /\ total_score r < 420.
Proof.
  assert (C : exists r, Perf.main Sample.scanned_once = Perf.Report r 1)
    by (eexists; vm_compute; reflexivity).
  destruct C as [r E]. exists r. split; [exact E|].
  apply (audit_outcome_is_decided_by_the_sum_of_the_scores _ _ _ E). reflexivity.
Defined.

(** ** Scores and messages of the performance audit *)

Lemma tracks_refl a : tracks a a.
Proof. unfold tracks. repeat split; lia. Qed.

Lemma tracks_trans a b c : tracks a b -> tracks b c -> tracks a c.
Proof. unfold tracks. intros (H1 & H2 & H3 & H4) (K1 & K2 & K3 & K4). repeat split; lia. Qed.

Lemma deduct_tracks w issue recommendation :
  0 < w -> (length issue <= length recommendation)%nat ->
  (0 < length recommendation)%nat ->
  keeps tracks (Perf.deduct w issue recommendation).
Proof.
  intros Hw Hi Hr. apply keeps_modify. intros s. unfold tracks. cbn.
  rewrite !length_app. repeat split; lia.
Qed.

Ltac tracks_tac :=
  repeat first
    [ apply deduct_tracks; [lia | cbn; lia | cbn; lia]
    | progress unfold Perf.unless
    | keeps_step tracks_refl tracks_trans ].

Lemma voice_loop_tracks t ps : keeps tracks (Perf.voice_patterns_loop t ps).
Proof.
  induction ps as [| [n p] ps IH]; cbn [Perf.voice_patterns_loop]; tracks_tac; exact IH.
Qed.

Lemma features_loop_tracks content fs : keeps tracks (Perf.features_loop content fs).
Proof.
  induction fs as [| [n p] fs IH]; cbn [Perf.features_loop]; tracks_tac; exact IH.
Qed.

Lemma query_loop_tracks t ps : keeps tracks (Perf.query_loop t ps).
Proof.
  induction ps as [| p ps IH]; cbn [Perf.query_loop]; tracks_tac; exact IH.
Qed.

Ltac tracks_body :=
  repeat first
    [ apply voice_loop_tracks
    | apply features_loop_tracks
    | apply query_loop_tracks
    | apply deduct_tracks; [lia | cbn; lia | cbn; lia]
    | progress unfold Perf.unless
    | keeps_step tracks_refl tracks_trans ].

Lemma bodies_track t :
  keeps tracks (Perf.voice_body t) /\ keeps tracks (Perf.bundle_body t)
  /\ keeps tracks (Perf.database_body t) /\ keeps tracks (Perf.realtime_body t)
  /\ keeps tracks (Perf.mobile_body t) /\ keeps tracks (Perf.vitals_body t).
Proof.
  split; [unfold Perf.voice_body; tracks_body|].
  split; [unfold Perf.bundle_body; tracks_body|].
  split; [unfold Perf.database_body; tracks_body|].
  split; [unfold Perf.realtime_body; tracks_body|].
  split; [unfold Perf.mobile_body; tracks_body | unfold Perf.vitals_body; tracks_body].
Qed.

Lemma stored_tracks body a :
  keeps tracks body -> body Perf.start = Returned (tt, a) ->
  (Perf.score (stored a) = 100 <-> Perf.recommendations (stored a) = [])
  /\ (length (Perf.issues (stored a)) <= length (Perf.recommendations (stored a)))%nat.
Proof.
  intros K H. destruct (K _ _ _ H) as (H1 & H2 & H3 & H4). cbn in *.
  split; [| lia]. split.
  - intros E. apply length_zero_iff_nil. apply H3. lia.
  - intros E. rewrite E in H3. cbn in H3. assert (Perf.sc a = 100) by (apply H3; reflexivity). lia.
Qed.

(** X5.  In every category the performance audit reports, the score and the
    messages agree: the score is 100 exactly when there is no recommendation,
    and the issues never outnumber the recommendations, since every deduction
    appends a recommendation and at most one issue. *)
Theorem a_category_is_perfect_iff_it_recommends_nothing :
  forall t r code k,
    Perf.main t = Perf.Report r code ->
    (Perf.score (Perf.lookup k r) = 100 <-> Perf.recommendations (Perf.lookup k r) = [])
    /\ (length (Perf.issues (Perf.lookup k r))
        <= length (Perf.recommendations (Perf.lookup k r)))%nat.
Proof.
  intros t r code k H.
  destruct (main_reports _ _ _ H) as (a1 & a2 & a3 & a4 & a5 & a6 & B1 & B2 & B3 & B4 & B5 & B6 & -> & _).
  destruct (bodies_track t) as (K1 & K2 & K3 & K4 & K5 & K6).
  destruct k; cbn [Perf.lookup assembled Perf.calculate_overall_score Perf.set_overall
                     Perf.voice_performance Perf.bundle_optimization
                     Perf.database_performance Perf.realtime_performance
                     Perf.mobile_optimization Perf.core_web_vitals];
    eauto using stored_tracks.
Qed.

Lemma a_category_is_perfect_iff_it_recommends_nothing_witness :
  exists r,
    Perf.main Sample.scanned_once = Perf.Report r 1
    /\ (Perf.score (Perf.lookup Perf.Database_performance r) = 100
        <-> Perf.recommendations (Perf.lookup Perf.Database_performance r) = [])
    /\ (length (Perf.issues (Perf.lookup Perf.Database_performance r))
        <= length (Perf.recommendations (Perf.lookup Perf.Database_performance r)))%nat.
Proof.
  assert (C : exists r, Perf.main Sample.scanned_once = Perf.Report r 1)
    by (eexists; vm_compute; reflexivity).
  destruct C as [r E]. exists r. split; [exact E|].
  exact (a_category_is_perfect_iff_it_recommends_nothing _ _ _ Perf.Database_performance E).
Defined.

(** ** Runs that complete, and runs that do not *)

Lemma returns_ret {S A} (a : A) : returns (@ret S A a).
Proof. intros s. exists a, s. reflexivity. Qed.

Lemma returns_modify {S} (f : S -> S) : returns (modify f).
Proof. intros s. exists tt, (f s). reflexivity. Qed.

Lemma returns_get {S} : returns (@get S).
Proof. intros s. exists s, s. reflexivity. Qed.

Lemma returns_lift {S A} (o : outcome A) :
  (exists a, o = Returned a) -> returns (@lift S A o).
Proof. intros [a ->] s. exists a, s. reflexivity. Qed.

Lemma returns_bind {S A B} (m : M S A) (k : A -> M S B) :
  returns m -> (forall a, returns (k a)) -> returns (bind m k).
Proof.
  intros Hm Hk s. destruct (Hm s) as (a & s1 & E). destruct (Hk a s1) as (b & s2 & E2).
  exists b, s2. unfold bind. now rewrite E.
Qed.

Lemma read_regular e :
  is_file e = true ->
  (exists text, read e = Returned text) \/ (exists x, read e = Raised x /\ caught x = true).
Proof.
  unfold is_file, read. destruct (what e); intros H; try discriminate.
  - left. eauto.
  - right. eauto.
  - right. eauto.
Qed.

Lemma read_directory e : is_file e = false -> read e = Raised IsADirectoryError.
Proof. unfold is_file, read. destruct (what e); intros H; try discriminate. reflexivity. Qed.

Lemma read_raises e x : read e = Raised x -> caught x = false -> x = IsADirectoryError.
Proof. destruct x; intros _ H; try discriminate. reflexivity. Qed.

Lemma matching_returns pattern files :
  (forall e, In e files -> is_file e = true) ->
  exists l, Perf.matching pattern files = Returned l.
Proof.
  induction files as [| f files IH]; intros H; cbn [Perf.matching]; [eauto|].
  destruct IH as [l E]; [intros e He; apply H; right; exact He|].
  destruct (read_regular f (H f (or_introl eq_refl))) as [[text ->] | (x & -> & ->)].
  - rewrite E. cbn. eauto.
  - eauto.
Qed.

Lemma matching_directory pattern files e :
  In e files -> is_file e = false ->
  Perf.matching pattern files = Raised IsADirectoryError.
Proof.
  intros Hin He. induction files as [| f files IH]; [contradiction|].
  cbn [Perf.matching]. destruct Hin as [-> | Hin].
  - now rewrite (read_directory _ He).
  - specialize (IH Hin). destruct (read f) as [x | text] eqn:Er.
    + destruct (caught x) eqn:Ec; [exact IH|]. now rewrite (read_raises _ _ Er Ec).
    + now rewrite IH.
Qed.

Lemma for_each_try_returns {A} (body : string -> A -> A) files :
  (forall e, In e files -> is_file e = true) ->
  forall acc, exists a, for_each_try body files acc = Returned a.
Proof.
  induction files as [| f files IH]; intros H acc; cbn [for_each_try]; [eauto|].
  assert (H' : forall e, In e files -> is_file e = true) by (intros e He; apply H; right; exact He).
  destruct (read_regular f (H f (or_introl eq_refl))) as [[text ->] | (x & -> & ->)];
    apply IH, H'.
Qed.

Lemma for_each_try_directory {A} (body : string -> A -> A) files e :
  In e files -> is_file e = false ->
  forall acc, for_each_try body files acc = Raised IsADirectoryError.
Proof.
  intros Hin He. induction files as [| f files IH]; intros acc; [contradiction|].
  cbn [for_each_try]. destruct Hin as [-> | Hin].
  - now rewrite (read_directory _ He).
  - destruct (read f) as [x | text] eqn:Er; [| apply IH, Hin].
    destruct (caught x) eqn:Ec; [apply IH, Hin|]. now rewrite (read_raises _ _ Er Ec).
Qed.

Lemma first_match_try_returns test files :
  (forall e, In e files -> is_file e = true) ->
  exists b, first_match_try test files = Returned b.
Proof.
  induction files as [| f files IH]; intros H; cbn [first_match_try]; [eauto|].
  assert (H' : forall e, In e files -> is_file e = true) by (intros e He; apply H; right; exact He).
  destruct (read_regular f (H f (or_introl eq_refl))) as [[text ->] | (x & -> & ->)].
  - destruct (test text); [eauto | apply IH, H'].
  - apply IH, H'.
Qed.

Lemma for_each_returns {A} (body : string -> A -> A) files :
  (forall e, In e files -> exists text, read e = Returned text) ->
  forall acc, exists a, for_each body files acc = Returned a.
Proof.
  induction files as [| f files IH]; intros H acc; cbn [for_each]; [eauto|].
  destruct (H f (or_introl eq_refl)) as [text ->].
  apply IH. intros e He. apply H. right. exact He.
Qed.

Lemma index_loop_returns files :
  (forall e, In e files -> exists text, read e = Returned text) ->
  exists b, Perf.index_loop files = Returned b.
Proof.
  induction files as [| f files IH]; intros H; cbn [Perf.index_loop]; [eauto|].
  destruct (H f (or_introl eq_refl)) as [text ->].
  destruct (_ || _); [eauto|]. apply IH. intros e He. apply H. right. exact He.
Qed.

Section RegularSources.
Variable t : tree.
Hypothesis regular :
  forall ext e, In ext Corpus.perf_extensions -> In e (rglob ("." ++ ext) t) ->
                is_file e = true.

Lemma searched_regular extensions :
  incl extensions Corpus.perf_extensions ->
  forall e, In e (flat_map (fun ext => rglob ("." ++ ext) t) extensions) -> is_file e = true.
Proof.
  intros Hi e He. apply in_flat_map in He. destruct He as (ext & Hext & He).
  exact (regular ext e (Hi _ Hext) He).
Qed.

Lemma found_returns pattern extensions :
  incl extensions Corpus.perf_extensions ->
  exists b, Perf.found t pattern extensions = Returned b.
Proof.
  intros Hi. unfold Perf.found, Perf._search_in_files.
  destruct (matching_returns pattern _ (searched_regular _ Hi)) as [l ->]. cbn. eauto.
Qed.

Lemma any_found_returns patterns extensions :
  incl extensions Corpus.perf_extensions ->
  exists b, Perf.any_found t patterns extensions = Returned b.
Proof.
  intros Hi. induction patterns as [| p ps IH]; cbn [Perf.any_found]; [eauto|].
  destruct (found_returns p _ Hi) as [b ->]. cbn. destruct b; [eauto | exact IH].
Qed.

Lemma deduct_returns w i r : returns (Perf.deduct w i r).
Proof. apply returns_modify. Qed.

Ltac returns_tac :=
  repeat first
    [ apply returns_bind; [| intros ]
    | apply returns_ret
    | apply deduct_returns
    | apply returns_lift; first [ apply found_returns | apply any_found_returns ]; incl_tac
    | progress unfold Perf.unless
    | match goal with
      | |- returns (if ?b then _ else _) => destruct b
      end ].

Lemma voice_loop_returns ps : returns (Perf.voice_patterns_loop t ps).
Proof.
  induction ps as [| [n p] ps IH]; cbn [Perf.voice_patterns_loop]; returns_tac; exact IH.
Qed.

Lemma query_loop_returns ps : returns (Perf.query_loop t ps).
Proof.
  induction ps as [| p ps IH]; cbn [Perf.query_loop]; returns_tac; exact IH.
Qed.

Lemma features_loop_returns content fs : returns (Perf.features_loop content fs).
Proof.
  induction fs as [| [n p] fs IH]; cbn [Perf.features_loop]; returns_tac; exact IH.
Qed.

Lemma voice_body_returns : returns (Perf.voice_body t).
Proof. unfold Perf.voice_body. apply returns_bind; [apply voice_loop_returns|]. intros. returns_tac. Qed.

Lemma realtime_body_returns : returns (Perf.realtime_body t).
Proof. unfold Perf.realtime_body. returns_tac. Qed.

Lemma mobile_body_returns : returns (Perf.mobile_body t).
Proof. unfold Perf.mobile_body. returns_tac. Qed.

Lemma vitals_body_returns : returns (Perf.vitals_body t).
Proof. unfold Perf.vitals_body. returns_tac. Qed.

Lemma bundle_body_returns :
  (exists_ t Perf.vite_config = true ->
   exists text, Perf.read_path t Perf.vite_config = Returned text) ->
  returns (Perf.bundle_body t).
Proof.
  intros Hv. unfold Perf.bundle_body. apply returns_bind; [| intros; returns_tac].
  destruct (exists_ t Perf.vite_config).
  - apply returns_bind; [apply returns_lift, Hv; reflexivity|].
    intros. apply features_loop_returns.
  - apply deduct_returns.
Qed.

Lemma database_body_returns :
  (forall e, In e (glob ["supabase"; "migrations"] ".sql" t) ->
             exists text, read e = Returned text) ->
  returns (Perf.database_body t).
Proof.
  intros Hm. unfold Perf.database_body. apply returns_bind.
  - destruct (exists_ t ["supabase"]); [| apply returns_ret].
    destruct (exists_ t ["supabase"; "migrations"]); [| apply returns_ret].
    apply returns_bind; [apply returns_lift, index_loop_returns, Hm|].
    intros. returns_tac.
  - intros. apply returns_bind; [apply query_loop_returns|]. intros. returns_tac.
Qed.

End RegularSources.

Lemma audit_completes k body : returns body -> returns (Perf.audit k body).
Proof.
  intros Hb. unfold Perf.audit.
  apply returns_bind; [apply returns_modify|]. intros.
  apply returns_bind; [| intros; apply returns_modify].
  apply returns_lift. destruct (Hb Perf.start) as (u & a' & ->). eauto.
Qed.

(** X6.  The performance audit completes and reports when what it opens can
    be opened: every entry it searches (a name with one of the eight
    extensions) is a regular file, [vite.config.ts], where it exists, can be
    read, and so can every migration.  Files among the searched ones that do
    not decode or may not be read are passed over. *)
Theorem the_audit_completes_when_its_files_can_be_opened :
  forall t,
    (forall ext e, In ext Corpus.perf_extensions -> In e (rglob ("." ++ ext) t) ->
                   is_file e = true) ->
    (exists_ t Perf.vite_config = true ->
     exists text, Perf.read_path t Perf.vite_config = Returned text) ->
    (forall e, In e (glob ["supabase"; "migrations"] ".sql" t) ->
               exists text, read e = Returned text) ->
    exists r code, Perf.main t = Perf.Report r code.
Proof.
  intros t Hr Hv Hm.
  assert (R : returns (Perf.audit_all t)).
  { unfold Perf.audit_all, Perf.audit_voice_performance, Perf.audit_bundle_optimization,
      Perf.audit_database_performance, Perf.audit_realtime_performance,
      Perf.audit_mobile_optimization, Perf.audit_core_web_vitals.
    repeat (apply returns_bind; [apply audit_completes | intros]).
    - apply voice_body_returns, Hr.
    - apply bundle_body_returns; assumption.
    - apply database_body_returns; assumption.
    - apply realtime_body_returns, Hr.
    - apply mobile_body_returns, Hr.
    - apply vitals_body_returns, Hr.
    - apply returns_bind; [apply returns_modify | intros; apply returns_get]. }
  unfold Perf.main. destruct (R Perf.init) as (r & s & ->). eauto.
Qed.

Lemma the_audit_completes_when_its_files_can_be_opened_witness :
  exists r code, Perf.main Sample.scanned_twice = Perf.Report r code.
Proof.
  apply the_audit_completes_when_its_files_can_be_opened.
  - intros ext e Hext He. cbn in Hext.
    repeat (destruct Hext as [<- | Hext];
            [vm_compute in He;
             repeat (destruct He as [<- | He]; [reflexivity|]); contradiction|]).
    contradiction.
  - intros H. vm_compute in H. discriminate.
  - intros e He. vm_compute in He. contradiction.
Defined.

Lemma found_directory t pattern extensions ext e :
  In ext extensions -> In e (rglob ("." ++ ext) t) -> is_file e = false ->
  Perf.found t pattern extensions = Raised IsADirectoryError.
Proof.
  intros Hext He Hd. unfold Perf.found, Perf._search_in_files.
  rewrite (matching_directory pattern _ e); [reflexivity | | exact Hd].
  apply in_flat_map. exists ext. split; assumption.
Qed.

(** X7.  [_search_in_files] opens whatever [rglob] yields.  A directory whose
    name ends in [.ts], [.tsx] or [.js] (a package directory such as
    [node_modules/chart.js]) makes [open] raise [IsADirectoryError], which the
    [except] clause does not name: the first search of the audit raises it and
    the run ends without a report, whatever else the tree holds. *)
Theorem a_directory_named_like_a_script_aborts_the_audit :
  forall t ext e,
    In ext ["ts"; "tsx"; "js"] -> In e (rglob ("." ++ ext) t) -> is_file e = false ->
    Perf.main t = Perf.Crash IsADirectoryError.
Proof.
  intros t ext e Hext He Hd.
  unfold Perf.main, Perf.audit_all, Perf.audit_voice_performance, Perf.audit, Perf.voice_body.
  cbn [Perf.optimization_patterns Perf.voice_patterns_loop].
  unfold bind at 1 2 3 4 5 6 7 8 9 10. unfold modify at 1. unfold lift at 1.
  unfold bind at 1 2 3. unfold lift at 1.
  now rewrite (found_directory t _ _ ext e Hext He Hd).
Qed.

Lemma a_directory_named_like_a_script_aborts_the_audit_witness :
  Perf.main Project.package_directory = Perf.Crash IsADirectoryError.
Proof.
  apply (a_directory_named_like_a_script_aborts_the_audit
           Project.package_directory "js"
           {| path := ["node_modules"; "chart.js"]; what := Dir |}).
  - right. right. left. reflexivity.
  - left. reflexivity.
  - reflexivity.
Defined.

Lemma warn_inv label sc s u s' :
  Aegis.warn_below_70 label sc s = Returned (u, s') ->
  Aegis.warnings s' = (Aegis.warnings s ++ warning label sc)%list
  /\ Aegis.checks_performed s' = Aegis.checks_performed s
  /\ Aegis.lgpd s' = Aegis.lgpd s /\ Aegis.pix s' = Aegis.pix s
  /\ Aegis.openbanking s' = Aegis.openbanking s /\ Aegis.security s' = Aegis.security s.
Proof.
  unfold Aegis.warn_below_70, warning. destruct (sc <? 70); intros H.
  - apply modify_returns in H. subst. repeat split.
  - injection H as _ <-. rewrite app_nil_r. repeat split.
Qed.

Lemma check_quiet found w missing sc s sc' s' :
  (forall x, Aegis.checks_performed (missing x) = Aegis.checks_performed x
             /\ Aegis.warnings (missing x) = Aegis.warnings x) ->
  Aegis.check found w missing sc s = Returned (sc', s') ->
  Aegis.checks_performed s' = Aegis.checks_performed s
  /\ Aegis.warnings s' = Aegis.warnings s.
Proof.
  intros Hm H. apply check_returns in H. destruct H as [_ ->].
  destruct found; [split; reflexivity | apply Hm].
Qed.

(** Take a run that returns apart, up to its last two steps: storing the
    score and warning about it. *)
Ltac open_run H :=
  repeat match type of H with
         | bind _ _ _ = Returned _ =>
             let a := fresh "a" in let s := fresh "s" in let H1 := fresh "H" in
             apply bind_returns in H; destruct H as (a & s & H1 & H)
         | (let '(_, _) := ?x in _) _ = Returned _ => destruct x
         end;
  repeat match goal with
         | E : modify _ _ = Returned _ |- _ => apply modify_returns in E
         | E : lift _ _ = Returned _ |- _ =>
             apply lift_returns in E; destruct E as [_ ?]
         | E : Aegis.check _ _ _ _ _ = Returned _ |- _ =>
             apply check_quiet in E; [destruct E as [? ?] | intros; split; reflexivity]
         | E : Aegis.warn_below_70 _ _ _ = Returned _ |- _ =>
             apply warn_inv in E; destruct E as (? & ? & ? & ? & ? & ?)
         end;
  subst.

Ltac close_run :=
  cbn in *; split; [congruence|];
  match goal with
  | Hc : ?cat ?r' = Aegis.with_score _ _ |- context [Aegis.score (?cat ?r')] => rewrite Hc
  end;
  cbn; congruence.

Lemma lgpd_effect t r r' :
  Aegis.validate_lgpd_compliance t r = Returned (tt, r') ->
  Aegis.checks_performed r' = (Aegis.checks_performed r ++ ["lgpd"])%list
  /\ Aegis.warnings r'
     = (Aegis.warnings r ++ warning "LGPD" (Aegis.score (Aegis.lgpd r')))%list.
Proof.
  intros H. unfold Aegis.validate_lgpd_compliance in H. open_run H. close_run.
Qed.

Lemma pix_effect t r r' :
  Aegis.validate_pix_compliance t r = Returned (tt, r') ->
  Aegis.checks_performed r' = (Aegis.checks_performed r ++ ["pix"])%list
  /\ Aegis.warnings r'
     = (Aegis.warnings r ++ warning "PIX" (Aegis.score (Aegis.pix r')))%list.
Proof.
  intros H. unfold Aegis.validate_pix_compliance in H. open_run H. close_run.
Qed.

Lemma openbanking_effect t r r' :
  Aegis.validate_openbanking_compliance t r = Returned (tt, r') ->
  Aegis.checks_performed r' = (Aegis.checks_performed r ++ ["openbanking"])%list
  /\ Aegis.warnings r'
     = (Aegis.warnings r
        ++ warning "Open Banking" (Aegis.score (Aegis.openbanking r')))%list.
Proof.
  intros H. unfold Aegis.validate_openbanking_compliance in H. cbv zeta in H.
  open_run H. close_run.
Qed.

Lemma security_effect t r r' :
  Aegis.validate_brazilian_security t r = Returned (tt, r') ->
  Aegis.checks_performed r' = (Aegis.checks_performed r ++ ["security"])%list
  /\ Aegis.warnings r'
     = (Aegis.warnings r ++ warning "Security" (Aegis.score (Aegis.security r')))%list.
Proof.
  intros H. unfold Aegis.validate_brazilian_security in H. cbv zeta in H.
  open_run H. close_run.
Qed.

Lemma run_check_effect t c r r' :
  Aegis.run_check t c r = Returned (tt, r') ->
  Aegis.checks_performed r'
  = (Aegis.checks_performed r ++ (if known c then [c] else []))%list
  /\ Aegis.warnings r' = (Aegis.warnings r ++ warning_of r' c)%list.
Proof.
  unfold Aegis.run_check, known, warning_of, category_of, label_of, Aegis.all_checks.
  cbn [existsb].
  destruct (String.eqb_spec c "lgpd") as [-> | _]; [exact (lgpd_effect t r r')|].
  destruct (String.eqb_spec c "pix") as [-> | _]; [exact (pix_effect t r r')|].
  destruct (String.eqb_spec c "openbanking") as [-> | _];
    [exact (openbanking_effect t r r')|].
  destruct (String.eqb_spec c "security") as [-> | _]; [exact (security_effect t r r')|].
  intros H. injection H as <-. now rewrite !app_nil_r.
Qed.

Lemma run_check_frame t c k r r' :
  Aegis.run_check t c r = Returned (tt, r') -> c <> k ->
  category_of k r' = category_of k r.
Proof.
  unfold Aegis.run_check, category_of. intros H Hk.
  destruct (String.eqb_spec c "lgpd") as [-> | _].
  { destruct (lgpd_frame t) as (F1 & F2 & F3).
    rewrite (F1 _ _ _ H), (F2 _ _ _ H), (F3 _ _ _ H).
    destruct (String.eqb_spec k "lgpd"); [congruence | reflexivity]. }
  destruct (String.eqb_spec c "pix") as [-> | _].
  { destruct (pix_frame t) as (F1 & F2 & F3).
    rewrite (F1 _ _ _ H), (F2 _ _ _ H), (F3 _ _ _ H).
    destruct (String.eqb_spec k "pix"); [congruence | reflexivity]. }
  destruct (String.eqb_spec c "openbanking") as [-> | _].
  { destruct (openbanking_frame t) as (F1 & F2 & F3).
    rewrite (F1 _ _ _ H), (F2 _ _ _ H), (F3 _ _ _ H).
    destruct (String.eqb_spec k "openbanking"); [congruence | reflexivity]. }
  destruct (String.eqb_spec c "security") as [-> | _].
  { destruct (security_frame t) as (F1 & F2 & F3).
    rewrite (F1 _ _ _ H), (F2 _ _ _ H), (F3 _ _ _ H).
    destruct (String.eqb_spec k "security"); [congruence | reflexivity]. }
  injection H as <-. reflexivity.
Qed.

Lemma run_checks_frame t k cs :
  forall r r', Aegis.run_checks t cs r = Returned (tt, r') -> ~ In k cs ->
               category_of k r' = category_of k r.
Proof.
  induction cs as [| c cs IH]; intros r r' H Hk; cbn [Aegis.run_checks] in H.
  - injection H as <-. reflexivity.
  - apply bind_returns in H. destruct H as ([] & r1 & H1 & H).
    rewrite (IH _ _ H) by (intros Hin; apply Hk; right; exact Hin).
    apply (run_check_frame _ _ _ _ _ H1). intros ->. apply Hk. left. reflexivity.
Qed.

Lemma run_checks_performed t cs :
  forall r r', Aegis.run_checks t cs r = Returned (tt, r') ->
               Aegis.checks_performed r' = (Aegis.checks_performed r ++ filter known cs)%list.
Proof.
  induction cs as [| c cs IH]; intros r r' H; cbn [Aegis.run_checks] in H.
  - injection H as <-. cbn. now rewrite app_nil_r.
  - apply bind_returns in H. destruct H as ([] & r1 & H1 & H).
    rewrite (IH _ _ H), (proj1 (run_check_effect _ _ _ _ H1)). cbn [filter].
    destruct (known c); [now rewrite <- app_assoc | now rewrite app_nil_r].
Qed.

Lemma warning_of_frame r r' c :
  category_of c r' = category_of c r -> warning_of r' c = warning_of r c.
Proof. unfold warning_of. now intros ->. Qed.

Lemma run_checks_warnings t cs :
  NoDup cs ->
  forall r r', Aegis.run_checks t cs r = Returned (tt, r') ->
               Aegis.warnings r' = (Aegis.warnings r ++ flat_map (warning_of r') cs)%list.
Proof.
  induction 1 as [| c cs Hc Hcs IH]; intros r r' H; cbn [Aegis.run_checks] in H.
  - injection H as <-. cbn. now rewrite app_nil_r.
  - apply bind_returns in H. destruct H as ([] & r1 & H1 & H).
    rewrite (IH _ _ H), (proj2 (run_check_effect _ _ _ _ H1)). cbn [flat_map].
    rewrite (warning_of_frame r1 r' c (run_checks_frame _ _ _ _ _ H Hc)).
    now rewrite <- app_assoc.
Qed.

Lemma main_inv t checks r code :
  Aegis.main t checks = Aegis.Report r code ->
  exists r1, Aegis.run_checks t (selected checks) Aegis.init = Returned (tt, r1)
             /\ r = Aegis._calculate_overall_score r1.
Proof.
  unfold Aegis.main. rewrite validate_all_unfold. fold (selected checks).
  destruct (Aegis.run_checks t (selected checks) Aegis.init) as [e | [[] r1]];
    [discriminate|].
  intros H. injection H as <- _. exists r1. split; reflexivity.
Qed.

Lemma overall_keeps_categories r c :
  category_of c (Aegis._calculate_overall_score r) = category_of c r.
Proof. reflexivity. Qed.

Lemma single_score r c k :
  scores_ok r ->
  (forall c', c' <> c -> category_of c' r = category_of c' Aegis.init) ->
  category_of c r = Some k ->
  Aegis.compliance_score (Aegis._calculate_overall_score r) = Aegis.score k.
Proof.
  intros (Ha & Hb & Hc & Hd) Hz Hk.
  assert (E1 : c <> "lgpd" -> Aegis.lgpd r = Aegis.lgpd Aegis.init).
  { intros N. specialize (Hz "lgpd" (not_eq_sym N)). now injection Hz. }
  assert (E2 : c <> "pix" -> Aegis.pix r = Aegis.pix Aegis.init).
  { intros N. specialize (Hz "pix" (not_eq_sym N)). now injection Hz. }
  assert (E3 : c <> "openbanking" -> Aegis.openbanking r = Aegis.openbanking Aegis.init).
  { intros N. specialize (Hz "openbanking" (not_eq_sym N)). now injection Hz. }
  assert (E4 : c <> "security" -> Aegis.security r = Aegis.security Aegis.init).
  { intros N. specialize (Hz "security" (not_eq_sym N)). now injection Hz. }
  unfold category_of in Hk.
  unfold Aegis._calculate_overall_score, Aegis.positive_scores.
  destruct (String.eqb_spec c "lgpd") as [-> | N1];
    [| destruct (String.eqb_spec c "pix") as [-> | N2];
       [| destruct (String.eqb_spec c "openbanking") as [-> | N3];
          [| destruct (String.eqb_spec c "security") as [-> | N4]; [| discriminate]]]];
    injection Hk as <-;
    rewrite ?E1, ?E2, ?E3, ?E4 by discriminate; cbn;
    match goal with
    | |- context [0 <? ?n] => destruct (Z.ltb_spec 0 n)
    end; cbn; try lia; rewrite Z.add_0_r; apply Z.div_1_r.
Qed.

(** X9.  [validate_all] runs the checks requested and no other:
    [checks_performed] lists the requested names that name a check, in the
    order given (another name is passed over in silence); a category that was
    not requested keeps the score 0 and the empty list of issues of
    [__init__]; and when one check is requested, the overall score is the
    score of its category. *)
Theorem only_the_requested_checks_run :
  forall t checks r code,
    Aegis.main t checks = Aegis.Report r code ->
    Aegis.checks_performed r = filter known (selected checks)
    /\ (forall c, ~ In c (selected checks) -> category_of c r = category_of c Aegis.init)
    /\ (forall c k, selected checks = [c] -> category_of c r = Some k ->
                    Aegis.compliance_score r = Aegis.score k).
Proof.
  intros t checks r code H.
  destruct (main_inv _ _ _ _ H) as (r1 & E & ->).
  split; [| split].
  - exact (run_checks_performed _ _ _ _ E).
  - intros c Hc. rewrite overall_keeps_categories.
    exact (run_checks_frame _ _ _ _ _ E Hc).
  - intros c k Hs Hk. rewrite overall_keeps_categories in Hk.
    apply (single_score r1 c k); [| | exact Hk].
    + apply (run_checks_scores_ok _ _ _ _ _ E). unfold scores_ok. cbn. lia.
    + intros c' Hc'. apply (run_checks_frame _ _ _ _ _ E). rewrite Hs.
      intros [-> | []]. congruence.
Qed.

Lemma only_the_requested_checks_run_witness :
  exists r,
    Aegis.main Sample.five_migrations (Some ["security"; "audit"; "lgpd"]) = Aegis.Report r 0
    /\ Aegis.checks_performed r = ["security"; "lgpd"]
    /\ category_of "pix" r = category_of "pix" Aegis.init.
Proof.
  assert (C : exists r, Aegis.main Sample.five_migrations (Some ["security"; "audit"; "lgpd"])
                        = Aegis.Report r 0)
    by (eexists; vm_compute; reflexivity).
  destruct C as [r E]. exists r. split; [exact E|].
  destruct (only_the_requested_checks_run _ _ _ _ E) as (H1 & H2 & _).
  split; [exact H1|]. apply H2. cbn. intros [F | [F | [F | []]]]; discriminate.
Defined.

(** X10.  In a run that reports and in which no check was requested twice,
    the warnings are, in the order of the checks, one warning for each
    category checked whose score is below 70, carrying the label of the
    category and its score, and nothing else. *)
Theorem every_category_below_70_is_warned_about :
  forall t checks r code,
    Aegis.main t checks = Aegis.Report r code -> NoDup (selected checks) ->
    Aegis.warnings r = flat_map (warning_of r) (selected checks).
Proof.
  intros t checks r code H Hn.
  destruct (main_inv _ _ _ _ H) as (r1 & E & ->).
  exact (run_checks_warnings _ _ Hn _ _ E).
Qed.

Lemma every_category_below_70_is_warned_about_witness :
  exists r,
    Aegis.main Sample.five_migrations None = Aegis.Report r 0
    /\ Aegis.warnings r = flat_map (warning_of r) ["lgpd"; "pix"; "openbanking"; "security"].
Proof.
  assert (C : exists r, Aegis.main Sample.five_migrations None = Aegis.Report r 0)
    by (eexists; vm_compute; reflexivity).
  destruct C as [r E]. exists r. split; [exact E|].
  apply (every_category_below_70_is_warned_about _ None _ _ E).
  repeat constructor; cbn; intuition discriminate.
Defined.

(** ** Runs of the compliance validator that complete, and runs that do not *)

Lemma check_completes found w missing sc : returns (Aegis.check found w missing sc).
Proof.
  unfold Aegis.check. destruct found; [apply returns_ret|].
  apply returns_bind; [apply returns_modify | intros; apply returns_ret].
Qed.

Lemma warn_completes label sc : returns (Aegis.warn_below_70 label sc).
Proof.
  unfold Aegis.warn_below_70. destruct (sc <? 70); [apply returns_modify | apply returns_ret].
Qed.

Section OpenableFiles.
Variable t : tree.
Hypothesis code_regular : forall e, In e (Aegis.code_files t) -> is_file e = true.
Hypothesis migrations_readable :
  forall e, In e (Aegis.migration_files t) -> exists text, read e = Returned text.

Lemma migrations_regular e : In e (Aegis.migration_files t) -> is_file e = true.
Proof.
  intros He. destruct (migrations_readable e He) as [text E].
  unfold read in E. unfold is_file. destruct (what e); try discriminate. reflexivity.
Qed.

Lemma rls_completes : exists b, Aegis._check_rls_implementation t = Returned b.
Proof.
  rewrite rls_reads_the_migrations. apply first_match_try_returns. exact migrations_regular.
Qed.

Lemma search_in_code_completes pattern :
  exists b, Aegis._search_in_code t pattern = Returned b.
Proof. apply first_match_try_returns. exact code_regular. Qed.

Lemma pix_endpoints_complete patterns :
  exists b, Aegis.pix_endpoints_loop t patterns = Returned b.
Proof.
  induction patterns as [| p ps IH]; cbn [Aegis.pix_endpoints_loop]; [eauto|].
  destruct (search_in_code_completes p) as [b ->]. cbn. destruct b; [eauto | exact IH].
Qed.

Ltac completes_tac :=
  repeat first
    [ apply returns_bind; [| intros ]
    | apply returns_modify
    | apply check_completes
    | apply warn_completes
    | apply returns_lift;
      first [ apply for_each_returns; exact migrations_readable
            | apply for_each_try_returns; exact code_regular
            | apply rls_completes
            | apply pix_endpoints_complete ]
    | match goal with
      | |- returns (let '(_, _) := ?x in _) => destruct x
      end ].

Lemma run_check_completes c : returns (Aegis.run_check t c).
Proof.
  unfold Aegis.run_check.
  destruct (c =? "lgpd")%string;
    [unfold Aegis.validate_lgpd_compliance; completes_tac|].
  destruct (c =? "pix")%string;
    [unfold Aegis.validate_pix_compliance; completes_tac|].
  destruct (c =? "openbanking")%string;
    [unfold Aegis.validate_openbanking_compliance; completes_tac|].
  destruct (c =? "security")%string;
    [unfold Aegis.validate_brazilian_security; completes_tac|].
  apply returns_ret.
Qed.

Lemma run_checks_complete cs : returns (Aegis.run_checks t cs).
Proof.
  induction cs as [| c cs IH]; cbn [Aegis.run_checks]; [apply returns_ret|].
  apply returns_bind; [apply run_check_completes | intros; exact IH].
Qed.

End OpenableFiles.

(** X8.  The compliance validator completes and reports, whatever checks are
    requested, when what it opens can be opened: every [.ts] and [.tsx] entry
    is a regular file and every migration can be read.  Code files that do not
    decode or may not be read are passed over. *)
Theorem the_validation_completes_when_its_files_can_be_opened :
  forall t checks,
    (forall e, In e (Aegis.code_files t) -> is_file e = true) ->
    (forall e, In e (Aegis.migration_files t) -> exists text, read e = Returned text) ->
    exists r code, Aegis.main t checks = Aegis.Report r code.
Proof.
  intros t checks Hc Hm. unfold Aegis.main. rewrite validate_all_unfold.
  destruct (run_checks_complete t Hc Hm (selected checks) Aegis.init) as ([] & r1 & E).
  unfold selected in E. rewrite E. eauto.
Qed.

Lemma the_validation_completes_when_its_files_can_be_opened_witness :
  exists r code, Aegis.main Sample.undecodable_code None = Aegis.Report r code.
Proof.
  apply the_validation_completes_when_its_files_can_be_opened.
  - intros e He. vm_compute in He.
    repeat (destruct He as [<- | He]; [reflexivity|]). contradiction.
  - intros e He. vm_compute in He. contradiction.
Defined.

Lemma bind_raised {S A B} (m : M S A) (k : A -> M S B) s e :
  m s = Raised e -> bind m k s = Raised e.
Proof. unfold bind. now intros ->. Qed.

Lemma bind_returned {S A B} (m : M S A) (k : A -> M S B) s a s1 :
  m s = Returned (a, s1) -> bind m k s = k a s1.
Proof. unfold bind. now intros ->. Qed.

Lemma run_check_directory t c e r :
  In e (Aegis.code_files t) -> is_file e = false -> known c = true ->
  exists x, Aegis.run_check t c r = Raised x.
Proof.
  intros He Hd Hc.
  pose proof (fun A (body : string -> A -> A) => for_each_try_directory body _ _ He Hd) as D.
  unfold Aegis.run_check.
  unfold known, Aegis.all_checks in Hc. cbn [existsb] in Hc.
  destruct (c =? "lgpd")%string.
  { unfold Aegis.validate_lgpd_compliance.
    rewrite (bind_returned _ _ _ tt _ eq_refl).
    destruct (for_each Aegis.lgpd_migration (Aegis.migration_files t) 0) as [x | m] eqn:E.
    - exists x. apply bind_raised. reflexivity.
    - exists IsADirectoryError. rewrite (bind_returned _ _ _ m _ eq_refl).
      apply bind_raised. unfold lift. now rewrite D. }
  destruct (c =? "pix")%string.
  { unfold Aegis.validate_pix_compliance.
    rewrite (bind_returned _ _ _ tt _ eq_refl).
    destruct (for_each Aegis.pix_migration (Aegis.migration_files t) 0) as [x | m] eqn:E.
    - exists x. apply bind_raised. reflexivity.
    - exists IsADirectoryError. rewrite (bind_returned _ _ _ m _ eq_refl).
      apply bind_raised. unfold lift. now rewrite D. }
  destruct (c =? "openbanking")%string.
  { exists IsADirectoryError. unfold Aegis.validate_openbanking_compliance.
    rewrite (bind_returned _ _ _ tt _ eq_refl).
    apply bind_raised. unfold lift. now rewrite D. }
  destruct (c =? "security")%string; [| discriminate].
  exists IsADirectoryError. unfold Aegis.validate_brazilian_security.
  rewrite (bind_returned _ _ _ tt _ eq_refl).
  apply bind_raised. unfold lift. now rewrite D.
Qed.

Lemma run_checks_directory t e cs :
  In e (Aegis.code_files t) -> is_file e = false ->
  (exists c, In c cs /\ known c = true) ->
  forall r, exists x, Aegis.run_checks t cs r = Raised x.
Proof.
  intros He Hd. induction cs as [| c cs IH]; intros (k & Hk & Kk) r; [contradiction|].
  cbn [Aegis.run_checks].
  destruct (Aegis.run_check t c r) as [x | [u r1]] eqn:E.
  - exists x. now apply bind_raised.
  - rewrite (bind_returned _ _ _ _ _ E). destruct Hk as [-> | Hk].
    + destruct (run_check_directory t k e r He Hd Kk) as [x Ex]. congruence.
    + apply IH. exists k. split; assumption.
Qed.

(** X11.  The loops of the compliance validator over the code files open
    whatever [rglob] yields: a directory whose name ends in [.ts] or [.tsx]
    aborts every run that goes through at least one of the four checks, and
    no report is printed. *)
Theorem a_directory_named_like_a_script_aborts_the_validation :
  forall t checks e,
    In e (Aegis.code_files t) -> is_file e = false ->
    (exists c, In c (selected checks) /\ known c = true) ->
    exists x, Aegis.main t checks = Aegis.Crash x.
Proof.
  intros t checks e He Hd Hc. unfold Aegis.main. rewrite validate_all_unfold.
  destruct (run_checks_directory t e (selected checks) He Hd Hc Aegis.init) as [x E].
  unfold selected in E. rewrite E. eauto.
Qed.

Lemma a_directory_named_like_a_script_aborts_the_validation_witness :
  exists x, Aegis.main Project.script_directory (Some ["security"]) = Aegis.Crash x.
Proof.
  apply (a_directory_named_like_a_script_aborts_the_validation
           Project.script_directory (Some ["security"])
           {| path := ["src"; "legacy.ts"]; what := Dir |}).
  - left. reflexivity.
  - reflexivity.
  - exists "security". split; [left; reflexivity | reflexivity].
Defined.

(** ** The consent check, and the runs that reach it *)




(** ** What satisfies a check of the fintech validator *)

Lemma presence_found content patterns :
  Fintech._check_pattern_presence content patterns = true ->
  exists p, In p patterns /\ occurs (lower p) (lower content).
Proof.
  induction patterns as [| q qs IH]; cbn [Fintech._check_pattern_presence]; [discriminate|].
  destruct (contains (lower q) (lower content)) eqn:E.
  - intros _. exists q. split; [left; reflexivity | exact (contains_occurs _ _ E)].
  - intros H. destruct (IH H) as (p & Hp & Ho). exists p. split; [right|]; assumption.
Qed.

Lemma presence_in_contents files patterns :
  (forall p, In p patterns -> plain (lower p)) ->
  Fintech._check_pattern_presence (Fintech.concat_contents files "") patterns = true
  <-> exists p f text,
        In p patterns /\ In f files /\ read f = Returned text
        /\ occurs (lower p) (lower text).
Proof.
  intros Hplain. split.
  - intros H. destruct (presence_found _ _ H) as (p & Hp & Ho).
    rewrite lower_concat_contents in Ho. cbn [lower] in Ho.
    destruct (occurs_in_contents _ _ (Hplain p Hp) "" (or_introl eq_refl) Ho)
      as [Hn | (f & text & Hin & Hr & Hf)].
    + destruct (plain_not_in_empty _ (Hplain p Hp) Hn).
    + exists p, f, text. repeat split; assumption.
  - intros (p & f & text & Hp & Hin & Hr & Ho).
    apply (presence_true _ _ p Hp).
    rewrite lower_concat_contents. cbn [lower].
    exact (occurs_trans _ _ _ Ho (concat_contents_has _ _ _ _ Hin Hr)).
Qed.

(** X12.  What satisfies a check of the fintech validator: for patterns
    without a newline (every pattern of its tables is one), the check passes
    exactly when one of the patterns occurs, in some letter case, in the text
    of one of the first 50 collected files that can be read.  A pattern is
    never matched across two files. *)
Theorem a_check_passes_iff_a_pattern_occurs_in_an_analysed_file :
  forall files patterns,
    (forall p, In p patterns -> plain (lower p)) ->
    Fintech._check_pattern_presence (Fintech._analyze_files_content files) patterns = true
    <-> exists p f text,
          In p patterns /\ In f (firstn 50 files) /\ read f = Returned text
          /\ occurs (lower p) (lower text).
Proof.
  intros files patterns Hplain. unfold Fintech._analyze_files_content.
  exact (presence_in_contents (firstn 50 files) patterns Hplain).
Qed.

Lemma a_check_passes_iff_a_pattern_occurs_in_an_analysed_file_witness :
  (forall p, In p Fintech.bcb_patterns.pix_compliance -> plain (lower p))
  /\ Fintech._check_pattern_presence
       (Fintech._analyze_files_content [Sample.file ["pay.py"] "def send_PIX(): pass"])
       Fintech.bcb_patterns.pix_compliance = true.
Proof.
  assert (Hp : forall p, In p Fintech.bcb_patterns.pix_compliance -> plain (lower p)).
  { intros p Hin. apply table_patterns_are_plain.
    unfold Fintech.all_patterns. apply in_or_app. right. apply in_or_app. right.
    apply in_or_app. right. apply in_or_app. right. apply in_or_app. left. exact Hin. }
  split; [exact Hp|].
  apply (a_check_passes_iff_a_pattern_occurs_in_an_analysed_file _ _ Hp).
  exists "pix", (Sample.file ["pay.py"] "def send_PIX(): pass"), "def send_PIX(): pass".
  split; [left; reflexivity|]. split; [left; reflexivity|]. split; [reflexivity|].
  exists "def send_", "(): pass". reflexivity.
Defined.

(** ** Scores and messages of the fintech validator *)

Lemma check_recommendations content patterns weight issue recommendation c :
  Fintech.recommendations (Fintech.check content patterns weight issue recommendation c)
  = (Fintech.recommendations c
     ++ report (Fintech._check_pattern_presence content patterns) recommendation)%list.
Proof.
  unfold Fintech.check, report.
  destruct (Fintech._check_pattern_presence content patterns); cbn;
    [now rewrite app_nil_r | reflexivity].
Qed.

Ltac expose_validations :=
  unfold Fintech._calculate_overall_score, Fintech._validate_financial_security,
    Fintech._validate_data_protection, Fintech._validate_bcb_regulations,
    Fintech._validate_lgpd_compliance;
  cbn [Fintech.lgpd_compliance Fintech.bcb_regulations Fintech.data_protection
       Fintech.financial_security Fintech.overall_score
       Fintech.on_lgpd_compliance Fintech.on_bcb_regulations
       Fintech.on_data_protection Fintech.on_financial_security];
  rewrite ?(proj1 (check_score _ _ _ _ _ _)), ?(proj2 (check_score _ _ _ _ _ _)),
    ?check_recommendations.

Ltac each_category c Hc :=
  unfold fintech_categories in Hc; cbn [In] in Hc;
  destruct Hc as [<- | [<- | [<- | [<- | []]]]].

Lemma report_length found msg : length (report found msg) = (if found then 0 else 1)%nat.
Proof. destruct found; reflexivity. Qed.

(** X13.  After a run of the fintech validator from a fresh validator, in each
    of the four categories the score is 100 exactly when there is no issue,
    there are as many recommendations as issues, and a category below 100 is at
    most at 80: the weights of a category add up to 100 and the lightest check
    weighs 20. *)
Theorem a_fintech_category_is_perfect_iff_it_has_no_issue :
  forall path t r c,
    Fintech.validate_project path t Fintech.init = Fintech.Results r ->
    In c fintech_categories ->
    (Fintech.score (c r) = 100 <-> Fintech.issues (c r) = [])
    /\ length (Fintech.issues (c r)) = length (Fintech.recommendations (c r))
    /\ (Fintech.score (c r) < 100 -> Fintech.score (c r) <= 80).
Proof.
  intros path t r c H Hc. unfold Fintech.validate_project in H.
  destruct (negb (root_exists t)); [discriminate|]. cbv zeta in H. injection H as <-.
  each_category c Hc; expose_validations;
    cbn [Fintech.score Fintech.issues Fintech.recommendations Fintech.init
         Fintech.lgpd_compliance Fintech.bcb_regulations Fintech.data_protection
         Fintech.financial_security Fintech.empty_category app];
    repeat match goal with
           | |- context [Fintech._check_pattern_presence ?a ?p] =>
               destruct (Fintech._check_pattern_presence a p)
           end;
    cbn; repeat split; intros; try lia; try discriminate; try reflexivity.
Qed.

Lemma a_fintech_category_is_perfect_iff_it_has_no_issue_witness :
  exists r,
    Fintech.validate_project "app" Sample.consent_only Fintech.init = Fintech.Results r
    /\ (Fintech.score (Fintech.lgpd_compliance r) = 100
        <-> Fintech.issues (Fintech.lgpd_compliance r) = [])
    /\ length (Fintech.issues (Fintech.lgpd_compliance r))
       = length (Fintech.recommendations (Fintech.lgpd_compliance r)).
Proof.
  assert (C : exists r, Fintech.validate_project "app" Sample.consent_only Fintech.init
                        = Fintech.Results r) by (eexists; vm_compute; reflexivity).
  destruct C as [r E]. exists r. split; [exact E|].
  destruct (a_fintech_category_is_perfect_iff_it_has_no_issue
              _ _ _ Fintech.lgpd_compliance E (or_introl eq_refl)) as (H1 & H2 & _).
  split; [exact H1 | exact H2].
Defined.

(** X14.  [validate_project] does not reset the results of the validator: a
    call on a validator that already holds results adds the scores of a fresh
    run to the scores held and appends its issues and recommendations, so a
    second call on the same tree doubles every category score. *)
Theorem a_reused_validator_adds_to_its_results :
  forall path t r0 r c,
    Fintech.validate_project path t r0 = Fintech.Results r ->
    In c fintech_categories ->
    exists fresh,
      Fintech.validate_project path t Fintech.init = Fintech.Results fresh
      /\ Fintech.score (c r) = Fintech.score (c r0) + Fintech.score (c fresh)
      /\ Fintech.issues (c r) = (Fintech.issues (c r0) ++ Fintech.issues (c fresh))%list
      /\ Fintech.recommendations (c r)
         = (Fintech.recommendations (c r0) ++ Fintech.recommendations (c fresh))%list.
Proof.
  intros path t r0 r c H Hc. unfold Fintech.validate_project in *.
  destruct (negb (root_exists t)); [discriminate|]. cbv zeta in *. injection H as <-.
  eexists. split; [reflexivity|].
  each_category c Hc; expose_validations;
    cbn [Fintech.score Fintech.issues Fintech.recommendations Fintech.init
         Fintech.lgpd_compliance Fintech.bcb_regulations Fintech.data_protection
         Fintech.financial_security Fintech.empty_category app];
    rewrite <- ?app_assoc; repeat split; lia.
Qed.

Lemma a_reused_validator_adds_to_its_results_witness :
  exists first second,
    Fintech.validate_project "app" Sample.consent_only Fintech.init = Fintech.Results first
    /\ Fintech.validate_project "app" Sample.consent_only first = Fintech.Results second
    /\ Fintech.score (Fintech.lgpd_compliance second)
       = Fintech.score (Fintech.lgpd_compliance first)
         + Fintech.score (Fintech.lgpd_compliance first).
Proof.
  assert (C : exists r, Fintech.validate_project "app" Sample.consent_only Fintech.init
                        = Fintech.Results r) by (eexists; vm_compute; reflexivity).
  destruct C as [first E1]. exists first.
  assert (D : exists r, Fintech.validate_project "app" Sample.consent_only first
                        = Fintech.Results r) by (eexists; reflexivity).
  destruct D as [second E2]. exists second.
  split; [exact E1|]. split; [exact E2|].
  destruct (a_reused_validator_adds_to_its_results _ _ _ _ Fintech.lgpd_compliance
              E2 (or_introl eq_refl)) as (fresh & E & Hs & _).
  rewrite E1 in E. injection E as <-. exact Hs.
Defined.

(** ** The files the fintech validator collects *)

Lemma length_append (a b : string) :
  String.length (a ++ b) = (String.length a + String.length b)%nat.
Proof. induction a as [| c a IH]; cbn; [reflexivity | now rewrite IH]. Qed.

Lemma substring_all (s : string) : substring 0 (String.length s) s = s.
Proof. induction s as [| c s IH]; cbn; [reflexivity | now rewrite IH]. Qed.

Lemma substring_skip (a b : string) k :
  substring (String.length a) k (a ++ b) = substring 0 k b.
Proof. induction a as [| c a IH]; cbn; [reflexivity | exact IH]. Qed.

Lemma substring_tail m :
  forall s, (m <= String.length s)%nat ->
            exists a, s = a ++ substring m (String.length s - m) s.
Proof.
  induction m as [| m IH]; intros s H.
  - exists "". cbn [append]. now rewrite Nat.sub_0_r, substring_all.
  - destruct s as [| c s]; [cbn in H; lia|]. cbn in H.
    destruct (IH s ltac:(lia)) as [a E]. exists (String c a). cbn. now rewrite <- E.
Qed.

Lemma endswith_spec suffix s :
  endswith suffix s = true <-> exists a, s = a ++ suffix.
Proof.
  unfold endswith. split.
  - intros H. apply andb_prop in H. destruct H as [Hk He].
    apply Nat.leb_le in Hk. apply String.eqb_eq in He.
    destruct (substring_tail (String.length s - String.length suffix) s ltac:(lia)) as [a E].
    exists a.
    replace (String.length s - (String.length s - String.length suffix))%nat
      with (String.length suffix) in E by lia.
    rewrite He in E. exact E.
  - intros [a ->]. rewrite length_append.
    replace (String.length a + String.length suffix - String.length suffix)%nat
      with (String.length a) by lia.
    rewrite substring_skip, substring_all, String.eqb_refl, andb_true_r.
    apply Nat.leb_le. lia.
Qed.

Lemma suffixes_exclude_each_other s1 s2 n :
  In s1 collected_suffixes -> In s2 collected_suffixes ->
  endswith s1 n = true -> endswith s2 n = true -> s1 = s2.
Proof.
  intros H1 H2 E1 E2.
  assert (T : forallb (fun a => forallb (fun b => String.eqb a b || negb (endswith a b))
                                        collected_suffixes)
                      collected_suffixes = true) by (vm_compute; reflexivity).
  rewrite forallb_forall in T.
  assert (X : forall a b, In a collected_suffixes -> In b collected_suffixes ->
                          endswith a b = true -> a = b).
  { intros a b Ha Hb E. specialize (T a Ha). rewrite forallb_forall in T.
    specialize (T b Hb). rewrite E in T. cbn in T. rewrite orb_false_r in T.
    now apply String.eqb_eq. }
  apply endswith_spec in E1, E2. destruct E1 as [a1 E1], E2 as [a2 E2].
  rewrite E1 in E2.
  destruct (append_eq_append _ _ _ _ E2) as [(l & _ & E) | (l & _ & E)].
  - apply X; [assumption | assumption |]. apply endswith_spec. exists l. exact E.
  - symmetry. apply X; [assumption | assumption |]. apply endswith_spec. exists l. exact E.
Qed.

Lemma collect_unfold t :
  Fintech._collect_source_files t
  = filter is_file (flat_map (fun suffix => rglob suffix t) collected_suffixes).
Proof.
  unfold Fintech._collect_source_files, collected_suffixes.
  rewrite flat_map_app. cbn [flat_map]. now rewrite app_nil_r.
Qed.

Lemma in_rglob suffix t f :
  In f (rglob suffix t)
  <-> In f (entries t) /\ path f <> [] /\ endswith suffix (name f) = true.
Proof.
  unfold rglob. rewrite filter_In. split.
  - intros [Hin H]. destruct (path f) eqn:E; [discriminate|].
    repeat split; [assumption | discriminate | assumption].
  - intros (Hin & Hp & He). split; [assumption|].
    destruct (path f); [congruence | assumption].
Qed.

Lemma NoDup_flat_map {A B} (f : A -> list B) l :
  NoDup l -> (forall a, In a l -> NoDup (f a)) ->
  (forall a b x, In a l -> In b l -> In x (f a) -> In x (f b) -> a = b) ->
  NoDup (flat_map f l).
Proof.
  induction 1 as [| a l Ha Hl IH]; intros Hf Hd; cbn [flat_map]; [constructor|].
  apply NoDup_app.
  - apply Hf. left. reflexivity.
  - apply IH.
    + intros b Hb. apply Hf. right. exact Hb.
    + intros b c x Hb Hc. apply Hd; right; assumption.
  - intros x Hx Hx'. apply in_flat_map in Hx'. destruct Hx' as (b & Hb & Hxb).
    assert (a = b) by (apply (Hd a b x); [left; reflexivity | right; exact Hb | | ]; assumption).
    subst b. contradiction.
Qed.

(** X15.  [_collect_source_files] returns exactly the entries of the tree that
    are regular files and whose name ends in one of the fourteen suffixes it
    globs for.  No collected file is a directory, so reading one never raises
    [IsADirectoryError]; and no entry is collected twice, since no name ends
    in two of the suffixes. *)
Theorem collected_files_are_regular_listed_and_distinct :
  forall t,
    (forall f,
       In f (Fintech._collect_source_files t)
       <-> In f (entries t) /\ is_file f = true /\ path f <> []
           /\ exists suffix, In suffix collected_suffixes
                             /\ endswith suffix (name f) = true)
    /\ (forall f, In f (Fintech._collect_source_files t) ->
                  exists base suffix, In suffix collected_suffixes
                                      /\ name f = base ++ suffix)
    /\ (forall f, In f (Fintech._collect_source_files t) ->
                  read f <> Raised IsADirectoryError)
    /\ (NoDup (entries t) -> NoDup (Fintech._collect_source_files t)).
Proof.
  intros t.
  assert (M : forall f,
             In f (Fintech._collect_source_files t)
             <-> In f (entries t) /\ is_file f = true /\ path f <> []
                 /\ exists suffix, In suffix collected_suffixes
                                   /\ endswith suffix (name f) = true).
  { intros f. rewrite collect_unfold, filter_In, in_flat_map. split.
    - intros [(suffix & Hs & Hf) Hr]. apply in_rglob in Hf.
      destruct Hf as (Hin & Hp & He). repeat split; try assumption.
      exists suffix. split; assumption.
    - intros (Hin & Hr & Hp & suffix & Hs & He). split; [| assumption].
      exists suffix. split; [assumption|]. apply in_rglob. repeat split; assumption. }
  split; [exact M|]. split; [| split].
  - intros f Hf. apply M in Hf. destruct Hf as (_ & _ & _ & suffix & Hs & He).
    apply endswith_spec in He. destruct He as [base E]. exists base, suffix.
    split; assumption.
  - intros f Hf. apply M in Hf. destruct Hf as (_ & Hr & _).
    unfold is_file in Hr. unfold read. destruct (what f); discriminate.
  - intros Hn. rewrite collect_unfold. apply NoDup_filter. apply NoDup_flat_map.
    + unfold collected_suffixes, Fintech.extensions. cbn [app].
      repeat (constructor; [cbn; intuition discriminate|]). constructor.
    + intros suffix _. unfold rglob. apply NoDup_filter, Hn.
    + intros s1 s2 x H1 H2 Hx1 Hx2. apply in_rglob in Hx1, Hx2.
      destruct Hx1 as (_ & _ & E1), Hx2 as (_ & _ & E2).
      exact (suffixes_exclude_each_other _ _ _ H1 H2 E1 E2).
Qed.

(** ** The exit status of the fintech validator *)

Lemma overall_of_total r :
  Fintech.overall_score (Fintech._calculate_overall_score r)
  = fintech_total (Fintech._calculate_overall_score r) / 4.
Proof. reflexivity. Qed.

(** X16.  The exit status of a run of the fintech validator that prints a
    report follows the sum of the four category scores: 0 from 320, 1 from 240
    and below 320, 2 below 240.  The floor division of the overall score never
    moves a run across a threshold. *)
Theorem the_exit_status_follows_the_sum_of_the_four_scores :
  forall argv resolve r code,
    Fintech.main argv resolve = Fintech.Report r code ->
    (code = 0 <-> 320 <= fintech_total r)
    /\ (code = 1 <-> 240 <= fintech_total r < 320)
    /\ (code = 2 <-> fintech_total r < 240).
Proof.
  intros argv resolve r code H.
  destruct argv as [| prog [| path [| x rest]]]; try discriminate.
  unfold Fintech.main in H.
  destruct (Fintech.validate_project path (resolve path) Fintech.init) as [msg | r'] eqn:E;
    [discriminate|].
  assert (Ho : Fintech.overall_score r' = fintech_total r' / 4).
  { unfold Fintech.validate_project in E.
    destruct (negb (root_exists (resolve path))); [discriminate|].
    cbv zeta in E. injection E as <-. apply overall_of_total. }
  assert (D : forall n, (n <= fintech_total r' / 4 <-> 4 * n <= fintech_total r')).
  { intros n. split; intros.
    - pose proof (Z.mul_div_le (fintech_total r') 4 ltac:(lia)). lia.
    - apply Z.div_le_lower_bound; lia. }
  rewrite Ho in H.
  destruct (Z.leb_spec 80 (fintech_total r' / 4)) as [L | L].
  - injection H as <- <-. apply D in L. repeat split; intros; try lia; try discriminate.
  - destruct (Z.leb_spec 60 (fintech_total r' / 4)) as [L' | L'].
    + injection H as <- <-. apply D in L'.
      assert (~ 4 * 80 <= fintech_total r') by (rewrite <- D; lia).
      repeat split; intros; try lia; try discriminate.
    + injection H as <- <-.
      assert (~ 4 * 60 <= fintech_total r') by (rewrite <- D; lia).
      repeat split; intros; try lia; try discriminate.
Qed.

Lemma the_exit_status_follows_the_sum_of_the_four_scores_witness :
  exists r,
    Fintech.main ["validator"; "app"] (fun _ => Sample.consent_only) = Fintech.Report r 2
    /\ fintech_total r < 240.
Proof.
  assert (C : exists r, Fintech.main ["validator"; "app"] (fun _ => Sample.consent_only)
                        = Fintech.Report r 2) by (eexists; vm_compute; reflexivity).
  destruct C as [r E]. exists r. split; [exact E|].
  apply (the_exit_status_follows_the_sum_of_the_four_scores _ _ _ _ E). reflexivity.
Defined.

Lemma collected_files_are_regular_listed_and_distinct_witness :
  NoDup (entries Sample.scanned_twice)
  /\ NoDup (Fintech._collect_source_files Sample.scanned_twice)
  /\ Fintech._collect_source_files Sample.scanned_twice
     = [Sample.file ["lib"; "deep"; "main.ts"] "const Consentimento = oauth2"].
Proof.
  assert (N : NoDup (entries Sample.scanned_twice)).
  { cbn. repeat (constructor; [cbn; intuition discriminate|]). constructor. }
  split; [exact N|]. split; [| reflexivity].
  exact (proj2 (proj2 (proj2 (collected_files_are_regular_listed_and_distinct
                                Sample.scanned_twice))) N).
Defined.

From Stdlib Require Import Lqa.

(** ** The voice analyzer *)

Lemma every_pattern_of_the_analyzer_compiles :
  forallb (fun p => match Re.compile p with
                    | Some r => negb (Re.nullable r)
                    | None => false
                    end)
          Analyzer.all_patterns = true.
Proof. vm_compute. reflexivity. Qed.

Lemma qmin_cases (a b : Q) : (Voice.qmin a b == a /\ a <= b)%Q \/ (Voice.qmin a b == b /\ b <= a)%Q.
Proof.
  unfold Voice.qmin. destruct (Qle_bool a b) eqn:E.
  - left. split; [reflexivity | now apply Qle_bool_iff].
  - right. split; [reflexivity|].
    destruct (Qlt_le_dec b a) as [H | H]; [now apply Qlt_le_weak|].
    apply Qle_bool_iff in H. congruence.
Qed.

Lemma count_true_bounds d : 0 <= Voice.count_true d <= Z.of_nat (length d).
Proof.
  induction d as [| [k v] d IH]; cbn [Voice.count_true fold_right length snd]; [lia|].
  fold (Voice.count_true d). destruct v; lia.
Qed.

Lemma estimate_values s : In (Voice.estimate s) [150; 180; 220; 280; 350].
Proof.
  unfold Voice.estimate.
  destruct (Qle_bool 90 s); [cbn; tauto|]. destruct (Qle_bool 80 s); [cbn; tauto|].
  destruct (Qle_bool 70 s); [cbn; tauto|]. destruct (Qle_bool 60 s); cbn; tauto.
Qed.

Lemma estimate_falls (s1 s2 : Q) : (s1 <= s2)%Q -> Voice.estimate s2 <= Voice.estimate s1.
Proof.
  intros H. unfold Voice.estimate.
  destruct (Qle_bool 90 s1) eqn:A1; [apply Qle_bool_iff in A1;
    rewrite (Qle_bool_true 90 s2) by lra; lia|].
  destruct (Qle_bool 90 s2); [destruct (Qle_bool 80 s1), (Qle_bool 70 s1), (Qle_bool 60 s1); lia|].
  destruct (Qle_bool 80 s1) eqn:A2; [apply Qle_bool_iff in A2;
    rewrite (Qle_bool_true 80 s2) by lra; lia|].
  destruct (Qle_bool 80 s2); [destruct (Qle_bool 70 s1), (Qle_bool 60 s1); lia|].
  destruct (Qle_bool 70 s1) eqn:A3; [apply Qle_bool_iff in A3;
    rewrite (Qle_bool_true 70 s2) by lra; lia|].
  destruct (Qle_bool 70 s2); [destruct (Qle_bool 60 s1); lia|].
  destruct (Qle_bool 60 s1) eqn:A4; [apply Qle_bool_iff in A4;
    rewrite (Qle_bool_true 60 s2) by lra; lia|].
  destruct (Qle_bool 60 s2); lia.
Qed.

Lemma score_bounds r :
  (0 <= Voice.performance_score (Voice.calculate_performance_score r) <= 100)%Q
  /\ ((length (Voice.optimizations_found r) <= 4)%nat ->
      (Voice.performance_score (Voice.calculate_performance_score r) <= 96)%Q).
Proof.
  unfold Voice.calculate_performance_score. cbn [Voice.performance_score].
  pose proof (count_true_bounds (Voice.performance_patterns r)) as [P _].
  pose proof (count_true_bounds (Voice.brazilian_patterns r)) as [B _].
  assert (P' : (0 <= inject_Z (Voice.count_true (Voice.performance_patterns r) * 8))%Q)
    by (rewrite <- (Zle_Qle 0); lia).
  assert (B' : (0 <= inject_Z (Voice.count_true (Voice.brazilian_patterns r)))%Q)
    by (rewrite <- (Zle_Qle 0); lia).
  set (p := inject_Z (Voice.count_true (Voice.performance_patterns r) * 8)) in *.
  set (b := inject_Z (Voice.count_true (Voice.brazilian_patterns r))) in *.
  set (o := match Voice.optimizations_found r with
            | [] => _
            | _ => _
            end).
  set (base := (0 + Voice.qmin p 40 + Voice.qmin (b * (15 # 2)) 30)%Q) in *.
  assert (Hb : (0 <= base <= 70)%Q).
  { unfold base.
    destruct (qmin_cases p 40) as [[-> ?] | [-> ?]],
             (qmin_cases (b * (15 # 2)) 30) as [[-> ?] | [-> ?]]; lra. }
  assert (Ho : (base <= o <= base + 20)%Q
               /\ ((length (Voice.optimizations_found r) <= 4)%nat -> (o <= base + 16)%Q)).
  { unfold o. destruct (Voice.optimizations_found r) as [| x l] eqn:E.
    - split; [lra | intros _; lra].
    - set (n := Z.of_nat (length (x :: l))).
      assert (Hn : 0 <= n) by (unfold n; lia).
      assert (H0 : (0 <= inject_Z (Z.min (n * 4) 20))%Q) by (rewrite <- (Zle_Qle 0); lia).
      assert (H20 : (inject_Z (Z.min (n * 4) 20) <= 20)%Q)
        by (rewrite <- (Zle_Qle _ 20); lia).
      split; [lra|]. intros H4.
      assert (H16 : (inject_Z (Z.min (n * 4) 20) <= 16)%Q)
        by (rewrite <- (Zle_Qle _ 16); unfold n; lia).
      lra. }
  destruct Ho as [Ho Ho4].
  set (total := match Voice.issues r with [] => (o + 10)%Q | _ => o end).
  assert (Ht : (o <= total <= o + 10)%Q) by (unfold total; destruct (Voice.issues r); lra).
  split.
  - destruct (qmin_cases total 100) as [[-> ?] | [-> ?]]; lra.
  - intros H4. specialize (Ho4 H4).
    destruct (qmin_cases total 100) as [[-> ?] | [-> ?]]; lra.
Qed.

Lemma exit_of_score r :
  Voice.exit_code (Voice.calculate_performance_score r)
  = (if Voice.estimate (Voice.performance_score (Voice.calculate_performance_score r))
        <=? Voice.target_ms r then 0 else 1)
  /\ Voice.issues (Voice.calculate_performance_score r)
     = (if Voice.estimate (Voice.performance_score (Voice.calculate_performance_score r))
           <=? Voice.target_ms r
        then Voice.issues r
        else Voice.issues r
             ++ [("Voice response time exceeds target by "
                  ++ str_of_Z (Voice.estimate
                                 (Voice.performance_score
                                    (Voice.calculate_performance_score r))
                               - Voice.target_ms r) ++ "ms")%string])%list.
Proof. split; reflexivity. Qed.

Lemma estimate_meets_200 s : (Voice.estimate s <=? 200) = Qle_bool 80 s.
Proof.
  unfold Voice.estimate.
  destruct (Qle_bool 90 s) eqn:A.
  - apply Qle_bool_iff in A. rewrite (Qle_bool_true 80 s) by lra. reflexivity.
  - destruct (Qle_bool 80 s); [reflexivity|].
    destruct (Qle_bool 70 s); [reflexivity|]. destruct (Qle_bool 60 s); reflexivity.
Qed.

(** X17.  Whatever the analyses found, [calculate_performance_score] leaves a
    score between 0 and 100 and one of the five estimates; a better score
    never gives a slower estimate; the exit status is 1 exactly when the step
    appended its issue about the target; and with the default target of 200
    ms the run passes exactly from a score of 80. *)
Theorem the_score_is_a_percentage_and_the_estimate_follows_it :
  (forall r,
     (0 <= Voice.performance_score (Voice.calculate_performance_score r) <= 100)%Q
     /\ In (Voice.voice_response_time (Voice.calculate_performance_score r))
           [150; 180; 220; 280; 350])
  /\ (forall s1 s2, (s1 <= s2)%Q -> Voice.estimate s2 <= Voice.estimate s1)
  /\ (forall r,
        Voice.exit_code (Voice.calculate_performance_score r) = 0
        <-> Voice.issues (Voice.calculate_performance_score r) = Voice.issues r)
  /\ (forall r,
        Voice.target_ms r = 200 ->
        (Voice.exit_code (Voice.calculate_performance_score r) = 0
         <-> (80 <= Voice.performance_score (Voice.calculate_performance_score r))%Q))
  /\ (forall r, 350 <= Voice.target_ms r ->
                Voice.exit_code (Voice.calculate_performance_score r) = 0)
  /\ (forall r, Voice.target_ms r < 150 ->
                Voice.exit_code (Voice.calculate_performance_score r) = 1).
Proof.
  split; [intros r; split; [apply score_bounds | apply estimate_values]|].
  split; [exact estimate_falls|].
  split.
  { intros r. destruct (exit_of_score r) as [-> ->].
    destruct (_ <=? Voice.target_ms r); split; try reflexivity; try discriminate.
    intros E. exfalso. apply (f_equal (@length string)) in E.
    rewrite length_app in E. cbn in E. lia. }
  split.
  { intros r Ht. rewrite (proj1 (exit_of_score r)), Ht, estimate_meets_200.
    destruct (Qle_bool 80 _) eqn:E.
    - split; [intros _; now apply Qle_bool_iff | reflexivity].
    - split; [discriminate|]. intros H. apply Qle_bool_iff in H. congruence. }
  split.
  { intros r Ht. rewrite (proj1 (exit_of_score r)).
    pose proof (estimate_values
                  (Voice.performance_score (Voice.calculate_performance_score r))) as H.
    cbn [In] in H.
    destruct (Z.leb_spec
                (Voice.estimate (Voice.performance_score (Voice.calculate_performance_score r)))
                (Voice.target_ms r)); [reflexivity | lia]. }
  intros r Ht. rewrite (proj1 (exit_of_score r)).
  pose proof (estimate_values
                (Voice.performance_score (Voice.calculate_performance_score r))) as H.
  cbn [In] in H.
  destruct (Z.leb_spec
              (Voice.estimate (Voice.performance_score (Voice.calculate_performance_score r)))
              (Voice.target_ms r)); [lia | reflexivity].
Qed.


(** ** What the analyses leave as it was *)

Lemma preserved_refl {S B} (proj : S -> B) s : preserved proj s s.
Proof. reflexivity. Qed.

Lemma preserved_trans {S B} (proj : S -> B) a b c :
  preserved proj a b -> preserved proj b c -> preserved proj a c.
Proof. unfold preserved. congruence. Qed.

Lemma stays_unset_refl key s : stays_unset key s s.
Proof. intros H. exact H. Qed.

Lemma stays_unset_trans key a b c :
  stays_unset key a b -> stays_unset key b c -> stays_unset key a c.
Proof. unfold stays_unset. auto. Qed.

Lemma set_true_other key k d :
  k <> key -> In (k, false) d -> In (k, false) (Analyzer.set_true key d).
Proof.
  intros Hk. induction d as [| [k' v] d IH]; [intros []|].
  cbn [Analyzer.set_true]. intros [E | H].
  - injection E as -> ->. destruct (String.eqb_spec k key); [congruence | left; reflexivity].
  - destruct (String.eqb k' key); right; [exact H | exact (IH H)].
Qed.

Section Stable.
Variable P : Voice.results -> Voice.results -> Prop.
Hypothesis P_stable : stable P.

Ltac stable_tac :=
  let P_refl := constr:(proj1 P_stable) in
  let P_trans := constr:(proj1 (proj2 P_stable)) in
  repeat first
    [ apply keeps_modify; intros;
      first [ apply (proj1 (proj2 (proj2 P_stable)))
            | apply (proj1 (proj2 (proj2 (proj2 P_stable))))
            | apply (proj1 (proj2 (proj2 (proj2 (proj2 P_stable)))))
            | apply (proj2 (proj2 (proj2 (proj2 (proj2 P_stable))))); discriminate ]
    | keeps_step P_refl P_trans ].

Lemma voice_categories_stable files categories :
  (forall c ps, In (c, ps) categories -> c <> "regional_adaptation") ->
  keeps P (Analyzer.voice_categories_loop files categories).
Proof.
  destruct P_stable as (P_refl & P_trans & P_issue & _ & _ & P_performance).
  induction categories as [| [c ps] cs IH]; intros Hc;
    cbn [Analyzer.voice_categories_loop]; [apply keeps_ret, P_refl|].
  apply (keeps_bind _ P_trans); [apply keeps_lift, P_refl | intros found].
  apply (keeps_bind _ P_trans).
  - destruct found; apply keeps_modify; intros;
      [apply P_issue | apply P_performance, (Hc c ps); left; reflexivity].
  - intros _. apply IH. intros c' ps' H. apply (Hc c' ps'). right. exact H.
Qed.

Lemma voice_components_stable str t : keeps P (Analyzer.analyze_voice_components str t).
Proof.
  unfold Analyzer.analyze_voice_components. cbv zeta.
  apply (keeps_bind _ (proj1 (proj2 P_stable))).
  - apply voice_categories_stable. intros c ps H. cbn in H.
    repeat (destruct H as [H | H]; [injection H as <- _; discriminate|]). contradiction.
  - intros _. stable_tac.
Qed.

Lemma brazilian_stable t : keeps P (Analyzer.analyze_brazilian_patterns t).
Proof.
  unfold Analyzer.analyze_brazilian_patterns. generalize (Analyzer.code_files t).
  intros files. induction Analyzer.brazilian_patterns as [| [c ps] cs IH];
    cbn [Analyzer.brazilian_loop]; stable_tac; exact IH.
Qed.

Lemma memory_loop_stable files categories :
  forall memory_score, keeps P (Analyzer.memory_loop files categories memory_score).
Proof.
  induction categories as [| [c ps] cs IH]; intros m; cbn [Analyzer.memory_loop];
    stable_tac; apply IH.
Qed.

Lemma memory_stable t : keeps P (Analyzer.analyze_memory_management t).
Proof.
  unfold Analyzer.analyze_memory_management.
  apply (keeps_bind _ (proj1 (proj2 P_stable))); [apply memory_loop_stable | intros; stable_tac].
Qed.

Lemma cache_loop_stable files categories :
  forall cache_score, keeps P (Analyzer.cache_loop files categories cache_score).
Proof.
  induction categories as [| [c ps] cs IH]; intros m; cbn [Analyzer.cache_loop];
    stable_tac; apply IH.
Qed.

Lemma caching_stable t : keeps P (Analyzer.analyze_caching_strategies t).
Proof.
  unfold Analyzer.analyze_caching_strategies.
  apply (keeps_bind _ (proj1 (proj2 P_stable))); [apply cache_loop_stable | intros; stable_tac].
Qed.

Lemma performance_stable t :
  (forall msg s, P s (Analyzer.add_optimization msg s)) ->
  keeps P (Analyzer.analyze_performance_patterns t).
Proof.
  intros P_opt. unfold Analyzer.analyze_performance_patterns.
  generalize (Analyzer.code_files t). intros files.
  induction Analyzer.perf_patterns as [| [c ps] cs IH]; cbn [Analyzer.performance_loop];
    repeat first [ apply keeps_modify; intros;
                   first [apply P_opt | apply (proj1 (proj2 (proj2 (proj2 P_stable))))]
                 | keeps_step (proj1 P_stable) (proj1 (proj2 P_stable)) ];
    exact IH.
Qed.

End Stable.

Lemma preserved_stable {B} (proj : Voice.results -> B) :
  (forall msg s, proj (Analyzer.add_issue msg s) = proj s) ->
  (forall msg s, proj (Analyzer.add_recommendation msg s) = proj s) ->
  (forall key s, proj (Analyzer.set_brazilian_pattern key s) = proj s) ->
  (forall key s, proj (Analyzer.set_performance_pattern key s) = proj s) ->
  stable (preserved proj).
Proof.
  intros H1 H2 H3 H4. unfold stable, preserved.
  repeat split; intros; auto; congruence.
Qed.

Lemma stays_unset_stable : stable (stays_unset "regional_adaptation").
Proof.
  unfold stable, stays_unset. repeat split; auto.
  intros key s Hk Hin. cbn. apply set_true_other; [congruence | exact Hin].
Qed.

Lemma performance_loop_finds files categories :
  forall s u s',
    Analyzer.performance_loop files categories s = Returned (u, s') ->
    (length (Voice.optimizations_found s')
     <= length (Voice.optimizations_found s) + length categories)%nat.
Proof.
  induction categories as [| [c ps] cs IH]; intros s u s' H;
    cbn [Analyzer.performance_loop] in H.
  - injection H as _ <-. lia.
  - apply bind_returns in H. destruct H as (n & s1 & H1 & H).
    apply lift_returns in H1. destruct H1 as [_ ->].
    apply bind_returns in H. destruct H as (u1 & s2 & H2 & H).
    specialize (IH _ _ _ H). cbn [length].
    destruct (0 <? n); apply modify_returns in H2; subst s2; cbn in IH;
      rewrite ?length_app in IH; cbn in IH; lia.
Qed.

Lemma analyze_all_returns str t s r s' :
  Analyzer.analyze_all str t s = Returned (r, s') ->
  exists s1 s2 s3 s4 s5,
    Analyzer.analyze_voice_components str t s = Returned (tt, s1)
    /\ Analyzer.analyze_performance_patterns t s1 = Returned (tt, s2)
    /\ Analyzer.analyze_brazilian_patterns t s2 = Returned (tt, s3)
    /\ Analyzer.analyze_memory_management t s3 = Returned (tt, s4)
    /\ Analyzer.analyze_caching_strategies t s4 = Returned (tt, s5)
    /\ r = Voice.calculate_performance_score s5.
Proof.
  unfold Analyzer.analyze_all. intros H.
  apply bind_returns in H. destruct H as ([] & s1 & H1 & H).
  apply bind_returns in H. destruct H as ([] & s2 & H2 & H).
  apply bind_returns in H. destruct H as ([] & s3 & H3 & H).
  apply bind_returns in H. destruct H as ([] & s4 & H4 & H).
  apply bind_returns in H. destruct H as ([] & s5 & H5 & H).
  apply bind_returns in H. destruct H as ([] & s6 & H6 & H).
  apply modify_returns in H6. injection H as <- _. subst s6.
  exists s1, s2, s3, s4, s5. repeat split; assumption.
Qed.

Lemma analysis_invariants str t s r s' :
  Analyzer.analyze_all str t s = Returned (r, s') ->
  (In ("regional_adaptation", false) (Voice.performance_patterns s) ->
   In ("regional_adaptation", false) (Voice.performance_patterns r))
  /\ exists s5, r = Voice.calculate_performance_score s5
                /\ Voice.target_ms s5 = Voice.target_ms s
                /\ (length (Voice.optimizations_found s5)
                    <= length (Voice.optimizations_found s) + 4)%nat.
Proof.
  intros H.
  destruct (analyze_all_returns _ _ _ _ _ H)
    as (s1 & s2 & s3 & s4 & s5 & H1 & H2 & H3 & H4 & H5 & ->).
  assert (St : stable (preserved Voice.target_ms))
    by (apply preserved_stable; reflexivity).
  assert (So : stable (preserved Voice.optimizations_found))
    by (apply preserved_stable; reflexivity).
  pose proof stays_unset_stable as Su.
  split.
  - intros R.
    apply (caching_stable _ Su t _ _ _ H5).
    apply (memory_stable _ Su t _ _ _ H4).
    apply (brazilian_stable _ Su t _ _ _ H3).
    apply (performance_stable _ Su t ltac:(intros ? ? X; exact X) _ _ _ H2).
    apply (voice_components_stable _ Su str t _ _ _ H1). exact R.
  - exists s5. split; [reflexivity|]. split.
    + pose proof (voice_components_stable _ St str t _ _ _ H1) as E1.
      pose proof (performance_stable _ St t ltac:(reflexivity) _ _ _ H2) as E2.
      pose proof (brazilian_stable _ St t _ _ _ H3) as E3.
      pose proof (memory_stable _ St t _ _ _ H4) as E4.
      pose proof (caching_stable _ St t _ _ _ H5) as E5.
      unfold preserved in *. congruence.
    + pose proof (voice_components_stable _ So str t _ _ _ H1) as E1.
      pose proof (performance_loop_finds _ _ _ _ _ H2) as E2.
      pose proof (brazilian_stable _ So t _ _ _ H3) as E3.
      pose proof (memory_stable _ So t _ _ _ H4) as E4.
      pose proof (caching_stable _ So t _ _ _ H5) as E5.
      unfold preserved in *. cbn in E2. rewrite E5, E4, E3. rewrite E1 in E2. exact E2.
Qed.

(** A run that prints results, taken apart: the analyses returned [r0], and
    [print_results] extended its recommendations. *)
Lemma analysed_run str t target r code :
  Analyzer.main str t target = Analyzer.Analysed r code ->
  exists r0 s0 additional,
    Analyzer.analyze_all str t (Voice.init target) = Returned (r0, s0)
    /\ Analyzer.generate_optimization_recommendations r0 = Some additional
    /\ r = Analyzer.extend_recommendations additional r0
    /\ code = Voice.exit_code r0.
Proof.
  unfold Analyzer.main, Analyzer.print_results.
  destruct (Analyzer.analyze_all str t (Voice.init target)) as [e | [r0 s0]];
    [discriminate|].
  destruct (Analyzer.generate_optimization_recommendations r0) as [additional |] eqn:G;
    [| discriminate].
  intros [= <- <-]. exists r0, s0, additional.
  split; [reflexivity|]. split; [exact G|]. split; reflexivity.
Qed.

(** X18.  A run of the voice analyzer never scores above 96: only four
    categories of optimizations are counted, at four points each, so the 20
    points of that part are out of reach.  The flag [regional_adaptation] is
    never set.  With the default target of 200 ms the exit status is 0
    exactly from a score of 80. *)
Theorem the_voice_score_never_exceeds_96 :
  forall str t target r code,
    Analyzer.main str t target = Analyzer.Analysed r code ->
    (0 <= Voice.performance_score r <= 96)%Q
    /\ In ("regional_adaptation", false) (Voice.performance_patterns r)
    /\ (length (Voice.optimizations_found r) <= 4)%nat
    /\ Voice.target_ms r = target
    /\ (target = 200 -> (code = 0 <-> (80 <= Voice.performance_score r)%Q)).
Proof.
  intros str t target r code H.
  destruct (analysed_run _ _ _ _ _ H) as (r' & s' & additional & E & _ & -> & ->).
  cbn [Analyzer.extend_recommendations Voice.performance_score Voice.performance_patterns
       Voice.optimizations_found Voice.target_ms].
  destruct (analysis_invariants _ _ _ _ _ E) as (R & s5 & -> & T & O).
  cbn in O, T.
  split; [split; [apply score_bounds | apply score_bounds, O]|].
  split; [apply R; cbn; tauto|].
  split; [exact O|]. split; [exact T|].
  intros ->. rewrite (proj1 (exit_of_score s5)), T, estimate_meets_200.
  destruct (Qle_bool 80 _) eqn:Q.
  - split; [intros _; now apply Qle_bool_iff | reflexivity].
  - split; [discriminate|]. intros Hq. apply Qle_bool_iff in Hq. congruence.
Qed.

Lemma the_voice_score_never_exceeds_96_witness :
  exists r,
    Analyzer.main VoiceSample.str VoiceSample.project 200 = Analyzer.Analysed r 0
    /\ (Voice.performance_score r == 96)%Q
    /\ (0 <= Voice.performance_score r <= 96)%Q.
Proof.
  eexists. split; [vm_compute; reflexivity|]. split; [reflexivity|].
  refine (proj1 (the_voice_score_never_exceeds_96 VoiceSample.str VoiceSample.project 200 _ 0 _)).
  vm_compute. reflexivity.
Defined.

(** ** A tree without code *)

Lemma no_code_is_no_tree str t :
  rglob ".ts" t = [] -> rglob ".tsx" t = [] ->
  Analyzer.analyze_all str t = Analyzer.analyze_all str (Present []).
Proof.
  intros H1 H2.
  unfold Analyzer.analyze_all, Analyzer.analyze_voice_components,
    Analyzer.analyze_performance_patterns, Analyzer.analyze_brazilian_patterns,
    Analyzer.analyze_memory_management, Analyzer.analyze_caching_strategies,
    Analyzer.voice_files, Analyzer.code_files.
  rewrite H1, H2. reflexivity.
Qed.

(** What [generate_optimization_recommendations] adds for results that
    estimate 350 ms and have none of its five flags set. *)
Lemma nothing_found_recommendations r :
  Voice.voice_response_time r = 350 ->
  Voice.performance_patterns r = Voice.performance_patterns (Voice.init 0) ->
  Voice.brazilian_patterns r = Voice.brazilian_patterns (Voice.init 0) ->
  Analyzer.generate_optimization_recommendations r
  = Some ((if 350 <=? Voice.target_ms r then []
           else [("Reduce voice response time by "
                  ++ str_of_Z (350 - Voice.target_ms r) ++ "ms to meet target")%string])
          ++ ["Implement Voice Activity Detection (VAD) for faster speech processing";
              "Add caching for frequently used voice commands";
              "Fix memory leaks in voice components to prevent performance degradation";
              "Add regional Brazilian Portuguese variations for better recognition accuracy";
              "Implement Brazilian slang recognition for improved user experience"])%list.
Proof.
  intros Ht Hp Hb. unfold Analyzer.generate_optimization_recommendations.
  rewrite Ht, Hp, Hb.
  destruct (Z.leb_spec 350 (Voice.target_ms r)), (Z.ltb_spec (Voice.target_ms r) 350);
    try lia; reflexivity.
Qed.

(** X19.  On a tree without a [.ts] or [.tsx] entry the voice analyzer finds
    nothing: the score is 0 and the estimate 350 ms, no optimization is
    recorded, the issues are the four missing voice components and the
    memory management, and the run fails unless the target is at least 350
    ms, in which case it passes with the score 0.  The analyses make fourteen
    recommendations, to which [print_results] adds five, and a sixth on the
    response time when the target is missed: the run prints 20
    recommendations, or 19. *)
Theorem without_code_the_voice_analysis_scores_zero :
  forall str t target,
    rglob ".ts" t = [] -> rglob ".tsx" t = [] ->
    exists r,
      Analyzer.main str t target
      = Analyzer.Analysed r (if 350 <=? target then 0 else 1)
      /\ (Voice.performance_score r == 0)%Q
      /\ Voice.voice_response_time r = 350
      /\ Voice.optimizations_found r = []
      /\ Voice.issues r
         = (["Missing speech_recognition implementation";
             "Missing voice_activity_detection implementation";
             "Missing speech_synthesis implementation";
             "Missing voice_state implementation";
             "Insufficient memory management patterns"]
            ++ (if 350 <=? target then []
                else [("Voice response time exceeds target by "
                       ++ str_of_Z (350 - target) ++ "ms")%string]))%list
      /\ Voice.recommendations r
         = (["Add voice performance timeout configurations";
             "Consider adding react_optimizations optimizations";
             "Consider adding async_operations optimizations";
             "Consider adding error_handling optimizations";
             "Consider adding performance_monitoring optimizations";
             "Consider adding portuguese_support support for Brazilian users";
             "Consider adding regional_variations support for Brazilian users";
             "Consider adding financial_terminology support for Brazilian users";
             "Consider adding slang_recognition support for Brazilian users";
             "Add cleanup_patterns to prevent memory leaks";
             "Add leak_prevention to prevent memory leaks";
             "Add resource_management to prevent memory leaks";
             "Implement voice command caching for performance";
             "Implement caching strategies for voice commands"]
            ++ (if 350 <=? target then []
                else [("Reduce voice response time by "
                       ++ str_of_Z (350 - target) ++ "ms to meet target")%string])
            ++ ["Implement Voice Activity Detection (VAD) for faster speech processing";
                "Add caching for frequently used voice commands";
                "Fix memory leaks in voice components to prevent performance degradation";
                "Add regional Brazilian Portuguese variations for better recognition accuracy";
                "Implement Brazilian slang recognition for improved user experience"])%list
      /\ length (Voice.recommendations r) = (if 350 <=? target then 19%nat else 20%nat)
      /\ Voice.performance_patterns r = Voice.performance_patterns (Voice.init target).
Proof.
  intros str t target H1 H2. unfold Analyzer.main.
  rewrite (no_code_is_no_tree str t H1 H2).
  set (s5 := {| Voice.performance_score := 0;
                Voice.target_ms := target;
                Voice.voice_response_time := 0;
                Voice.issues :=
                  ["Missing speech_recognition implementation";
                   "Missing voice_activity_detection implementation";
                   "Missing speech_synthesis implementation";
                   "Missing voice_state implementation";
                   "Insufficient memory management patterns"];
                Voice.recommendations :=
                  ["Add voice performance timeout configurations";
                   "Consider adding react_optimizations optimizations";
                   "Consider adding async_operations optimizations";
                   "Consider adding error_handling optimizations";
                   "Consider adding performance_monitoring optimizations";
                   "Consider adding portuguese_support support for Brazilian users";
                   "Consider adding regional_variations support for Brazilian users";
                   "Consider adding financial_terminology support for Brazilian users";
                   "Consider adding slang_recognition support for Brazilian users";
                   "Add cleanup_patterns to prevent memory leaks";
                   "Add leak_prevention to prevent memory leaks";
                   "Add resource_management to prevent memory leaks";
                   "Implement voice command caching for performance";
                   "Implement caching strategies for voice commands"];
                Voice.optimizations_found := [];
                Voice.performance_patterns := Voice.performance_patterns (Voice.init target);
                Voice.brazilian_patterns := Voice.brazilian_patterns (Voice.init target) |}).
  assert (E : Analyzer.analyze_all str (Present []) (Voice.init target)
              = Returned (Voice.calculate_performance_score s5,
                          Voice.calculate_performance_score s5))
    by reflexivity.
  rewrite E.
  assert (Hs : (Voice.performance_score (Voice.calculate_performance_score s5) == 0)%Q)
    by reflexivity.
  assert (Ht : Voice.voice_response_time (Voice.calculate_performance_score s5) = 350)
    by exact (estimate_compat _ _ Hs).
  unfold Analyzer.print_results.
  rewrite (nothing_found_recommendations _ Ht eq_refl eq_refl).
  change (Voice.target_ms (Voice.calculate_performance_score s5)) with target.
  eexists. split.
  { destruct (exit_of_score s5) as [Hc _]. rewrite (estimate_compat _ _ Hs) in Hc.
    change (Voice.estimate 0) with 350 in Hc. change (Voice.target_ms s5) with target in Hc.
    change (Voice.exit_code (Analyzer.extend_recommendations _ _))
      with (Voice.exit_code (Voice.calculate_performance_score s5)).
    rewrite Hc. reflexivity. }
  cbn [Analyzer.extend_recommendations Voice.performance_score Voice.voice_response_time
       Voice.optimizations_found Voice.issues Voice.recommendations
       Voice.performance_patterns].
  split; [exact Hs|]. split; [exact Ht|]. split; [reflexivity|].
  destruct (exit_of_score s5) as [_ Hi]. rewrite (estimate_compat _ _ Hs) in Hi.
  change (Voice.estimate 0) with 350 in Hi. change (Voice.target_ms s5) with target in Hi.
  split; [rewrite Hi; destruct (350 <=? target); [now rewrite app_nil_r | reflexivity]|].
  split; [reflexivity|].
  split; [| reflexivity].
  change (Voice.recommendations (Voice.calculate_performance_score s5))
    with (Voice.recommendations s5).
  destruct (350 <=? target); reflexivity.
Qed.

Lemma without_code_the_voice_analysis_scores_zero_witness :
  exists r,
    Analyzer.main VoiceSample.str Sample.unscanned 200 = Analyzer.Analysed r 1
    /\ (Voice.performance_score r == 0)%Q
    /\ Voice.voice_response_time r = 350
    /\ length (Voice.recommendations r) = 20%nat.
Proof.
  destruct (without_code_the_voice_analysis_scores_zero VoiceSample.str Sample.unscanned 200
              eq_refl eq_refl) as (r & E & Hs & Ht & _ & _ & _ & Hl & _).
  exists r. repeat split; assumption.
Defined.

(** ** Two ways to match *)

Lemma append_empty (a b : string) : a ++ b = "" -> a = "" /\ b = "".
Proof. destruct a; [cbn; auto | discriminate]. Qed.

Section Matching.
Variable ic : bool.

Lemma nullable_matches r : Re.nullable r = true <-> matches ic r "".
Proof.
  split.
  - induction r; cbn; intros H; try discriminate.
    + constructor.
    + apply andb_prop in H. destruct H as [H1 H2].
      change "" with ("" ++ ""). constructor; auto.
    + apply orb_prop in H. destruct H as [H | H];
        [apply MAltL | apply MAltR]; auto.
    + constructor.
  - intros H. remember "" as s eqn:E. induction H; cbn; try discriminate; try reflexivity.
    + apply append_empty in E. destruct E as [-> ->].
      rewrite IHmatches1, IHmatches2; reflexivity.
    + now rewrite IHmatches.
    + rewrite IHmatches by assumption. apply orb_true_r.
Qed.

Lemma no_match_of_void s : ~ matches ic Re.Void s.
Proof. intros H. inversion H. Qed.

Lemma eps_matches s : matches ic Re.Eps s -> s = "".
Proof. intros H. inversion H. reflexivity. Qed.

Lemma cat_inv r1 r2 s :
  matches ic (Re.Cat r1 r2) s ->
  exists s1 s2, s = s1 ++ s2 /\ matches ic r1 s1 /\ matches ic r2 s2.
Proof. intros H. inversion H; subst. eauto. Qed.

Lemma alt_inv r1 r2 s :
  matches ic (Re.Alt r1 r2) s -> matches ic r1 s \/ matches ic r2 s.
Proof. intros H. inversion H; subst; auto. Qed.

Lemma cat_matches r1 r2 s : matches ic (Re.cat r1 r2) s <-> matches ic (Re.Cat r1 r2) s.
Proof.
  split.
  - intros H.
    assert (L : forall r, matches ic r s -> matches ic (Re.Cat Re.Eps r) s).
    { intros r Hr. change s with ("" ++ s). constructor; [constructor | exact Hr]. }
    assert (R : forall r, matches ic r s -> matches ic (Re.Cat r Re.Eps) s).
    { intros r Hr. rewrite <- (append_nil_r s). constructor; [exact Hr | constructor]. }
    destruct r1, r2; cbn in H;
      first [ exact H | destruct (no_match_of_void _ H) | apply L; exact H | apply R; exact H ].
  - intros H. destruct (cat_inv _ _ _ H) as (s1 & s2 & -> & H1 & H2).
    destruct r1, r2; cbn;
      try (destruct (no_match_of_void _ H1)); try (destruct (no_match_of_void _ H2));
      try exact H;
      try (apply eps_matches in H1; subst s1; exact H2);
      try (apply eps_matches in H2; subst s2; rewrite append_nil_r; exact H1).
Qed.

Lemma alt_matches r1 r2 s : matches ic (Re.alt r1 r2) s <-> matches ic (Re.Alt r1 r2) s.
Proof.
  split.
  - intros H. destruct r1, r2; cbn in H;
      first [ exact H | apply MAltR; exact H | apply MAltL; exact H ].
  - intros H. destruct (alt_inv _ _ _ H) as [H1 | H2].
    + destruct r1, r2; cbn; try (destruct (no_match_of_void _ H1));
        first [ exact H1 | exact H ].
    + destruct r1, r2; cbn; try (destruct (no_match_of_void _ H2));
        first [ exact H2 | exact H ].
Qed.

Lemma star_cons r c s :
  matches ic (Re.Star r) (String c s) ->
  exists s1 s2, s = s1 ++ s2 /\ matches ic r (String c s1) /\ matches ic (Re.Star r) s2.
Proof.
  intros H. remember (Re.Star r) as R eqn:ER. remember (String c s) as w eqn:Ew.
  revert s Ew. induction H as [| | | | | | | r0 s1 s2 H1 IH1 H2 IH2]; intros s' Ew;
    try discriminate.
  injection ER as ->. destruct s1 as [| d s1].
  - cbn in Ew. apply IH2; [reflexivity | exact Ew].
  - cbn in Ew. injection Ew as -> <-. exists s1, s2. repeat split; assumption.
Qed.

Lemma deriv_matches r : forall c s,
  matches ic (Re.deriv ic c r) s <-> matches ic r (String c s).
Proof.
  induction r as [| | | items | r1 IH1 r2 IH2 | r1 IH1 r2 IH2 | r1 IH1]; intros c s;
    cbn [Re.deriv].
  - split; intros H; inversion H.
  - split; intros H; inversion H.
  - destruct (code c =? 10)%N eqn:E.
    + split; intros H; inversion H. congruence.
    + split; intros H.
      * apply eps_matches in H. subst. constructor. exact E.
      * inversion H. constructor.
  - destruct (existsb _ items) eqn:E.
    + split; intros H.
      * apply eps_matches in H. subst. constructor. exact E.
      * inversion H. constructor.
    + split; intros H; inversion H. congruence.
  - assert (D : matches ic (Re.cat (Re.deriv ic c r1) r2) s
                <-> exists s1 s2, s = s1 ++ s2 /\ matches ic r1 (String c s1)
                                  /\ matches ic r2 s2).
    { rewrite cat_matches. split.
      - intros H. destruct (cat_inv _ _ _ H) as (s1 & s2 & -> & H1 & H2).
        exists s1, s2. rewrite <- IH1. auto.
      - intros (s1 & s2 & -> & H1 & H2). constructor; [apply IH1; exact H1 | exact H2]. }
    assert (C : matches ic (Re.Cat r1 r2) (String c s)
                <-> (matches ic r1 "" /\ matches ic r2 (String c s))
                    \/ exists s1 s2, s = s1 ++ s2 /\ matches ic r1 (String c s1)
                                     /\ matches ic r2 s2).
    { split.
      - intros H. destruct (cat_inv _ _ _ H) as (s1 & s2 & E & H1 & H2).
        destruct s1 as [| d s1].
        + cbn in E. subst s2. left. auto.
        + cbn in E. injection E as <- ->. right. eauto.
      - intros [[H1 H2] | (s1 & s2 & -> & H1 & H2)].
        + change (String c s) with ("" ++ String c s). constructor; assumption.
        + change (String c (s1 ++ s2)) with (String c s1 ++ s2). constructor; assumption. }
    rewrite C. destruct (Re.nullable r1) eqn:N.
    + rewrite alt_matches. split.
      * intros H. destruct (alt_inv _ _ _ H) as [H1 | H2].
        -- right. apply D. exact H1.
        -- left. split; [apply nullable_matches; exact N | apply IH2; exact H2].
      * intros [[_ H2] | H1].
        -- apply MAltR. apply IH2. exact H2.
        -- apply MAltL. apply D. exact H1.
    + rewrite D. split; [auto|]. intros [[H1 _] | H]; [| exact H].
      apply nullable_matches in H1. congruence.
  - rewrite alt_matches. split.
    + intros H. destruct (alt_inv _ _ _ H) as [H1 | H2];
        [apply MAltL, IH1 | apply MAltR, IH2]; assumption.
    + intros H. destruct (alt_inv _ _ _ H) as [H1 | H2];
        [apply MAltL, IH1 | apply MAltR, IH2]; assumption.
  - rewrite cat_matches. split.
    + intros H. destruct (cat_inv _ _ _ H) as (s1 & s2 & -> & H1 & H2).
      change (String c (s1 ++ s2)) with (String c s1 ++ s2).
      constructor; [apply IH1; exact H1 | exact H2].
    + intros H. destruct (star_cons _ _ _ H) as (s1 & s2 & -> & H1 & H2).
      constructor; [apply IH1; exact H1 | exact H2].
Qed.

Lemma match_prefix_matches s : forall r,
  Re.match_prefix ic r s = true <-> exists p rest, s = p ++ rest /\ matches ic r p.
Proof.
  induction s as [| c s IH]; intros r; cbn [Re.match_prefix].
  - rewrite orb_false_r, nullable_matches. split.
    + intros H. exists "", "". auto.
    + intros (p & rest & E & H). symmetry in E. apply append_empty in E.
      destruct E as [-> _]. exact H.
  - split.
    + intros H. apply orb_prop in H. destruct H as [H | H].
      * exists "", (String c s). split; [reflexivity | apply nullable_matches; exact H].
      * apply IH in H. destruct H as (p & rest & -> & H).
        exists (String c p), rest. split; [reflexivity | apply deriv_matches; exact H].
    + intros (p & rest & E & H). destruct p as [| d p].
      * apply nullable_matches in H. now rewrite H.
      * cbn in E. injection E as <- ->. apply orb_true_iff. right.
        apply IH. exists p, rest. split; [reflexivity | apply deriv_matches; exact H].
Qed.

Lemma search_matches r s : Re.search_regex ic r s = true <-> matches_within ic r s.
Proof.
  unfold matches_within. induction s as [| c s IH]; cbn [Re.search_regex].
  - rewrite orb_false_r, match_prefix_matches. split.
    + intros (p & rest & E & H). exists "", p, rest. auto.
    + intros (a & p & b & E & H). symmetry in E. apply append_empty in E.
      destruct E as [-> E]. exists p, b. auto.
  - split.
    + intros H. apply orb_prop in H. destruct H as [H | H].
      * apply match_prefix_matches in H. destruct H as (p & rest & E & H).
        exists "", p, rest. auto.
      * apply IH in H. destruct H as (a & p & b & -> & H).
        exists (String c a), p, b. auto.
    + intros (a & p & b & E & H). apply orb_true_iff. destruct a as [| d a].
      * left. apply match_prefix_matches. exists p, b. auto.
      * right. cbn in E. injection E as <- ->. apply IH. exists a, p, b. auto.
Qed.

End Matching.

Section Backtracking.
Variable ic : bool.

Lemma star_sound r body k :
  (forall s k' x, body s k' = Some x ->
                  exists p rest, s = p ++ rest /\ matches ic r p /\ k' rest = Some x) ->
  forall fuel s x,
    Findall.star body k fuel s = Some x ->
    exists p rest, s = p ++ rest /\ matches ic (Re.Star r) p /\ k rest = Some x.
Proof.
  intros Hb. induction fuel as [| fuel IH]; intros s x H; cbn [Findall.star] in H.
  - exists "", s. repeat split; [constructor | exact H].
  - destruct (body s _) as [y |] eqn:E.
    + injection H as ->. apply Hb in E. destruct E as (p & rest & -> & Hp & Hk).
      destruct (_ <? _)%nat; [| discriminate].
      apply IH in Hk. destruct Hk as (p' & rest' & -> & Hp' & Hk).
      exists (p ++ p'), rest'. rewrite append_assoc.
      repeat split; [constructor; assumption | exact Hk].
    + exists "", s. repeat split; [constructor | exact H].
Qed.

Lemma bmatch_sound r : forall s k x,
  Findall.bmatch ic r s k = Some x ->
  exists p rest, s = p ++ rest /\ matches ic r p /\ k rest = Some x.
Proof.
  induction r as [| | | items | r1 IH1 r2 IH2 | r1 IH1 r2 IH2 | r1 IH1]; intros s k x H;
    cbn [Findall.bmatch] in H.
  - discriminate.
  - exists "", s. repeat split; [constructor | exact H].
  - destruct s as [| c s]; [discriminate|].
    destruct (code c =? 10)%N eqn:E; [discriminate|].
    exists (String c ""), s. repeat split; [constructor; exact E | exact H].
  - destruct s as [| c s]; [discriminate|].
    destruct (existsb _ items) eqn:E; [| discriminate].
    exists (String c ""), s. repeat split; [constructor; exact E | exact H].
  - apply IH1 in H. destruct H as (p1 & rest1 & -> & H1 & H).
    apply IH2 in H. destruct H as (p2 & rest2 & -> & H2 & H).
    exists (p1 ++ p2), rest2. rewrite append_assoc.
    repeat split; [constructor; assumption | exact H].
  - destruct (Findall.bmatch ic r1 s k) as [y |] eqn:E.
    + injection H as ->. apply IH1 in E. destruct E as (p & rest & -> & Hp & Hk).
      exists p, rest. repeat split; [apply MAltL; exact Hp | exact Hk].
    + apply IH2 in H. destruct H as (p & rest & -> & Hp & Hk).
      exists p, rest. repeat split; [apply MAltR; exact Hp | exact Hk].
  - exact (star_sound r1 _ k IH1 _ _ _ H).
Qed.

Lemma star_stops body k fuel s x :
  k s = Some x -> exists y, Findall.star body k fuel s = Some y.
Proof.
  intros H. destruct fuel as [| fuel]; cbn [Findall.star]; [eauto|].
  destruct (body s _); eauto.
Qed.

Lemma star_complete r body k :
  (forall p, matches ic r p ->
             forall rest k' x, k' rest = Some x -> exists y, body (p ++ rest) k' = Some y) ->
  forall p, matches ic (Re.Star r) p ->
            forall fuel rest x,
              (String.length (p ++ rest) <= fuel)%nat -> k rest = Some x ->
              exists y, Findall.star body k fuel (p ++ rest) = Some y.
Proof.
  intros Hb p H. remember (Re.Star r) as R eqn:ER.
  induction H as [| | | | | | r0 | r0 s1 s2 H1 IH1 H2 IH2]; try discriminate;
    intros fuel rest x Hf Hk.
  - cbn [append]. exact (star_stops _ _ _ _ _ Hk).
  - injection ER as ->. destruct s1 as [| c s1].
    + cbn [append]. exact (IH2 eq_refl _ _ _ Hf Hk).
    + rewrite append_assoc.
      destruct fuel as [| fuel]; [cbn in Hf; lia|]. cbn [Findall.star].
      rewrite append_assoc in Hf.
      assert (Hl : (String.length (s2 ++ rest) <? String.length (String c s1 ++ s2 ++ rest))%nat
                   = true).
      { apply Nat.ltb_lt. rewrite (length_append (String c s1)). cbn. lia. }
      destruct (IH2 eq_refl fuel rest x) as [y Hy]; [| exact Hk |].
      { rewrite (length_append (String c s1)) in Hf. cbn in Hf. lia. }
      destruct (Hb _ H1 (s2 ++ rest)
                  (fun s' => if (String.length s' <? String.length (String c s1 ++ s2 ++ rest))%nat
                             then Findall.star body k fuel s' else None) y) as [z Hz].
      { rewrite Hl. exact Hy. }
      rewrite Hz. eauto.
Qed.

Lemma bmatch_complete r : forall p,
  matches ic r p ->
  forall rest k x, k rest = Some x -> exists y, Findall.bmatch ic r (p ++ rest) k = Some y.
Proof.
  induction r as [| | | items | r1 IH1 r2 IH2 | r1 IH1 r2 IH2 | r1 IH1]; intros p H rest k x Hk;
    cbn [Findall.bmatch].
  - destruct (no_match_of_void _ _ H).
  - apply eps_matches in H. subst. eauto.
  - inversion H; subst. cbn [append].
    match goal with E : (code _ =? 10)%N = false |- _ => rewrite E end. eauto.
  - inversion H; subst. cbn [append].
    match goal with E : existsb _ _ = true |- _ => rewrite E end. eauto.
  - destruct (cat_inv _ _ _ _ H) as (s1 & s2 & -> & H1 & H2). rewrite append_assoc.
    destruct (IH2 _ H2 rest k x Hk) as [y Hy].
    exact (IH1 _ H1 (s2 ++ rest) _ y Hy).
  - destruct (Findall.bmatch ic r1 (p ++ rest) k) as [y |] eqn:E; [eauto|].
    destruct (alt_inv _ _ _ _ H) as [H1 | H2].
    + destruct (IH1 _ H1 rest k x Hk) as [y Hy]. congruence.
    + exact (IH2 _ H2 rest k x Hk).
  - exact (star_complete r1 _ k IH1 p H _ rest x (Nat.le_refl _) Hk).
Qed.

Lemma match_at_matches r s :
  (exists rest, Findall.match_at ic r s false = Some rest)
  <-> exists p rest, s = p ++ rest /\ matches ic r p.
Proof.
  unfold Findall.match_at. cbn [andb]. split.
  - intros [x H]. apply bmatch_sound in H. destruct H as (p & rest & E & Hp & _). eauto.
  - intros (p & rest & -> & Hp).
    destruct (bmatch_complete r p Hp rest (fun rest => Some rest) rest eq_refl) as [y Hy].
    eauto.
Qed.

Lemma count_matches_nonnegative r s : forall skip, 0 <= Findall.count_matches ic r s skip.
Proof.
  induction s as [| c s IH]; intros skip.
  - destruct skip; cbn [Findall.count_matches]; cbv zeta; [| lia].
    destruct (Findall.match_at ic r "" false); [| lia].
    destruct (_ - _)%nat; [| lia].
    destruct (Findall.match_at ic r "" true); lia.
  - destruct skip; cbn [Findall.count_matches]; cbv zeta; [| apply IH].
    destruct (Findall.match_at ic r (String c s) false); [| apply IH].
    destruct (_ - _)%nat; [destruct (Findall.match_at ic r (String c s) true)|];
      match goal with
      | |- context [Findall.count_matches ic r s ?k] => pose proof (IH k)
      end; lia.
Qed.

(** A match at the front is counted. *)
Lemma count_matches_front r s rest :
  Findall.match_at ic r s false = Some rest -> 0 < Findall.count_matches ic r s 0.
Proof.
  intros E. destruct s as [| c s]; cbn [Findall.count_matches]; cbv zeta; rewrite E.
  - destruct (_ - _)%nat; [destruct (Findall.match_at ic r "" true)|]; lia.
  - destruct (_ - _)%nat; [destruct (Findall.match_at ic r (String c s) true)|];
      match goal with
      | |- context [Findall.count_matches ic r s ?k] =>
          pose proof (count_matches_nonnegative r s k)
      end; lia.
Qed.

(** Without a match at the front the count is that of the rest. *)
Lemma count_matches_next r c s :
  Findall.match_at ic r (String c s) false = None ->
  Findall.count_matches ic r (String c s) 0 = Findall.count_matches ic r s 0.
Proof. intros E. cbn [Findall.count_matches]. cbv zeta. now rewrite E. Qed.

Lemma count_matches_positive r s :
  0 < Findall.count_matches ic r s 0 <-> matches_within ic r s.
Proof.
  unfold matches_within. induction s as [| c s IH].
  - split.
    + intros H. destruct (Findall.match_at ic r "" false) as [rest |] eqn:E.
      * destruct (proj1 (match_at_matches r "") (ex_intro _ rest E)) as (p & b & Eq & Hp).
        exists "", p, b. auto.
      * cbn [Findall.count_matches] in H. cbv zeta in H. rewrite E in H. lia.
    + intros (a & p & b & E & Hp). symmetry in E. apply append_empty in E.
      destruct E as [-> E].
      destruct (proj2 (match_at_matches r "") (ex_intro _ p (ex_intro _ b (conj (eq_sym E) Hp))))
        as [rest Er].
      exact (count_matches_front _ _ _ Er).
  - split.
    + intros H. destruct (Findall.match_at ic r (String c s) false) as [rest |] eqn:E.
      * destruct (proj1 (match_at_matches r _) (ex_intro _ rest E)) as (p & b & Eq & Hp).
        exists "", p, b. auto.
      * rewrite (count_matches_next _ _ _ E) in H.
        apply IH in H. destruct H as (a & p & b & -> & Hp).
        exists (String c a), p, b. auto.
    + intros (a & p & b & E & Hp).
      destruct (Findall.match_at ic r (String c s) false) as [rest |] eqn:Er;
        [exact (count_matches_front _ _ _ Er)|].
      rewrite (count_matches_next _ _ _ Er). apply IH.
      destruct a as [| d a].
      * exfalso.
        destruct (proj2 (match_at_matches r _) (ex_intro _ p (ex_intro _ b (conj E Hp))))
          as [rest Ex].
        congruence.
      * cbn in E. injection E as _ ->. exists a, p, b. auto.
Qed.

End Backtracking.

Lemma findall_counts pattern content :
  0 <= Findall.findall_count pattern content
  /\ (0 <? Findall.findall_count pattern content) = Re.search_i pattern content.
Proof.
  unfold Findall.findall_count, Re.search_i.
  destruct (Re.compile pattern) as [r |]; [| split; [lia | reflexivity]].
  split; [apply count_matches_nonnegative|].
  destruct (Re.search_regex true r content) eqn:E.
  - apply Z.ltb_lt, count_matches_positive, search_matches. exact E.
  - apply Z.ltb_ge. destruct (Z.ltb_spec 0 (Findall.count_matches true r content 0)) as [H | H];
      [| exact H].
    apply count_matches_positive, search_matches in H. congruence.
Qed.

(** ** When a category of the voice analysis is found *)

Lemma first_match_try_finds test files b :
  first_match_try test files = Returned b ->
  (b = true <-> exists f text, In f files /\ read f = Returned text /\ test text = true).
Proof.
  revert b. induction files as [| f files IH]; intros b H; cbn [first_match_try] in H.
  - injection H as <-. split; [discriminate | intros (f & text & [] & _)].
  - destruct (read f) as [e | content] eqn:Er.
    + destruct (caught e); [| discriminate].
      rewrite (IH _ H). split.
      * intros (g & text & Hin & Hr & Ht). exists g, text. repeat split; auto. right. exact Hin.
      * intros (g & text & [-> | Hin] & Hr & Ht); [congruence|]. eauto.
    + destruct (test content) eqn:Et.
      * injection H as <-. split; [intros _ | reflexivity].
        exists f, content. repeat split; auto. left. reflexivity.
      * rewrite (IH _ H). split.
        -- intros (g & text & Hin & Hr & Ht). exists g, text. repeat split; auto.
           right. exact Hin.
        -- intros (g & text & [-> | Hin] & Hr & Ht); [| eauto].
           rewrite Er in Hr. injection Hr as ->. congruence.
Qed.

Lemma for_each_try_counts pattern files :
  forall n0 n,
    for_each_try (fun content n => n + Findall.findall_count pattern content) files n0
    = Returned n ->
    n0 <= n
    /\ (n0 < n <-> exists f text, In f files /\ read f = Returned text
                                  /\ Re.search_i pattern text = true).
Proof.
  induction files as [| f files IH]; intros n0 n H; cbn [for_each_try] in H.
  - injection H as <-. split; [lia|]. split; [lia | intros (f & text & [] & _)].
  - destruct (read f) as [e | content] eqn:Er.
    + destruct (caught e); [| discriminate].
      destruct (IH _ _ H) as [Hle Hiff]. split; [exact Hle|]. rewrite Hiff. split.
      * intros (g & text & Hin & Hr & Ht). exists g, text. repeat split; auto. right. exact Hin.
      * intros (g & text & [-> | Hin] & Hr & Ht); [congruence | eauto].
    + destruct (IH _ _ H) as [Hle Hiff].
      destruct (findall_counts pattern content) as [H0 Hs].
      split; [lia|]. split.
      * intros Hlt. destruct (Z.ltb_spec 0 (Findall.findall_count pattern content)) as [P | P].
        -- exists f, content. repeat split; auto. left. reflexivity.
        -- assert (Hlt' : n0 + Findall.findall_count pattern content < n) by lia.
           apply Hiff in Hlt'. destruct Hlt' as (g & text & Hin & Hr & Ht).
           exists g, text. repeat split; auto. right. exact Hin.
      * intros (g & text & [-> | Hin] & Hr & Ht).
        -- rewrite Er in Hr. injection Hr as ->. rewrite Ht in Hs.
           apply Z.ltb_lt in Hs. lia.
        -- assert (n0 + Findall.findall_count pattern content < n)
             by (apply Hiff; eauto).
           lia.
Qed.

Lemma count_patterns_counts files patterns :
  forall n0 n,
    Analyzer.count_patterns files patterns n0 = Returned n ->
    n0 <= n /\ (n0 < n <-> matched_in files patterns).
Proof.
  unfold matched_in.
  induction patterns as [| p ps IH]; intros n0 n H; cbn [Analyzer.count_patterns] in H.
  - injection H as <-. split; [lia|]. split; [lia | intros (p & f & text & [] & _)].
  - destruct (for_each_try _ files n0) as [e | n1] eqn:E; [discriminate|]. cbn [obind] in H.
    destruct (for_each_try_counts _ _ _ _ E) as [L1 I1].
    destruct (IH _ _ H) as [L2 I2]. split; [lia|]. split.
    + intros Hlt. destruct (Z.ltb_spec n0 n1) as [P | P].
      * apply I1 in P. destruct P as (f & text & Hin & Hr & Ht).
        exists p, f, text. repeat split; auto. left. reflexivity.
      * assert (Hlt' : n1 < n) by lia. apply I2 in Hlt'.
        destruct Hlt' as (q & f & text & Hq & Hin & Hr & Ht).
        exists q, f, text. repeat split; auto. right. exact Hq.
    + intros (q & f & text & [<- | Hq] & Hin & Hr & Ht).
      * assert (n0 < n1) by (apply I1; eauto). lia.
      * assert (n1 < n) by (apply I2; eauto 8). lia.
Qed.

Lemma found_patterns_finds files patterns :
  forall found,
    Analyzer.found_patterns files patterns = Returned found ->
    forall p, In p found
              <-> In p patterns
                  /\ exists f text, In f files /\ read f = Returned text
                                    /\ Re.search_i p text = true.
Proof.
  induction patterns as [| q qs IH]; intros found H p; cbn [Analyzer.found_patterns] in H.
  - injection H as <-. split; [intros [] | intros [[] _]].
  - destruct (first_match_try _ files) as [e | hit] eqn:E; [discriminate|]. cbn [obind] in H.
    destruct (Analyzer.found_patterns files qs) as [e | rest] eqn:Er; [discriminate|].
    cbn [obind] in H. injection H as <-.
    pose proof (first_match_try_finds _ _ _ E) as Hq. specialize (IH _ eq_refl p).
    destruct hit.
    + split.
      * intros [<- | Hin]; [split; [left; reflexivity | apply Hq; reflexivity]|].
        apply IH in Hin. destruct Hin as [Hin Hm]. split; [right; exact Hin | exact Hm].
      * intros [[<- | Hin] Hm]; [left; reflexivity | right; apply IH; auto].
    + rewrite IH. split.
      * intros [Hin Hm]. split; [right; exact Hin | exact Hm].
      * intros [[<- | Hin] Hm]; [| auto]. apply Hq in Hm. discriminate.
Qed.

(** X20.  When a category of the voice analysis counts as found.  The
    categories that are searched ([found_patterns]) and the categories that
    are counted with [findall] ([count_patterns]) are found under the same
    condition: one of the patterns of the category matches, ignoring case,
    somewhere in a file that can be read.  A count is never negative, and the
    number of matches [findall] collects in a text is positive exactly when
    [search] finds a match in it. *)
Theorem a_category_is_found_iff_a_pattern_matches_a_readable_file :
  (forall pattern content,
     0 <= Findall.findall_count pattern content
     /\ (0 <? Findall.findall_count pattern content) = Re.search_i pattern content)
  /\ (forall files patterns n,
        Analyzer.count_patterns files patterns 0 = Returned n ->
        0 <= n /\ (0 < n <-> matched_in files patterns))
  /\ (forall files patterns found,
        Analyzer.found_patterns files patterns = Returned found ->
        (found <> [] <-> matched_in files patterns)
        /\ forall p, In p found <-> matched_in files [p] /\ In p patterns).
Proof.
  split; [exact findall_counts|]. split; [intros files patterns n H;
                                          exact (count_patterns_counts _ _ _ _ H)|].
  intros files patterns found H. pose proof (found_patterns_finds _ _ _ H) as F.
  split.
  - split.
    + intros Hne. destruct found as [| p found]; [congruence|].
      destruct (proj1 (F p) (or_introl eq_refl)) as (Hp & f & text & Hf & Hr & Ht).
      exists p, f, text. auto.
    + intros (p & f & text & Hp & Hf & Hr & Ht) ->.
      apply (proj2 (F p)). split; [exact Hp | eauto].
  - intros p. rewrite F. unfold matched_in. split.
    + intros (Hp & f & text & Hf & Hr & Ht). split; [| exact Hp].
      exists p, f, text. repeat split; auto. left. reflexivity.
    + intros ((q & f & text & [<- | []] & Hf & Hr & Ht) & Hp). split; [exact Hp | eauto].
Qed.

Lemma a_category_is_found_iff_a_pattern_matches_a_readable_file_witness :
  exists n,
    Analyzer.count_patterns (Analyzer.code_files VoiceSample.project)
      ["eai|eae"; "beleza"; "oxente"] 0 = Returned n
    /\ 0 < n
    /\ matched_in (Analyzer.code_files VoiceSample.project) ["eai|eae"; "beleza"; "oxente"].
Proof.
  exists 1. split; [vm_compute; reflexivity|]. split; [lia|].
  apply (proj1 (proj2 a_category_is_found_iff_a_pattern_matches_a_readable_file)
           (Analyzer.code_files VoiceSample.project) ["eai|eae"; "beleza"; "oxente"] 1);
    [vm_compute; reflexivity | lia].
Defined.

(** ** The order in which a tree lists its entries *)

Lemma filter_permutation {A} (f : A -> bool) l l' :
  Permutation l l' -> Permutation (filter f l) (filter f l').
Proof.
  induction 1 as [| x l l' H IH | x y l | l l' l'' H1 IH1 H2 IH2]; cbn [filter].
  - constructor.
  - destruct (f x); [constructor|]; exact IH.
  - destruct (f x), (f y); try reflexivity. constructor.
  - exact (Permutation_trans IH1 IH2).
Qed.

Lemma flat_map_permutation {A B} (f g : A -> list B) l :
  (forall a, Permutation (f a) (g a)) -> Permutation (flat_map f l) (flat_map g l).
Proof.
  intros H. induction l as [| a l IH]; cbn [flat_map]; [constructor|].
  apply Permutation_app; [apply H | exact IH].
Qed.

Lemma rglob_permutation suffix t t' :
  Permutation (entries t) (entries t') -> Permutation (rglob suffix t) (rglob suffix t').
Proof. apply filter_permutation. Qed.

Lemma glob_permutation dir suffix t t' :
  Permutation (entries t) (entries t') ->
  Permutation (glob dir suffix t) (glob dir suffix t').
Proof. apply filter_permutation. Qed.

Lemma existsb_permutation {A} (f : A -> bool) l l' :
  Permutation l l' -> existsb f l = existsb f l'.
Proof.
  intros H. destruct (existsb f l) eqn:E; symmetry.
  - apply existsb_exists in E. destruct E as (x & Hx & Hf).
    apply existsb_exists. exists x. split; [exact (Permutation_in _ H Hx) | exact Hf].
  - destruct (existsb f l') eqn:E'; [| reflexivity].
    apply existsb_exists in E'. destruct E' as (x & Hx & Hf).
    assert (existsb f l = true)
      by (apply existsb_exists; exists x; split;
          [exact (Permutation_in _ (Permutation_sym H) Hx) | exact Hf]).
    congruence.
Qed.

Lemma exists_permutation t t' p :
  Permutation (entries t) (entries t') -> exists_ t p = exists_ t' p.
Proof. apply existsb_permutation. Qed.

Lemma collect_permutation t t' :
  Permutation (entries t) (entries t') ->
  Permutation (Fintech._collect_source_files t) (Fintech._collect_source_files t').
Proof.
  intros H. rewrite !collect_unfold. apply filter_permutation, flat_map_permutation.
  intros suffix. apply rglob_permutation, H.
Qed.

Lemma firstn_short {A} (l : list A) n : (length l <= n)%nat -> firstn n l = l.
Proof. apply firstn_all2. Qed.

Lemma presence_of_short_lists files files' patterns :
  Permutation files files' -> (length files <= 50)%nat ->
  (forall p, In p patterns -> plain (lower p)) ->
  Fintech._check_pattern_presence (Fintech._analyze_files_content files) patterns
  = Fintech._check_pattern_presence (Fintech._analyze_files_content files') patterns.
Proof.
  intros Hp Hl Hplain.
  unfold Fintech._analyze_files_content.
  rewrite (firstn_short files) by exact Hl.
  rewrite (firstn_short files') by (rewrite <- (Permutation_length Hp); exact Hl).
  pose proof (presence_in_contents files patterns Hplain) as I.
  pose proof (presence_in_contents files' patterns Hplain) as I'.
  apply Bool.eq_iff_eq_true. rewrite I, I'.
  split; intros (p & f & text & H1 & H2 & H3); exists p, f, text;
    (split; [exact H1|]); (split; [| exact H3]).
  - exact (Permutation_in _ Hp H2).
  - exact (Permutation_in _ (Permutation_sym Hp) H2).
Qed.

Lemma plain_by_computation patterns :
  forallb (fun p => negb (String.eqb (lower p) "") && negb (contains nl (lower p)))
    patterns = true ->
  forall p, In p patterns -> plain (lower p).
Proof.
  intros H p Hin. rewrite forallb_forall in H. specialize (H p Hin).
  apply andb_prop in H. destruct H as [H1 H2]. split.
  - intros E. rewrite E in H1. discriminate.
  - now destruct (contains nl (lower p)).
Qed.

Ltac in_tables := apply plain_by_computation; vm_compute; reflexivity.

(** X21.  The validator of brazilian-fintech-compliance does not depend on
    the order in which the tree lists its entries as long as it collects at
    most 50 files: two trees with the same entries in another order, and the
    same root, give the same result, from any dictionary.  With more files
    the order decides which of them are analysed: of two listings of the same
    51 files, one finds the PIX pattern and the other does not. *)
Theorem up_to_50_files_the_listing_order_does_not_matter :
  (forall path t t' r,
      root_exists t = root_exists t' ->
      Permutation (entries t) (entries t') ->
      (length (Fintech._collect_source_files t) <= 50)%nat ->
      Fintech.validate_project path t r = Fintech.validate_project path t' r)
  /\ (Permutation (entries Listing.payments_last) (entries Listing.payments_first)
      /\ length (Fintech._collect_source_files Listing.payments_last) = 51%nat
      /\ exists r r',
           Fintech.validate_project "app" Listing.payments_last Fintech.init
           = Fintech.Results r
           /\ Fintech.validate_project "app" Listing.payments_first Fintech.init
              = Fintech.Results r'
           /\ Fintech.score (Fintech.bcb_regulations r) = 0
           /\ Fintech.score (Fintech.bcb_regulations r') = 35).
Proof.
  split.
  - intros path t t' r Hroot Hp Hl. unfold Fintech.validate_project.
    rewrite <- Hroot. destruct (negb (root_exists t)); [reflexivity|]. cbv zeta.
    pose proof (collect_permutation t t' Hp) as Hc.
    unfold Fintech._validate_lgpd_compliance, Fintech._validate_bcb_regulations,
      Fintech._validate_data_protection, Fintech._validate_financial_security.
    cbv zeta.
    unfold Fintech.check.
    repeat match goal with
    | |- context [Fintech._check_pattern_presence
                    (Fintech._analyze_files_content (Fintech._collect_source_files t)) ?P] =>
        rewrite (presence_of_short_lists _ _ P Hc Hl ltac:(in_tables))
    end.
    reflexivity.
  - split.
    + unfold Listing.payments_last, Listing.payments_first. cbn [entries].
      apply Permutation_sym, Permutation_cons_append.
    + split; [vm_compute; reflexivity|].
      eexists. eexists. split; [vm_compute; reflexivity|].
      split; [vm_compute; reflexivity|]. split; reflexivity.
Qed.

Lemma up_to_50_files_the_listing_order_does_not_matter_witness :
  Fintech.validate_project "app" (Present (Listing.filler 2 ++ [Listing.payments]))
    Fintech.init
  = Fintech.validate_project "app" (Present (Listing.payments :: Listing.filler 2))
      Fintech.init.
Proof.
  apply (proj1 up_to_50_files_the_listing_order_does_not_matter).
  - reflexivity.
  - cbn [entries]. apply Permutation_sym, Permutation_cons_append.
  - vm_compute. lia.
Defined.

Lemma carries_over_refl {S A} (m : M S A) : carries_over m m.
Proof. intros s out H. exact H. Qed.

Lemma carries_over_bind {S A B} (m m' : M S A) (k k' : A -> M S B) :
  carries_over m m' ->
  (forall a s s', m s = Returned (a, s') -> carries_over (k a) (k' a)) ->
  carries_over (bind m k) (bind m' k').
Proof.
  intros Hm Hk s out H. unfold bind in *.
  destruct (m s) as [e | [a s1]] eqn:E; [discriminate|].
  rewrite (Hm _ _ E). exact (Hk a s s1 E _ _ H).
Qed.

Lemma carries_over_lift {S A} (o o' : outcome A) :
  (forall a, o = Returned a -> o' = Returned a) ->
  carries_over (@lift S A o) (lift o').
Proof.
  intros H s out E. unfold lift in *. destruct o as [e | a]; [discriminate|].
  now rewrite (H a eq_refl).
Qed.

(** *** Loops over a list of files in another order *)

Lemma for_each_permutation {A} (body : string -> A -> A) files files' :
  commutes body -> Permutation files files' ->
  forall acc out, for_each body files acc = Returned out ->
                  for_each body files' acc = Returned out.
Proof.
  intros Hc. induction 1 as [| x l l' H IH | x y l | l l' l'' H1 IH1 H2 IH2];
    intros acc out E.
  - exact E.
  - cbn [for_each] in *. destruct (read x); [discriminate|]. now apply IH.
  - cbn [for_each] in *. destruct (read x), (read y); try discriminate.
    now rewrite Hc.
  - now apply IH2, IH1.
Qed.

Lemma for_each_try_permutation {A} (body : string -> A -> A) files files' :
  commutes body -> Permutation files files' ->
  forall acc out, for_each_try body files acc = Returned out ->
                  for_each_try body files' acc = Returned out.
Proof.
  intros Hc. induction 1 as [| x l l' H IH | x y l | l l' l'' H1 IH1 H2 IH2];
    intros acc out E.
  - exact E.
  - cbn [for_each_try] in *. destruct (read x) as [e |].
    + destruct (caught e); [now apply IH | discriminate].
    + now apply IH.
  - cbn [for_each_try] in *.
    destruct (read x) as [e |], (read y) as [e' |];
      try destruct (caught e); try destruct (caught e');
      try discriminate; try exact E.
    now rewrite Hc.
  - now apply IH2, IH1.
Qed.

Lemma for_each_all_read {A} (body : string -> A -> A) files :
  forall acc out, for_each body files acc = Returned out -> all_caught files.
Proof.
  induction files as [| f rest IH]; intros acc out E g e Hin Hr; [destruct Hin|].
  cbn [for_each] in E. destruct Hin as [<- | Hin].
  - rewrite Hr in E. discriminate.
  - destruct (read f); [discriminate|]. exact (IH _ _ E g e Hin Hr).
Qed.

Lemma for_each_try_all_caught {A} (body : string -> A -> A) files :
  forall acc out, for_each_try body files acc = Returned out -> all_caught files.
Proof.
  induction files as [| f rest IH]; intros acc out E g e Hin Hr; [destruct Hin|].
  cbn [for_each_try] in E. destruct Hin as [<- | Hin].
  - rewrite Hr in E. destruct (caught e); [reflexivity | discriminate].
  - destruct (read f) as [e' |].
    + destruct (caught e'); [| discriminate]. exact (IH _ _ E g e Hin Hr).
    + exact (IH _ _ E g e Hin Hr).
Qed.

Lemma first_match_try_closed test files :
  all_caught files ->
  first_match_try test files = Returned (existsb (satisfies test) files).
Proof.
  induction files as [| f rest IH]; intros H; [reflexivity|].
  cbn [first_match_try existsb]. unfold satisfies at 1.
  assert (Hrest : all_caught rest) by (intros g e Hin; apply H; now right).
  destruct (read f) as [e |] eqn:E.
  - rewrite (H f e (or_introl eq_refl) E). cbn [orb]. exact (IH Hrest).
  - destruct (test a); [reflexivity|]. cbn [orb]. exact (IH Hrest).
Qed.

Lemma all_caught_permutation files files' :
  Permutation files files' -> all_caught files -> all_caught files'.
Proof.
  intros Hp H f e Hin. apply H. exact (Permutation_in _ (Permutation_sym Hp) Hin).
Qed.

Lemma first_match_try_permutation test files files' :
  Permutation files files' -> all_caught files ->
  first_match_try test files = first_match_try test files'.
Proof.
  intros Hp H. rewrite (first_match_try_closed _ _ H).
  rewrite (first_match_try_closed _ _ (all_caught_permutation _ _ Hp H)).
  now rewrite (existsb_permutation _ _ _ Hp).
Qed.

Lemma any_exists_permutation t t' paths :
  Permutation (entries t) (entries t') -> any (exists_ t) paths = any (exists_ t') paths.
Proof.
  intros Hp. unfold any. induction paths as [| p rest IH]; [reflexivity|].
  cbn [existsb]. now rewrite IH, (exists_permutation t t' p Hp).
Qed.

(** *** The files of the compliance validator *)

Lemma code_files_permutation t t' :
  Permutation (entries t) (entries t') ->
  Permutation (Aegis.code_files t) (Aegis.code_files t').
Proof.
  intros Hp. unfold Aegis.code_files. apply Permutation_app; now apply rglob_permutation.
Qed.

Lemma migration_files_permutation t t' :
  Permutation (entries t) (entries t') ->
  Permutation (Aegis.migration_files t) (Aegis.migration_files t').
Proof.
  intros Hp. unfold Aegis.migration_files.
  rewrite <- !(exists_permutation t t' _ Hp).
  destruct (exists_ t Aegis.supabase_dir); [| constructor].
  destruct (exists_ t Aegis.migrations_dir); [| constructor].
  now apply glob_permutation.
Qed.

Ltac flags_commute :=
  intros c c' acc; repeat match goal with p : (_ * _)%type |- _ => destruct p end;
  cbv beta iota delta [Aegis.lgpd_code Aegis.pix_code Aegis.ob_code Aegis.security_code];
  cbv zeta;
  repeat (match goal with
          | |- context [if ?b then true else _] => destruct b
          end; cbv iota);
  reflexivity.

Lemma lgpd_code_commutes : commutes Aegis.lgpd_code.
Proof. flags_commute. Qed.

Lemma pix_code_commutes : commutes Aegis.pix_code.
Proof. flags_commute. Qed.

Lemma ob_code_commutes : commutes Aegis.ob_code.
Proof. flags_commute. Qed.

Lemma security_code_commutes : commutes Aegis.security_code.
Proof. flags_commute. Qed.

Lemma lgpd_migration_commutes : commutes Aegis.lgpd_migration.
Proof.
  assert (H : forall raw n, Aegis.lgpd_migration raw n = n + Aegis.lgpd_migration raw 0).
  { intros raw n. unfold Aegis.lgpd_migration. cbv zeta.
    repeat match goal with |- context [if ?b then _ else _] => destruct b end; lia. }
  intros c c' n.
  rewrite (H c (Aegis.lgpd_migration c' n)), (H c' (Aegis.lgpd_migration c n)), (H c' n),
    (H c n).
  lia.
Qed.

Lemma pix_migration_commutes : commutes Aegis.pix_migration.
Proof.
  assert (H : forall raw n, Aegis.pix_migration raw n = n + Aegis.pix_migration raw 0).
  { intros raw n. unfold Aegis.pix_migration. cbv zeta.
    repeat match goal with |- context [if ?b then _ else _] => destruct b end; lia. }
  intros c c' n.
  rewrite (H c (Aegis.pix_migration c' n)), (H c' (Aegis.pix_migration c n)), (H c' n),
    (H c n).
  lia.
Qed.

Lemma rls_permutation t t' :
  Permutation (entries t) (entries t') -> all_caught (Aegis.migration_files t) ->
  Aegis._check_rls_implementation t = Aegis._check_rls_implementation t'.
Proof.
  intros Hp H. unfold Aegis._check_rls_implementation, Aegis.migration_files in *.
  rewrite <- !(exists_permutation t t' _ Hp).
  destruct (exists_ t Aegis.supabase_dir); [| reflexivity].
  destruct (exists_ t Aegis.migrations_dir); [| reflexivity]. cbn [negb].
  apply first_match_try_permutation; [now apply glob_permutation | exact H].
Qed.

Lemma search_in_code_permutation t t' pattern :
  Permutation (entries t) (entries t') -> all_caught (Aegis.code_files t) ->
  Aegis._search_in_code t pattern = Aegis._search_in_code t' pattern.
Proof.
  intros Hp H. unfold Aegis._search_in_code.
  apply first_match_try_permutation; [now apply code_files_permutation | exact H].
Qed.

Lemma pix_endpoints_permutation t t' patterns :
  Permutation (entries t) (entries t') -> all_caught (Aegis.code_files t) ->
  Aegis.pix_endpoints_loop t patterns = Aegis.pix_endpoints_loop t' patterns.
Proof.
  intros Hp H. induction patterns as [| p rest IH]; [reflexivity|].
  cbn [Aegis.pix_endpoints_loop]. now rewrite IH, (search_in_code_permutation t t' p Hp H).
Qed.

(** One more statement of the same run on both sides. *)
Ltac same_step :=
  apply carries_over_bind; [apply carries_over_refl | intros ? ? ? _; cbv beta].

(** A loop over the files, which the other listing runs through in another
    order; [v] names what the loop returned and [H] that it did. *)
Ltac loop_step lemma v H :=
  apply carries_over_bind;
  [ apply carries_over_lift; intros ?; apply lemma
  | intros v ? ? H; apply lift_returns in H; destruct H as [H _]; cbv beta ].

Section Listings.

Variables t t' : tree.
Hypothesis listed : Permutation (entries t) (entries t').

Lemma lgpd_carries_over :
  carries_over (Aegis.validate_lgpd_compliance t) (Aegis.validate_lgpd_compliance t').
Proof.
  unfold Aegis.validate_lgpd_compliance. same_step.
  loop_step (for_each_permutation Aegis.lgpd_migration _ _ lgpd_migration_commutes
               (migration_files_permutation t t' listed)) m Hm.
  loop_step (for_each_try_permutation Aegis.lgpd_code _ _ lgpd_code_commutes
               (code_files_permutation t t' listed)) flags Hf.
  destruct flags as [[f1 f2] f3].
  cbv beta iota zeta. do 3 same_step.
  rewrite <- (any_exists_permutation t t' _ listed). same_step.
  rewrite <- (rls_permutation t t' listed (for_each_all_read _ _ _ _ Hm)).
  apply carries_over_refl.
Qed.

Lemma pix_carries_over :
  carries_over (Aegis.validate_pix_compliance t) (Aegis.validate_pix_compliance t').
Proof.
  unfold Aegis.validate_pix_compliance. same_step.
  loop_step (for_each_permutation Aegis.pix_migration _ _ pix_migration_commutes
               (migration_files_permutation t t' listed)) m Hm.
  loop_step (for_each_try_permutation Aegis.pix_code _ _ pix_code_commutes
               (code_files_permutation t t' listed)) flags Hf.
  destruct flags as [[f1 f2] f3].
  cbv beta iota zeta.
  rewrite <- (pix_endpoints_permutation t t' _ listed (for_each_try_all_caught _ _ _ _ Hf)).
  apply carries_over_refl.
Qed.

Lemma openbanking_carries_over :
  carries_over (Aegis.validate_openbanking_compliance t)
    (Aegis.validate_openbanking_compliance t').
Proof.
  unfold Aegis.validate_openbanking_compliance. same_step. cbv zeta.
  loop_step (for_each_try_permutation Aegis.ob_code _ _ ob_code_commutes
               (code_files_permutation t t' listed)) flags Hf.
  destruct flags as [[[f1 f2] f3] f4].
  cbv beta iota zeta.
  rewrite <- (any_exists_permutation t t' _ listed).
  apply carries_over_refl.
Qed.

Lemma security_carries_over :
  carries_over (Aegis.validate_brazilian_security t) (Aegis.validate_brazilian_security t').
Proof.
  unfold Aegis.validate_brazilian_security. same_step. cbv zeta.
  loop_step (for_each_try_permutation Aegis.security_code _ _ security_code_commutes
               (code_files_permutation t t' listed)) flags Hf.
  destruct flags as [[[f1 f2] f3] f4].
  cbv beta iota zeta. apply carries_over_refl.
Qed.

Lemma run_checks_carry_over checks :
  carries_over (Aegis.run_checks t checks) (Aegis.run_checks t' checks).
Proof.
  induction checks as [| c rest IH]; [apply carries_over_refl|].
  cbn [Aegis.run_checks]. apply carries_over_bind; [| intros _ _ _ _; exact IH].
  unfold Aegis.run_check.
  destruct (String.eqb c "lgpd"); [exact lgpd_carries_over|].
  destruct (String.eqb c "pix"); [exact pix_carries_over|].
  destruct (String.eqb c "openbanking"); [exact openbanking_carries_over|].
  destruct (String.eqb c "security"); [exact security_carries_over|].
  apply carries_over_refl.
Qed.

Lemma validate_all_carries_over checks :
  carries_over (Aegis.validate_all t checks) (Aegis.validate_all t' checks).
Proof.
  unfold Aegis.validate_all. cbv zeta.
  apply carries_over_bind; [apply run_checks_carry_over | intros _ _ _ _].
  apply carries_over_refl.
Qed.

End Listings.

(** X22.  A report of the compliance validator of aegis-architect does not
    depend on the order in which the tree lists its entries: when a run on a
    tree prints a report, the run on a tree with the same entries in any
    other order prints the same report and leaves with the same status.  A
    run that dies does so in any order, but of what may depend on it: of two
    migrations that cannot be read, the one listed first names the
    exception. *)
Theorem a_report_does_not_depend_on_the_listing_order :
  (forall t t' checks r code,
      Permutation (entries t) (entries t') ->
      Aegis.main t checks = Aegis.Report r code ->
      Aegis.main t' checks = Aegis.Report r code)
  /\ (Permutation (entries Backwards.binary_first) (entries Backwards.locked_first)
      /\ Aegis.main Backwards.binary_first None = Aegis.Crash UnicodeDecodeError
      /\ Aegis.main Backwards.locked_first None = Aegis.Crash PermissionError).
Proof.
  split.
  - intros t t' checks r code Hp. unfold Aegis.main.
    destruct (Aegis.validate_all t checks Aegis.init) as [e | [r0 s0]] eqn:E;
      [discriminate|].
    now rewrite (validate_all_carries_over t t' Hp checks _ _ E).
  - split; [apply perm_swap|]. split; vm_compute; reflexivity.
Qed.

Lemma a_report_does_not_depend_on_the_listing_order_witness :
  exists r code,
    Aegis.main Sample.scanned_twice None = Aegis.Report r code
    /\ Aegis.main Backwards.scanned_backwards None = Aegis.Report r code.
Proof.
  assert (C : exists r code, Aegis.main Sample.scanned_twice None = Aegis.Report r code)
    by (eexists; eexists; vm_compute; reflexivity).
  destruct C as (r & code & E). exists r, code. split; [exact E|].
  apply (proj1 a_report_does_not_depend_on_the_listing_order Sample.scanned_twice _ None
           r code); [| exact E].
  cbn [entries Sample.scanned_twice Backwards.scanned_backwards].
  apply (Permutation_rev
           [Sample.file ["NOTES.txt"] "pix encryption audit";
            Sample.file ["lib"; "deep"; "main.ts"] "const Consentimento = oauth2";
            {| path := ["assets"]; what := Dir |}]).
Defined.

(** *** [_search_in_files] in another order *)

Lemma matching_closed pattern files :
  obind (Perf.matching pattern files)
        (fun matches => Returned (match matches with [] => false | _ => true end))
  = if existsb escapes files then Raised IsADirectoryError
    else Returned (existsb (satisfies (Re.search_i pattern)) files).
Proof.
  induction files as [| f rest IH]; [reflexivity|].
  cbn [Perf.matching existsb]. unfold escapes at 1, satisfies at 1.
  destruct (read f) as [e | content] eqn:E.
  - destruct (caught e) eqn:C; cbn [negb orb]; [exact IH|].
    now rewrite (read_raises f e E C).
  - cbn [orb]. destruct (Perf.matching pattern rest) as [e | matches];
      cbn [obind] in *.
    + destruct (existsb escapes rest); [exact IH | discriminate].
    + destruct (existsb escapes rest); [discriminate|].
      injection IH as IH. rewrite <- IH.
      destruct (Re.search_i pattern content); reflexivity.
Qed.

Section PerfListings.

Variables t t' : tree.
Hypothesis listed : Permutation (entries t) (entries t').

Lemma found_permutation pattern extensions :
  Perf.found t pattern extensions = Perf.found t' pattern extensions.
Proof.
  unfold Perf.found, Perf._search_in_files. rewrite !matching_closed.
  assert (Hp : Permutation (flat_map (fun ext => rglob ("." ++ ext) t) extensions)
                           (flat_map (fun ext => rglob ("." ++ ext) t') extensions))
    by (apply flat_map_permutation; intros ext; now apply rglob_permutation).
  now rewrite (existsb_permutation escapes _ _ Hp), (existsb_permutation _ _ _ Hp).
Qed.

Lemma any_found_permutation patterns extensions :
  Perf.any_found t patterns extensions = Perf.any_found t' patterns extensions.
Proof.
  induction patterns as [| p rest IH]; [reflexivity|].
  cbn [Perf.any_found]. now rewrite IH, found_permutation.
Qed.

Lemma voice_patterns_permutation patterns :
  Perf.voice_patterns_loop t patterns = Perf.voice_patterns_loop t' patterns.
Proof.
  induction patterns as [| [nm p] rest IH]; [reflexivity|].
  cbn [Perf.voice_patterns_loop]. now rewrite IH, found_permutation.
Qed.

Lemma query_permutation patterns :
  Perf.query_loop t patterns = Perf.query_loop t' patterns.
Proof.
  induction patterns as [| p rest IH]; [reflexivity|].
  cbn [Perf.query_loop]. now rewrite IH, found_permutation.
Qed.

(** *** The two reads outside [_search_in_files] *)

Lemma path_eqb_eq p q : path_eqb p q = true -> p = q.
Proof.
  revert q. induction p as [| a p IH]; intros [| b q] H; cbn [path_eqb] in H;
    try discriminate; [reflexivity|].
  apply andb_prop in H. destruct H as [H1 H2].
  apply String.eqb_eq in H1. subst b. now rewrite (IH q H2).
Qed.

Lemma one_entry_per_path (l : list entry) e e' :
  NoDup (map path l) -> In e l -> In e' l -> path e = path e' -> e = e'.
Proof.
  induction l as [| x l IH]; intros Hn He He' Hp; [destruct He|].
  cbn [map] in Hn. inversion Hn as [| ? ? Hx Hl]; subst.
  destruct He as [<- | He], He' as [<- | He'].
  - reflexivity.
  - exfalso. apply Hx. rewrite Hp. now apply in_map.
  - exfalso. apply Hx. rewrite <- Hp. now apply in_map.
  - now apply IH.
Qed.

Hypothesis distinct : NoDup (map path (entries t)).

Lemma read_path_permutation p : Perf.read_path t p = Perf.read_path t' p.
Proof.
  unfold Perf.read_path.
  destruct (find (fun e => path_eqb (path e) p) (entries t)) as [e |] eqn:E;
    destruct (find (fun e => path_eqb (path e) p) (entries t')) as [e' |] eqn:E';
    try reflexivity.
  - apply find_some in E, E'. destruct E as [Hin Hp], E' as [Hin' Hp'].
    apply path_eqb_eq in Hp, Hp'.
    now rewrite (one_entry_per_path _ e e' distinct Hin
                   (Permutation_in _ (Permutation_sym listed) Hin') (eq_trans Hp (eq_sym Hp'))).
  - apply find_some in E. destruct E as [Hin Hp].
    pose proof (find_none _ _ E' e (Permutation_in _ listed Hin)) as N.
    cbv beta in N. congruence.
  - apply find_some in E'. destruct E' as [Hin' Hp'].
    pose proof (find_none _ _ E e' (Permutation_in _ (Permutation_sym listed) Hin')) as N.
    cbv beta in N. congruence.
Qed.

Lemma index_loop_closed files :
  (forall f, In f files -> exists text, read f = Returned text) ->
  Perf.index_loop files = Returned (existsb (satisfies creates_index) files).
Proof.
  induction files as [| f rest IH]; intros H; [reflexivity|].
  cbn [Perf.index_loop existsb]. unfold satisfies at 1.
  destruct (H f (or_introl eq_refl)) as [text ->]. fold (creates_index text).
  destruct (creates_index text); [reflexivity|]. cbn [orb].
  apply IH. intros g Hg. apply H. now right.
Qed.

Hypothesis readable : migrations_readable t.

Lemma index_loop_permutation :
  Perf.index_loop (glob ["supabase"; "migrations"] ".sql" t)
  = Perf.index_loop (glob ["supabase"; "migrations"] ".sql" t').
Proof.
  pose proof (glob_permutation ["supabase"; "migrations"] ".sql" t t' listed) as Hp.
  rewrite !index_loop_closed.
  - now rewrite (existsb_permutation _ _ _ Hp).
  - intros f Hf. apply readable. exact (Permutation_in _ (Permutation_sym Hp) Hf).
  - exact readable.
Qed.

Lemma audit_all_permutation : Perf.audit_all t = Perf.audit_all t'.
Proof.
  unfold Perf.audit_all, Perf.audit_voice_performance, Perf.audit_bundle_optimization,
    Perf.audit_database_performance, Perf.audit_realtime_performance,
    Perf.audit_mobile_optimization, Perf.audit_core_web_vitals.
  unfold Perf.voice_body, Perf.bundle_body, Perf.database_body, Perf.realtime_body,
    Perf.mobile_body, Perf.vitals_body.
  rewrite voice_patterns_permutation, query_permutation, index_loop_permutation,
    (read_path_permutation Perf.vite_config).
  rewrite !any_found_permutation, !found_permutation.
  now rewrite !(exists_permutation t t' _ listed).
Qed.

End PerfListings.

(** X23.  The performance audit does not depend on the order in which the
    tree lists its entries, when no path is listed twice and every migration
    can be read: report, exit status and uncaught exception are the same.
    A migration that cannot be read makes the order count, because the loop
    over the migrations stops at the first one that creates an index: with the
    indexed migration listed first the audit prints a report, with an
    undecodable one listed first it dies of UnicodeDecodeError. *)
Theorem with_readable_migrations_the_audit_ignores_the_listing_order :
  (forall t t',
      Permutation (entries t) (entries t') ->
      NoDup (map path (entries t)) ->
      migrations_readable t ->
      Perf.main t = Perf.main t')
  /\ (Permutation (entries Migrations.indexed_first) (entries Migrations.binary_first)
      /\ NoDup (map path (entries Migrations.indexed_first))
      /\ (exists r code, Perf.main Migrations.indexed_first = Perf.Report r code)
      /\ Perf.main Migrations.binary_first = Perf.Crash UnicodeDecodeError).
Proof.
  split.
  - intros t t' Hp Hn Hr. unfold Perf.main.
    now rewrite (audit_all_permutation t t' Hp Hn Hr).
  - split; [apply perm_swap|].
    split.
    + cbn. repeat constructor; cbn; intuition discriminate.
    + split; [eexists; eexists|]; vm_compute; reflexivity.
Qed.

Lemma with_readable_migrations_the_audit_ignores_the_listing_order_witness :
  Perf.main (Present [Migrations.indexed; Sample.file ["src"; "app.ts"] "lazy ("])
  = Perf.main (Present [Sample.file ["src"; "app.ts"] "lazy ("; Migrations.indexed]).
Proof.
  apply (proj1 with_readable_migrations_the_audit_ignores_the_listing_order).
  - apply perm_swap.
  - cbn. repeat constructor; cbn; intuition discriminate.
  - intros f Hf. vm_compute in Hf. destruct Hf as [<- | []]. eexists. reflexivity.
Defined.

(** *** The loops of the voice analyzer over files in another order *)

Lemma all_caught_regular files :
  all_caught files -> forall f, In f files -> is_file f = true.
Proof.
  intros H f Hf. destruct (is_file f) eqn:E; [reflexivity|].
  now rewrite <- (H f _ Hf (read_directory f E)).
Qed.

Lemma regular_all_caught files :
  (forall f, In f files -> is_file f = true) -> all_caught files.
Proof.
  intros H f e Hf Hr. destruct (read_regular f (H f Hf)) as [[text E] | (x & E & Hx)];
    rewrite E in Hr; [discriminate|]. now injection Hr as <-.
Qed.

Lemma for_each_try_relisted {A} (body : string -> A -> A) files files' acc :
  commutes body -> Permutation files files' -> all_caught files ->
  for_each_try body files acc = for_each_try body files' acc.
Proof.
  intros Hc Hp H.
  destruct (for_each_try_returns body files (all_caught_regular files H) acc) as [out E].
  now rewrite E, (for_each_try_permutation body files files' Hc Hp acc out E).
Qed.

Lemma counting_commutes pattern :
  commutes (fun content n => n + Findall.findall_count pattern content).
Proof. intros c c' n. lia. Qed.

Lemma bind_pointwise {S A B} (m m' : M S A) (k k' : A -> M S B) :
  (forall s, m s = m' s) -> (forall a s, k a s = k' a s) ->
  forall s, bind m k s = bind m' k' s.
Proof.
  intros Hm Hk s. unfold bind. rewrite Hm. destruct (m' s) as [e | [a s1]]; [reflexivity|].
  apply Hk.
Qed.

Section VoiceListings.

Variable str : entry -> string.
Variables files files' : list entry.
Hypothesis relisted : Permutation files files'.
Hypothesis readable : all_caught files.

Lemma found_patterns_relisted patterns :
  Analyzer.found_patterns files patterns = Analyzer.found_patterns files' patterns.
Proof.
  induction patterns as [| p rest IH]; [reflexivity|].
  cbn [Analyzer.found_patterns].
  now rewrite IH, (first_match_try_permutation _ files files' relisted readable).
Qed.

Lemma count_patterns_relisted patterns :
  forall n, Analyzer.count_patterns files patterns n
            = Analyzer.count_patterns files' patterns n.
Proof.
  induction patterns as [| p rest IH]; intros n; [reflexivity|].
  cbn [Analyzer.count_patterns].
  rewrite (for_each_try_relisted _ files files' n (counting_commutes p) relisted readable).
  destruct (for_each_try _ files' n) as [e | m]; [reflexivity|]. cbn [obind]. apply IH.
Qed.

Lemma voice_categories_relisted categories :
  Analyzer.voice_categories_loop files categories
  = Analyzer.voice_categories_loop files' categories.
Proof.
  induction categories as [| [c ps] rest IH]; [reflexivity|].
  cbn [Analyzer.voice_categories_loop]. now rewrite IH, found_patterns_relisted.
Qed.

Lemma performance_loop_relisted categories :
  Analyzer.performance_loop files categories = Analyzer.performance_loop files' categories.
Proof.
  induction categories as [| [c ps] rest IH]; [reflexivity|].
  cbn [Analyzer.performance_loop]. now rewrite IH, count_patterns_relisted.
Qed.

Lemma brazilian_loop_relisted categories :
  Analyzer.brazilian_loop files categories = Analyzer.brazilian_loop files' categories.
Proof.
  induction categories as [| [c ps] rest IH]; [reflexivity|].
  cbn [Analyzer.brazilian_loop]. now rewrite IH, count_patterns_relisted.
Qed.

Lemma memory_loop_relisted categories :
  forall n s, Analyzer.memory_loop files categories n s
              = Analyzer.memory_loop files' categories n s.
Proof.
  induction categories as [| [c ps] rest IH]; intros n s; [reflexivity|].
  cbn [Analyzer.memory_loop]. rewrite count_patterns_relisted.
  apply bind_pointwise; [reflexivity | intros found_count s1].
  apply bind_pointwise; [reflexivity | intros m s2]. apply IH.
Qed.

Lemma cache_loop_relisted categories :
  forall n s, Analyzer.cache_loop files categories n s
              = Analyzer.cache_loop files' categories n s.
Proof.
  induction categories as [| [c ps] rest IH]; intros n s; [reflexivity|].
  cbn [Analyzer.cache_loop]. rewrite count_patterns_relisted.
  apply bind_pointwise; [reflexivity | intros found_count s1].
  apply bind_pointwise; [reflexivity | intros m s2]. apply IH.
Qed.

End VoiceListings.

Lemma voice_files_permutation str t t' :
  Permutation (entries t) (entries t') ->
  Permutation (Analyzer.voice_files str t) (Analyzer.voice_files str t').
Proof.
  intros Hp. unfold Analyzer.voice_files.
  apply Permutation_app; apply filter_permutation; now apply rglob_permutation.
Qed.

Lemma analyzer_code_files_permutation t t' :
  Permutation (entries t) (entries t') ->
  Permutation (Analyzer.code_files t) (Analyzer.code_files t').
Proof.
  intros Hp. unfold Analyzer.code_files. apply Permutation_app; now apply rglob_permutation.
Qed.

Lemma voice_files_are_code_files str t f :
  In f (Analyzer.voice_files str t) -> In f (Analyzer.code_files t).
Proof.
  unfold Analyzer.voice_files, Analyzer.code_files. rewrite !in_app_iff, !filter_In. tauto.
Qed.

Lemma analyze_all_relisted str t t' s :
  Permutation (entries t) (entries t') -> all_caught (Analyzer.code_files t) ->
  Analyzer.analyze_all str t s = Analyzer.analyze_all str t' s.
Proof.
  intros Hp H.
  pose proof (analyzer_code_files_permutation t t' Hp) as Hc.
  pose proof (voice_files_permutation str t t' Hp) as Hv.
  assert (H' : all_caught (Analyzer.voice_files str t))
    by (intros f e Hf; apply H; exact (voice_files_are_code_files str t f Hf)).
  unfold Analyzer.analyze_all.
  apply bind_pointwise;
    [| intros _ s1; apply bind_pointwise;
       [| intros _ s2; apply bind_pointwise;
          [| intros _ s3; apply bind_pointwise;
             [| intros _ s4; apply bind_pointwise; [| reflexivity]]]]].
  - intros s0. unfold Analyzer.analyze_voice_components. cbv zeta.
    now rewrite (voice_categories_relisted _ _ Hv H'), (found_patterns_relisted _ _ Hv H').
  - intros s0. unfold Analyzer.analyze_performance_patterns.
    now rewrite (performance_loop_relisted _ _ Hc H).
  - intros s0. unfold Analyzer.analyze_brazilian_patterns.
    now rewrite (brazilian_loop_relisted _ _ Hc H).
  - intros s0. unfold Analyzer.analyze_memory_management.
    apply bind_pointwise; [| reflexivity]. intros s5.
    exact (memory_loop_relisted _ _ Hc H _ 0 s5).
  - intros s0. unfold Analyzer.analyze_caching_strategies.
    apply bind_pointwise; [| reflexivity]. intros s5.
    exact (cache_loop_relisted _ _ Hc H _ 0 s5).
Qed.

(** *** A directory among the code files *)

Lemma first_match_try_raises test files e :
  first_match_try test files = Raised e -> e = IsADirectoryError.
Proof.
  induction files as [| f rest IH]; cbn [first_match_try]; [discriminate|].
  destruct (read f) as [x | content] eqn:E.
  - destruct (caught x) eqn:C; [exact IH|]. intros [= <-]. exact (read_raises f x E C).
  - destruct (test content); [discriminate | exact IH].
Qed.

Lemma found_patterns_raises files patterns e :
  Analyzer.found_patterns files patterns = Raised e -> e = IsADirectoryError.
Proof.
  induction patterns as [| p rest IH]; cbn [Analyzer.found_patterns]; [discriminate|].
  destruct (first_match_try _ files) as [x | hit] eqn:E; cbn [obind].
  - intros [= <-]. exact (first_match_try_raises _ _ _ E).
  - destruct (Analyzer.found_patterns files rest) as [x | found]; cbn [obind];
      [| discriminate].
    intros [= <-]. now apply IH.
Qed.

Lemma found_step_raises files patterns (k : list string -> M Voice.results unit) s e :
  (forall found s1, k found s1 <> Raised e) ->
  bind (lift (Analyzer.found_patterns files patterns)) k s = Raised e ->
  e = IsADirectoryError.
Proof.
  intros Hk. unfold bind, lift.
  destruct (Analyzer.found_patterns files patterns) as [x | found] eqn:E.
  - intros [= <-]. exact (found_patterns_raises _ _ _ E).
  - intros H. now destruct (Hk found s).
Qed.

Lemma voice_categories_raise files categories s e :
  Analyzer.voice_categories_loop files categories s = Raised e -> e = IsADirectoryError.
Proof.
  revert s. induction categories as [| [c ps] rest IH]; intros s;
    cbn [Analyzer.voice_categories_loop]; [discriminate|].
  unfold bind at 1, lift.
  destruct (Analyzer.found_patterns files ps) as [x | found] eqn:E.
  - intros [= <-]. exact (found_patterns_raises _ _ _ E).
  - unfold bind. destruct found; cbn [modify]; apply IH.
Qed.

Lemma voice_components_raise str t s e :
  Analyzer.analyze_voice_components str t s = Raised e -> e = IsADirectoryError.
Proof.
  unfold Analyzer.analyze_voice_components. cbv zeta. unfold bind at 1.
  destruct (Analyzer.voice_categories_loop _ _ s) as [x | [u s1]] eqn:E.
  - intros [= <-]. exact (voice_categories_raise _ _ _ _ E).
  - apply found_step_raises. intros found s2. destruct found; discriminate.
Qed.

Lemma a_directory_among_the_code_files str t f s :
  In f (Analyzer.code_files t) -> is_file f = false ->
  Analyzer.analyze_all str t s = Raised IsADirectoryError.
Proof.
  intros Hin Hf. unfold Analyzer.analyze_all. unfold bind at 1.
  destruct (Analyzer.analyze_voice_components str t s) as [x | [u s1]] eqn:E.
  - now rewrite (voice_components_raise _ _ _ _ E).
  - unfold bind at 1. unfold Analyzer.analyze_performance_patterns, Analyzer.perf_patterns.
    cbn [Analyzer.performance_loop Analyzer.count_patterns]. unfold bind at 1, lift.
    now rewrite (for_each_try_directory _ _ f Hin Hf 0).
Qed.

Lemma forallb_fails {A} (f : A -> bool) l :
  forallb f l = false -> exists x, In x l /\ f x = false.
Proof.
  induction l as [| a l IH]; cbn [forallb]; [discriminate|].
  destruct (f a) eqn:E; cbn [andb].
  - intros H. destruct (IH H) as (x & Hx & Hf). exists x. split; [now right | exact Hf].
  - intros _. exists a. split; [now left | exact E].
Qed.

(** X24.  The voice analyzer does not depend on the order in which the tree
    lists its entries: on two trees with the same entries in another order a
    run returns the same results with the same exit status, or dies of the
    same exception. *)
Theorem the_analysis_ignores_the_listing_order :
  forall str t t' target_ms,
    Permutation (entries t) (entries t') ->
    Analyzer.main str t target_ms = Analyzer.main str t' target_ms.
Proof.
  intros str t t' target_ms Hp. unfold Analyzer.main.
  destruct (forallb is_file (Analyzer.code_files t)) eqn:E.
  - rewrite forallb_forall in E.
    now rewrite (analyze_all_relisted str t t' _ Hp (regular_all_caught _ E)).
  - destruct (forallb_fails _ _ E) as (f & Hin & Hf).
    rewrite (a_directory_among_the_code_files str t f _ Hin Hf).
    now rewrite (a_directory_among_the_code_files str t' f _
                   (Permutation_in _ (analyzer_code_files_permutation t t' Hp) Hin) Hf).
Qed.

Lemma the_analysis_ignores_the_listing_order_witness :
  Analyzer.main VoiceSample.str Components.listed 500
  = Analyzer.main VoiceSample.str Components.relisted 500.
Proof.
  apply (the_analysis_ignores_the_listing_order VoiceSample.str Components.listed
           Components.relisted 500).
  apply (Permutation_rev [Components.hook; Components.cache; Components.blob]).
Defined.

(** ** A tree that grows *)

Lemma for_each_try_app {A} (body : string -> A -> A) l l' :
  forall acc, for_each_try body (l ++ l') acc
              = obind (for_each_try body l acc) (for_each_try body l').
Proof.
  induction l as [| f l IH]; intros acc; [reflexivity|].
  cbn [app for_each_try]. destruct (read f) as [e |]; [| apply IH].
  destruct (caught e); [apply IH | reflexivity].
Qed.

Lemma for_each_app {A} (body : string -> A -> A) l l' :
  forall acc, for_each body (l ++ l') acc = obind (for_each body l acc) (for_each body l').
Proof.
  induction l as [| f l IH]; intros acc; [reflexivity|].
  cbn [app for_each]. destruct (read f) as [e |]; [reflexivity | apply IH].
Qed.

Section Rises.

Context {A : Type} (le : A -> A -> Prop).
Hypothesis le_refl : forall a, le a a.
Hypothesis le_trans : forall a b c, le a b -> le b c -> le a c.
Variable body : string -> A -> A.
Hypothesis body_rises : forall content acc, le acc (body content acc).

Lemma for_each_try_rises files :
  forall acc out, for_each_try body files acc = Returned out -> le acc out.
Proof.
  induction files as [| f files IH]; intros acc out H; cbn [for_each_try] in H.
  - injection H as <-. apply le_refl.
  - destruct (read f) as [e | content].
    + destruct (caught e); [exact (IH _ _ H) | discriminate].
    + exact (le_trans _ _ _ (body_rises content acc) (IH _ _ H)).
Qed.

Hypothesis body_commutes : commutes body.

(** The loop over more files ends at least as high. *)
Lemma for_each_try_grows files files' more acc out out' :
  Permutation files' (files ++ more) ->
  for_each_try body files acc = Returned out ->
  for_each_try body files' acc = Returned out' ->
  le out out'.
Proof.
  intros Hp E E'.
  apply (for_each_try_permutation body _ _ body_commutes Hp) in E'.
  rewrite for_each_try_app, E in E'. cbn [obind] in E'.
  exact (for_each_try_rises _ _ _ E').
Qed.

End Rises.

Lemma for_each_grows (body : string -> Z -> Z) files files' more acc out out' :
  (forall raw n, n <= body raw n) -> commutes body ->
  Permutation files' (files ++ more) ->
  for_each body files acc = Returned out ->
  for_each body files' acc = Returned out' ->
  out <= out'.
Proof.
  intros Hb Hc Hp E E'.
  apply (for_each_permutation body _ _ Hc Hp) in E'.
  rewrite for_each_app, E in E'. cbn [obind] in E'.
  exact (for_each_adds body Hb _ _ _ E').
Qed.

Lemma stays_set_refl b : stays_set b b.
Proof. intros H. exact H. Qed.

Lemma points_grow b b' w : stays_set b b' -> 0 <= w -> points b w <= points b' w.
Proof.
  unfold points, stays_set.
  destruct b, b'; intros H Hw; lia || (specialize (H eq_refl); discriminate).
Qed.

Section Grown.

Variables t t' : tree.
Hypothesis growth : grown t t'.

Lemma filter_grown (f : entry -> bool) :
  exists more, Permutation (filter f (entries t')) (filter f (entries t) ++ more).
Proof.
  destruct growth as [extra Hp]. exists (filter f extra).
  rewrite <- filter_app. now apply filter_permutation.
Qed.

Lemma exists_grown p : stays_set (exists_ t p) (exists_ t' p).
Proof.
  destruct growth as [extra Hp]. unfold stays_set, exists_. intros H.
  rewrite (existsb_permutation _ _ _ Hp), existsb_app, H. reflexivity.
Qed.

Lemma any_exists_grown paths : stays_set (any (exists_ t) paths) (any (exists_ t') paths).
Proof.
  unfold stays_set, any. rewrite !existsb_exists.
  intros (p & Hin & Hp). exists p. split; [exact Hin | exact (exists_grown p Hp)].
Qed.

Lemma code_files_grown :
  exists more, Permutation (Aegis.code_files t') (Aegis.code_files t ++ more).
Proof.
  unfold Aegis.code_files, rglob.
  destruct (filter_grown
              (fun e => match path e with [] => false | _ => endswith ".ts" (name e) end))
    as [m1 H1].
  destruct (filter_grown
              (fun e => match path e with [] => false | _ => endswith ".tsx" (name e) end))
    as [m2 H2].
  exists (m1 ++ m2)%list.
  apply (Permutation_trans (Permutation_app H1 H2)).
  rewrite <- !app_assoc. apply Permutation_app_head.
  rewrite !app_assoc. apply Permutation_app_tail. apply Permutation_app_comm.
Qed.

Lemma migration_files_grown :
  exists more, Permutation (Aegis.migration_files t') (Aegis.migration_files t ++ more).
Proof.
  unfold Aegis.migration_files.
  pose proof (exists_grown Aegis.supabase_dir) as H1.
  pose proof (exists_grown Aegis.migrations_dir) as H2.
  destruct (exists_ t Aegis.supabase_dir);
    [rewrite (H1 eq_refl) | eexists; cbn [app]; reflexivity].
  destruct (exists_ t Aegis.migrations_dir);
    [rewrite (H2 eq_refl) | eexists; cbn [app]; reflexivity].
  apply filter_grown.
Qed.

Lemma first_match_try_grows test files files' more b b' :
  Permutation files' (files ++ more) ->
  first_match_try test files = Returned b ->
  first_match_try test files' = Returned b' ->
  stays_set b b'.
Proof.
  intros Hp E E' Hb. apply (first_match_try_finds _ _ _ E) in Hb.
  destruct Hb as (f & text & Hin & Hr & Ht).
  apply (first_match_try_finds _ _ _ E'). exists f, text.
  split; [| split; assumption].
  apply (Permutation_in _ (Permutation_sym Hp)), in_or_app. now left.
Qed.

Lemma rls_grows b b' :
  Aegis._check_rls_implementation t = Returned b ->
  Aegis._check_rls_implementation t' = Returned b' ->
  stays_set b b'.
Proof.
  unfold Aegis._check_rls_implementation.
  pose proof (exists_grown Aegis.supabase_dir) as H1.
  pose proof (exists_grown Aegis.migrations_dir) as H2.
  destruct (exists_ t Aegis.supabase_dir); cbn [negb];
    [rewrite (H1 eq_refl) | intros [= <-] _; discriminate].
  destruct (exists_ t Aegis.migrations_dir); cbn [negb];
    [rewrite (H2 eq_refl) | intros [= <-] _; discriminate].
  cbn [negb]. unfold glob. destruct (filter_grown
    (fun e => path_eqb (removelast (path e)) Aegis.migrations_dir
              && negb (path_eqb (path e) []) && endswith ".sql" (name e))) as [more Hp].
  now apply (first_match_try_grows _ _ _ more).
Qed.

Lemma search_in_code_grows pattern b b' :
  Aegis._search_in_code t pattern = Returned b ->
  Aegis._search_in_code t' pattern = Returned b' ->
  stays_set b b'.
Proof.
  unfold Aegis._search_in_code. destruct code_files_grown as [more Hp].
  now apply (first_match_try_grows _ _ _ more).
Qed.

Lemma pix_endpoints_grow patterns :
  forall b b',
    Aegis.pix_endpoints_loop t patterns = Returned b ->
    Aegis.pix_endpoints_loop t' patterns = Returned b' ->
    stays_set b b'.
Proof.
  induction patterns as [| p rest IH]; intros b b'; cbn [Aegis.pix_endpoints_loop].
  - intros [= <-] _. discriminate.
  - destruct (Aegis._search_in_code t p) as [e | h] eqn:E; [discriminate|].
    destruct (Aegis._search_in_code t' p) as [e | h'] eqn:E'; [discriminate|].
    cbn [obind]. pose proof (search_in_code_grows p h h' E E') as Hh.
    destruct h.
    + rewrite (Hh eq_refl). intros _ [= <-] _. reflexivity.
    + destruct h'; [intros _ [= <-] _; reflexivity | apply IH].
Qed.

End Grown.

(** ** What a category score is made of *)

Lemma pix_value t r r' :
  Aegis.validate_pix_compliance t r = Returned (tt, r') ->
  exists m f1 f2 f3 e,
    for_each Aegis.pix_migration (Aegis.migration_files t) 0 = Returned m
    /\ for_each_try Aegis.pix_code (Aegis.code_files t) (false, false, false)
       = Returned (f1, f2, f3)
    /\ Aegis.pix_endpoints_loop t Aegis.api_patterns = Returned e
    /\ Aegis.score (Aegis.pix r')
       = m + points f1 20 + points f2 15 + points f3 10 + points e 5.
Proof.
  unfold Aegis.validate_pix_compliance. intros H.
  apply bind_returns in H. destruct H as (u0 & s0 & H0 & H).
  apply bind_returns in H. destruct H as (m & s1 & Hm & H).
  apply lift_returns in Hm. destruct Hm as [Hm ->].
  apply bind_returns in H. destruct H as ([[f1 f2] f3] & s2 & Hf & H).
  apply lift_returns in Hf. destruct Hf as [Hf ->].
  apply bind_returns in H. destruct H as (c1 & s3 & H1 & H).
  apply bind_returns in H. destruct H as (c2 & s4 & H2 & H).
  apply bind_returns in H. destruct H as (c3 & s5 & H3 & H).
  apply bind_returns in H. destruct H as (e & s6 & He & H).
  apply lift_returns in He. destruct He as [He ->].
  apply bind_returns in H. destruct H as (c4 & s7 & H4 & H).
  apply bind_returns in H. destruct H as (u1 & s8 & Hset & Hw).
  apply modify_returns in Hset.
  exists m, f1, f2, f3, e. repeat (split; [assumption|]).
  destruct (warn_returns _ _ _ _ _ Hw) as (_ & -> & _ & _). subst s8. cbn.
  apply check_returns in H1, H2, H3, H4.
  destruct H1 as [-> _], H2 as [-> _], H3 as [-> _], H4 as [-> _]. reflexivity.
Qed.

Lemma openbanking_value t r r' :
  Aegis.validate_openbanking_compliance t r = Returned (tt, r') ->
  exists f1 f2 f3 f4,
    for_each_try Aegis.ob_code (Aegis.code_files t) (false, false, false, false)
    = Returned (f1, f2, f3, f4)
    /\ Aegis.score (Aegis.openbanking r')
       = 0 + points f1 25 + points f2 20 + points f3 20 + points f4 25
         + points (any (exists_ t) Aegis.ob_docs) 10.
Proof.
  unfold Aegis.validate_openbanking_compliance. intros H.
  apply bind_returns in H. destruct H as (u0 & s0 & H0 & H). cbv zeta in H.
  apply bind_returns in H. destruct H as ([[[f1 f2] f3] f4] & s1 & Hf & H).
  apply lift_returns in Hf. destruct Hf as [Hf ->].
  apply bind_returns in H. destruct H as (c1 & s2 & H1 & H).
  apply bind_returns in H. destruct H as (c2 & s3 & H2 & H).
  apply bind_returns in H. destruct H as (c3 & s4 & H3 & H).
  apply bind_returns in H. destruct H as (c4 & s5 & H4 & H).
  apply bind_returns in H. destruct H as (c5 & s6 & H5 & H).
  apply bind_returns in H. destruct H as (u1 & s7 & Hset & Hw).
  apply modify_returns in Hset.
  exists f1, f2, f3, f4. split; [assumption|].
  destruct (warn_returns _ _ _ _ _ Hw) as (_ & _ & -> & _). subst s7. cbn.
  apply check_returns in H1, H2, H3, H4, H5.
  destruct H1 as [-> _], H2 as [-> _], H3 as [-> _], H4 as [-> _], H5 as [-> _].
  reflexivity.
Qed.

Lemma security_value t r r' :
  Aegis.validate_brazilian_security t r = Returned (tt, r') ->
  exists f1 f2 f3 f4,
    for_each_try Aegis.security_code (Aegis.code_files t) (false, false, false, false)
    = Returned (f1, f2, f3, f4)
    /\ Aegis.score (Aegis.security r')
       = 0 + points f1 25 + points f2 25 + points f3 25 + points f4 25.
Proof.
  unfold Aegis.validate_brazilian_security. intros H.
  apply bind_returns in H. destruct H as (u0 & s0 & H0 & H). cbv zeta in H.
  apply bind_returns in H. destruct H as ([[[f1 f2] f3] f4] & s1 & Hf & H).
  apply lift_returns in Hf. destruct Hf as [Hf ->].
  apply bind_returns in H. destruct H as (c1 & s2 & H1 & H).
  apply bind_returns in H. destruct H as (c2 & s3 & H2 & H).
  apply bind_returns in H. destruct H as (c3 & s4 & H3 & H).
  apply bind_returns in H. destruct H as (c4 & s5 & H4 & H).
  apply bind_returns in H. destruct H as (u1 & s6 & Hset & Hw).
  apply modify_returns in Hset.
  exists f1, f2, f3, f4. split; [assumption|].
  destruct (warn_returns _ _ _ _ _ Hw) as (_ & _ & _ & ->). subst s6. cbn.
  apply check_returns in H1, H2, H3, H4.
  destruct H1 as [-> _], H2 as [-> _], H3 as [-> _], H4 as [-> _]. reflexivity.
Qed.

(** ** Flags only rise *)

Lemma flags3_refl f : flags3_stay_set f f.
Proof. destruct f as [[a b] c]. cbn. repeat split; apply stays_set_refl. Qed.

Lemma flags3_trans f g h : flags3_stay_set f g -> flags3_stay_set g h -> flags3_stay_set f h.
Proof.
  destruct f as [[a b] c], g as [[a' b'] c'], h as [[a'' b''] c'']. cbn.
  unfold stays_set. intuition.
Qed.

Lemma flags4_refl f : flags4_stay_set f f.
Proof. destruct f as [[[a b] c] d]. cbn. repeat split; apply stays_set_refl. Qed.

Lemma flags4_trans f g h : flags4_stay_set f g -> flags4_stay_set g h -> flags4_stay_set f h.
Proof.
  destruct f as [[[a b] c] d], g as [[[a' b'] c'] d'], h as [[[a'' b''] c''] d''].
  cbn. unfold stays_set. intuition.
Qed.

Ltac flags_rise :=
  intros content acc; repeat match goal with p : (_ * _)%type |- _ => destruct p end;
  cbv beta iota delta [Aegis.lgpd_code Aegis.pix_code Aegis.ob_code Aegis.security_code
                       flags3_stay_set flags4_stay_set stays_set];
  cbv zeta;
  repeat (match goal with
          | |- context [if ?b then true else _] => destruct b
          end; cbv iota);
  repeat split; auto.

Lemma lgpd_code_rises content acc : flags3_stay_set acc (Aegis.lgpd_code content acc).
Proof. revert content acc. flags_rise. Qed.

Lemma pix_code_rises content acc : flags3_stay_set acc (Aegis.pix_code content acc).
Proof. revert content acc. flags_rise. Qed.

Lemma ob_code_rises content acc : flags4_stay_set acc (Aegis.ob_code content acc).
Proof. revert content acc. flags_rise. Qed.

Lemma security_code_rises content acc :
  flags4_stay_set acc (Aegis.security_code content acc).
Proof. revert content acc. flags_rise. Qed.

(** ** The four validations on a tree that has grown *)

Section GrownScores.

Variables t t' : tree.
Hypothesis growth : grown t t'.

Lemma lgpd_grows r r1 s s1 :
  Aegis.validate_lgpd_compliance t r = Returned (tt, r1) ->
  Aegis.validate_lgpd_compliance t' s = Returned (tt, s1) ->
  Aegis.score (Aegis.lgpd r1) <= Aegis.score (Aegis.lgpd s1).
Proof.
  intros H H'.
  destruct (validate_lgpd_returns _ _ _ H) as (m & a & b & c & rls & Em & Ef & Er & -> & _).
  destruct (validate_lgpd_returns _ _ _ H')
    as (m' & a' & b' & c' & rls' & Em' & Ef' & Er' & -> & _).
  destruct (migration_files_grown t t' growth) as [more Hm].
  destruct (code_files_grown t t' growth) as [more' Hc].
  pose proof (for_each_grows _ _ _ _ _ _ _ lgpd_migration_adds lgpd_migration_commutes
                Hm Em Em') as Lm.
  pose proof (for_each_try_grows flags3_stay_set flags3_refl flags3_trans _ lgpd_code_rises
                lgpd_code_commutes _ _ _ _ _ _ Hc Ef Ef') as (La & Lb & Lc).
  pose proof (rls_grows t t' growth _ _ Er Er') as Lr.
  pose proof (any_exists_grown t t' growth Aegis.privacy_policy_files) as Lp.
  pose proof (points_grow _ _ 20 La). pose proof (points_grow _ _ 15 Lb).
  pose proof (points_grow _ _ 15 Lc). pose proof (points_grow _ _ 15 Lp).
  pose proof (points_grow _ _ 10 Lr). lia.
Qed.

Lemma pix_grows r r1 s s1 :
  Aegis.validate_pix_compliance t r = Returned (tt, r1) ->
  Aegis.validate_pix_compliance t' s = Returned (tt, s1) ->
  Aegis.score (Aegis.pix r1) <= Aegis.score (Aegis.pix s1).
Proof.
  intros H H'.
  destruct (pix_value _ _ _ H) as (m & a & b & c & e & Em & Ef & Ee & ->).
  destruct (pix_value _ _ _ H') as (m' & a' & b' & c' & e' & Em' & Ef' & Ee' & ->).
  destruct (migration_files_grown t t' growth) as [more Hm].
  destruct (code_files_grown t t' growth) as [more' Hc].
  pose proof (for_each_grows _ _ _ _ _ _ _ pix_migration_adds pix_migration_commutes
                Hm Em Em') as Lm.
  pose proof (for_each_try_grows flags3_stay_set flags3_refl flags3_trans _ pix_code_rises
                pix_code_commutes _ _ _ _ _ _ Hc Ef Ef') as (La & Lb & Lc).
  pose proof (pix_endpoints_grow t t' growth _ _ _ Ee Ee') as Le.
  pose proof (points_grow _ _ 20 La). pose proof (points_grow _ _ 15 Lb).
  pose proof (points_grow _ _ 10 Lc). pose proof (points_grow _ _ 5 Le). lia.
Qed.

Lemma openbanking_grows r r1 s s1 :
  Aegis.validate_openbanking_compliance t r = Returned (tt, r1) ->
  Aegis.validate_openbanking_compliance t' s = Returned (tt, s1) ->
  Aegis.score (Aegis.openbanking r1) <= Aegis.score (Aegis.openbanking s1).
Proof.
  intros H H'.
  destruct (openbanking_value _ _ _ H) as (a & b & c & d & Ef & ->).
  destruct (openbanking_value _ _ _ H') as (a' & b' & c' & d' & Ef' & ->).
  destruct (code_files_grown t t' growth) as [more' Hc].
  pose proof (for_each_try_grows flags4_stay_set flags4_refl flags4_trans _ ob_code_rises
                ob_code_commutes _ _ _ _ _ _ Hc Ef Ef') as (La & Lb & Lc & Ld).
  pose proof (any_exists_grown t t' growth Aegis.ob_docs) as Lp.
  pose proof (points_grow _ _ 25 La). pose proof (points_grow _ _ 20 Lb).
  pose proof (points_grow _ _ 20 Lc). pose proof (points_grow _ _ 25 Ld).
  pose proof (points_grow _ _ 10 Lp). lia.
Qed.

Lemma security_grows r r1 s s1 :
  Aegis.validate_brazilian_security t r = Returned (tt, r1) ->
  Aegis.validate_brazilian_security t' s = Returned (tt, s1) ->
  Aegis.score (Aegis.security r1) <= Aegis.score (Aegis.security s1).
Proof.
  intros H H'.
  destruct (security_value _ _ _ H) as (a & b & c & d & Ef & ->).
  destruct (security_value _ _ _ H') as (a' & b' & c' & d' & Ef' & ->).
  destruct (code_files_grown t t' growth) as [more' Hc].
  pose proof (for_each_try_grows flags4_stay_set flags4_refl flags4_trans _
                security_code_rises security_code_commutes _ _ _ _ _ _ Hc Ef Ef')
    as (La & Lb & Lc & Ld).
  pose proof (points_grow _ _ 25 La). pose proof (points_grow _ _ 25 Lb).
  pose proof (points_grow _ _ 25 Lc). pose proof (points_grow _ _ 25 Ld). lia.
Qed.

Lemma run_check_grows c r r1 s s1 :
  Aegis.run_check t c r = Returned (tt, r1) ->
  Aegis.run_check t' c s = Returned (tt, s1) ->
  scores_no_lower r s -> scores_no_lower r1 s1.
Proof.
  unfold Aegis.run_check, scores_no_lower. intros H H' (L1 & L2 & L3 & L4).
  destruct (String.eqb c "lgpd").
  { destruct (lgpd_frame t) as (F1 & F2 & F3), (lgpd_frame t') as (G1 & G2 & G3).
    rewrite (F1 _ _ _ H), (F2 _ _ _ H), (F3 _ _ _ H), (G1 _ _ _ H'), (G2 _ _ _ H'),
      (G3 _ _ _ H').
    split; [exact (lgpd_grows _ _ _ _ H H') | auto]. }
  destruct (String.eqb c "pix").
  { destruct (pix_frame t) as (F1 & F2 & F3), (pix_frame t') as (G1 & G2 & G3).
    rewrite (F1 _ _ _ H), (F2 _ _ _ H), (F3 _ _ _ H), (G1 _ _ _ H'), (G2 _ _ _ H'),
      (G3 _ _ _ H').
    split; [auto | split; [exact (pix_grows _ _ _ _ H H') | auto]]. }
  destruct (String.eqb c "openbanking").
  { destruct (openbanking_frame t) as (F1 & F2 & F3),
      (openbanking_frame t') as (G1 & G2 & G3).
    rewrite (F1 _ _ _ H), (F2 _ _ _ H), (F3 _ _ _ H), (G1 _ _ _ H'), (G2 _ _ _ H'),
      (G3 _ _ _ H').
    split; [auto | split; [auto | split; [exact (openbanking_grows _ _ _ _ H H') | auto]]]. }
  destruct (String.eqb c "security").
  { destruct (security_frame t) as (F1 & F2 & F3), (security_frame t') as (G1 & G2 & G3).
    rewrite (F1 _ _ _ H), (F2 _ _ _ H), (F3 _ _ _ H), (G1 _ _ _ H'), (G2 _ _ _ H'),
      (G3 _ _ _ H').
    split; [auto | split; [auto | split; [auto | exact (security_grows _ _ _ _ H H')]]]. }
  injection H as <-. injection H' as <-. auto.
Qed.

Lemma run_checks_grow checks :
  forall r r1 s s1,
    Aegis.run_checks t checks r = Returned (tt, r1) ->
    Aegis.run_checks t' checks s = Returned (tt, s1) ->
    scores_no_lower r s -> scores_no_lower r1 s1.
Proof.
  induction checks as [| c rest IH]; intros r r1 s s1 H H' L; cbn [Aegis.run_checks] in *.
  - injection H as <-. injection H' as <-. exact L.
  - apply bind_returns in H. destruct H as ([] & r2 & H1 & H).
    apply bind_returns in H'. destruct H' as ([] & s2 & H1' & H').
    exact (IH _ _ _ _ H H' (run_check_grows _ _ _ _ _ H1 H1' L)).
Qed.

End GrownScores.

(** X25.  More files never lower a category score of the compliance
    validator of aegis-architect: when a run on a tree and a run on a tree
    that holds the same entries and more both print a report, each of the four
    scores of the larger tree is at least that of the smaller.  The overall
    score is no such thing: it is the mean of the scores above zero, so a
    file that lifts a category from 0 to 10 takes a project from the overall
    score 100 and a valid run to 55 and a failed one. *)
Theorem more_files_never_lower_a_category_score :
  (forall t t' checks r r' code code',
      grown t t' ->
      Aegis.main t checks = Aegis.Report r code ->
      Aegis.main t' checks = Aegis.Report r' code' ->
      scores_no_lower r r')
  /\ (grown Growth.secure Growth.with_contact
      /\ exists r r',
           Aegis.main Growth.secure None = Aegis.Report r 0
           /\ Aegis.main Growth.with_contact None = Aegis.Report r' 1
           /\ Aegis.compliance_score r = 100 /\ Aegis.compliance_score r' = 55
           /\ Aegis.score (Aegis.pix r) = 0 /\ Aegis.score (Aegis.pix r') = 10).
Proof.
  split.
  - intros t t' checks r r' code code' Hg H H'.
    destruct (main_inv _ _ _ _ H) as (r1 & E & ->).
    destruct (main_inv _ _ _ _ H') as (s1 & E' & ->).
    pose proof (run_checks_grow t t' Hg _ _ _ _ _ E E') as L.
    unfold scores_no_lower in *. cbn. apply L. repeat split; reflexivity.
  - split.
    + exists [Growth.contact]. reflexivity.
    + eexists. eexists. split; [vm_compute; reflexivity|].
      split; [vm_compute; reflexivity|]. repeat split.
Qed.

Lemma more_files_never_lower_a_category_score_witness :
  exists r r',
    Aegis.main Sample.consent_in_code None = Aegis.Report r 1
    /\ Aegis.main (Present (entries Sample.consent_in_code ++ [Growth.vault])) None
       = Aegis.Report r' 1
    /\ scores_no_lower r r'.
Proof.
  assert (C : exists r, Aegis.main Sample.consent_in_code None = Aegis.Report r 1)
    by (eexists; vm_compute; reflexivity).
  assert (C' : exists r', Aegis.main (Present (entries Sample.consent_in_code
                                               ++ [Growth.vault])) None
                          = Aegis.Report r' 1)
    by (eexists; vm_compute; reflexivity).
  destruct C as [r E], C' as [r' E']. exists r, r'. split; [exact E|]. split; [exact E'|].
  apply (proj1 more_files_never_lower_a_category_score Sample.consent_in_code
           (Present (entries Sample.consent_in_code ++ [Growth.vault])) None r r' 1 1);
    [| exact E | exact E'].
  exists [Growth.vault]. reflexivity.
Defined.

(** ** The fintech validator on a tree that has grown *)

Lemma flat_map_app_pointwise {A B} (f g : A -> list B) l :
  Permutation (flat_map (fun a => f a ++ g a)%list l) (flat_map f l ++ flat_map g l)%list.
Proof.
  induction l as [| a l IH]; cbn [flat_map app]; [constructor|].
  apply (Permutation_trans (Permutation_app_head _ IH)).
  rewrite <- !app_assoc. apply Permutation_app_head.
  rewrite !app_assoc. apply Permutation_app_tail, Permutation_app_comm.
Qed.

Lemma collect_grown t t' :
  grown t t' ->
  exists more,
    Permutation (Fintech._collect_source_files t') (Fintech._collect_source_files t ++ more).
Proof.
  intros [extra Hp]. rewrite !collect_unfold.
  exists (filter is_file (flat_map (fun suffix => rglob suffix (Present extra))
                            collected_suffixes)).
  rewrite <- filter_app. apply filter_permutation.
  apply Permutation_trans
    with (flat_map (fun suffix => rglob suffix t ++ rglob suffix (Present extra))%list
            collected_suffixes);
    [| apply flat_map_app_pointwise].
  apply flat_map_permutation. intros suffix. unfold rglob. cbn [entries].
  rewrite <- filter_app. now apply filter_permutation.
Qed.

Lemma presence_grows files files' more patterns :
  Permutation files' (files ++ more) -> (length files' <= 50)%nat ->
  (forall p, In p patterns -> plain (lower p)) ->
  stays_set
    (Fintech._check_pattern_presence (Fintech._analyze_files_content files) patterns)
    (Fintech._check_pattern_presence (Fintech._analyze_files_content files') patterns).
Proof.
  intros Hp Hl Hplain. unfold Fintech._analyze_files_content, stays_set.
  assert (Hl' : (length files <= 50)%nat).
  { rewrite (Permutation_length Hp), length_app in Hl. lia. }
  rewrite (firstn_short files) by exact Hl'.
  rewrite (firstn_short files') by exact Hl.
  rewrite !presence_in_contents by exact Hplain.
  intros (p & f & text & H1 & H2 & H3). exists p, f, text.
  split; [exact H1|]. split; [| exact H3].
  apply (Permutation_in _ (Permutation_sym Hp)), in_or_app. now left.
Qed.

Lemma floor_mean_grows a b : a <= b -> a / 4 <= b / 4.
Proof. intros H. apply Z.div_le_mono; lia. Qed.

(** X26.  As long as the validator of brazilian-fintech-compliance collects
    at most 50 files, more files never lower a result: on a tree that holds
    the entries of another and more, each of the four category scores and the
    overall score are at least what they are on the smaller tree.  Past 50
    files a new file can take the place of one that counted: a setup script
    listed in front of fifty files pushes the one that mentions PIX out of
    the analysis, and the score for BCB regulations falls from 35 to 0. *)
Theorem up_to_50_files_more_files_never_lower_a_score :
  (forall path t t' r0 r r',
      grown t t' ->
      (length (Fintech._collect_source_files t') <= 50)%nat ->
      Fintech.validate_project path t r0 = Fintech.Results r ->
      Fintech.validate_project path t' r0 = Fintech.Results r' ->
      (forall c, In c fintech_categories -> Fintech.score (c r) <= Fintech.score (c r'))
      /\ Fintech.overall_score r <= Fintech.overall_score r')
  /\ (grown Crowd.fifty Crowd.fifty_and_setup
      /\ length (Fintech._collect_source_files Crowd.fifty_and_setup) = 51%nat
      /\ exists r r',
           Fintech.validate_project "app" Crowd.fifty Fintech.init = Fintech.Results r
           /\ Fintech.validate_project "app" Crowd.fifty_and_setup Fintech.init
              = Fintech.Results r'
           /\ Fintech.score (Fintech.bcb_regulations r) = 35
           /\ Fintech.score (Fintech.bcb_regulations r') = 0).
Proof.
  split.
  - intros path t t' r0 r r' Hg Hl H H'. unfold Fintech.validate_project in H, H'.
    destruct (negb (root_exists t)); [discriminate|].
    destruct (negb (root_exists t')); [discriminate|].
    cbv zeta in H, H'. injection H as <-. injection H' as <-.
    destruct (collect_grown t t' Hg) as [more Hp].
    assert (G : forall patterns w,
               (forall p, In p patterns -> plain (lower p)) -> 0 <= w ->
               points (Fintech._check_pattern_presence
                         (Fintech._analyze_files_content (Fintech._collect_source_files t))
                         patterns) w
               <= points (Fintech._check_pattern_presence
                            (Fintech._analyze_files_content
                               (Fintech._collect_source_files t')) patterns) w).
    { intros patterns w Hplain Hw. apply points_grow; [| exact Hw].
      exact (presence_grows _ _ more patterns Hp Hl Hplain). }
    assert (S : forall c, In c fintech_categories ->
                 Fintech.score (c (Fintech._calculate_overall_score
                   (Fintech._validate_financial_security (Fintech._collect_source_files t)
                   (Fintech._validate_data_protection (Fintech._collect_source_files t)
                   (Fintech._validate_bcb_regulations (Fintech._collect_source_files t)
                   (Fintech._validate_lgpd_compliance (Fintech._collect_source_files t)
                      r0))))))
                 <= Fintech.score (c (Fintech._calculate_overall_score
                   (Fintech._validate_financial_security (Fintech._collect_source_files t')
                   (Fintech._validate_data_protection (Fintech._collect_source_files t')
                   (Fintech._validate_bcb_regulations (Fintech._collect_source_files t')
                   (Fintech._validate_lgpd_compliance (Fintech._collect_source_files t')
                      r0))))))).
    { intros c Hc. each_category c Hc; expose_validations;
        repeat match goal with
               | |- context [points (Fintech._check_pattern_presence
                                       (Fintech._analyze_files_content
                                          (Fintech._collect_source_files t)) ?P) ?w] =>
                   let L := fresh "L" in
                   pose proof (G P w ltac:(in_tables) ltac:(lia)) as L;
                   generalize dependent
                     (points (Fintech._check_pattern_presence
                                (Fintech._analyze_files_content
                                   (Fintech._collect_source_files t)) P) w)
               end;
        intros; lia. }
    split; [exact S|].
    pose proof (S _ (or_introl eq_refl)) as S1.
    pose proof (S _ (or_intror (or_introl eq_refl))) as S2.
    pose proof (S _ (or_intror (or_intror (or_introl eq_refl)))) as S3.
    pose proof (S _ (or_intror (or_intror (or_intror (or_introl eq_refl))))) as S4.
    rewrite !overall_of_total. unfold fintech_total, fintech_categories.
    cbn [map Fintech.sum fold_right].
    apply floor_mean_grows. lia.
  - split; [exists [Crowd.setup]; unfold Crowd.fifty, Crowd.fifty_and_setup; cbn [entries];
            apply Permutation_cons_append|].
    split; [vm_compute; reflexivity|].
    eexists. eexists. split; [vm_compute; reflexivity|].
    split; [vm_compute; reflexivity|]. split; reflexivity.
Qed.

Lemma up_to_50_files_more_files_never_lower_a_score_witness :
  exists r r',
    Fintech.validate_project "app" Sample.consent_only Fintech.init = Fintech.Results r
    /\ Fintech.validate_project "app" (Present (entries Sample.consent_only
                                                 ++ [Listing.payments])) Fintech.init
       = Fintech.Results r'
    /\ Fintech.overall_score r <= Fintech.overall_score r'.
Proof.
  assert (C : exists r, Fintech.validate_project "app" Sample.consent_only Fintech.init
                        = Fintech.Results r) by (eexists; vm_compute; reflexivity).
  assert (C' : exists r',
             Fintech.validate_project "app" (Present (entries Sample.consent_only
                                                      ++ [Listing.payments])) Fintech.init
             = Fintech.Results r') by (eexists; vm_compute; reflexivity).
  destruct C as [r E], C' as [r' E']. exists r, r'. split; [exact E|]. split; [exact E'|].
  refine (proj2 (proj1 up_to_50_files_more_files_never_lower_a_score "app"
                   Sample.consent_only
                   (Present (entries Sample.consent_only ++ [Listing.payments]))
                   Fintech.init r r' _ _ E E')).
  - exists [Listing.payments]. reflexivity.
  - vm_compute. lia.
Defined.

(** ** Dictionaries of flags *)

Lemma in_set_keys k d : In k (set_keys d) <-> In (k, true) d.
Proof.
  unfold set_keys. rewrite in_map_iff. split.
  - intros ([k' v] & E & H). apply filter_In in H. cbn in *. destruct H as [H ->].
    now subst k'.
  - intros H. exists (k, true). split; [reflexivity|]. apply filter_In. now split.
Qed.

Lemma set_true_sets key d x :
  In (x, true) (Analyzer.set_true key d) <-> x = key \/ In (x, true) d.
Proof.
  induction d as [| [k v] d IH]; cbn [Analyzer.set_true].
  - cbn. split; [intros [[= ->] | []]; now left | intros [-> | []]; now left].
  - destruct (String.eqb_spec k key) as [-> | N]; cbn [In].
    + split.
      * intros [[= ->] | H]; [now left | right; now right].
      * intros [-> | [[= -> ->] | H]]; [now left | now left | now right].
    + rewrite IH. split.
      * intros [E | [-> | H]]; [right; now left | now left | right; now right].
      * intros [-> | [E | H]]; [right; now left | now left | right; now right].
Qed.

Lemma set_true_fst key d :
  (In key (map fst d) /\ map fst (Analyzer.set_true key d) = map fst d)
  \/ (~ In key (map fst d) /\ map fst (Analyzer.set_true key d) = (map fst d ++ [key])%list).
Proof.
  induction d as [| [k v] d IH]; cbn [Analyzer.set_true map fst In app].
  - right. split; [intros [] | reflexivity].
  - destruct (String.eqb_spec k key) as [-> | N]; cbn [map fst].
    + left. split; [now left | reflexivity].
    + destruct IH as [[Hin E] | [Hout E]]; rewrite E.
      * left. split; [now right | reflexivity].
      * right. split; [intros [? | ?]; [congruence | contradiction] | reflexivity].
Qed.

Lemma set_true_keys key d :
  NoDup (map fst d) -> NoDup (map fst (Analyzer.set_true key d)).
Proof.
  intros H. destruct (set_true_fst key d) as [[_ ->] | [Hout ->]]; [exact H|].
  apply (Permutation_NoDup (Permutation_cons_append _ key)). now constructor.
Qed.

Lemma count_true_set_keys d : Voice.count_true d = Z.of_nat (length (set_keys d)).
Proof.
  unfold set_keys.
  induction d as [| [k v] d IH]; cbn [Voice.count_true fold_right filter snd]; [reflexivity|].
  fold (Voice.count_true d). rewrite IH. destruct v; cbn [map length]; lia.
Qed.

Lemma set_keys_distinct d : NoDup (map fst d) -> NoDup (set_keys d).
Proof.
  unfold set_keys. induction d as [| [k v] d IH]; cbn [map filter fst snd]; intros H;
    [constructor|].
  inversion H as [| ? ? Hk Hd]; subst. destruct v; cbn [map fst]; [| now apply IH].
  constructor; [| now apply IH].
  intros Hin. apply Hk. apply in_map_iff in Hin. destruct Hin as (kv & E & Hf).
  apply filter_In in Hf. apply in_map_iff. exists kv. tauto.
Qed.

Lemma count_true_grows d d' :
  NoDup (map fst d) -> incl (set_keys d) (set_keys d') ->
  Voice.count_true d <= Voice.count_true d'.
Proof.
  intros Hn Hi. rewrite !count_true_set_keys.
  apply inj_le, NoDup_incl_length; [now apply set_keys_distinct | exact Hi].
Qed.

Lemma set_keys_set_true key d x :
  In x (set_keys (Analyzer.set_true key d)) <-> x = key \/ In x (set_keys d).
Proof. rewrite !in_set_keys. apply set_true_sets. Qed.

(** ** Steps that keep the larger tree ahead *)

Ltac no_worse_step :=
  intros (N1 & N2 & I1 & I2 & L & E & T); unfold no_worse;
  cbn [Voice.performance_patterns Voice.brazilian_patterns Voice.optimizations_found
       Voice.issues Voice.target_ms Analyzer.add_issue Analyzer.add_recommendation
       Analyzer.add_optimization Analyzer.set_performance_pattern
       Analyzer.set_brazilian_pattern];
  repeat split;
  try assumption;
  try (apply set_true_keys; assumption);
  try (intros x Hx; apply set_keys_set_true; apply set_keys_set_true in Hx;
       destruct Hx as [-> | Hx]; [left; reflexivity | right; auto]);
  try (intros x Hx; apply set_keys_set_true; right; auto);
  try (rewrite ?length_app; cbn [length]; lia);
  try (intros Hnil; destruct (Voice.issues _); discriminate).

Section Steps.

Variables s s' : Voice.results.

Lemma issue_left msg : no_worse s s' -> no_worse (Analyzer.add_issue msg s) s'.
Proof. no_worse_step. Qed.

Lemma issue_both msg msg' :
  no_worse s s' -> no_worse (Analyzer.add_issue msg s) (Analyzer.add_issue msg' s').
Proof. no_worse_step. Qed.

Lemma recommendation_left msg : no_worse s s' -> no_worse (Analyzer.add_recommendation msg s) s'.
Proof. no_worse_step. Qed.

Lemma recommendation_right msg :
  no_worse s s' -> no_worse s (Analyzer.add_recommendation msg s').
Proof. no_worse_step. Qed.

Lemma flag_right key : no_worse s s' -> no_worse s (Analyzer.set_performance_pattern key s').
Proof. no_worse_step. Qed.

Lemma flag_both key :
  no_worse s s' ->
  no_worse (Analyzer.set_performance_pattern key s) (Analyzer.set_performance_pattern key s').
Proof. no_worse_step. Qed.

Lemma brazilian_right key :
  no_worse s s' -> no_worse s (Analyzer.set_brazilian_pattern key s').
Proof. no_worse_step. Qed.

Lemma brazilian_both key :
  no_worse s s' ->
  no_worse (Analyzer.set_brazilian_pattern key s) (Analyzer.set_brazilian_pattern key s').
Proof. no_worse_step. Qed.

Lemma optimization_right msg :
  no_worse s s' -> no_worse s (Analyzer.add_optimization msg s').
Proof. no_worse_step. Qed.

Lemma optimization_both msg msg' :
  no_worse s s' ->
  no_worse (Analyzer.add_optimization msg s) (Analyzer.add_optimization msg' s').
Proof. no_worse_step. Qed.

End Steps.

(** ** Searching and counting in more files *)

Lemma found_patterns_grow files files' patterns found found' :
  incl files files' ->
  Analyzer.found_patterns files patterns = Returned found ->
  Analyzer.found_patterns files' patterns = Returned found' ->
  found <> [] -> found' <> [].
Proof.
  intros Hi E E' Hf. destruct found as [| p rest]; [congruence|].
  destruct (proj1 (found_patterns_finds _ _ _ E p) (or_introl eq_refl))
    as (Hp & f & text & Hin & Hr & Ht).
  assert (H : In p found').
  { apply (found_patterns_finds _ _ _ E' p). split; [exact Hp|].
    exists f, text. split; [exact (Hi f Hin) | split; assumption]. }
  intros ->. destruct H.
Qed.

Lemma counting_shifts pattern files :
  forall n0 d n,
    for_each_try (fun content n => n + Findall.findall_count pattern content) files n0
    = Returned n ->
    for_each_try (fun content n => n + Findall.findall_count pattern content) files (n0 + d)
    = Returned (n + d).
Proof.
  induction files as [| f files IH]; intros n0 d n H; cbn [for_each_try] in *.
  - injection H as <-. reflexivity.
  - destruct (read f) as [e | content].
    + destruct (caught e); [now apply IH | discriminate].
    + replace (n0 + d + Findall.findall_count pattern content)
        with (n0 + Findall.findall_count pattern content + d) by lia.
      now apply IH.
Qed.

Lemma counting_rises pattern content n : n <= n + Findall.findall_count pattern content.
Proof. destruct (findall_counts pattern content) as [H _]. lia. Qed.

Lemma count_patterns_grow files files' more patterns :
  Permutation files' (files ++ more) ->
  forall n0 n0' n n',
    n0 <= n0' ->
    Analyzer.count_patterns files patterns n0 = Returned n ->
    Analyzer.count_patterns files' patterns n0' = Returned n' ->
    n <= n'.
Proof.
  intros Hp. induction patterns as [| p ps IH]; intros n0 n0' n n' L H H';
    cbn [Analyzer.count_patterns] in *.
  - injection H as <-. injection H' as <-. exact L.
  - destruct (for_each_try _ files n0) as [e | n1] eqn:E; [discriminate|].
    destruct (for_each_try _ files' n0') as [e | n1'] eqn:E'; [discriminate|].
    cbn [obind] in *. apply (IH n1 n1' n n'); [| exact H | exact H'].
    pose proof (counting_shifts p files' n0' (n0 - n0') n1' E') as E2.
    replace (n0' + (n0 - n0')) with n0 in E2 by lia.
    pose proof (for_each_try_grows Z.le Z.le_refl Z.le_trans _ (counting_rises p)
                  (counting_commutes p) _ _ _ _ _ _ Hp E E2).
    lia.
Qed.

(** ** The analyses on a tree that has grown *)

Lemma voice_caching_note (c : string) (x : Z) (y : Voice.results) z w :
  bind (if String.eqb c "voice_caching"
        then modify (Analyzer.add_recommendation
                       "Implement voice command caching for performance")
        else ret tt)
       (fun _ : unit => ret x) y
  = Returned (z, w) ->
  z = x /\ (w = y \/ exists msg, w = Analyzer.add_recommendation msg y).
Proof.
  intros H. apply bind_returns in H. destruct H as (u & c0 & H & Hr).
  injection Hr as <- <-. split; [reflexivity|].
  destruct (String.eqb c "voice_caching").
  - apply modify_returns in H. subst c0. right. eauto.
  - injection H as _ <-. now left.
Qed.

Section GrownAnalyses.

Variables files files' more : list entry.
Hypothesis more_files : Permutation files' (files ++ more).

Lemma performance_loop_grows categories :
  forall s s' s1 s1',
    Analyzer.performance_loop files categories s = Returned (tt, s1) ->
    Analyzer.performance_loop files' categories s' = Returned (tt, s1') ->
    no_worse s s' -> no_worse s1 s1'.
Proof.
  induction categories as [| [c ps] rest IH]; intros s s' s1 s1' H H' L;
    cbn [Analyzer.performance_loop] in *.
  - injection H as <-. injection H' as <-. exact L.
  - apply bind_returns in H. destruct H as (n & a & Hn & H).
    apply bind_returns in H'. destruct H' as (n' & a' & Hn' & H').
    apply lift_returns in Hn, Hn'. destruct Hn as [Hn ->], Hn' as [Hn' ->].
    apply bind_returns in H. destruct H as (u & b & Hm & H).
    apply bind_returns in H'. destruct H' as (u' & b' & Hm' & H').
    pose proof (count_patterns_grow _ _ _ _ more_files 0 0 n n' (Z.le_refl 0) Hn Hn') as Ln.
    apply (IH _ _ _ _ H H').
    destruct (Z.ltb_spec 0 n), (Z.ltb_spec 0 n'); apply modify_returns in Hm, Hm'; subst b b'.
    + now apply optimization_both.
    + lia.
    + now apply recommendation_left, optimization_right.
    + now apply recommendation_left, recommendation_right.
Qed.

Lemma brazilian_loop_grows categories :
  forall s s' s1 s1',
    Analyzer.brazilian_loop files categories s = Returned (tt, s1) ->
    Analyzer.brazilian_loop files' categories s' = Returned (tt, s1') ->
    no_worse s s' -> no_worse s1 s1'.
Proof.
  induction categories as [| [c ps] rest IH]; intros s s' s1 s1' H H' L;
    cbn [Analyzer.brazilian_loop] in *.
  - injection H as <-. injection H' as <-. exact L.
  - apply bind_returns in H. destruct H as (n & a & Hn & H).
    apply bind_returns in H'. destruct H' as (n' & a' & Hn' & H').
    apply lift_returns in Hn, Hn'. destruct Hn as [Hn ->], Hn' as [Hn' ->].
    apply bind_returns in H. destruct H as (u & b & Hm & H).
    apply bind_returns in H'. destruct H' as (u' & b' & Hm' & H').
    pose proof (count_patterns_grow _ _ _ _ more_files 0 0 n n' (Z.le_refl 0) Hn Hn') as Ln.
    apply (IH _ _ _ _ H H').
    destruct (Z.ltb_spec 0 n), (Z.ltb_spec 0 n'); apply modify_returns in Hm, Hm'; subst b b'.
    + now apply brazilian_both.
    + lia.
    + now apply recommendation_left, brazilian_right.
    + now apply recommendation_left, recommendation_right.
Qed.

Lemma memory_loop_grows categories :
  forall m m' s s' m1 m1' s1 s1',
    Analyzer.memory_loop files categories m s = Returned (m1, s1) ->
    Analyzer.memory_loop files' categories m' s' = Returned (m1', s1') ->
    m <= m' -> no_worse s s' -> m1 <= m1' /\ no_worse s1 s1'.
Proof.
  induction categories as [| [c ps] rest IH]; intros m m' s s' m1 m1' s1 s1' H H' Lm L;
    cbn [Analyzer.memory_loop] in *.
  - injection H as <- <-. injection H' as <- <-. now split.
  - apply bind_returns in H. destruct H as (n & a & Hn & H).
    apply bind_returns in H'. destruct H' as (n' & a' & Hn' & H').
    apply lift_returns in Hn, Hn'. destruct Hn as [Hn ->], Hn' as [Hn' ->].
    apply bind_returns in H. destruct H as (k & b & Hm & H).
    apply bind_returns in H'. destruct H' as (k' & b' & Hm' & H').
    pose proof (count_patterns_grow _ _ _ _ more_files 0 0 n n' (Z.le_refl 0) Hn Hn') as Ln.
    assert (K : k <= k' /\ no_worse b b'); [| exact (IH _ _ _ _ _ _ _ _ H H' (proj1 K) (proj2 K))].
    destruct (Z.ltb_spec 0 n), (Z.ltb_spec 0 n').
    + injection Hm as <- <-. injection Hm' as <- <-. split; [lia | exact L].
    + lia.
    + apply bind_returns in Hm. destruct Hm as (u & c0 & Hm & Hr).
      apply modify_returns in Hm. injection Hr as <- <-. subst c0.
      injection Hm' as <- <-. split; [lia | now apply recommendation_left].
    + apply bind_returns in Hm. destruct Hm as (u & c0 & Hm & Hr).
      apply modify_returns in Hm. injection Hr as <- <-. subst c0.
      apply bind_returns in Hm'. destruct Hm' as (u' & c0' & Hm' & Hr').
      apply modify_returns in Hm'. injection Hr' as <- <-. subst c0'.
      split; [lia | now apply recommendation_left, recommendation_right].
Qed.

Lemma cache_loop_grows categories :
  forall m m' s s' m1 m1' s1 s1',
    Analyzer.cache_loop files categories m s = Returned (m1, s1) ->
    Analyzer.cache_loop files' categories m' s' = Returned (m1', s1') ->
    m <= m' -> no_worse s s' -> m1 <= m1' /\ no_worse s1 s1'.
Proof.
  induction categories as [| [c ps] rest IH]; intros m m' s s' m1 m1' s1 s1' H H' Lm L;
    cbn [Analyzer.cache_loop] in *.
  - injection H as <- <-. injection H' as <- <-. now split.
  - apply bind_returns in H. destruct H as (n & a & Hn & H).
    apply bind_returns in H'. destruct H' as (n' & a' & Hn' & H').
    apply lift_returns in Hn, Hn'. destruct Hn as [Hn ->], Hn' as [Hn' ->].
    apply bind_returns in H. destruct H as (k & b & Hm & H).
    apply bind_returns in H'. destruct H' as (k' & b' & Hm' & H').
    pose proof (count_patterns_grow _ _ _ _ more_files 0 0 n n' (Z.le_refl 0) Hn Hn') as Ln.
    assert (K : k <= k' /\ no_worse b b'); [| exact (IH _ _ _ _ _ _ _ _ H H' (proj1 K) (proj2 K))].
    destruct (Z.ltb_spec 0 n), (Z.ltb_spec 0 n').
    + injection Hm as <- <-. injection Hm' as <- <-. split; [lia | exact L].
    + lia.
    + destruct (voice_caching_note _ _ _ _ _ Hm) as [-> Hw]. injection Hm' as <- <-.
      split; [lia|]. destruct Hw as [-> | [msg ->]]; [exact L | now apply recommendation_left].
    + destruct (voice_caching_note _ _ _ _ _ Hm) as [-> Hw].
      destruct (voice_caching_note _ _ _ _ _ Hm') as [-> Hw'].
      split; [lia|].
      destruct Hw as [-> | [msg ->]], Hw' as [-> | [msg' ->]];
        [ exact L
        | now apply recommendation_right
        | now apply recommendation_left
        | now apply recommendation_left, recommendation_right ].
Qed.

End GrownAnalyses.

Lemma voice_categories_grow files files' categories :
  incl files files' ->
  forall s s' s1 s1',
    Analyzer.voice_categories_loop files categories s = Returned (tt, s1) ->
    Analyzer.voice_categories_loop files' categories s' = Returned (tt, s1') ->
    no_worse s s' -> no_worse s1 s1'.
Proof.
  intros Hi. induction categories as [| [c ps] rest IH]; intros s s' s1 s1' H H' L;
    cbn [Analyzer.voice_categories_loop] in *.
  - injection H as <-. injection H' as <-. exact L.
  - apply bind_returns in H. destruct H as (found & a & Hf & H).
    apply bind_returns in H'. destruct H' as (found' & a' & Hf' & H').
    apply lift_returns in Hf, Hf'. destruct Hf as [Hf ->], Hf' as [Hf' ->].
    apply bind_returns in H. destruct H as (u & b & Hm & H).
    apply bind_returns in H'. destruct H' as (u' & b' & Hm' & H').
    pose proof (found_patterns_grow _ _ _ _ _ Hi Hf Hf') as G.
    apply (IH _ _ _ _ H H').
    destruct found, found'; apply modify_returns in Hm, Hm'; subst b b'.
    + now apply issue_both.
    + now apply issue_left, flag_right.
    + now destruct G.
    + now apply flag_both.
Qed.

Section GrownTree.

Variable str : entry -> string.
Variables t t' : tree.
Hypothesis growth : grown t t'.

Lemma voice_files_grown : incl (Analyzer.voice_files str t) (Analyzer.voice_files str t').
Proof.
  destruct growth as [extra Hp]. intros f. unfold Analyzer.voice_files, rglob.
  rewrite !in_app_iff, !filter_In.
  assert (H : In f (entries t) -> In f (entries t')).
  { intros Hin. apply (Permutation_in _ (Permutation_sym Hp)), in_or_app. now left. }
  tauto.
Qed.

Lemma voice_components_grow s s' s1 s1' :
  Analyzer.analyze_voice_components str t s = Returned (tt, s1) ->
  Analyzer.analyze_voice_components str t' s' = Returned (tt, s1') ->
  no_worse s s' -> no_worse s1 s1'.
Proof.
  unfold Analyzer.analyze_voice_components. cbv zeta. intros H H' L.
  apply bind_returns in H. destruct H as ([] & a & Hl & H).
  apply bind_returns in H'. destruct H' as ([] & a' & Hl' & H').
  pose proof (voice_categories_grow _ _ _ voice_files_grown _ _ _ _ Hl Hl' L) as La.
  apply bind_returns in H. destruct H as (found & b & Hf & H).
  apply bind_returns in H'. destruct H' as (found' & b' & Hf' & H').
  apply lift_returns in Hf, Hf'. destruct Hf as [Hf ->], Hf' as [Hf' ->].
  pose proof (found_patterns_grow _ _ _ _ _ voice_files_grown Hf Hf') as G.
  destruct found, found'; apply modify_returns in H, H'; subst s1 s1'.
  - now apply recommendation_left, recommendation_right.
  - now apply recommendation_left, flag_right.
  - now destruct G.
  - now apply flag_both.
Qed.

Lemma analyzer_code_files_grown :
  exists more, Permutation (Analyzer.code_files t') (Analyzer.code_files t ++ more).
Proof. exact (code_files_grown t t' growth). Qed.

Lemma memory_management_grows s s' s1 s1' :
  Analyzer.analyze_memory_management t s = Returned (tt, s1) ->
  Analyzer.analyze_memory_management t' s' = Returned (tt, s1') ->
  no_worse s s' -> no_worse s1 s1'.
Proof.
  unfold Analyzer.analyze_memory_management. intros H H' L.
  destruct analyzer_code_files_grown as [more Hp].
  apply bind_returns in H. destruct H as (m & a & Hl & H).
  apply bind_returns in H'. destruct H' as (m' & a' & Hl' & H').
  destruct (memory_loop_grows _ _ _ Hp _ _ _ _ _ _ _ _ _ Hl Hl' (Z.le_refl 0) L) as [Lm La].
  destruct (Z.leb_spec 20 m), (Z.leb_spec 20 m'); apply modify_returns in H, H'; subst s1 s1'.
  - now apply flag_both.
  - lia.
  - now apply issue_left, flag_right.
  - now apply issue_both.
Qed.

Lemma caching_strategies_grow s s' s1 s1' :
  Analyzer.analyze_caching_strategies t s = Returned (tt, s1) ->
  Analyzer.analyze_caching_strategies t' s' = Returned (tt, s1') ->
  no_worse s s' -> no_worse s1 s1'.
Proof.
  unfold Analyzer.analyze_caching_strategies. intros H H' L.
  destruct analyzer_code_files_grown as [more Hp].
  apply bind_returns in H. destruct H as (m & a & Hl & H).
  apply bind_returns in H'. destruct H' as (m' & a' & Hl' & H').
  destruct (cache_loop_grows _ _ _ Hp _ _ _ _ _ _ _ _ _ Hl Hl' (Z.le_refl 0) L) as [Lm La].
  destruct (Z.leb_spec 5 m), (Z.leb_spec 5 m'); apply modify_returns in H, H'; subst s1 s1'.
  - now apply flag_both.
  - lia.
  - now apply recommendation_left, flag_right.
  - now apply recommendation_left, recommendation_right.
Qed.

Lemma analyses_grow s s' r r' a a' :
  Analyzer.analyze_all str t s = Returned (r, a) ->
  Analyzer.analyze_all str t' s' = Returned (r', a') ->
  no_worse s s' ->
  exists s5 s5', r = Voice.calculate_performance_score s5
                 /\ r' = Voice.calculate_performance_score s5'
                 /\ no_worse s5 s5'.
Proof.
  intros H H' L.
  destruct (analyze_all_returns _ _ _ _ _ H)
    as (s1 & s2 & s3 & s4 & s5 & H1 & H2 & H3 & H4 & H5 & ->).
  destruct (analyze_all_returns _ _ _ _ _ H')
    as (s1' & s2' & s3' & s4' & s5' & H1' & H2' & H3' & H4' & H5' & ->).
  exists s5, s5'. split; [reflexivity|]. split; [reflexivity|].
  destruct analyzer_code_files_grown as [more Hp].
  apply (caching_strategies_grow _ _ _ _ H5 H5').
  apply (memory_management_grows _ _ _ _ H4 H4').
  apply (brazilian_loop_grows _ _ _ Hp _ _ _ _ _ H3 H3').
  apply (performance_loop_grows _ _ _ Hp _ _ _ _ _ H2 H2').
  exact (voice_components_grow _ _ _ _ H1 H1' L).
Qed.

End GrownTree.

(** ** The score of the larger tree *)

Lemma qmin_grows (a a' b : Q) : (a <= a')%Q -> (Voice.qmin a b <= Voice.qmin a' b)%Q.
Proof.
  intros H. destruct (qmin_cases a b) as [[E L] | [E L]],
    (qmin_cases a' b) as [[E' L'] | [E' L']]; rewrite E, E'; lra.
Qed.

Lemma optimization_points_grow (n n' : nat) :
  (n <= n')%nat ->
  (0 <= inject_Z (Z.min (Z.of_nat n * 4) 20)
   /\ inject_Z (Z.min (Z.of_nat n * 4) 20) <= inject_Z (Z.min (Z.of_nat n' * 4) 20))%Q.
Proof.
  intros H. split; [rewrite <- (Zle_Qle 0) | rewrite <- Zle_Qle]; lia.
Qed.

Lemma score_grows s s' :
  no_worse s s' ->
  (Voice.performance_score (Voice.calculate_performance_score s)
   <= Voice.performance_score (Voice.calculate_performance_score s'))%Q.
Proof.
  intros (N1 & N2 & I1 & I2 & L & E & T).
  unfold Voice.calculate_performance_score. cbn [Voice.performance_score].
  pose proof (count_true_grows _ _ N1 I1) as Cp.
  pose proof (count_true_grows _ _ N2 I2) as Cb.
  assert (HP : (Voice.qmin (inject_Z (Voice.count_true (Voice.performance_patterns s) * 8)) 40
                <= Voice.qmin (inject_Z (Voice.count_true (Voice.performance_patterns s') * 8))
                     40)%Q)
    by (apply qmin_grows; rewrite <- Zle_Qle; lia).
  assert (HB : (Voice.qmin (inject_Z (Voice.count_true (Voice.brazilian_patterns s)) * (15 # 2))
                  30
                <= Voice.qmin
                     (inject_Z (Voice.count_true (Voice.brazilian_patterns s')) * (15 # 2))
                     30)%Q).
  { apply qmin_grows. rewrite Zle_Qle in Cb. lra. }
  revert HP HB.
  generalize (Voice.qmin (inject_Z (Voice.count_true (Voice.performance_patterns s) * 8)) 40).
  generalize (Voice.qmin (inject_Z (Voice.count_true (Voice.performance_patterns s') * 8)) 40).
  generalize (Voice.qmin
                (inject_Z (Voice.count_true (Voice.brazilian_patterns s)) * (15 # 2)) 30).
  generalize (Voice.qmin
                (inject_Z (Voice.count_true (Voice.brazilian_patterns s')) * (15 # 2)) 30).
  intros b' b p' p HP HB.
  destruct (optimization_points_grow _ _ L) as [O1 O2].
  assert (O3 : (0 <= inject_Z (Z.min (Z.of_nat (length (Voice.optimizations_found s')) * 4)
                                 20))%Q)
    by (rewrite <- (Zle_Qle 0); lia).
  apply qmin_grows.
  destruct (Voice.optimizations_found s) as [| o os] eqn:Eo,
    (Voice.optimizations_found s') as [| o' os'] eqn:Eo';
    try (cbn [length] in L; lia);
    destruct (Voice.issues s) as [| i rest] eqn:Ei, (Voice.issues s') as [| i' rest'] eqn:Ei';
    try (specialize (E eq_refl); discriminate);
    lra.
Qed.

Lemma fresh_results_agree target_ms : no_worse (Voice.init target_ms) (Voice.init target_ms).
Proof.
  unfold no_worse. cbn [Voice.init Voice.performance_patterns Voice.brazilian_patterns
                        Voice.optimizations_found Voice.issues Voice.target_ms].
  repeat split; try apply incl_refl; try lia;
    cbn [map fst]; repeat constructor; cbn [In]; intuition discriminate.
Qed.

(** X27.  More code never makes the verdict of the voice analyzer worse:
    when a run on a tree and a run on a tree that holds the same entries and
    more both return results, the larger tree scores at least as high, its
    estimated response time is at most that of the smaller tree, and its exit
    status is 0 whenever that of the smaller tree is. *)
Theorem more_code_never_worsens_the_voice_verdict :
  forall str t t' target_ms r r' code code',
    grown t t' ->
    Analyzer.main str t target_ms = Analyzer.Analysed r code ->
    Analyzer.main str t' target_ms = Analyzer.Analysed r' code' ->
    (Voice.performance_score r <= Voice.performance_score r')%Q
    /\ Voice.voice_response_time r' <= Voice.voice_response_time r
    /\ code' <= code.
Proof.
  intros str t t' target_ms r r' code code' Hg H H'.
  destruct (analysed_run _ _ _ _ _ H) as (r0 & a & more & E & _ & -> & ->).
  destruct (analysed_run _ _ _ _ _ H') as (r0' & a' & more' & E' & _ & -> & ->).
  cbn [Analyzer.extend_recommendations Voice.performance_score Voice.voice_response_time].
  destruct (analyses_grow str t t' Hg _ _ _ _ _ _ E E' (fresh_results_agree target_ms))
    as (s5 & s5' & -> & -> & L).
  pose proof (score_grows _ _ L) as Hs.
  pose proof (estimate_falls _ _ Hs) as He.
  split; [exact Hs|]. split; [exact He|].
  destruct (exit_of_score s5) as [-> _], (exit_of_score s5') as [-> _].
  destruct L as (_ & _ & _ & _ & _ & _ & T). rewrite <- T.
  destruct (Z.leb_spec (Voice.estimate (Voice.performance_score
                                         (Voice.calculate_performance_score s5)))
              (Voice.target_ms s5)),
    (Z.leb_spec (Voice.estimate (Voice.performance_score
                                  (Voice.calculate_performance_score s5')))
       (Voice.target_ms s5)); lia.
Qed.

Lemma more_code_never_worsens_the_voice_verdict_witness :
  exists r r' code code',
    Analyzer.main VoiceSample.str (Present [Components.hook]) 300 = Analyzer.Analysed r code
    /\ Analyzer.main VoiceSample.str Components.listed 300 = Analyzer.Analysed r' code'
    /\ code' <= code.
Proof.
  assert (C : exists r code,
             Analyzer.main VoiceSample.str (Present [Components.hook]) 300
             = Analyzer.Analysed r code) by (eexists; eexists; vm_compute; reflexivity).
  assert (C' : exists r' code',
             Analyzer.main VoiceSample.str Components.listed 300
             = Analyzer.Analysed r' code') by (eexists; eexists; vm_compute; reflexivity).
  destruct C as (r & code & E), C' as (r' & code' & E'). exists r, r', code, code'.
  split; [exact E|]. split; [exact E'|].
  refine (proj2 (proj2 (more_code_never_worsens_the_voice_verdict VoiceSample.str
                          (Present [Components.hook]) Components.listed 300 r r' code code'
                          _ E E'))).
  exists [Components.cache; Components.blob]. reflexivity.
Defined.
